(** * jpy_tools.singleCellTools.diffxpy: differential-expression dispatch

    A shallow embedding of [diffxpy.py]: the Format Adapter
    ([parseAdToDiffxpyFormat]), the Single-Pair Tester ([testTwoSample]), the
    two Group Dispatchers ([vsRest], [pairWise], with the worker
    [_getDiffxpy] written [getDiffxpy_worker]) and the Marker Extractor
    ([getMarker]).

    Conventions.
    - Floating-point cells are rationals ([Q]): comparing and negating
      them is exact on finite doubles; NaN and the infinities are outside
      the model.  [np.exp], [scipy.sparse.linalg.expm] and the column
      sums of [ndarray.sum], which round, enter as parameters; the
      subtraction in [np.exp(X) - 1] is written over [Q], and nothing
      below depends on the value it gives.
    - The Wald-test engine is external and enters as a parameter that
      returns a table or raises.
    - A Python [dict] is an association list with the dict's semantics:
      keys are unique, assignment to an existing key keeps its position, a
      new key goes to the end.
    - Result tables and expression collections that are reachable from the
      caller are objects in a heap and are named by references, so that
      aliasing, [.copy()] and in-place updates are visible.
    - Exceptions are values of [Exn]; a raising computation keeps the heap
      it has built so far. *)

From Stdlib Require Import QArith Sorting.Sorted.
From stdpp Require Import base list strings.

Open Scope string_scope.

(** ** Numbers *)

Definition Qltb (a b : Q) : bool := negb (Qle_bool b a).
Definition Qgtb (a b : Q) : bool := Qltb b a.

(** ** Python dictionaries *)

Module Dict.
Section Dict.
Context {V : Type}.

Definition t := list (string * V).

Fixpoint get (k : string) (d : t) : option V :=
  match d with
  | [] => None
  | (k', v) :: d' => if String.eqb k k' then Some v else get k d'
  end.

(** [d[k] = v] *)
Fixpoint set (k : string) (v : V) (d : t) : t :=
  match d with
  | [] => [(k, v)]
  | (k', v') :: d' =>
      if String.eqb k k' then (k, v) :: d' else (k', v') :: set k v d'
  end.

(** [d.update(e)] *)
Definition update (e d : t) : t :=
  fold_left (fun acc kv => set (fst kv) (snd kv) acc) e d.

Definition keys (d : t) : list string := map fst d.

Definition wf (d : t) : Prop := List.NoDup (keys d).
End Dict.
Global Arguments t : clear implicits.
End Dict.

(** ** Exceptions and the two effect layers *)

Inductive Exn : Type :=
| KeyError (what : string)
| IndexError
| TypeError
| ValueError (msg : string)
| AssertionError (msg : string)
| NotImplementedError
| AttributeError.

(** Code that only reads: a value or an exception. *)
Inductive Exc (A : Type) : Type :=
| Ok (a : A)
| Err (e : Exn).
Global Arguments Ok {A} a.
Global Arguments Err {A} e.

#[global] Instance exc_ret : MRet Exc := fun A a => Ok a.
#[global] Instance exc_bind : MBind Exc := fun A B k m =>
  match m with
  | Ok a => k a
  | Err e => Err e
  end.

Definition of_option {A} (e : Exn) (o : option A) : Exc A :=
  match o with
  | Some a => Ok a
  | None => Err e
  end.

(** ** Result tables *)

(** One row of the engine's per-gene summary, together with the string
    columns that [getMarker] inserts ([labels], keyed by column name). *)
Record Row : Type := mkRow {
  gene : string;
  qval : Q;
  log2fc : Q;
  mean : Q;
  coef_mle : Q;
  labels : Dict.t string
}.

(** [columns] lists the inserted string columns; the engine's own columns
    are always there. *)
Record DataFrame : Type := mkDF {
  columns : list string;
  rows : list Row
}.

Definition engine_columns : list string :=
  ["gene"; "qval"; "log2fc"; "mean"; "coef_mle"].

Definition has_column (c : string) (df : DataFrame) : bool :=
  existsb (String.eqb c) (engine_columns ++ columns df)%list.

Definition row_label (c : string) (r : Row) : option string :=
  Dict.get c (labels r).

Definition row_add_label (c v : string) (r : Row) : Row :=
  mkRow (gene r) (qval r) (log2fc r) (mean r) (coef_mle r)
        ((c, v) :: labels r).

(** [df.insert(loc, c, v)] with a scalar [v]; columns are read by name, so
    the position is not kept. *)
Definition df_insert (c v : string) (df : DataFrame) : DataFrame :=
  mkDF (c :: columns df) (map (row_add_label c v) (rows df)).

Definition row_neg_log2fc (r : Row) : Row :=
  mkRow (gene r) (qval r) (- log2fc r)%Q (mean r) (coef_mle r) (labels r).

Definition row_set_log2fc (v : Q) (r : Row) : Row :=
  mkRow (gene r) (qval r) v (mean r) (coef_mle r) (labels r).

(** [df["log2fc"] = vals], row by row. *)
Fixpoint assign_log2fc (rs : list Row) (vals : list Q) : list Row :=
  match rs, vals with
  | r :: rs', v :: vals' => row_set_log2fc v r :: assign_log2fc rs' vals'
  | _, _ => rs
  end.

Definition df_assign_log2fc (df : DataFrame) (vals : list Q) : DataFrame :=
  mkDF (columns df) (assign_log2fc (rows df) vals).

(** [-df["log2fc"]] *)
Definition neg_log2fc_column (df : DataFrame) : list Q :=
  map (fun r => (- log2fc r)%Q) (rows df).

(** The table with its fold-change column negated. *)
Definition df_neg_log2fc (df : DataFrame) : DataFrame :=
  mkDF (columns df) (map row_neg_log2fc (rows df)).

(** ** Expression collections *)

(** [X] is dense ([numpy.ndarray]) or sparse ([scipy.sparse]); both hold the
    rows of the cells-by-genes matrix. *)
Inductive Matrix : Type :=
| Dense (m : list (list Q))
| Sparse (m : list (list Q)).

Definition mrows (m : Matrix) : list (list Q) :=
  match m with Dense r => r | Sparse r => r end.

Definition issparse (m : Matrix) : bool :=
  match m with Dense _ => false | Sparse _ => true end.

(** [X.A if issparse(X) else X] *)
Definition densify (m : Matrix) : Matrix := Dense (mrows m).

Definition mmap (f : list (list Q) -> list (list Q)) (m : Matrix) : Matrix :=
  match m with Dense r => Dense (f r) | Sparse r => Sparse (f r) end.

(** An entry of a result mapping: the ["__cat"] tag or a table object. *)
Inductive Entry : Type :=
| Cat (c : string)
| Tbl (r : nat).

Record AnnData : Type := mkAnnData {
  X : Matrix;
  layers : Dict.t Matrix;
  obs : Dict.t (list string);
  var_names : list string;
  uns : Dict.t (Dict.t Entry)
}.

Definition n_obs (ad : AnnData) : nat := length (mrows (X ad)).
Definition n_vars (ad : AnnData) : nat := length (var_names ad).

Definition set_X (m : Matrix) (ad : AnnData) : AnnData :=
  mkAnnData m (layers ad) (obs ad) (var_names ad) (uns ad).
Definition set_obs (o : Dict.t (list string)) (ad : AnnData) : AnnData :=
  mkAnnData (X ad) (layers ad) o (var_names ad) (uns ad).
Definition set_uns (u : Dict.t (Dict.t Entry)) (ad : AnnData) : AnnData :=
  mkAnnData (X ad) (layers ad) (obs ad) (var_names ad) u.

(** [adata.obs[c]] *)
Definition obs_col (c : string) (ad : AnnData) : Exc (list string) :=
  of_option (KeyError c) (Dict.get c (obs ad)).

(** ** Small pandas / numpy pieces *)

Definition str_in (x : string) (l : list string) : bool :=
  existsb (String.eqb x) l.

(** [Series.unique()]: distinct values in order of first appearance. *)
Fixpoint unique (l : list string) : list string :=
  match l with
  | [] => []
  | x :: t => x :: List.filter (fun y => negb (String.eqb y x)) (unique t)
  end.

(** Boolean-mask selection [xs[mask]]. *)
Fixpoint select {A} (mask : list bool) (xs : list A) : list A :=
  match mask, xs with
  | b :: mask', x :: xs' => if b then x :: select mask' xs' else select mask' xs'
  | _, _ => []
  end.

(** [Series.isin(values)] *)
Definition isin (col values : list string) : list bool :=
  map (fun x => str_in x values) col.

(** Row selection [adata[mask]]: the matrix and every annotation column. *)
Definition subset_obs (mask : list bool) (ad : AnnData) : AnnData :=
  mkAnnData (mmap (select mask) (X ad))
            (map (fun kv => (fst kv, mmap (select mask) (snd kv))) (layers ad))
            (map (fun kv => (fst kv, select mask (snd kv))) (obs ad))
            (var_names ad) (uns ad).

(** Column selection [adata[:, mask]]. *)
Definition subset_var (mask : list bool) (ad : AnnData) : AnnData :=
  mkAnnData (mmap (map (select mask)) (X ad))
            (map (fun kv => (fst kv, mmap (map (select mask)) (snd kv))) (layers ad))
            (obs ad) (select mask (var_names ad)) (uns ad).

(** Column [j] of a matrix given by rows (a short row contributes 0). *)
Definition column (j : nat) (m : list (list Q)) : list Q :=
  map (fun r => nth j r 0%Q) m.

(** The exact sum, for the examples. *)
Definition Qsum (l : list Q) : Q := fold_right Qplus 0%Q l.

(** Number of cells in which gene [j] is expressed: [(X > 0).sum(0)[j]]. *)
Definition n_cells_expressed (j : nat) (m : list (list Q)) : nat :=
  length (List.filter (fun x => Qltb 0 x) (column j m)).

(** [sc.pp.filter_genes(adata, min_cells=k)]: keep the genes expressed in
    at least [k] cells. *)
Definition filter_genes (min_cells : Z) (ad : AnnData) : AnnData :=
  subset_var
    (map (fun j => (min_cells <=? Z.of_nat (n_cells_expressed j (mrows (X ad))))%Z)
         (seq 0 (n_vars ad)))
    ad.

(** Python truthiness of an optional string argument: [None] and [""] are
    falsy. *)
Definition truthy (o : option string) : bool :=
  match o with
  | Some s => negb (String.eqb s "")
  | None => false
  end.

(** ** Format Adapter *)

(** The [otherComp] argument: absent, one name, or a list of names. *)
Inductive OtherComp : Type :=
| OtherNone
| OtherStr (s : string)
| OtherList (l : list string).

Definition other_truthy (o : OtherComp) : bool :=
  match o with
  | OtherNone => false
  | OtherStr s => negb (String.eqb s "")
  | OtherList l => negb (Nat.eqb (length l) 0)
  end.

(** A boolean annotation column holds [True] / [False]. *)
Definition py_bool (b : bool) : string := if b then "True" else "False".
Definition is_True (s : string) : bool := String.eqb s "True".

(** [np.select([col == testComp], ["1"], "0")] *)
Definition binary_column (col : list string) (testComp : string) : list string :=
  map (fun x => if String.eqb x testComp then "1" else "0") col.

(** [a.astype(str) + "_" + b.astype(str)], elementwise. *)
Fixpoint join_columns (a b : list string) : list string :=
  match a, b with
  | x :: a', y :: b' => (x +:+ "_" +:+ y) :: join_columns a' b'
  | _, _ => []
  end.

(** The two [adata.obs.assign] steps at the end of the adapter: the binary
    column, and with a batch column the combined one. *)
Definition assign_binary_columns (adata : AnnData) (testLabel testComp : string)
    (batchLabel : option string) (keyAdded : string) : Exc AnnData :=
  col ← obs_col testLabel adata;
  let adata := set_obs (Dict.set keyAdded (binary_column col testComp) (obs adata)) adata in
  match batchLabel with
  | Some b =>
      if truthy batchLabel then
        bcol ← obs_col b adata;
        kcol ← obs_col keyAdded adata;
        mret (set_obs (Dict.set (b +:+ "_" +:+ keyAdded) (join_columns bcol kcol)
                                (obs adata))
                      adata)
      else mret adata
  | None => mret adata
  end.

Definition parseAdToDiffxpyFormat
    (adata : AnnData) (testLabel testComp : string) (otherComp : OtherComp)
    (batchLabel : option string) (minCellCounts : Z) (keyAdded : string)
    (subset : bool) : Exc AnnData :=
  otherComp ←
    (if negb (other_truthy otherComp) then
       col ← obs_col testLabel adata;
       mret (OtherList (List.filter (fun x => negb (String.eqb x testComp)) (unique col)))
     else mret otherComp);
  let otherComp :=
    match otherComp with
    | OtherStr s => [s]
    | OtherList l => l
    | OtherNone => []
    end in
  adata ←
    (if subset then
       col ← obs_col testLabel adata;
       mret (filter_genes minCellCounts
               (subset_obs (isin col (testComp :: otherComp)) adata))
     else
       col ← obs_col testLabel adata;
       mret (set_obs
               (Dict.set "keep" (map py_bool (isin col (testComp :: otherComp)))
                         (obs adata))
               adata));
  assign_binary_columns adata testLabel testComp batchLabel keyAdded.

(** ** The object heap *)

Record Heap : Type := mkHeap {
  frames : list DataFrame;
  adatas : list AnnData
}.

Inductive Outcome (A : Type) : Type :=
| Return (a : A) (h : Heap)
| Raise (e : Exn) (h : Heap).
Global Arguments Return {A} a h.
Global Arguments Raise {A} e h.

Definition Py (A : Type) : Type := Heap -> Outcome A.

#[global] Instance py_ret : MRet Py := fun A a h => Return a h.
#[global] Instance py_bind : MBind Py := fun A B k m h =>
  match m h with
  | Return a h' => k a h'
  | Raise e h' => Raise e h'
  end.

Definition lift {A} (m : Exc A) : Py A := fun h =>
  match m with
  | Ok a => Return a h
  | Err e => Raise e h
  end.

Definition new_frame (df : DataFrame) : Py nat := fun h =>
  Return (length (frames h)) (mkHeap (frames h ++ [df])%list (adatas h)).

Definition get_frame (r : nat) : Py DataFrame := fun h =>
  match frames h !! r with
  | Some df => Return df h
  | None => Raise (KeyError "frame") h
  end.

Definition set_frame (r : nat) (df : DataFrame) : Py unit := fun h =>
  Return tt (mkHeap (<[r := df]> (frames h)) (adatas h)).

Definition new_adata (ad : AnnData) : Py nat := fun h =>
  Return (length (adatas h)) (mkHeap (frames h) (adatas h ++ [ad])%list).

Definition get_adata (a : nat) : Py AnnData := fun h =>
  match adatas h !! a with
  | Some ad => Return ad h
  | None => Raise (KeyError "adata") h
  end.

Definition set_adata (a : nat) (ad : AnnData) : Py unit := fun h =>
  Return tt (mkHeap (frames h) (<[a := ad]> (adatas h))).

(** [for x in l: body(x)] *)
Fixpoint for_each {A} (l : list A) (body : A -> Py unit) : Py unit :=
  match l with
  | [] => mret tt
  | x :: l' => _ ← body x; for_each l' body
  end.

(** [[f(x) for x in l]] with effects, left to right. *)
Fixpoint map_py {A B} (f : A -> Py B) (l : list A) : Py (list B) :=
  match l with
  | [] => mret []
  | x :: l' => y ← f x; ys ← map_py f l'; mret (y :: ys)
  end.

(** [df.copy()] of a stored entry: a table is copied into a new object. *)
Definition copy_entry (kv : string * Entry) : Py (string * Entry) :=
  match snd kv with
  | Cat c => mret (fst kv, Cat c)
  | Tbl r => df ← get_frame r; r' ← new_frame df; mret (fst kv, Tbl r')
  end.

Definition copy_mapping (kv : string * Dict.t Entry) : Py (string * Dict.t Entry) :=
  d ← map_py copy_entry (snd kv); mret (fst kv, d).

(** [adata.copy()]: a new collection whose metadata store holds copies of
    the stored tables. *)
Definition adata_copy (a : nat) : Py nat :=
  ad ← get_adata a;
  u ← map_py copy_mapping (uns ad);
  new_adata (set_uns u ad).

(** [adata.uns[key] = d] *)
Definition uns_set (a : nat) (key : string) (d : Dict.t Entry) : Py unit :=
  ad ← get_adata a;
  set_adata a (set_uns (Dict.set key d (uns ad)) ad).

(** [adata.uns[key]] *)
Definition uns_get (a : nat) (key : string) : Py (Dict.t Entry) :=
  ad ← get_adata a;
  lift (of_option (KeyError key) (Dict.get key (uns ad))).

(** [adata.uns[key][k] = e] *)
Definition uns_entry_set (a : nat) (key k : string) (e : Entry) : Py unit :=
  d ← uns_get a key;
  uns_set a key (Dict.set k e d).

(** [adata.uns[key][k]] *)
Definition uns_entry_get (a : nat) (key k : string) : Py Entry :=
  d ← uns_get a key;
  lift (of_option (KeyError k) (Dict.get k d)).

(** The table object behind an entry; the tag string has none of the
    table methods. *)
Definition entry_table (e : Entry) : Py nat :=
  match e with
  | Tbl r => mret r
  | Cat _ => lift (Err AttributeError)
  end.

(** ** The dispatchers' parameters and the Single-Pair Tester *)

Section Diffxpy.

(** The external Wald-test engine, [de.test.wald(...).summary()]:
    data, [formula_loc], [factor_loc_totest], [quick_scale],
    [size_factors].  The fit and its summary run without a handler, so
    an exception of the engine is an exception of its caller. *)
Variable wald : AnnData -> string -> string -> bool -> option string -> Exc DataFrame.

(** [basic.getPartialLayersAdata(adata, layer, obsInfoLs)], the
    layer-extraction collaborator of the repository. *)
Variable getPartialLayersAdata :
  AnnData -> string -> list (option string) -> Exc AnnData.

(** [np.exp] on one entry, and [scipy.sparse.linalg.expm] on a square
    matrix. *)
Variable np_exp : Q -> Q.
Variable expm : list (list Q) -> list (list Q).

(** [ndarray.sum(0)] on one column: the sum as the array's floating-point
    addition accumulates it. *)
Variable np_sum : list Q -> Q.

Definition testTwoSample
    (adata : AnnData) (keyTest : string) (batchLabel : option string)
    (quickScale : bool) (sizeFactor : option string) (constrainModel : bool)
    : Exc DataFrame :=
  col ← obs_col keyTest adata;
  if negb (Nat.eqb (length (unique col)) 2) then
    Err (AssertionError "More Than Two Samples found")
  else
    match batchLabel with
    | Some b =>
        if truthy batchLabel then
          if constrainModel then
            wald adata
              ("~ 1 + " +:+ keyTest +:+ " + " +:+ b +:+ "_" +:+ keyTest)
              keyTest quickScale sizeFactor
          else
            wald adata
              ("~ 1 + " +:+ keyTest +:+ " + " +:+ b +:+ ":" +:+ keyTest)
              keyTest quickScale sizeFactor
        else
          wald adata ("~ 1 + " +:+ keyTest) keyTest quickScale sizeFactor
    | None =>
        wald adata ("~ 1 + " +:+ keyTest) keyTest quickScale sizeFactor
    end.

(** *** The worker of the parallel path, [_getDiffxpy]

    [ls_shm] is the dense matrix behind the shared buffer.  With
    [subset=False] the adapter returns the collection it was given, so
    [adata] and [ad_parsed] start as the same object. *)
Definition getDiffxpy_worker
    (adata : AnnData) (testLabel testComp : string)
    (batchLabel : option string) (minCellCounts : Z) (quickScale : bool)
    (sizeFactor : option string) (constrainModel : bool)
    (ls_shm : option (list (list Q))) : Exc DataFrame :=
  adata ← parseAdToDiffxpyFormat adata testLabel testComp OtherNone
             batchLabel minCellCounts "temp" false;
  ad_parsed ←
    match ls_shm with
    | None => mret (set_X (densify (X adata)) adata)
    | Some mtxInShm =>
        keep ← obs_col "keep" adata;
        let keep := map is_True keep in
        let ls_keepVar :=
          map (fun j => Qltb (inject_Z minCellCounts)
                             (np_sum (column j (select keep mtxInShm))))
              (seq 0 (n_vars adata)) in
        let adata := set_X (Dense mtxInShm) adata in
        mret (subset_var ls_keepVar (subset_obs keep adata))
    end;
  testTwoSample ad_parsed "temp" batchLabel quickScale sizeFactor constrainModel.

(** *** Shared preparation of both dispatchers *)

Definition default_layer (layer : option string) : string :=
  match layer with
  | Some l => if truthy layer then l else "X"
  | None => "X"
  end.

(** [if not groups: groups = list(adata.obs[testLabel].unique())] *)
Definition resolve_groups (adata : nat) (testLabel : string)
    (groups : option (list string)) : Py (list string) :=
  match groups with
  | Some (g :: gs) => mret (g :: gs)
  | _ => ad ← get_adata adata; col ← lift (obs_col testLabel ad); mret (unique col)
  end.

Definition default_key (pre testLabel : string) (keyAdded : option string) : string :=
  match keyAdded with
  | Some k => if truthy keyAdded then k else pre +:+ testLabel
  | None => pre +:+ testLabel
  end.

(** The annotation columns handed to the layer extraction. *)
Definition ls_useCol (testLabel : string) (batchLabel sizeFactor : option string)
    : list (option string) :=
  let l := [Some testLabel] in
  let l := if truthy batchLabel then (l ++ [batchLabel])%list else l in
  let l := if truthy sizeFactor then (l ++ [batchLabel])%list else l in
  l.

(** [ss.linalg.expm(X)]: only for a square matrix. *)
Definition sparse_expm (ad : AnnData) : Exc Matrix :=
  if Nat.eqb (n_obs ad) (n_vars ad) then mret (Sparse (expm (mrows (X ad))))
  else Err (ValueError "expected a square matrix").

(** [M - c] for a sparse [M]: refused unless [c] is zero. *)
Definition sparse_sub_scalar (m : Matrix) (c : Q) : Exc Matrix :=
  if Qeq_bool c 0 then mret m else Err NotImplementedError.

Definition dense_exp_minus_one (m : list (list Q)) : list (list Q) :=
  map (map (fun x => (np_exp x - 1)%Q)) m.

(** [adata[adata.obs[testLabel].isin(groups)].copy()] *)
Definition restrict_to_groups (testLabel : string) (groups : list string)
    (ad : AnnData) : Exc AnnData :=
  col ← obs_col testLabel ad;
  mret (subset_obs (isin col groups) ad).

(** *** Group Dispatcher, one against the rest *)

(** The working collection of [vsRest]: layer extraction, the optional
    undoing of the log transform, the restriction to the groups. *)
Definition vsRest_working (org : AnnData) (layer : string) (testLabel : string)
    (groups : list string) (batchLabel sizeFactor : option string)
    (inputIsLog : bool) : Exc AnnData :=
  adata ← getPartialLayersAdata org layer (ls_useCol testLabel batchLabel sizeFactor);
  adata ←
    (if inputIsLog then
       if issparse (X adata) then
         e ← sparse_expm adata;
         m ← sparse_sub_scalar e 1;
         mret (set_X m adata)
       else mret (set_X (Dense (dense_exp_minus_one (mrows (X adata)))) adata)
     else mret adata);
  restrict_to_groups testLabel groups adata.

(** One task of the sequential path. *)
Definition vsRest_one (adata : AnnData) (testLabel singleGroup : string)
    (batchLabel : option string) (minCellCounts : Z) (quickScale : bool)
    (sizeFactor : option string) (constrainModel : bool) : Exc DataFrame :=
  ad_test ← parseAdToDiffxpyFormat adata testLabel singleGroup OtherNone
               batchLabel minCellCounts "temp" true;
  testTwoSample ad_test "temp" batchLabel quickScale sizeFactor constrainModel.

(** [smm.SharedMemory(mtx.nbytes)] followed by [np.copyto]: a buffer of
    size zero is refused. *)
Definition shared_memory (shape : nat * nat) (mtx : list (list Q))
    : Exc (list (list Q)) :=
  if Nat.eqb (fst shape * snd shape) 0 then
    Err (ValueError "'size' must be a positive number different from zero")
  else mret mtx.

(** [ss.csr_matrix(shape)]: the all-zero placeholder. *)
Definition empty_csr (shape : nat * nat) : Matrix :=
  Sparse (repeat (repeat 0%Q (snd shape)) (fst shape)).

(** The submitted tasks, keyed by group: every worker process receives
    its own pickled copy of the working collection and reads the shared
    matrix, so a task is a function of its arguments whatever the order
    of completion. *)
Definition submit_all (adata : AnnData) (mtx : list (list Q))
    (testLabel : string) (groups : list string) (batchLabel : option string)
    (minCellCounts : Z) (quickScale : bool) (sizeFactor : option string)
    (constrainModel : bool) : Dict.t (Exc DataFrame) :=
  fold_left
    (fun dt singleGroup =>
       Dict.set singleGroup
         (getDiffxpy_worker adata testLabel singleGroup batchLabel
            minCellCounts quickScale sizeFactor constrainModel (Some mtx))
         dt)
    groups [].

(** [{x: y.result() for x, y in dt.items()}] *)
Definition collect_result (kv : string * Exc DataFrame) : Py (string * Entry) :=
  df ← lift (snd kv); r ← new_frame df; mret (fst kv, Tbl r).

(** The body of [vsRest] once the layer, the groups, the result key and
    the collection [adataOrg] that receives the results are fixed. *)
Definition vsRest_run
    (adataOrg : nat) (layer : string) (testLabel : string)
    (groups : list string) (batchLabel : option string)
    (minCellCounts : Z) (sizeFactor : option string) (inputIsLog : bool)
    (keyAdded : string) (quickScale constrainModel : bool)
    (threads : Z) (copy : bool) : Py (option (Dict.t Entry)) :=
  org ← get_adata adataOrg;
  adata ← lift (vsRest_working org layer testLabel groups batchLabel
                  sizeFactor inputIsLog);
  _ ← uns_set adataOrg keyAdded [("__cat", Cat "vsRest")];
  _ ← (if (1 <? threads)%Z then
         let mtx := mrows (X adata) in
         let shape := (n_obs adata, n_vars adata) in
         let adata := set_X (empty_csr shape) adata in
         mtxInShm ← lift (shared_memory shape mtx);
         let dt_diffxpyResult :=
           submit_all adata mtxInShm testLabel groups batchLabel minCellCounts
             quickScale sizeFactor constrainModel in
         dt_diffxpyResult ← map_py collect_result dt_diffxpyResult;
         d ← uns_get adataOrg keyAdded;
         uns_set adataOrg keyAdded (Dict.update dt_diffxpyResult d)
       else
         let adata := set_X (densify (X adata)) adata in
         for_each groups (fun singleGroup =>
           test ← lift (vsRest_one adata testLabel singleGroup batchLabel
                          minCellCounts quickScale sizeFactor constrainModel);
           r ← new_frame test;
           uns_entry_set adataOrg keyAdded singleGroup (Tbl r)));
  if copy then d ← uns_get adataOrg keyAdded; mret (Some d) else mret None.

Definition vsRest
    (adata : nat) (layer : option string) (testLabel : string)
    (groups : option (list string)) (batchLabel : option string)
    (minCellCounts : Z) (sizeFactor : option string) (inputIsLog : bool)
    (keyAdded : option string) (quickScale constrainModel : bool)
    (threads : Z) (copy : bool) : Py (option (Dict.t Entry)) :=
  let layer := default_layer layer in
  groups ← resolve_groups adata testLabel groups;
  let keyAdded := default_key "diffxpyVsRest_" testLabel keyAdded in
  adataOrg ← (if copy then adata_copy adata else mret adata);
  vsRest_run adataOrg layer testLabel groups batchLabel minCellCounts sizeFactor
    inputIsLog keyAdded quickScale constrainModel threads copy.

(** *** Group Dispatcher, pairwise *)

Definition pair_key (testGroup backgroundGroup : string) : string :=
  "test_" +:+ testGroup +:+ "_bg_" +:+ backgroundGroup.

(** [itertools.product(range(n), range(n))] *)
Definition product_range (n : nat) : list (nat * nat) :=
  list_prod (seq 0 n) (seq 0 n).

Definition pairWise_working (org : AnnData) (layer : string) (testLabel : string)
    (groups : list string) (batchLabel sizeFactor : option string)
    (inputIsLog : bool) : Exc AnnData :=
  adata ← getPartialLayersAdata org layer (ls_useCol testLabel batchLabel sizeFactor);
  let adata := set_X (densify (X adata)) adata in
  let adata :=
    if inputIsLog then set_X (Dense (dense_exp_minus_one (mrows (X adata)))) adata
    else adata in
  restrict_to_groups testLabel groups adata.

Definition pairWise_one (adata : AnnData) (testLabel testGroup backgroundGroup : string)
    (batchLabel : option string) (minCellCounts : Z) (quickScale : bool)
    (sizeFactor : option string) (constrainModel : bool) : Exc DataFrame :=
  ad_test ← parseAdToDiffxpyFormat adata testLabel testGroup
               (OtherStr backgroundGroup) batchLabel minCellCounts "temp" true;
  testTwoSample ad_test "temp" batchLabel quickScale sizeFactor constrainModel.

(** Body of the first loop: the pairs with [x < y] are computed. *)
Definition pairWise_compute (adataOrg : nat) (keyAdded : string) (adata : AnnData)
    (testLabel : string) (groups : list string) (batchLabel : option string)
    (minCellCounts : Z) (quickScale : bool) (sizeFactor : option string)
    (constrainModel : bool) (xy : nat * nat) : Py unit :=
  let '(x, y) := xy in
  if (y <=? x)%nat then mret tt
  else
    testGroup ← lift (of_option IndexError (groups !! x));
    backgroundGroup ← lift (of_option IndexError (groups !! y));
    test ← lift (pairWise_one adata testLabel testGroup backgroundGroup
                   batchLabel minCellCounts quickScale sizeFactor constrainModel);
    r ← new_frame test;
    uns_entry_set adataOrg keyAdded (pair_key testGroup backgroundGroup) (Tbl r).

(** Body of the second loop: the pairs with [x > y] are filled from the
    computed half. *)
Definition pairWise_mirror (adataOrg : nat) (keyAdded : string)
    (groups : list string) (xy : nat * nat) : Py unit :=
  let '(x, y) := xy in
  if (x <=? y)%nat then mret tt
  else
    testGroup ← lift (of_option IndexError (groups !! x));
    backgroundGroup ← lift (of_option IndexError (groups !! y));
    e ← uns_entry_get adataOrg keyAdded (pair_key backgroundGroup testGroup);
    r ← entry_table e;
    df ← get_frame r;
    r' ← new_frame df;
    _ ← uns_entry_set adataOrg keyAdded (pair_key testGroup backgroundGroup) (Tbl r');
    e ← uns_entry_get adataOrg keyAdded (pair_key testGroup backgroundGroup);
    r1 ← entry_table e;
    df1 ← get_frame r1;
    let negated := neg_log2fc_column df1 in
    e ← uns_entry_get adataOrg keyAdded (pair_key testGroup backgroundGroup);
    r2 ← entry_table e;
    df2 ← get_frame r2;
    set_frame r2 (df_assign_log2fc df2 negated).

(** The body of [pairWise] once the layer, the groups, the result key and
    the collection [adataOrg] that receives the results are fixed. *)
Definition pairWise_run
    (adataOrg : nat) (layer : string) (testLabel : string)
    (groups : list string) (batchLabel : option string)
    (minCellCounts : Z) (sizeFactor : option string) (inputIsLog : bool)
    (keyAdded : string) (quickScale constrainModel : bool)
    (copy : bool) : Py (option (Dict.t Entry)) :=
  org ← get_adata adataOrg;
  adata ← lift (pairWise_working org layer testLabel groups batchLabel
                  sizeFactor inputIsLog);
  _ ← uns_set adataOrg keyAdded [("__cat", Cat "pairWise")];
  _ ← for_each (product_range (length groups))
        (pairWise_compute adataOrg keyAdded adata testLabel groups batchLabel
           minCellCounts quickScale sizeFactor constrainModel);
  _ ← for_each (product_range (length groups))
        (pairWise_mirror adataOrg keyAdded groups);
  if copy then d ← uns_get adataOrg keyAdded; mret (Some d) else mret None.

Definition pairWise
    (adata : nat) (layer : option string) (testLabel : string)
    (groups : option (list string)) (batchLabel : option string)
    (minCellCounts : Z) (sizeFactor : option string) (inputIsLog : bool)
    (keyAdded : option string) (quickScale constrainModel : bool)
    (copy : bool) : Py (option (Dict.t Entry)) :=
  let layer := default_layer layer in
  groups ← resolve_groups adata testLabel groups;
  let keyAdded := default_key "diffxpyPairWise_" testLabel keyAdded in
  adataOrg ← (if copy then adata_copy adata else mret adata);
  pairWise_run adataOrg layer testLabel groups batchLabel minCellCounts sizeFactor
    inputIsLog keyAdded quickScale constrainModel copy.

End Diffxpy.

(** ** Marker Extractor *)

(** *** The two key patterns *)

Fixpoint str_drop (n : nat) (s : string) : string :=
  match n, s with
  | S n', String _ s' => str_drop n' s'
  | _, _ => s
  end.

Fixpoint str_take (n : nat) (s : string) : string :=
  match n, s with
  | S n', String c s' => String c (str_take n' s')
  | _, _ => ""
  end.

(** Leftmost and rightmost position at which [pat] occurs in [s]. *)
Fixpoint find_first (pat s : string) : option nat :=
  if String.prefix pat s then Some 0%nat
  else match s with
       | EmptyString => None
       | String _ s' => option_map S (find_first pat s')
       end.

Fixpoint find_last (pat s : string) : option nat :=
  match s with
  | EmptyString => if String.prefix pat s then Some 0%nat else None
  | String _ s' =>
      match find_last pat s' with
      | Some i => Some (S i)
      | None => if String.prefix pat s then Some 0%nat else None
      end
  end.

(** [re.findall(r"test_([\w\W]+)_bg", comp)[0]]: after the leftmost
    [test_], the greedy group runs to the last [_bg] that leaves it at
    least one character. *)
Definition re_tested (comp : string) : Exc string :=
  match find_first "test_" comp with
  | None => Err IndexError
  | Some p =>
      match str_drop (p + 5) comp with
      | EmptyString => Err IndexError
      | String c rest =>
          match find_last "_bg" rest with
          | Some q => Ok (String c (str_take q rest))
          | None => Err IndexError
          end
      end
  end.

(** [re.findall(r"_bg_([\w\W]+)", comp)[0]]: everything after the
    leftmost [_bg_], which must not be empty. *)
Definition re_bg (comp : string) : Exc string :=
  match find_first "_bg_" comp with
  | None => Err IndexError
  | Some p =>
      match str_drop (p + 4) comp with
      | EmptyString => Err IndexError
      | rest => Ok rest
      end
  end.

(** *** [__twoSample] *)

(** [qval < qvalue & log2fc > log2fc & mean > mean] *)
Definition passes (qvalue log2fc_cut mean_cut : Q) (r : Row) : bool :=
  Qltb (qval r) qvalue && Qgtb (log2fc r) log2fc_cut && Qgtb (mean r) mean_cut.

(** [sort_values("coef_mle", ascending=False)]; the order among equal
    coefficients is not fixed by the library, here the earlier row stays
    first. *)
Fixpoint insert_desc (r : Row) (l : list Row) : list Row :=
  match l with
  | [] => [r]
  | x :: l' =>
      if Qle_bool (coef_mle x) (coef_mle r) then r :: l
      else x :: insert_desc r l'
  end.

Definition sort_values_desc (l : list Row) : list Row :=
  fold_right insert_desc [] l.

Definition twoSample (df_marker : DataFrame) (qvalue log2fc_cut mean_cut : Q)
    : DataFrame :=
  mkDF (columns df_marker)
       (sort_values_desc (List.filter (passes qvalue log2fc_cut mean_cut) (rows df_marker))).

(** [pd.concat(frames)]: the rows one table after the other, the columns
    of all of them; an empty list is refused. *)
Definition union_columns (a b : list string) : list string :=
  (a ++ List.filter (fun c => negb (str_in c a)) b)%list.

Definition pd_concat (frames : list DataFrame) : Exc DataFrame :=
  match frames with
  | [] => Err (ValueError "No objects to concatenate")
  | _ => Ok (mkDF (fold_left union_columns (map columns frames) [])
                  (concat (map rows frames)))
  end.

(** [if c not in df.columns: df.insert(loc, c, v)], on the stored table. *)
Definition insert_if_absent (r : nat) (c v : string) : Py unit :=
  df ← get_frame r;
  if negb (has_column c df) then set_frame r (df_insert c v df) else mret tt.

(** *** [__vsRest] *)

Definition vsRest_item (qvalue log2fc_cut mean_cut : Q) (kv : string * Entry)
    : Py (list DataFrame) :=
  let '(comp, e) := kv in
  if String.eqb comp "__cat" then mret []
  else
    r ← entry_table e;
    _ ← insert_if_absent r "clusterName" comp;
    df_marker ← get_frame r;
    mret [twoSample df_marker qvalue log2fc_cut mean_cut].

Definition getMarker_vsRest (dt_marker : Dict.t Entry)
    (qvalue log2fc_cut mean_cut : Q) (detectedCounts : Z) : Py DataFrame :=
  ls_markerParsed ← map_py (vsRest_item qvalue log2fc_cut mean_cut) dt_marker;
  lift (pd_concat (concat ls_markerParsed)).

(** *** [__pairWise] *)

(** A row of the aggregated table: one per (tested group, gene). *)
Record AggRow : Type := mkAgg {
  agg_testedCluster : string;
  agg_gene : string;
  counts : Z;
  agg_bgCluster : list (option string);
  agg_qval : list Q;
  agg_log2fc : list Q;
  agg_mean : list Q;
  agg_coef_mle : list Q
}.

Definition pairWise_item (qvalue log2fc_cut mean_cut : Q) (kv : string * Entry)
    : Py (list (string * DataFrame)) :=
  let '(comp, e) := kv in
  if String.eqb comp "__cat" then mret []
  else
    testedCluster ← lift (re_tested comp);
    bgCluster ← lift (re_bg comp);
    r ← entry_table e;
    _ ← insert_if_absent r "testedCluster" testedCluster;
    _ ← insert_if_absent r "bgCluster" bgCluster;
    df_marker ← get_frame r;
    mret [(bgCluster, twoSample df_marker qvalue log2fc_cut mean_cut)].

(** The grouping key of a row; a row without a tested group has none and
    is left out by [groupby]. *)
Definition group_key (r : Row) : option (string * string) :=
  match row_label "testedCluster" r with
  | Some t => Some (t, gene r)
  | None => None
  end.

Definition key_eqb (a b : string * string) : bool :=
  String.eqb (fst a) (fst b) && String.eqb (snd a) (snd b).

Definition key_leb (a b : string * string) : bool :=
  match String.compare (fst a) (fst b) with
  | Lt => true
  | Eq => String.leb (snd a) (snd b)
  | Gt => false
  end.

Fixpoint unique_keys (l : list (string * string)) : list (string * string) :=
  match l with
  | [] => []
  | x :: t => x :: List.filter (fun y => negb (key_eqb y x)) (unique_keys t)
  end.

Fixpoint insert_key (k : string * string) (l : list (string * string))
    : list (string * string) :=
  match l with
  | [] => [k]
  | x :: l' => if key_leb k x then k :: l else x :: insert_key k l'
  end.

Definition sort_keys (l : list (string * string)) : list (string * string) :=
  fold_right insert_key [] l.

Definition in_group (k : string * string) (r : Row) : bool :=
  match group_key r with
  | Some k' => key_eqb k' k
  | None => false
  end.

Definition aggregate (rs : list Row) (k : string * string) : AggRow :=
  let g := List.filter (in_group k) rs in
  mkAgg (fst k) (snd k) (Z.of_nat (length g))
        (map (row_label "bgCluster") g)
        (map qval g) (map log2fc g) (map mean g) (map coef_mle g).

(** [groupby(["testedCluster", "gene"]).agg(...).reset_index()]: the groups
    come out sorted by key. *)
Definition groupby_agg (rs : list Row) : list AggRow :=
  map (aggregate rs) (sort_keys (unique_keys (omap group_key rs))).

(** [if detectedCounts <= 0: detectedCounts = len(set(ls_compName)) + detectedCounts] *)
Definition resolve_detectedCounts (ls_compName : list string) (detectedCounts : Z) : Z :=
  if (detectedCounts <=? 0)%Z
  then (Z.of_nat (length (unique ls_compName)) + detectedCounts)%Z
  else detectedCounts.

Definition getMarker_pairWise (dt_marker : Dict.t Entry)
    (qvalue log2fc_cut mean_cut : Q) (detectedCounts : Z) : Py (list AggRow) :=
  parsed ← map_py (pairWise_item qvalue log2fc_cut mean_cut) dt_marker;
  let ls_compName := map fst (concat parsed) in
  let ls_markerParsed := map snd (concat parsed) in
  df_markerMerged ← lift (pd_concat ls_markerParsed);
  let df_markerMerged := groupby_agg (rows df_markerMerged) in
  let detectedCounts := resolve_detectedCounts ls_compName detectedCounts in
  mret (List.filter (fun a => (detectedCounts <=? counts a)%Z) df_markerMerged).

(** *** [getMarker] *)

Inductive Markers : Type :=
| VsRestMarkers (df : DataFrame)
| PairWiseMarkers (t : list AggRow).

Definition getMarker (adata : nat) (key : string)
    (qvalue log2fc_cut mean_cut : Q) (detectedCounts : Z) : Py Markers :=
  dt_marker ← uns_get adata key;
  cate ← lift (of_option (KeyError "__cat") (Dict.get "__cat" dt_marker));
  match cate with
  | Tbl _ => lift (Err TypeError)
  | Cat c =>
      if String.eqb c "vsRest" then
        df ← getMarker_vsRest dt_marker qvalue log2fc_cut mean_cut detectedCounts;
        mret (VsRestMarkers df)
      else if String.eqb c "pairWise" then
        t ← getMarker_pairWise dt_marker qvalue log2fc_cut mean_cut detectedCounts;
        mret (PairWiseMarkers t)
      else lift (Err (KeyError c))
  end.

(** ** Notions used in the statements *)

(** Number of cells of a column that carry the value [v]. *)
Definition count_eq (v : string) (l : list string) : nat :=
  length (List.filter (String.eqb v) l).

(** The reference groups the adapter ends up with. *)
Definition resolved_otherComp (col : list string) (testComp : string)
    (otherComp : OtherComp) : list string :=
  if other_truthy otherComp then
    match otherComp with
    | OtherStr s => [s]
    | OtherList l => l
    | OtherNone => []
    end
  else List.filter (fun x => negb (String.eqb x testComp)) (unique col).

(** The group labels of the cells the adapter keeps. *)
Definition kept_labels (col : list string) (testComp : string)
    (otherComp : OtherComp) (subset : bool) : list string :=
  if subset
  then select (isin col (testComp :: resolved_otherComp col testComp otherComp)) col
  else col.

(** The model formula handed to the engine. *)
Definition formula_loc (keyTest : string) (batchLabel : option string)
    (constrainModel : bool) : string :=
  match batchLabel with
  | Some b =>
      if truthy batchLabel then
        "~ 1 + " +:+ keyTest +:+ " + " +:+ b
          +:+ (if constrainModel then "_" else ":") +:+ keyTest
      else "~ 1 + " +:+ keyTest
  | None => "~ 1 + " +:+ keyTest
  end.

Definition raises {A} (o : Outcome A) : Prop :=
  match o with
  | Raise _ _ => True
  | Return _ _ => False
  end.

(** The table stored under [k] in a result mapping, read through the heap. *)
Definition stored_table (h : Heap) (d : Dict.t Entry) (k : string) : option DataFrame :=
  match Dict.get k d with
  | Some (Tbl r) => frames h !! r
  | _ => None
  end.

Definition outcome_heap {A} (o : Outcome A) : Heap :=
  match o with
  | Return _ h => h
  | Raise _ h => h
  end.

(** Pre- and postconditions of a heap computation: [Q] for a normal
    return, [E] for the heap left behind by an exception. *)
Definition hoare {A} (P : Heap -> Prop) (m : Py A)
    (Q : A -> Heap -> Prop) (E : Heap -> Prop) : Prop :=
  forall h, P h ->
    match m h with
    | Return a h' => Q a h'
    | Raise _ h' => E h'
    end.

(** Every table a mapping refers to was created at or after position [n]. *)
Definition fresh_refs (n : nat) (d : Dict.t Entry) : Prop :=
  forall k r, In (k, Tbl r) d -> (n <= r)%nat.

(** What a dispatcher may change, relative to the heap [hb] it starts
    from: nothing but the collection [t] it writes its results to, and no
    table that existed in [hb]. *)
Definition frame_kept (hb : Heap) (t : nat) (h : Heap) : Prop :=
  length (adatas h) = length (adatas hb)
  /\ (length (frames hb) <= length (frames h))%nat
  /\ (forall r, (r < length (frames hb))%nat -> frames h !! r = frames hb !! r)
  /\ (forall a, a <> t -> adatas h !! a = adatas hb !! a).

(** The collection [t] differs from what it was in [hb] only in the entry
    [key] of its metadata store, which holds the mapping [d], built from
    new tables. *)
Definition result_at (hb : Heap) (t : nat) (key : string) (d : Dict.t Entry)
    (h : Heap) : Prop :=
  exists ad,
    adatas hb !! t = Some ad
    /\ adatas h !! t = Some (set_uns (Dict.set key d (uns ad)) ad)
    /\ fresh_refs (length (frames hb)) d.

Definition dispatch_inv (hb : Heap) (t : nat) (key : string) (h : Heap) : Prop :=
  frame_kept hb t h /\ exists d, result_at hb t key d h.

(** [h'] is [h] with new objects appended. *)
Definition extends (h h' : Heap) : Prop :=
  (exists fs, frames h' = (frames h ++ fs)%list)
  /\ (exists ads, adatas h' = (adatas h ++ ads)%list).

(** Everything that existed in [h0] is still there, unchanged, in [h]. *)
Definition preserved (h0 h : Heap) : Prop :=
  (forall r, (r < length (frames h0))%nat -> frames h !! r = frames h0 !! r)
  /\ (forall a, (a < length (adatas h0))%nat -> adatas h !! a = adatas h0 !! a).

(** With the copy flag: the call returns the mapping stored under [key] in
    the copy it made, which is the newest collection of the heap. *)
Definition returns_mapping_of_copy (h0 : Heap) (key : string)
    (o : Outcome (option (Dict.t Entry))) : Prop :=
  forall ret h, o = Return ret h ->
    exists d cp,
      ret = Some d
      /\ adatas h !! length (adatas h0) = Some cp
      /\ Dict.get key (uns cp) = Some d.

(** Without the copy flag: the call returns [None]; the caller's
    collection [a] differs only in the entry [key] of its metadata store,
    a mapping over new tables; nothing else in the heap has changed. *)
Definition stores_mapping_in_place (h0 : Heap) (a : nat) (ad : AnnData)
    (key : string) (o : Outcome (option (Dict.t Entry))) : Prop :=
  forall ret h, o = Return ret h ->
    ret = None
    /\ frame_kept h0 a h
    /\ exists d,
         adatas h !! a = Some (set_uns (Dict.set key d (uns ad)) ad)
         /\ fresh_refs (length (frames h0)) d.

(** While the tables are copied, the collections stay as they are. *)
Definition copying (h0 h : Heap) : Prop :=
  adatas h = adatas h0 /\ exists fs, frames h = (frames h0 ++ fs)%list.

(** The collection [t] holds the mapping [d] under [key]. *)
Definition mapping_at (t : nat) (key : string) (d : Dict.t Entry) (h : Heap) : Prop :=
  exists adt, adatas h !! t = Some adt /\ Dict.get key (uns adt) = Some d.

(** The keys [test_X_bg_Y] of all ordered pairs of a group list. *)
Definition pair_keys (groups : list string) : list string :=
  map (fun p => pair_key (fst p) (snd p)) (list_prod groups groups).

(** Every table of the mapping exists, and no table is stored twice. *)
Definition refs_valid (d : Dict.t Entry) (h : Heap) : Prop :=
  forall k r, In (k, Tbl r) d -> (r < length (frames h))%nat.

Definition refs_distinct (d : Dict.t Entry) : Prop :=
  forall k1 k2 r,
    Dict.get k1 d = Some (Tbl r) -> Dict.get k2 d = Some (Tbl r) -> k1 = k2.

Definition pw_state (t : nat) (key : string) (h : Heap) (d : Dict.t Entry) : Prop :=
  mapping_at t key d h /\ refs_valid d h /\ refs_distinct d.

(** The pair of positions [(x, y)] has its computed table, the one the
    test [T] returned. *)
Definition upper_ok (T : string -> string -> Exc DataFrame) (groups : list string)
    (h : Heap) (d : Dict.t Entry) (x y : nat) : Prop :=
  exists gx gy df,
    groups !! x = Some gx /\ groups !! y = Some gy
    /\ T gx gy = Ok df
    /\ stored_table h d (pair_key gx gy) = Some df.

(** The pair of positions [(x, y)] has the mirrored table. *)
Definition lower_ok (T : string -> string -> Exc DataFrame) (groups : list string)
    (h : Heap) (d : Dict.t Entry) (x y : nat) : Prop :=
  exists gx gy df,
    groups !! x = Some gx /\ groups !! y = Some gy
    /\ T gy gx = Ok df
    /\ stored_table h d (pair_key gx gy) = Some (df_neg_log2fc df).

(** Invariants of the two loops of [pairWise], after the pairs [pre]. *)
Definition compute_inv (T : string -> string -> Exc DataFrame) (groups : list string)
    (t : nat) (key : string) (pre : list (nat * nat)) (h : Heap) : Prop :=
  exists d,
    pw_state t key h d
    /\ forall x y, In (x, y) pre -> (x < y)%nat -> upper_ok T groups h d x y.

Definition mirror_inv (T : string -> string -> Exc DataFrame) (groups : list string)
    (t : nat) (key : string) (pre : list (nat * nat)) (h : Heap) : Prop :=
  exists d,
    pw_state t key h d
    /\ (forall x y, (x < y)%nat -> (y < length groups)%nat -> upper_ok T groups h d x y)
    /\ (forall x y, In (x, y) pre -> (y < x)%nat -> lower_ok T groups h d x y).

(** The entry [test_B_bg_A] mirrors the entry [test_A_bg_B]: it is another
    table object, its fold changes are the negated ones and its other
    columns are the same, while [test_A_bg_B] still holds the table [T A B]
    that the test returned. *)
Definition mirrored (h : Heap) (d : Dict.t Entry)
    (T : string -> string -> Exc DataFrame) (A B : string) : Prop :=
  exists rAB rBA tAB tBA,
    Dict.get (pair_key A B) d = Some (Tbl rAB)
    /\ Dict.get (pair_key B A) d = Some (Tbl rBA)
    /\ rAB <> rBA
    /\ frames h !! rAB = Some tAB
    /\ frames h !! rBA = Some tBA
    /\ T A B = Ok tAB
    /\ map log2fc (rows tBA) = map (fun r => (- log2fc r)%Q) (rows tAB)
    /\ map qval (rows tBA) = map qval (rows tAB)
    /\ map mean (rows tBA) = map mean (rows tAB)
    /\ map coef_mle (rows tBA) = map coef_mle (rows tAB)
    /\ map gene (rows tBA) = map gene (rows tAB).

(** The stored table as [getMarker] leaves it: with the value [v] in a
    column [c], unless a column [c] was already there. *)
Definition tag_table (c v : string) (df : DataFrame) : DataFrame :=
  if has_column c df then df else df_insert c v df.

(** The tables [__vsRest] concatenates, read off the heap before the call. *)
Fixpoint vsRest_blocks (qvalue log2fc_cut mean_cut : Q) (h : Heap)
    (d : Dict.t Entry) : list DataFrame :=
  match d with
  | [] => []
  | (comp, e) :: d' =>
      (if String.eqb comp "__cat" then []
       else match e with
            | Tbl r =>
                match frames h !! r with
                | Some df =>
                    [twoSample (tag_table "clusterName" comp df)
                       qvalue log2fc_cut mean_cut]
                | None => []
                end
            | Cat _ => []
            end) ++ vsRest_blocks qvalue log2fc_cut mean_cut h d'
  end.

Definition table_refs (d : Dict.t Entry) : list nat :=
  flat_map (fun kv => match snd kv with Tbl r => [r] | Cat _ => [] end) d.

(** If the table has a column [c] at all, it holds [v] in every row. *)
Definition labelled (c v : string) (df : DataFrame) : Prop :=
  has_column c df = true -> forall row, In row (rows df) -> row_label c row = Some v.

(** A result mapping as [vsRest] builds it and [getMarker] may have
    visited it: tagged, one table object per group, and a [clusterName]
    column, where present, holding the group's own name. *)
Definition vsRest_tagged (h : Heap) (d : Dict.t Entry) : Prop :=
  Dict.get "__cat" d = Some (Cat "vsRest")
  /\ Dict.wf d
  /\ List.NoDup (table_refs d)
  /\ forall comp e, In (comp, e) d -> comp <> "__cat" ->
       exists r df, e = Tbl r /\ frames h !! r = Some df
                    /\ labelled "clusterName" comp df.

(** The rows of a marker table that carry [comp] in [clusterName]. *)
Definition group_rows (comp : string) (rs : list Row) : list Row :=
  List.filter
    (fun row => match row_label "clusterName" row with
                | Some c => String.eqb c comp
                | None => false
                end) rs.

(** Descending order of the coefficient estimate. *)
Definition coef_ge (a b : Row) : Prop := (coef_mle b <= coef_mle a)%Q.

Definition same_values (a b : Row) : Prop :=
  gene a = gene b /\ qval a = qval b /\ log2fc a = log2fc b
  /\ mean a = mean b /\ coef_mle a = coef_mle b.

(** [row] stems from the table stored for group [comp]. *)
Definition from_group (h : Heap) (d : Dict.t Entry) (comp : string) (row : Row) : Prop :=
  exists r df row0,
    In (comp, Tbl r) d /\ comp <> "__cat" /\ frames h !! r = Some df
    /\ In row0 (rows df) /\ same_values row row0.

(** The table [__pairWise] takes from one entry: both names inserted where
    absent, then filtered and sorted. *)
Definition pairWise_block (qvalue log2fc_cut mean_cut : Q)
    (tested bg : string) (df : DataFrame) : DataFrame :=
  twoSample (tag_table "bgCluster" bg (tag_table "testedCluster" tested df))
    qvalue log2fc_cut mean_cut.

(** The background names and tables [__pairWise] collects, read off the
    heap before the call. *)
Fixpoint pairWise_blocks (qvalue log2fc_cut mean_cut : Q) (h : Heap)
    (d : Dict.t Entry) : list (string * DataFrame) :=
  match d with
  | [] => []
  | (comp, e) :: d' =>
      (if String.eqb comp "__cat" then []
       else match re_tested comp, re_bg comp, e with
            | Ok tested, Ok bg, Tbl r =>
                match frames h !! r with
                | Some df =>
                    [(bg, pairWise_block qvalue log2fc_cut mean_cut tested bg df)]
                | None => []
                end
            | _, _, _ => []
            end) ++ pairWise_blocks qvalue log2fc_cut mean_cut h d'
  end.

(** The background names of the keys of a mapping, in order ([ls_compName]). *)
Definition backgrounds (d : Dict.t Entry) : list string :=
  flat_map (fun kv => if String.eqb (fst kv) "__cat" then []
                      else match re_bg (fst kv) with
                           | Ok bg => [bg]
                           | Err _ => []
                           end) d.

(** A row for gene [g] that clears the cutoffs. *)
Definition clears_row (qvalue log2fc_cut mean_cut : Q) (g : string) (row : Row) : bool :=
  String.eqb (gene row) g && passes qvalue log2fc_cut mean_cut row.

(** The clearance count of (tested group [t], gene [g]): the number of
    rows for [g] that clear the cutoffs, over all stored tables whose key
    names [t] as the tested group. *)
Fixpoint clear_count (qvalue log2fc_cut mean_cut : Q) (h : Heap) (d : Dict.t Entry)
    (t g : string) : nat :=
  match d with
  | [] => 0
  | (comp, e) :: d' =>
      (if String.eqb comp "__cat" then 0
       else match re_tested comp, e with
            | Ok tested, Tbl r =>
                if String.eqb tested t then
                  match frames h !! r with
                  | Some df =>
                      length (List.filter (clears_row qvalue log2fc_cut mean_cut g)
                                (rows df))
                  | None => 0
                  end
                else 0
            | _, _ => 0
            end) + clear_count qvalue log2fc_cut mean_cut h d' t g
  end%nat.

(** A result mapping as [pairWise] builds it and [getMarker] may have
    visited it. *)
Definition pairWise_tagged (h : Heap) (d : Dict.t Entry) : Prop :=
  Dict.get "__cat" d = Some (Cat "pairWise")
  /\ List.NoDup (table_refs d)
  /\ forall comp e, In (comp, e) d -> comp <> "__cat" ->
       exists tested bg r df,
         re_tested comp = Ok tested /\ re_bg comp = Ok bg
         /\ e = Tbl r /\ frames h !! r = Some df
         /\ labelled "testedCluster" tested df
         /\ labelled "bgCluster" bg df.

(** The aggregated table has a row for (tested group [t], gene [g]). *)
Definition retained (out : list AggRow) (t g : string) : Prop :=
  exists a, In a out /\ agg_testedCluster a = t /\ agg_gene a = g.

(** The rows of a tagged table are the rows of the table, each with the
    label added where the column was absent. *)
Definition tag_row (c v : string) (df : DataFrame) (r : Row) : Row :=
  if has_column c df then r else row_add_label c v r.

(** The ordered pairs of distinct groups of a list. *)
Definition ordered_pairs (groups : list string) : list (string * string) :=
  List.filter (fun p => negb (String.eqb (fst p) (snd p))) (list_prod groups groups).

(** A pairwise result mapping over [groups], up to the order of its
    entries: the tag, and for every ordered pair of distinct groups the
    key [test_X_bg_Y] with the table object [ref X Y]. *)
Definition pairWise_entries (groups : list string) (ref : string -> string -> nat)
    : Dict.t Entry :=
  ("__cat", Cat "pairWise")
  :: map (fun p => (pair_key (fst p) (snd p), Tbl (ref (fst p) (snd p))))
         (ordered_pairs groups).

(** The table has a row for gene [g] that clears the cutoffs. *)
Definition clears (qvalue log2fc_cut mean_cut : Q) (df : DataFrame) (g : string) : Prop :=
  exists row, In row (rows df) /\ gene row = g
              /\ (qval row < qvalue)%Q /\ (log2fc_cut < log2fc row)%Q
              /\ (mean_cut < mean row)%Q.

(** Number of rows of a table for gene [g] that clear the cutoffs. *)
Definition clear_rows (qvalue log2fc_cut mean_cut : Q) (df : DataFrame) (g : string) : nat :=
  length (List.filter (clears_row qvalue log2fc_cut mean_cut g) (rows df)).

(** A complete pairwise result mapping over [groups]: tagged, no table
    stored twice, distinct group names that the key patterns recover, one
    entry per ordered pair of distinct groups, and behind each entry a
    table with one row per gene (and, where [getMarker] has already been
    there, its own names in the inserted columns). *)
Definition full_pairWise_mapping (h : Heap) (d : Dict.t Entry) (groups : list string)
    (ref : string -> string -> nat) (tbl : string -> string -> DataFrame) : Prop :=
  Dict.get "__cat" d = Some (Cat "pairWise")
  /\ List.NoDup (table_refs d)
  /\ List.NoDup groups
  /\ (forall a b, In a groups -> In b groups ->
        re_tested (pair_key a b) = Ok a /\ re_bg (pair_key a b) = Ok b)
  /\ Permutation d (pairWise_entries groups ref)
  /\ (forall a b, In a groups -> In b groups -> a <> b ->
        frames h !! ref a b = Some (tbl a b)
        /\ labelled "testedCluster" a (tbl a b)
        /\ labelled "bgCluster" b (tbl a b)
        /\ List.NoDup (map gene (rows (tbl a b)))).

(** ** Further notions: shapes, the sequential loop, background counts *)

(** A collection is well shaped when every row of the matrix has one entry
    per gene and every annotation column one entry per cell. *)
Definition well_shaped (ad : AnnData) : Prop :=
  List.Forall (fun r => length r = n_vars ad) (mrows (X ad))
  /\ List.Forall (fun kv => length (snd kv) = n_obs ad) (obs ad).

(** The cells the adapter selects: those of the target group and of the
    reference groups. *)
Definition kept_mask (col : list string) (testComp : string)
    (otherComp : OtherComp) : list bool :=
  isin col (testComp :: resolved_otherComp col testComp otherComp).
(** The batch column, if one is named, is there for the adapter. *)
Definition batch_present (batchLabel : option string) (adata : AnnData) : Prop :=
  forall b, batchLabel = Some b -> b <> "" ->
    Dict.get b (obs adata) <> None \/ b = "temp".


(** The key of a row of the aggregated table. *)
Definition agg_key (a : AggRow) : string * string :=
  (agg_testedCluster a, agg_gene a).

(** Number of background groups against which gene [g] of the tested
    group [t] clears the cutoffs, in a mapping with the table [tbl t b]
    for every pair. *)
Definition cleared_backgrounds (qvalue log2fc_cut mean_cut : Q)
    (tbl : string -> string -> DataFrame) (groups : list string) (t g : string) : nat :=
  length (List.filter
            (fun b => negb (String.eqb t b)
                      && (1 <=? clear_rows qvalue log2fc_cut mean_cut (tbl t b) g)%nat)
            groups).

(** Invariant of the sequential loop of [vsRest], after the groups [pre]:
    the mapping holds the tag and then the groups in order of first
    appearance, every table stored once, and for each group the table its
    test [T] returned. *)
Definition vsRest_inv (T : string -> Exc DataFrame) (t : nat) (key : string)
    (pre : list string) (h : Heap) : Prop :=
  exists d,
    pw_state t key h d
    /\ Dict.keys d = unique ("__cat" :: pre)
    /\ (forall g, In g pre -> exists df, T g = Ok df /\ stored_table h d g = Some df)
    /\ (~ In "__cat" pre -> Dict.get "__cat" d = Some (Cat "vsRest")).

(** [pat] occurs somewhere in [s]. *)
Definition occurs (pat s : string) : bool :=
  match find_first pat s with
  | Some _ => true
  | None => false
  end.

(** No occurrence of [pat] begins in the first [n] positions of [s]. *)
Fixpoint none_before (pat : string) (n : nat) (s : string) : Prop :=
  match n with
  | O => True
  | S n' =>
      String.prefix pat s = false
      /\ match s with
         | EmptyString => True
         | String _ s' => none_before pat n' s'
         end
  end.

(** The mapping holds a table under the key [k]. *)
Definition has_table (h : Heap) (d : Dict.t Entry) (k : string) : Prop :=
  exists df, stored_table h d k = Some df.

(** The result mapping holds a table under the key of every pair of
    positions of [pre] that lies on the given side of the diagonal. *)
Definition pairs_present (groups : list string) (t : nat) (key : string)
    (side : nat -> nat -> Prop) (pre : list (nat * nat)) (h : Heap) : Prop :=
  exists d,
    mapping_at t key d h
    /\ forall x y, In (x, y) pre -> side x y ->
         exists gx gy, groups !! x = Some gx /\ groups !! y = Some gy
                       /\ has_table h d (pair_key gx gy).

(** ** A small collection and a stand-in engine for the examples *)

Module Examples.

(** Any function of the engine's type will do; this one always returns
    and reports, per gene, the difference of the summed expression of the
    two classes. *)
Definition sum_where (col : list string) (v : string) (xs : list Q) : Q :=
  Qsum (select (map (String.eqb v) col) xs).

Definition toy_summary (ad : AnnData) (factor : string) : DataFrame :=
  let col := match Dict.get factor (obs ad) with Some col => col | None => [] end in
  mkDF []
    (map (fun j =>
            let xs := column j (mrows (X ad)) in
            let d := Qred (sum_where col "1" xs - sum_where col "0" xs) in
            mkRow (nth j (var_names ad) "") 0 d (Qred (Qsum xs)) d [])
         (seq 0 (n_vars ad))).

Definition toy_wald (ad : AnnData) (formula factor : string) (quickScale : bool)
    (sizeFactor : option string) : Exc DataFrame :=
  Ok (toy_summary ad factor).

(** An engine that has nothing to fit on a collection without genes and
    refuses it, with an exception of its own; on any other collection it
    is [toy_wald]. *)
Definition strict_wald (ad : AnnData) (formula factor : string) (quickScale : bool)
    (sizeFactor : option string) : Exc DataFrame :=
  if Nat.eqb (n_vars ad) 0 then Err (ValueError "no genes to fit")
  else toy_wald ad formula factor quickScale sizeFactor.

Fixpoint map_exc {A B} (f : A -> Exc B) (l : list A) : Exc (list B) :=
  match l with
  | [] => Ok []
  | x :: t => y ← f x; ys ← map_exc f t; mret (y :: ys)
  end.

(** Modelled from the spec: [basic.getPartialLayersAdata] is not part of
    the sources at hand; the spec describes it as the collaborator that,
    "given a full collection, a layer selector, and a list of annotation
    columns to retain, returns a reduced working collection".  The layer
    ["X"] is the main matrix. *)
Definition getPartialLayersAdata (ad : AnnData) (layer : string)
    (cols : list (option string)) : Exc AnnData :=
  m ← (if String.eqb layer "X" then Ok (X ad)
       else of_option (KeyError layer) (Dict.get layer (layers ad)));
  o ← map_exc (fun c => match c with
                        | Some c => col ← obs_col c ad; mret (c, col)
                        | None => Err (KeyError "None")
                        end) cols;
  mret (mkAnnData m [] (fold_left (fun d kv => Dict.set (fst kv) (snd kv) d) o [])
                  (var_names ad) []).

Definition toy_exp (x : Q) : Q := x.
Definition toy_expm (m : list (list Q)) : list (list Q) := m.

(** The example matrices hold small integers, whose floating-point sums
    are their sums. *)
Definition toy_sum (l : list Q) : Q := Qsum l.

(** Two cells, two genes: [g1] is expressed in one cell with value 1. *)
Definition ad2 : AnnData :=
  mkAnnData (Dense [[1; 0]; [0; 3]]%Q) [] [("ct", ["A"; "B"])] ["g1"; "g2"] [].

Definition ad2_sparse : AnnData :=
  mkAnnData (Sparse [[1; 0]; [0; 3]]%Q) [] [("ct", ["A"; "B"])] ["g1"; "g2"] [].

(** Both cells in the same group. *)
Definition ad_one_group : AnnData :=
  mkAnnData (Dense [[1; 0]; [0; 3]]%Q) [] [("ct", ["A"; "A"])] ["g1"; "g2"] [].

Definition heap_of (ad : AnnData) : Heap := mkHeap [] [ad].

(** The collection [ad2] after the adapter: the binary column is there. *)
Definition ad2_temp : AnnData :=
  mkAnnData (Dense [[1; 0]; [0; 3]]%Q) []
            [("ct", ["A"; "B"]); ("temp", ["1"; "0"])] ["g1"; "g2"] [].

(** A one-cell, two-gene collection with a sparse matrix. *)
Definition ad_sparse_1x2 : AnnData :=
  mkAnnData (Sparse [[1; 0]]%Q) [] [("ct", ["A"])] ["g1"; "g2"] [].

(** Two groups whose names give one and the same key in both orders:
    the key of ("x", "x_bg_x") and of ("x_bg_x", "x") is
    [test_x_bg_x_bg_x]. *)
Definition ad_clash : AnnData :=
  mkAnnData (Dense [[1; 0]; [0; 3]]%Q) [] [("ct", ["x"; "x_bg_x"])] ["g1"; "g2"] [].

(** A pairwise run on [ad2], in place. *)
Definition pairWise_ad2 : Outcome (option (Dict.t Entry)) :=
  pairWise toy_wald getPartialLayersAdata toy_exp 0 None "ct" None None 1 None
    false None true false false (heap_of ad2).

(** The heap after [vsRest] on [ad2], in place. *)
Definition heap_vsRest : Heap :=
  mkHeap
    [mkDF [] [mkRow "g1" 0 1 1 1 []; mkRow "g2" 0 (-3) 3 (-3) []];
     mkDF [] [mkRow "g1" 0 (-1) 1 (-1) []; mkRow "g2" 0 3 3 3 []]]
    [set_uns [("diffxpyVsRest_ct",
               [("__cat", Cat "vsRest"); ("A", Tbl 0); ("B", Tbl 1)])]
             ad2].

Definition mapping_vsRest : Dict.t Entry :=
  [("__cat", Cat "vsRest"); ("A", Tbl 0); ("B", Tbl 1)].

(** The marker table [getMarker] returns on [heap_vsRest] with the
    cutoffs 1, 0 and 0. *)
Definition markers_vsRest : Markers :=
  VsRestMarkers
    (mkDF ["clusterName"]
       [mkRow "g1" 0 1 1 1 [("clusterName", "A")];
        mkRow "g2" 0 3 3 3 [("clusterName", "B")]]).

(** Four groups of one cell each and one gene: against [D] the gene is
    lower in [A], against [B] and [C] it is higher. *)
Definition ad4 : AnnData :=
  mkAnnData (Dense [[2]; [1]; [1]; [5]]%Q) [] [("ct", ["A"; "B"; "C"; "D"])] ["g1"] [].

(** The heap after [pairWise] on [ad4], in place, and the mapping it
    stored. *)
Definition heap_pw4 : Heap :=
  outcome_heap
    (pairWise toy_wald getPartialLayersAdata toy_exp 0 None "ct" None None 1 None
       false None true false false (heap_of ad4)).

Definition mapping_pw4 : Dict.t Entry :=
  [("__cat", Cat "pairWise"); ("test_A_bg_B", Tbl 0); ("test_A_bg_C", Tbl 1);
   ("test_A_bg_D", Tbl 2); ("test_B_bg_C", Tbl 3); ("test_B_bg_D", Tbl 4);
   ("test_C_bg_D", Tbl 5); ("test_B_bg_A", Tbl 6); ("test_C_bg_A", Tbl 7);
   ("test_C_bg_B", Tbl 8); ("test_D_bg_A", Tbl 9); ("test_D_bg_B", Tbl 10);
   ("test_D_bg_C", Tbl 11)].

(** The table object and the table of a pair, read off the mapping. *)
Definition ref_pw4 (a b : string) : nat :=
  match Dict.get (pair_key a b) mapping_pw4 with
  | Some (Tbl r) => r
  | _ => 0%nat
  end.

Definition tbl_pw4 (a b : string) : DataFrame :=
  match frames heap_pw4 !! ref_pw4 a b with
  | Some df => df
  | None => mkDF [] []
  end.

(** What [getMarker] returns on it with the cutoffs 0.05, 0, 0 and
    [detectedCounts = -1]. *)
Definition markers_pw4 : list AggRow :=
  [mkAgg "D" "g1" 3 [Some "A"; Some "B"; Some "C"] [0; 0; 0]%Q [3; 4; 4]%Q
         [7; 6; 6]%Q [-3; -4; -4]%Q].

End Examples.

(** * Properties *)

(** ** Dictionaries *)

Lemma dict_get_set_eq {V} (k : string) (v : V) (d : Dict.t V) :
  Dict.get k (Dict.set k v d) = Some v.
Proof.
  induction d as [|[k' v'] d IH]; simpl.
  - now rewrite String.eqb_refl.
  - destruct (String.eqb k k') eqn:E; simpl.
    + now rewrite String.eqb_refl.
    + now rewrite E.
Qed.

Lemma dict_get_set_ne {V} (k k' : string) (v : V) (d : Dict.t V) :
  k <> k' -> Dict.get k' (Dict.set k v d) = Dict.get k' d.
Proof.
  intros Hne. induction d as [|[k0 v0] d IH]; simpl.
  - destruct (String.eqb_spec k' k); congruence.
  - destruct (String.eqb_spec k k0) as [->|Hk]; simpl.
    + destruct (String.eqb_spec k' k0); congruence.
    + destruct (String.eqb_spec k' k0); auto.
Qed.

Lemma dict_set_set {V} (k : string) (v v' : V) (d : Dict.t V) :
  Dict.set k v' (Dict.set k v d) = Dict.set k v' d.
Proof.
  induction d as [|[k0 v0] d IH]; simpl.
  - now rewrite String.eqb_refl.
  - destruct (String.eqb k k0) eqn:E; simpl.
    + now rewrite String.eqb_refl.
    + now rewrite E, IH.
Qed.

Lemma dict_get_map {V W} (f : V -> W) (k : string) (d : Dict.t V) :
  Dict.get k (map (fun kv => (fst kv, f (snd kv))) d) = option_map f (Dict.get k d).
Proof.
  induction d as [|[k0 v0] d IH]; simpl; auto.
  destruct (String.eqb k k0); auto.
Qed.

(** ** Distinct values of a column *)

Lemma unique_In (x : string) (l : list string) : In x (unique l) <-> In x l.
Proof.
  induction l as [|y l IH]; simpl; [tauto|].
  rewrite filter_In, IH. split.
  - intros [->|[H _]]; auto.
  - intros [->|H]; auto.
    destruct (String.eqb_spec x y) as [->|Hne]; auto.
Qed.

Lemma NoDup_filter_list {A} (f : A -> bool) (l : list A) :
  List.NoDup l -> List.NoDup (List.filter f l).
Proof.
  induction 1 as [|x l Hx Hl IH]; simpl; [constructor|].
  destruct (f x); auto. constructor; auto.
  rewrite filter_In. tauto.
Qed.

Lemma unique_NoDup (l : list string) : List.NoDup (unique l).
Proof.
  induction l as [|y l IH]; simpl; constructor.
  - rewrite filter_In. intros [_ H]. now rewrite String.eqb_refl in H.
  - now apply NoDup_filter_list.
Qed.

(** ** The annotation columns handed to the layer extraction *)

(** C10, as stated, fails when the size-factor column is the group-label
    column itself: it is then retained although it is not the batch
    column. *)
Lemma C10_counterexample :
  truthy (Some "ct") = true /\
  In (Some "ct") (ls_useCol "ct" None (Some "ct")) /\
  (None : option string) <> Some "ct".
Proof. repeat split; [simpl; auto | discriminate]. Qed.

(** C10 (amended): when a size-factor column name is supplied, the list of
    retained annotation columns is the group-label column, then the batch
    column if one is given, then the batch column once more ([None] when
    there is none); the size-factor column is in that list only if it
    coincides with the batch column or with the group-label column. *)
Theorem ls_useCol_sizeFactor (testLabel : string) (batchLabel sizeFactor : option string) :
  truthy sizeFactor = true ->
  ls_useCol testLabel batchLabel sizeFactor
    = ((Some testLabel :: (if truthy batchLabel then [batchLabel] else []))
         ++ [batchLabel])%list
  /\ (In sizeFactor (ls_useCol testLabel batchLabel sizeFactor) ->
      sizeFactor = batchLabel \/ sizeFactor = Some testLabel).
Proof.
  intros Hsf. unfold ls_useCol. rewrite Hsf.
  destruct (truthy batchLabel) eqn:Hb; simpl; split; auto; intuition auto.
Qed.

Lemma ls_useCol_sizeFactor_witness :
  ls_useCol "ct" (Some "batch") (Some "sf") = [Some "ct"; Some "batch"; Some "batch"]
  /\ (In (Some "sf") (ls_useCol "ct" (Some "batch") (Some "sf")) ->
      Some "sf" = Some "batch" \/ Some "sf" = Some "ct").
Proof. apply (ls_useCol_sizeFactor "ct" (Some "batch") (Some "sf")). reflexivity. Defined.

(** ** Single-Pair Tester *)

(** C6, as stated, fails: the engine is called after the check without a
    handler, so the tester also raises on a column with exactly two
    distinct values, whenever the engine does.  Here the adapter, with a
    minimum count of 5, has left no gene of a two-cell collection, and
    the engine refuses a collection without genes. *)
Lemma C6_counterexample :
  exists ad col,
    parseAdToDiffxpyFormat Examples.ad2 "ct" "A" OtherNone None 5 "temp" true = Ok ad
    /\ obs_col "temp" ad = Ok col
    /\ length (unique col) = 2%nat
    /\ testTwoSample Examples.strict_wald ad "temp" None true None false
       = Err (ValueError "no genes to fit").
Proof. do 2 eexists. repeat split; vm_compute; reflexivity. Qed.

(** C6 (amended): [testTwoSample] fails its own check exactly on a column
    that does not have exactly two distinct values (a missing column
    fails at the lookup); with exactly two the check passes and the
    outcome is the engine's, on the given collection and the formula
    built from the arguments: its summary table, or its exception.  So
    the tester raises exactly when the column does not have two distinct
    values or the engine raises. *)
Theorem testTwoSample_outcome
    (wald : AnnData -> string -> string -> bool -> option string -> Exc DataFrame)
    (adata : AnnData) (keyTest : string) (batchLabel : option string)
    (quickScale : bool) (sizeFactor : option string) (constrainModel : bool) :
  let engine := wald adata (formula_loc keyTest batchLabel constrainModel) keyTest
                  quickScale sizeFactor in
  let run := testTwoSample wald adata keyTest batchLabel quickScale sizeFactor
               constrainModel in
  (forall col, obs_col keyTest adata = Ok col -> length (unique col) = 2%nat ->
     run = engine)
  /\ (forall col, obs_col keyTest adata = Ok col -> length (unique col) <> 2%nat ->
        run = Err (AssertionError "More Than Two Samples found"))
  /\ (Dict.get keyTest (obs adata) = None -> run = Err (KeyError keyTest))
  /\ ((exists e, run = Err e)
      <-> ~ (exists col, obs_col keyTest adata = Ok col /\ length (unique col) = 2%nat)
          \/ exists e, engine = Err e).
Proof.
  intros engine run.
  assert (Hok : forall col, obs_col keyTest adata = Ok col ->
                length (unique col) = 2%nat -> run = engine).
  { intros col Hcol Hlen. unfold run, engine, testTwoSample, formula_loc.
    rewrite Hcol. simpl. rewrite Hlen. simpl.
    destruct batchLabel as [b|]; [|reflexivity].
    destruct (truthy (Some b)); [|reflexivity].
    destruct constrainModel; reflexivity. }
  assert (Hbad : forall col, obs_col keyTest adata = Ok col ->
                 length (unique col) <> 2%nat ->
                 run = Err (AssertionError "More Than Two Samples found")).
  { intros col Hcol Hlen. unfold run, testTwoSample. rewrite Hcol. simpl.
    apply Nat.eqb_neq in Hlen. now rewrite Hlen. }
  assert (Hmiss : Dict.get keyTest (obs adata) = None -> run = Err (KeyError keyTest)).
  { intros Hnone. unfold run, testTwoSample, obs_col. now rewrite Hnone. }
  split; [exact Hok|]. split; [exact Hbad|]. split; [exact Hmiss|]. split.
  - intros [e He].
    destruct (obs_col keyTest adata) as [col|e'] eqn:Hcol.
    + destruct (Nat.eq_dec (length (unique col)) 2) as [Hlen|Hlen].
      * right. exists e. now rewrite <- (Hok col eq_refl Hlen).
      * left. intros (col' & [= <-] & Hlen'). contradiction.
    + left. intros (col' & [=] & _).
  - intros [Hno|[e He]].
    + destruct (obs_col keyTest adata) as [col|e'] eqn:Hcol.
      * destruct (Nat.eq_dec (length (unique col)) 2) as [Hlen|Hlen].
        -- exfalso. apply Hno. eauto.
        -- eauto.
      * unfold obs_col in Hcol.
        destruct (Dict.get keyTest (obs adata)); [discriminate|]. eauto.
    + destruct (obs_col keyTest adata) as [col|e'] eqn:Hcol.
      * destruct (Nat.eq_dec (length (unique col)) 2) as [Hlen|Hlen].
        -- exists e. now rewrite (Hok col eq_refl Hlen).
        -- eauto.
      * unfold obs_col in Hcol.
        destruct (Dict.get keyTest (obs adata)); [discriminate|]. eauto.
Qed.

Lemma testTwoSample_outcome_witness :
  testTwoSample Examples.toy_wald Examples.ad2_temp "temp" None true None false
  = Examples.toy_wald Examples.ad2_temp "~ 1 + temp" "temp" true None.
Proof.
  apply (proj1 (testTwoSample_outcome Examples.toy_wald Examples.ad2_temp
                  "temp" None true None false) ["1"; "0"]); reflexivity.
Defined.

(** ** Undoing the log transform *)

(** C8 on the code: for a working collection with a sparse matrix and
    [inputIsLog = True], [vsRest] never reaches the tests.  The matrix
    exponential is only defined for a square matrix, and the subtraction of
    the scalar 1 from its sparse result is refused, so the preparation
    raises and so does the call. *)
Theorem vsRest_inputIsLog_sparse_raises
    (wald : AnnData -> string -> string -> bool -> option string -> Exc DataFrame)
    (getPartialLayersAdata : AnnData -> string -> list (option string) -> Exc AnnData)
    (np_exp : Q -> Q) (expm : list (list Q) -> list (list Q))
    (np_sum : list Q -> Q)
    (org w : AnnData) (layer : option string) (testLabel : string)
    (groups : option (list string)) (batchLabel : option string)
    (minCellCounts : Z) (sizeFactor : option string) (keyAdded : option string)
    (quickScale constrainModel : bool) (threads : Z) :
  getPartialLayersAdata org (default_layer layer)
    (ls_useCol testLabel batchLabel sizeFactor) = Ok w ->
  issparse (X w) = true ->
  (forall gs, exists e,
      vsRest_working getPartialLayersAdata np_exp expm org (default_layer layer)
        testLabel gs batchLabel sizeFactor true = Err e
      /\ (e = ValueError "expected a square matrix" \/ e = NotImplementedError))
  /\ (forall h adata,
        adatas h !! adata = Some org ->
        raises (vsRest wald getPartialLayersAdata np_exp expm np_sum adata layer testLabel
                  groups batchLabel minCellCounts sizeFactor true keyAdded
                  quickScale constrainModel threads false h)).
Proof.
  intros Hw Hsp.
  assert (Hwork : forall gs, exists e,
      vsRest_working getPartialLayersAdata np_exp expm org (default_layer layer)
        testLabel gs batchLabel sizeFactor true = Err e
      /\ (e = ValueError "expected a square matrix" \/ e = NotImplementedError)).
  { intros gs. unfold vsRest_working. rewrite Hw. simpl. rewrite Hsp.
    unfold sparse_expm, sparse_sub_scalar.
    destruct (Nat.eqb (n_obs w) (n_vars w)); simpl; eauto. }
  split; [exact Hwork|].
  intros h adata Had. unfold vsRest, vsRest_run, mbind, py_bind.
  destruct (resolve_groups adata testLabel groups h) as [gs h1|e h1] eqn:Hg; [|exact I].
  assert (h1 = h) as ->.
  { unfold resolve_groups, get_adata, mbind, py_bind, lift, mret, py_ret in Hg.
    destruct groups as [[|g gs']|]; rewrite ?Had in Hg;
      try destruct (obs_col testLabel org); congruence. }
  unfold mret, py_ret, get_adata. rewrite Had.
  destruct (Hwork gs) as (e & -> & _). exact I.
Qed.

Lemma vsRest_inputIsLog_sparse_raises_witness :
  raises (vsRest Examples.toy_wald Examples.getPartialLayersAdata Examples.toy_exp
            Examples.toy_expm Examples.toy_sum 0 None "ct" None None 1 None true None true
              false 1 false
            (Examples.heap_of Examples.ad2_sparse)).
Proof.
  apply (proj2 (vsRest_inputIsLog_sparse_raises Examples.toy_wald
                  Examples.getPartialLayersAdata Examples.toy_exp Examples.toy_expm Examples.toy_sum
                  Examples.ad2_sparse Examples.ad2_sparse
                  None "ct" None None 1 None None true false 1
                  eq_refl eq_refl)).
  reflexivity.
Defined.

(** On a dense matrix the transform is undone entry by entry; [pairWise]
    makes the matrix dense first and so does it for both kinds. *)
Lemma vsRest_inputIsLog_dense
    (getPartialLayersAdata : AnnData -> string -> list (option string) -> Exc AnnData)
    (np_exp : Q -> Q) (expm : list (list Q) -> list (list Q))
    (org w : AnnData) (layer testLabel : string) (groups : list string)
    (batchLabel sizeFactor : option string) :
  getPartialLayersAdata org layer (ls_useCol testLabel batchLabel sizeFactor) = Ok w ->
  issparse (X w) = false ->
  vsRest_working getPartialLayersAdata np_exp expm org layer testLabel groups
    batchLabel sizeFactor true
  = restrict_to_groups testLabel groups
      (set_X (Dense (map (map (fun x => (np_exp x - 1)%Q)) (mrows (X w)))) w).
Proof.
  intros Hw Hd. unfold vsRest_working. rewrite Hw. simpl. now rewrite Hd.
Qed.

Lemma pairWise_inputIsLog
    (getPartialLayersAdata : AnnData -> string -> list (option string) -> Exc AnnData)
    (np_exp : Q -> Q)
    (org w : AnnData) (layer testLabel : string) (groups : list string)
    (batchLabel sizeFactor : option string) :
  getPartialLayersAdata org layer (ls_useCol testLabel batchLabel sizeFactor) = Ok w ->
  pairWise_working getPartialLayersAdata np_exp org layer testLabel groups
    batchLabel sizeFactor true
  = restrict_to_groups testLabel groups
      (set_X (Dense (map (map (fun x => (np_exp x - 1)%Q)) (mrows (X w)))) w).
Proof.
  intros Hw. unfold pairWise_working. rewrite Hw. reflexivity.
Qed.

(** ** Sequential and parallel path of [vsRest] *)

(** C1 on the code: on the two-cell collection [ad2] with
    [minCellCounts = 1], gene [g1] (expressed in one cell, with value 1) is
    kept by the sequential path, which counts the cells expressing it
    ([1 >= 1]), and dropped by the parallel path, which compares the summed
    expression ([1 > 1] fails).  Whatever engine returns one row per gene
    then gives different tables for group [A]. *)
Theorem vsRest_threads_diverge
    (wald : AnnData -> string -> string -> bool -> option string -> Exc DataFrame) :
  (forall ad f k q s,
     exists df, wald ad f k q s = Ok df /\ map gene (rows df) = var_names ad) ->
  exists d1 h1 d4 h4 t1 t4,
    vsRest wald Examples.getPartialLayersAdata Examples.toy_exp Examples.toy_expm Examples.toy_sum
      0 None "ct" None None 1 None false None true false 1 true
      (Examples.heap_of Examples.ad2) = Return (Some d1) h1
    /\ vsRest wald Examples.getPartialLayersAdata Examples.toy_exp Examples.toy_expm
      Examples.toy_sum
         0 None "ct" None None 1 None false None true false 4 true
         (Examples.heap_of Examples.ad2) = Return (Some d4) h4
    /\ stored_table h1 d1 "A" = Some t1
    /\ stored_table h4 d4 "A" = Some t4
    /\ map gene (rows t1) = ["g1"; "g2"]
    /\ map gene (rows t4) = ["g2"].
Proof.
  intros Hgenes.
  set (a1 := mkAnnData (Dense [[1; 0]; [0; 3]]%Q) []
               [("ct", ["A"; "B"]); ("temp", ["1"; "0"])] ["g1"; "g2"] []).
  set (b1 := mkAnnData (Dense [[1; 0]; [0; 3]]%Q) []
               [("ct", ["A"; "B"]); ("temp", ["0"; "1"])] ["g1"; "g2"] []).
  set (a4 := mkAnnData (Dense [[0]; [3]]%Q) []
               [("ct", ["A"; "B"]); ("keep", ["True"; "True"]); ("temp", ["1"; "0"])]
               ["g2"] []).
  set (b4 := mkAnnData (Dense [[0]; [3]]%Q) []
               [("ct", ["A"; "B"]); ("keep", ["True"; "True"]); ("temp", ["0"; "1"])]
               ["g2"] []).
  destruct (Hgenes a1 "~ 1 + temp" "temp" true None) as (ta1 & Ea1 & Ga1).
  destruct (Hgenes b1 "~ 1 + temp" "temp" true None) as (tb1 & Eb1 & Gb1).
  destruct (Hgenes a4 "~ 1 + temp" "temp" true None) as (ta4 & Ea4 & Ga4).
  destruct (Hgenes b4 "~ 1 + temp" "temp" true None) as (tb4 & Eb4 & Gb4).
  subst a1 b1 a4 b4.
  exists [("__cat", Cat "vsRest"); ("A", Tbl 0); ("B", Tbl 1)],
         (mkHeap [ta1; tb1] [Examples.ad2; set_uns [("diffxpyVsRest_ct",
            [("__cat", Cat "vsRest"); ("A", Tbl 0); ("B", Tbl 1)])] Examples.ad2]),
         [("__cat", Cat "vsRest"); ("A", Tbl 0); ("B", Tbl 1)],
         (mkHeap [ta4; tb4] [Examples.ad2; set_uns [("diffxpyVsRest_ct",
            [("__cat", Cat "vsRest"); ("A", Tbl 0); ("B", Tbl 1)])] Examples.ad2]),
         ta1, ta4.
  split; [vm_compute; rewrite Ea1; vm_compute; rewrite Eb1; reflexivity|].
  split; [vm_compute; rewrite Ea4; vm_compute; rewrite Eb4; reflexivity|].
  split; [reflexivity|]. split; [reflexivity|].
  split; [exact Ga1 | exact Ga4].
Qed.

Lemma map_nth_seq {A} (d : A) (l : list A) :
  map (fun j => nth j l d) (seq 0 (length l)) = l.
Proof.
  induction l as [|x l IH]; simpl; [reflexivity|].
  f_equal. rewrite <- seq_shift, map_map. exact IH.
Qed.

Lemma toy_wald_genes (ad : AnnData) (f k : string) (q : bool) (s : option string) :
  exists df, Examples.toy_wald ad f k q s = Ok df /\ map gene (rows df) = var_names ad.
Proof.
  eexists. split; [reflexivity|].
  unfold Examples.toy_summary. simpl. rewrite map_map. simpl.
  apply (map_nth_seq "" (var_names ad)).
Qed.

Lemma vsRest_threads_diverge_witness :
  exists d1 h1 d4 h4 t1 t4,
    vsRest Examples.toy_wald Examples.getPartialLayersAdata Examples.toy_exp
      Examples.toy_expm Examples.toy_sum
      0 None "ct" None None 1 None false None true false 1 true
      (Examples.heap_of Examples.ad2) = Return (Some d1) h1
    /\ vsRest Examples.toy_wald Examples.getPartialLayersAdata Examples.toy_exp
         Examples.toy_expm Examples.toy_sum
         0 None "ct" None None 1 None false None true false 4 true
         (Examples.heap_of Examples.ad2) = Return (Some d4) h4
    /\ stored_table h1 d1 "A" = Some t1
    /\ stored_table h4 d4 "A" = Some t4
    /\ map gene (rows t1) = ["g1"; "g2"]
    /\ map gene (rows t4) = ["g2"].
Proof.
  apply (vsRest_threads_diverge Examples.toy_wald).
  exact toy_wald_genes.
Defined.

(** ** Format Adapter *)

Lemma select_isin (col values : list string) :
  select (isin col values) col = List.filter (fun x => str_in x values) col.
Proof.
  unfold isin. induction col as [|x col IH]; simpl; [reflexivity|].
  destruct (str_in x values); now rewrite IH.
Qed.

Lemma count_eq_filter_keep (v : string) (p : string -> bool) (col : list string) :
  p v = true -> count_eq v (List.filter p col) = count_eq v col.
Proof.
  intros Hp. unfold count_eq. induction col as [|x col IH]; simpl; [reflexivity|].
  destruct (String.eqb_spec v x) as [<-|Hne].
  - rewrite Hp. simpl. rewrite String.eqb_refl. simpl. now rewrite IH.
  - destruct (p x); simpl; auto.
    destruct (String.eqb_spec v x); [contradiction|auto].
Qed.

Lemma count_eq_binary_column (col : list string) (testComp : string) :
  count_eq "1" (binary_column col testComp) = count_eq testComp col.
Proof.
  unfold count_eq, binary_column.
  induction col as [|x col IH]; [reflexivity|].
  cbn [map List.filter]. rewrite (String.eqb_sym testComp x).
  destruct (String.eqb x testComp).
  - change (String.eqb "1" "1") with true. cbn [length]. now rewrite IH.
  - change (String.eqb "1" "0") with false. exact IH.
Qed.

Lemma binary_column_pointwise (col : list string) (testComp : string) :
  Forall2 (fun l v => (v = "1" /\ l = testComp) \/ (v = "0" /\ l <> testComp))
          col (binary_column col testComp).
Proof.
  unfold binary_column. induction col as [|x col IH]; simpl; constructor; auto.
  destruct (String.eqb_spec x testComp); auto.
Qed.

Lemma In_binary_column (col : list string) (testComp v : string) :
  In v (binary_column col testComp) <->
  (v = "1" /\ In testComp col) \/ (v = "0" /\ exists x, In x col /\ x <> testComp).
Proof.
  unfold binary_column. rewrite in_map_iff. split.
  - intros (x & Hv & Hx). destruct (String.eqb_spec x testComp) as [Heq|Hne]; subst.
    + left; auto.
    + right; eauto.
  - intros [[-> Hin]|[-> (x & Hin & Hne)]].
    + exists testComp. now rewrite String.eqb_refl.
    + exists x. destruct (String.eqb_spec x testComp); [contradiction|auto].
Qed.

(** A duplicate-free list over two values has two elements exactly when it
    holds both. *)
Lemma two_valued_length (a b : string) (u : list string) :
  a <> b -> List.NoDup u -> (forall v, In v u -> v = a \/ v = b) ->
  (length u = 2%nat <-> In a u /\ In b u).
Proof.
  intros Hab Hnd Hval.
  destruct u as [|x [|y [|z u]]]; simpl.
  - split; [discriminate|tauto].
  - split; [discriminate|]. intros [[->|[]] [Hb|[]]]. congruence.
  - split; [|reflexivity]. intros _.
    inversion Hnd as [|? ? Hx _]; subst. simpl in Hx.
    destruct (Hval x) as [->| ->]; simpl; auto;
      destruct (Hval y) as [->| ->]; simpl; auto; tauto.
  - split; [discriminate|]. intros _. exfalso.
    inversion Hnd as [|? ? Hx Hnd1]; subst.
    inversion Hnd1 as [|? ? Hy Hnd2]; subst.
    simpl in Hx, Hy.
    destruct (Hval x) as [->| ->]; simpl; auto;
      destruct (Hval y) as [->| ->]; simpl; auto;
      destruct (Hval z) as [->| ->]; simpl; auto; tauto.
Qed.

Lemma str_length_append (a b : string) :
  String.length (a +:+ b) = (String.length a + String.length b)%nat.
Proof. induction a as [|c a IH]; simpl; [reflexivity|]. now rewrite IH. Qed.

Lemma batch_key_ne (b key : string) : b +:+ "_" +:+ key <> key.
Proof.
  intros H. apply (f_equal String.length) in H.
  rewrite !str_length_append in H. simpl in H. lia.
Qed.

(** C5, as stated, fails: in a collection whose cells all belong to the
    target group the binary column holds the single value "1"; and without
    subsetting, a group-label column that is itself called [keep] is
    overwritten before it is compared. *)
Lemma C5_counterexample :
  (exists ad',
     parseAdToDiffxpyFormat Examples.ad_one_group "ct" "A" OtherNone None 1 "temp" true
     = Ok ad'
     /\ Dict.get "temp" (obs ad') = Some ["1"; "1"]
     /\ length (unique ["1"; "1"]) <> 2%nat)
  /\ (exists ad',
     parseAdToDiffxpyFormat
       (mkAnnData (Dense [[1]; [1]]%Q) [] [("keep", ["A"; "B"])] ["g1"] [])
       "keep" "A" OtherNone None 1 "temp" false
     = Ok ad'
     /\ Dict.get "temp" (obs ad') = Some ["0"; "0"]).
Proof.
  split; eexists; (split; [vm_compute; reflexivity|]); repeat split; discriminate.
Qed.

Lemma obs_col_subset (mask : list bool) (k : Z) (tl : string) (ad : AnnData)
    (col : list string) :
  obs_col tl ad = Ok col ->
  obs_col tl (filter_genes k (subset_obs mask ad)) = Ok (select mask col).
Proof.
  unfold obs_col, filter_genes, subset_var, subset_obs. cbn [obs].
  rewrite (dict_get_map (select mask)).
  destruct (Dict.get tl (obs ad)); simpl; congruence.
Qed.

Lemma obs_col_set_eq (k : string) (v : list string) (ad : AnnData) :
  obs_col k (set_obs (Dict.set k v (obs ad)) ad) = Ok v.
Proof. unfold obs_col, set_obs. cbn [obs]. now rewrite dict_get_set_eq. Qed.

Lemma obs_col_set_ne (k k' : string) (v : list string) (ad : AnnData) :
  k <> k' -> obs_col k' (set_obs (Dict.set k v (obs ad)) ad) = obs_col k' ad.
Proof. intros H. unfold obs_col, set_obs. cbn [obs]. now rewrite dict_get_set_ne. Qed.

Lemma assign_binary_columns_get (ad1 ad' : AnnData) (testLabel testComp : string)
    (batchLabel : option string) (keyAdded : string) (kept : list string) :
  obs_col testLabel ad1 = Ok kept ->
  assign_binary_columns ad1 testLabel testComp batchLabel keyAdded = Ok ad' ->
  Dict.get keyAdded (obs ad') = Some (binary_column kept testComp).
Proof.
  intros Hk. unfold assign_binary_columns. rewrite Hk.
  unfold mbind, exc_bind, mret, exc_ret.
  destruct batchLabel as [b|].
  - destruct (truthy (Some b)).
    + destruct (obs_col b _) as [bcol|]; [|discriminate].
      rewrite obs_col_set_eq. intros [= <-]. cbn [obs set_obs].
      rewrite dict_get_set_ne by apply batch_key_ne.
      apply dict_get_set_eq.
    + intros [= <-]. cbn [obs set_obs]. apply dict_get_set_eq.
  - intros [= <-]. cbn [obs set_obs]. apply dict_get_set_eq.
Qed.

(** The annotation table the adapter leaves behind holds the binary column
    computed from the labels of the kept cells. *)
Lemma parseAd_binary (adata : AnnData) (testLabel testComp : string)
    (otherComp : OtherComp) (batchLabel : option string) (minCellCounts : Z)
    (keyAdded : string) (subset : bool) (ad' : AnnData) (col : list string) :
  obs_col testLabel adata = Ok col ->
  subset = true \/ testLabel <> "keep" ->
  parseAdToDiffxpyFormat adata testLabel testComp otherComp batchLabel minCellCounts
    keyAdded subset = Ok ad' ->
  Dict.get keyAdded (obs ad')
  = Some (binary_column (kept_labels col testComp otherComp subset) testComp).
Proof.
  intros Hcol Hkeep. unfold parseAdToDiffxpyFormat, kept_labels, resolved_otherComp.
  rewrite Hcol. unfold mbind, exc_bind, mret, exc_ret.
  destruct (other_truthy otherComp) eqn:Hot; cbn [negb]; destruct subset.
  all: apply assign_binary_columns_get.
  all: try now apply obs_col_subset.
  all: rewrite obs_col_set_ne; [assumption|];
       destruct Hkeep as [?|Hne]; [discriminate|congruence].
Qed.

(** C5 (amended): after the adapter, the binary column holds "1" for the
    kept cells whose group label is the target and "0" for the other kept
    cells; the number of "1" cells is the number of cells of the input
    whose label is the target; and the column has exactly two distinct
    values precisely when the kept cells include a target cell and a
    non-target cell.  (Without subsetting, the group-label column must not
    be the column [keep] that the adapter writes.) *)
Theorem parseAd_binary_column (adata : AnnData) (testLabel testComp : string)
    (otherComp : OtherComp) (batchLabel : option string) (minCellCounts : Z)
    (keyAdded : string) (subset : bool) (ad' : AnnData) (col : list string) :
  obs_col testLabel adata = Ok col ->
  subset = true \/ testLabel <> "keep" ->
  parseAdToDiffxpyFormat adata testLabel testComp otherComp batchLabel minCellCounts
    keyAdded subset = Ok ad' ->
  exists bin,
    Dict.get keyAdded (obs ad') = Some bin
    /\ Forall2 (fun l v => (v = "1" /\ l = testComp) \/ (v = "0" /\ l <> testComp))
               (kept_labels col testComp otherComp subset) bin
    /\ count_eq "1" bin = count_eq testComp col
    /\ (length (unique bin) = 2%nat <->
        In testComp (kept_labels col testComp otherComp subset)
        /\ exists x, In x (kept_labels col testComp otherComp subset) /\ x <> testComp).
Proof.
  intros Hcol Hkeep Hparse.
  exists (binary_column (kept_labels col testComp otherComp subset) testComp).
  split; [now apply (parseAd_binary _ _ _ _ _ _ _ _ _ _ Hcol Hkeep Hparse)|].
  split; [apply binary_column_pointwise|].
  split.
  - rewrite count_eq_binary_column. unfold kept_labels.
    destruct subset; [|reflexivity].
    rewrite select_isin. apply count_eq_filter_keep.
    unfold str_in. simpl. now rewrite String.eqb_refl.
  - rewrite (two_valued_length "1" "0"); [|discriminate|apply unique_NoDup|].
    + rewrite !unique_In, !In_binary_column. split.
      * intros [[[_ H1]|[Ha _]] [[Hb _]|[_ H0]]]; try discriminate. auto.
      * intros [H1 H0]. split; [left|right]; auto.
    + intros v Hv. rewrite unique_In, In_binary_column in Hv.
      destruct Hv as [[-> _]|[-> _]]; auto.
Qed.

Lemma parseAd_binary_column_witness :
  exists bin,
    Dict.get "temp" (obs Examples.ad2_temp) = Some bin
    /\ Forall2 (fun l v => (v = "1" /\ l = "A") \/ (v = "0" /\ l <> "A"))
               (kept_labels ["A"; "B"] "A" OtherNone true) bin
    /\ count_eq "1" bin = count_eq "A" ["A"; "B"]
    /\ (length (unique bin) = 2%nat <->
        In "A" (kept_labels ["A"; "B"] "A" OtherNone true)
        /\ exists x, In x (kept_labels ["A"; "B"] "A" OtherNone true) /\ x <> "A").
Proof.
  apply (parseAd_binary_column Examples.ad2 "ct" "A" OtherNone None 1 "temp" true
           Examples.ad2_temp ["A"; "B"]).
  - reflexivity.
  - left; reflexivity.
  - vm_compute; reflexivity.
Defined.

(** ** Reasoning rules for heap computations *)

Lemma hoare_ret {A} (P : Heap -> Prop) (a : A) (Q : A -> Heap -> Prop)
    (E : Heap -> Prop) :
  (forall h, P h -> Q a h) -> hoare P (mret a) Q E.
Proof. intros H h Hp. apply H, Hp. Qed.

Lemma hoare_bind {A B} (P : Heap -> Prop) (m : Py A) (k : A -> Py B)
    (R : A -> Heap -> Prop) (Q : B -> Heap -> Prop) (E : Heap -> Prop) :
  hoare P m R E -> (forall a, hoare (R a) (k a) Q E) -> hoare P (m ≫= k) Q E.
Proof.
  intros Hm Hk h Hp. unfold mbind, py_bind. specialize (Hm h Hp).
  destruct (m h) as [a h1|e h1]; [apply Hk, Hm|exact Hm].
Qed.

Lemma hoare_conseq {A} (P P' : Heap -> Prop) (m : Py A)
    (Q Q' : A -> Heap -> Prop) (E E' : Heap -> Prop) :
  hoare P' m Q' E' ->
  (forall h, P h -> P' h) -> (forall a h, Q' a h -> Q a h) ->
  (forall h, E' h -> E h) ->
  hoare P m Q E.
Proof.
  intros Hm HP HQ HE h Hp. specialize (Hm h (HP h Hp)).
  destruct (m h); auto.
Qed.

Lemma hoare_pre {A} (P P' : Heap -> Prop) (m : Py A)
    (Q : A -> Heap -> Prop) (E : Heap -> Prop) :
  (forall h, P h -> P' h) -> hoare P' m Q E -> hoare P m Q E.
Proof. intros HP Hm. eapply hoare_conseq; eauto. Qed.

Lemma hoare_post {A} (P : Heap -> Prop) (m : Py A)
    (Q Q' : A -> Heap -> Prop) (E : Heap -> Prop) :
  (forall a h, Q' a h -> Q a h) -> hoare P m Q' E -> hoare P m Q E.
Proof. intros HQ Hm. eapply hoare_conseq; eauto. Qed.

Lemma hoare_exn {A} (P : Heap -> Prop) (m : Py A)
    (Q : A -> Heap -> Prop) (E E' : Heap -> Prop) :
  (forall h, E' h -> E h) -> hoare P m Q E' -> hoare P m Q E.
Proof. intros HE Hm. eapply hoare_conseq; eauto. Qed.

Lemma hoare_lift_keep {A} (P : Heap -> Prop) (m : Exc A) :
  hoare P (lift m) (fun _ => P) P.
Proof. intros h Hp. unfold lift. destruct m; simpl; auto. Qed.

Lemma hoare_pure {A} (P : Heap -> Prop) (F : Prop) (m : Py A)
    (Q : A -> Heap -> Prop) (E : Heap -> Prop) :
  (F -> hoare P m Q E) -> hoare (fun h => P h /\ F) m Q E.
Proof. intros H h [Hp Hf]. apply H; auto. Qed.

Lemma hoare_lift {A} (P : Heap -> Prop) (m : Exc A) :
  hoare P (lift m) (fun a h => P h /\ m = Ok a) P.
Proof. intros h Hp. unfold lift. destruct m; simpl; auto. Qed.

Lemma hoare_get_adata (P : Heap -> Prop) (a : nat) :
  hoare P (get_adata a) (fun ad h => P h /\ adatas h !! a = Some ad) P.
Proof.
  intros h Hp. unfold get_adata.
  destruct (adatas h !! a) eqn:Ha; simpl; auto.
Qed.

Lemma hoare_get_frame (P : Heap -> Prop) (r : nat) :
  hoare P (get_frame r) (fun df h => P h /\ frames h !! r = Some df) P.
Proof.
  intros h Hp. unfold get_frame.
  destruct (frames h !! r) eqn:Hr; simpl; auto.
Qed.

Lemma hoare_get_frame_keep (P : Heap -> Prop) (r : nat) :
  hoare P (get_frame r) (fun _ => P) P.
Proof. eapply hoare_post; [|apply hoare_get_frame]. simpl. tauto. Qed.

Lemma hoare_entry_table_keep (P : Heap -> Prop) (e : Entry) :
  hoare P (entry_table e) (fun _ => P) P.
Proof. intros h Hp. destruct e; simpl; auto. Qed.

Lemma hoare_get_adata_keep (P : Heap -> Prop) (a : nat) :
  hoare P (get_adata a) (fun _ => P) P.
Proof. eapply hoare_post; [|apply hoare_get_adata]. simpl. tauto. Qed.

Lemma hoare_for_each {A} (J : Heap -> Prop) (E : Heap -> Prop)
    (l : list A) (body : A -> Py unit) :
  (forall x, In x l -> hoare J (body x) (fun _ => J) E) ->
  hoare J (for_each l body) (fun _ => J) E.
Proof.
  induction l as [|x l IH]; intros Hbody; simpl.
  - apply hoare_ret. auto.
  - eapply hoare_bind; [apply Hbody; now left|].
    intros []. apply IH. intros y Hy. apply Hbody. now right.
Qed.

Lemma hoare_map_py {A B} (J : Heap -> Prop) (E : Heap -> Prop) (R : B -> Prop)
    (f : A -> Py B) (l : list A) :
  (forall x, In x l -> hoare J (f x) (fun y h => J h /\ R y) E) ->
  hoare J (map_py f l) (fun ys h => J h /\ Forall R ys) E.
Proof.
  induction l as [|x l IH]; intros Hf; simpl.
  - apply hoare_ret. auto.
  - eapply hoare_bind; [apply Hf; now left|].
    intros y. simpl.
    intros h [Hj Hy]. unfold mbind, py_bind.
    assert (IH' := IH (fun z Hz => Hf z (or_intror Hz)) h Hj).
    destruct (map_py f l h) as [ys h1|e h1]; [|exact IH'].
    destruct IH' as [Hj1 Hys]. simpl. split; auto.
Qed.

(** ** What the dispatchers leave untouched *)

Lemma In_dict_set {V} (k k' : string) (v v' : V) (d : Dict.t V) :
  In (k', v') (Dict.set k v d) -> (k' = k /\ v' = v) \/ In (k', v') d.
Proof.
  induction d as [|[k0 v0] d IH]; simpl.
  - intros [[= <- <-]|[]]. auto.
  - destruct (String.eqb k k0); simpl.
    + intros [[= <- <-]|H]; auto.
    + intros [H|H]; auto. destruct (IH H); auto.
Qed.

Lemma dict_get_In {V} (k : string) (v : V) (d : Dict.t V) :
  Dict.get k d = Some v -> In (k, v) d.
Proof.
  induction d as [|[k0 v0] d IH]; simpl; [discriminate|].
  destruct (String.eqb_spec k k0) as [->|Hne].
  - intros [= ->]. now left.
  - intros H. right. auto.
Qed.

Lemma fresh_refs_set (n : nat) (k : string) (e : Entry) (d : Dict.t Entry) :
  (forall r, e = Tbl r -> (n <= r)%nat) -> fresh_refs n d ->
  fresh_refs n (Dict.set k e d).
Proof.
  intros He Hd k' r Hin. apply In_dict_set in Hin.
  destruct Hin as [[_ Hr]|Hin]; [apply He; auto|eapply Hd; eauto].
Qed.

Lemma fresh_refs_update (n : nat) (e d : Dict.t Entry) :
  fresh_refs n e -> fresh_refs n d -> fresh_refs n (Dict.update e d).
Proof.
  unfold Dict.update. revert d.
  induction e as [|[k v] e IH]; intros d He Hd; simpl; [exact Hd|].
  apply IH.
  - intros k' r Hin. apply (He k' r). now right.
  - apply fresh_refs_set; auto. intros r ->. apply (He k r). now left.
Qed.

Section Frame.

Variables (hb : Heap) (t : nat) (key : string).

Lemma inv_lift {A} (m : Exc A) :
  hoare (dispatch_inv hb t key) (lift m) (fun a h => dispatch_inv hb t key h /\ m = Ok a) (dispatch_inv hb t key).
Proof. apply hoare_lift. Qed.

Lemma inv_new_frame (df : DataFrame) :
  hoare (dispatch_inv hb t key) (new_frame df) (fun r h => dispatch_inv hb t key h /\ (length (frames hb) <= r)%nat) (dispatch_inv hb t key).
Proof.
  intros h [(Hla & Hlf & Hfr & Had) (d & ad & Hb & Ht & Hd)]. unfold new_frame.
  split; [|exact Hlf].
  split.
  - repeat split; cbn [frames adatas]; auto.
    + rewrite length_app. lia.
    + intros r Hr. rewrite lookup_app_l by lia. auto.
  - exists d, ad. auto.
Qed.

Lemma inv_set_frame (r : nat) (df : DataFrame) :
  (length (frames hb) <= r)%nat ->
  hoare (dispatch_inv hb t key) (set_frame r df) (fun _ => (dispatch_inv hb t key)) (dispatch_inv hb t key).
Proof.
  intros Hr h [(Hla & Hlf & Hfr & Had) (d & ad & Hb & Ht & Hd)]. unfold set_frame.
  split.
  - repeat split; cbn [frames adatas]; auto.
    + rewrite length_insert. exact Hlf.
    + intros r' Hr'. rewrite list_lookup_insert_ne by lia. auto.
  - exists d, ad. auto.
Qed.

Lemma inv_uns_get :
  hoare (dispatch_inv hb t key) (uns_get t key)
    (fun d h => dispatch_inv hb t key h /\ result_at hb t key d h) (dispatch_inv hb t key).
Proof.
  intros h Hj. pose proof Hj as [_ (d & ad & Hb & Ht & Hd)].
  unfold uns_get, mbind, py_bind, get_adata. rewrite Ht. unfold lift.
  cbn [uns set_uns]. rewrite dict_get_set_eq. simpl.
  split; [exact Hj|]. exists ad. auto.
Qed.

Lemma inv_uns_set (d' : Dict.t Entry) :
  fresh_refs (length (frames hb)) d' ->
  hoare (dispatch_inv hb t key) (uns_set t key d') (fun _ h => dispatch_inv hb t key h /\ result_at hb t key d' h) (dispatch_inv hb t key).
Proof.
  intros Hd' h [(Hla & Hlf & Hfr & Had) (d & ad & Hb & Ht & Hd)].
  unfold uns_set, mbind, py_bind, get_adata. rewrite Ht. unfold set_adata.
  assert (Hlt : (t < length (adatas h))%nat) by (eapply lookup_lt_Some; eauto).
  assert (Hres : result_at hb t key d'
                   (mkHeap (frames h)
                      (<[t := set_uns (Dict.set key d' (uns (set_uns (Dict.set key d (uns ad)) ad)))
                                      (set_uns (Dict.set key d (uns ad)) ad)]> (adatas h)))).
  { exists ad. repeat split; auto. cbn [adatas uns set_uns].
    rewrite list_lookup_insert_eq by exact Hlt.
    unfold set_uns. cbn. now rewrite dict_set_set. }
  split; [|exact Hres]. split; [|eauto].
  repeat split; cbn [frames adatas]; auto.
  - now rewrite length_insert.
  - intros a Ha. rewrite list_lookup_insert_ne by congruence. auto.
Qed.

Lemma inv_uns_entry_set (k : string) (e : Entry) :
  (forall r, e = Tbl r -> (length (frames hb) <= r)%nat) ->
  hoare (dispatch_inv hb t key) (uns_entry_set t key k e) (fun _ => (dispatch_inv hb t key)) (dispatch_inv hb t key).
Proof.
  intros He. unfold uns_entry_set.
  eapply hoare_bind; [apply inv_uns_get|].
  intros d. simpl.
  intros h [Hj (ad & Hb & Ht & Hd)].
  assert (H := inv_uns_set (Dict.set k e d) (fresh_refs_set _ _ _ _ He Hd) h Hj).
  destruct (uns_set t key (Dict.set k e d) h); tauto.
Qed.

Lemma inv_uns_entry_get (k : string) :
  hoare (dispatch_inv hb t key) (uns_entry_get t key k)
    (fun e h => dispatch_inv hb t key h /\ forall r, e = Tbl r -> (length (frames hb) <= r)%nat) (dispatch_inv hb t key).
Proof.
  unfold uns_entry_get.
  eapply hoare_bind; [apply inv_uns_get|].
  intros d h [Hj (ad & Hb & Ht & Hd)]. unfold lift.
  destruct (Dict.get k d) as [e|] eqn:Hk; simpl; auto.
  split; auto. intros r ->. apply (Hd k r). now apply dict_get_In.
Qed.

Lemma inv_entry_table (e : Entry) :
  hoare (dispatch_inv hb t key) (entry_table e) (fun r h => dispatch_inv hb t key h /\ e = Tbl r) (dispatch_inv hb t key).
Proof. intros h Hj. destruct e; simpl; auto. Qed.

End Frame.

Lemma frame_kept_refl (hb : Heap) (t : nat) : frame_kept hb t hb.
Proof. repeat split; auto. Qed.

Lemma set_uns_id (ad : AnnData) (u : Dict.t (Dict.t Entry)) :
  uns (set_uns u ad) = u.
Proof. reflexivity. Qed.

(** The first assignment [adataOrg.uns[keyAdded] = {...}] establishes the
    invariant. *)
Lemma init_uns_set (hb : Heap) (t : nat) (key : string) (ad : AnnData)
    (d0 : Dict.t Entry) :
  adatas hb !! t = Some ad -> fresh_refs (length (frames hb)) d0 ->
  hoare (fun h => h = hb) (uns_set t key d0)
    (fun _ => dispatch_inv hb t key) (frame_kept hb t).
Proof.
  intros Ht Hd h ->. unfold uns_set, mbind, py_bind, get_adata. rewrite Ht.
  unfold set_adata.
  assert (Hlt : (t < length (adatas hb))%nat) by (eapply lookup_lt_Some; eauto).
  split.
  - repeat split; cbn [frames adatas]; auto.
    + now rewrite length_insert.
    + intros a Ha. now rewrite list_lookup_insert_ne by congruence.
  - exists d0, ad. repeat split; auto. cbn [adatas].
    now rewrite list_lookup_insert_eq by exact Hlt.
Qed.

Lemma inv_collect_result (hb : Heap) (t : nat) (key : string)
    (kv : string * Exc DataFrame) :
  hoare (dispatch_inv hb t key) (collect_result kv)
    (fun y h => dispatch_inv hb t key h
                /\ forall r, snd y = Tbl r -> (length (frames hb) <= r)%nat)
    (dispatch_inv hb t key).
Proof.
  unfold collect_result.
  eapply hoare_bind; [apply hoare_lift_keep|]. intros df.
  eapply hoare_bind; [apply inv_new_frame|]. intros r.
  apply hoare_ret. intros h [Hj Hr]. split; auto.
  simpl. intros r' [= <-]. exact Hr.
Qed.

Lemma fresh_refs_Forall (n : nat) (l : list (string * Entry)) :
  Forall (fun y => forall r, snd y = Tbl r -> (n <= r)%nat) l -> fresh_refs n l.
Proof.
  intros Hall k r Hin. rewrite List.Forall_forall in Hall.
  exact (Hall (k, Tbl r) Hin r eq_refl).
Qed.

Section RunFrame.

Variable wald : AnnData -> string -> string -> bool -> option string -> Exc DataFrame.
Variable getPartialLayersAdata : AnnData -> string -> list (option string) -> Exc AnnData.
Variable np_exp : Q -> Q.
Variable expm : list (list Q) -> list (list Q).
Variable np_sum : list Q -> Q.

Lemma vsRest_run_frame (hb : Heap) (t : nat) (ad : AnnData)
    (layer testLabel : string) (groups : list string) (batchLabel : option string)
    (minCellCounts : Z) (sizeFactor : option string) (inputIsLog : bool)
    (keyAdded : string) (quickScale constrainModel : bool) (threads : Z)
    (copy : bool) :
  adatas hb !! t = Some ad ->
  hoare (fun h => h = hb)
    (vsRest_run wald getPartialLayersAdata np_exp expm np_sum t layer testLabel groups
       batchLabel minCellCounts sizeFactor inputIsLog keyAdded quickScale
       constrainModel threads copy)
    (fun ret h => frame_kept hb t h
                  /\ exists d, result_at hb t keyAdded d h
                               /\ ret = if copy then Some d else None)
    (frame_kept hb t).
Proof.
  intros Ht. unfold vsRest_run.
  assert (Hrefl : forall h, h = hb -> frame_kept hb t h)
    by (intros h ->; apply frame_kept_refl).
  eapply hoare_bind.
  { apply (hoare_exn _ _ _ _ (fun h => h = hb) Hrefl).
    apply (hoare_post _ _ (fun _ h => h = hb)
             (fun org h => h = hb /\ adatas h !! t = Some org));
      [tauto|apply hoare_get_adata]. }
  intros org.
  eapply hoare_bind.
  { apply (hoare_exn _ _ _ _ (fun h => h = hb) Hrefl). apply hoare_lift_keep. }
  intros adata.
  eapply hoare_bind.
  { apply (init_uns_set hb t keyAdded ad); auto. intros k r [[=]|[]]. }
  intros [].
  apply hoare_exn with (E' := dispatch_inv hb t keyAdded); [intros h [H _]; exact H|].
  eapply hoare_bind with (R := fun _ => dispatch_inv hb t keyAdded).
  - destruct (1 <? threads)%Z.
    + eapply hoare_bind; [apply hoare_lift_keep|]. intros mtx.
      eapply hoare_bind.
      { apply (hoare_map_py (dispatch_inv hb t keyAdded) (dispatch_inv hb t keyAdded)
                 (fun y => forall r, snd y = Tbl r -> (length (frames hb) <= r)%nat)).
        intros x _. apply inv_collect_result. }
      intros res.
      intros h [Hj Hres]. unfold mbind, py_bind.
      pose proof (inv_uns_get hb t keyAdded h Hj) as Hg.
      destruct (uns_get t keyAdded h) as [d h1|e h1]; [|exact Hg].
      destruct Hg as [Hj1 (ad1 & _ & _ & Hd)].
      pose proof (inv_uns_set hb t keyAdded (Dict.update res d)
                    (fresh_refs_update _ _ _ (fresh_refs_Forall _ _ Hres) Hd) h1 Hj1) as Hs.
      destruct (uns_set t keyAdded (Dict.update res d) h1); tauto.
    + apply hoare_for_each. intros g _.
      eapply hoare_bind; [apply hoare_lift_keep|]. intros test.
      eapply hoare_bind; [apply inv_new_frame|]. intros r h [Hj Hr].
      apply (inv_uns_entry_set hb t keyAdded g (Tbl r));
        [intros r' [= <-]; exact Hr|exact Hj].
  - intros []. destruct copy.
    + eapply hoare_bind; [apply inv_uns_get|]. intros d. apply hoare_ret.
      intros h [[Hf Hex] Hres]. split; eauto.
    + apply hoare_ret. intros h [Hf (d & Hres)]. split; eauto.
Qed.

Lemma inv_pairWise_compute (hb : Heap) (t : nat) (keyAdded : string)
    (adata : AnnData) (testLabel : string) (groups : list string)
    (batchLabel : option string) (minCellCounts : Z) (quickScale : bool)
    (sizeFactor : option string) (constrainModel : bool) (xy : nat * nat) :
  hoare (dispatch_inv hb t keyAdded)
    (pairWise_compute wald t keyAdded adata testLabel groups batchLabel
       minCellCounts quickScale sizeFactor constrainModel xy)
    (fun _ => dispatch_inv hb t keyAdded) (dispatch_inv hb t keyAdded).
Proof.
  unfold pairWise_compute. destruct xy as [x y].
  destruct (y <=? x)%nat; [apply hoare_ret; auto|].
  eapply hoare_bind; [apply hoare_lift_keep|]. intros testGroup.
  eapply hoare_bind; [apply hoare_lift_keep|]. intros backgroundGroup.
  eapply hoare_bind; [apply hoare_lift_keep|]. intros test.
  eapply hoare_bind; [apply inv_new_frame|]. intros r.
  apply hoare_pure. intros Hr.
  apply inv_uns_entry_set. intros r' [= <-]. exact Hr.
Qed.

Lemma inv_stored_table (hb : Heap) (t : nat) (keyAdded k : string) :
  hoare (dispatch_inv hb t keyAdded)
    (e ← uns_entry_get t keyAdded k; entry_table e)
    (fun r h => dispatch_inv hb t keyAdded h /\ (length (frames hb) <= r)%nat)
    (dispatch_inv hb t keyAdded).
Proof.
  eapply hoare_bind; [apply inv_uns_entry_get|]. intros e.
  apply hoare_pure. intros He.
  eapply hoare_post; [|apply inv_entry_table].
  intros r h [Hj ->]. split; auto.
Qed.

Lemma inv_pairWise_mirror (hb : Heap) (t : nat) (keyAdded : string)
    (groups : list string) (xy : nat * nat) :
  hoare (dispatch_inv hb t keyAdded)
    (pairWise_mirror t keyAdded groups xy)
    (fun _ => dispatch_inv hb t keyAdded) (dispatch_inv hb t keyAdded).
Proof.
  unfold pairWise_mirror. destruct xy as [x y].
  destruct (x <=? y)%nat; [apply hoare_ret; auto|].
  eapply hoare_bind; [apply hoare_lift_keep|]. intros testGroup.
  eapply hoare_bind; [apply hoare_lift_keep|]. intros backgroundGroup.
  eapply hoare_bind; [apply inv_uns_entry_get|]. intros e.
  apply hoare_pure. intros _.
  eapply hoare_bind; [apply hoare_entry_table_keep|].
  intros r.
  eapply hoare_bind; [apply hoare_get_frame_keep|].
  intros df.
  eapply hoare_bind; [apply inv_new_frame|]. intros r'.
  apply hoare_pure. intros Hr'.
  eapply hoare_bind;
    [apply inv_uns_entry_set; intros r0 [= <-]; exact Hr'|]. intros [].
  eapply hoare_bind; [apply inv_uns_entry_get|]. intros e1.
  apply hoare_pure. intros _.
  eapply hoare_bind; [apply hoare_entry_table_keep|].
  intros r1.
  eapply hoare_bind; [apply hoare_get_frame_keep|].
  intros df1.
  eapply hoare_bind; [apply inv_uns_entry_get|]. intros e2.
  apply hoare_pure. intros He2.
  eapply hoare_bind; [apply inv_entry_table|]. intros r2.
  apply hoare_pure. intros ->.
  eapply hoare_bind; [apply hoare_get_frame_keep|].
  intros df2.
  apply inv_set_frame. now apply He2.
Qed.

Lemma pairWise_run_frame (hb : Heap) (t : nat) (ad : AnnData)
    (layer testLabel : string) (groups : list string) (batchLabel : option string)
    (minCellCounts : Z) (sizeFactor : option string) (inputIsLog : bool)
    (keyAdded : string) (quickScale constrainModel : bool) (copy : bool) :
  adatas hb !! t = Some ad ->
  hoare (fun h => h = hb)
    (pairWise_run wald getPartialLayersAdata np_exp t layer testLabel groups
       batchLabel minCellCounts sizeFactor inputIsLog keyAdded quickScale
       constrainModel copy)
    (fun ret h => frame_kept hb t h
                  /\ exists d, result_at hb t keyAdded d h
                               /\ ret = if copy then Some d else None)
    (frame_kept hb t).
Proof.
  intros Ht. unfold pairWise_run.
  assert (Hrefl : forall h, h = hb -> frame_kept hb t h)
    by (intros h ->; apply frame_kept_refl).
  eapply hoare_bind.
  { apply (hoare_exn _ _ _ _ (fun h => h = hb) Hrefl).
    apply (hoare_post _ _ (fun _ h => h = hb)
             (fun org h => h = hb /\ adatas h !! t = Some org));
      [tauto|apply hoare_get_adata]. }
  intros org.
  eapply hoare_bind.
  { apply (hoare_exn _ _ _ _ (fun h => h = hb) Hrefl). apply hoare_lift_keep. }
  intros adata.
  eapply hoare_bind.
  { apply (init_uns_set hb t keyAdded ad); auto. intros k r [[=]|[]]. }
  intros [].
  apply hoare_exn with (E' := dispatch_inv hb t keyAdded); [intros h [H _]; exact H|].
  eapply hoare_bind.
  { apply hoare_for_each. intros xy _. apply inv_pairWise_compute. }
  intros [].
  eapply hoare_bind.
  { apply hoare_for_each. intros xy _. apply inv_pairWise_mirror. }
  intros []. destruct copy.
  - eapply hoare_bind; [apply inv_uns_get|]. intros d. apply hoare_ret.
    intros h [[Hf Hex] Hres]. split; eauto.
  - apply hoare_ret. intros h [Hf (d & Hres)]. split; eauto.
Qed.

End RunFrame.


(** *** [adata.copy()] only adds objects *)

Lemma extends_refl (h : Heap) : extends h h.
Proof. split; exists []; now rewrite app_nil_r. Qed.

Lemma extends_trans (h1 h2 h3 : Heap) : extends h1 h2 -> extends h2 h3 -> extends h1 h3.
Proof.
  intros [[f1 Hf1] [a1 Ha1]] [[f2 Hf2] [a2 Ha2]]. split.
  - exists (f1 ++ f2)%list. now rewrite Hf2, Hf1, app_assoc.
  - exists (a1 ++ a2)%list. now rewrite Ha2, Ha1, app_assoc.
Qed.

Lemma extends_preserved (h0 h : Heap) : extends h0 h -> preserved h0 h.
Proof.
  intros [[fs Hf] [ads Ha]]. split; intros i Hi.
  - rewrite Hf. now apply lookup_app_l.
  - rewrite Ha. now apply lookup_app_l.
Qed.

Lemma copying_extends (h0 h : Heap) : copying h0 h -> extends h0 h.
Proof. intros [Ha Hf]. split; auto. exists []. now rewrite app_nil_r. Qed.

Lemma copy_entry_copying (h0 : Heap) (kv : string * Entry) :
  hoare (copying h0) (copy_entry kv) (fun _ h => copying h0 h /\ True) (copying h0).
Proof.
  unfold copy_entry. destruct (snd kv) as [c|r].
  - apply hoare_ret. auto.
  - eapply hoare_bind; [apply hoare_get_frame_keep|]. intros df.
    eapply hoare_bind with (R := fun _ => copying h0).
    + intros h [Ha [fs Hf]]. unfold new_frame. split; cbn [frames adatas]; auto.
      exists (fs ++ [df])%list. now rewrite Hf, app_assoc.
    + intros r'. apply hoare_ret. auto.
Qed.

Lemma copy_mapping_copying (h0 : Heap) (kv : string * Dict.t Entry) :
  hoare (copying h0) (copy_mapping kv) (fun _ h => copying h0 h /\ True) (copying h0).
Proof.
  unfold copy_mapping.
  eapply hoare_bind.
  - apply (hoare_map_py (copying h0) (copying h0) (fun _ => True)).
    intros x _. apply copy_entry_copying.
  - intros d. apply hoare_ret. tauto.
Qed.

Lemma adata_copy_spec (h0 : Heap) (a : nat) (ad : AnnData) :
  adatas h0 !! a = Some ad ->
  hoare (fun h => h = h0) (adata_copy a)
    (fun t h => t = length (adatas h0)
                /\ extends h0 h
                /\ length (adatas h) = S (length (adatas h0))
                /\ exists u, adatas h !! t = Some (set_uns u ad))
    (extends h0).
Proof.
  intros Ha. unfold adata_copy.
  eapply hoare_bind with (R := fun ad' h => h = h0 /\ ad' = ad).
  { intros h ->. unfold get_adata. rewrite Ha. auto. }
  intros ad'. apply hoare_pure. intros ->.
  eapply hoare_bind with (R := fun _ => copying h0).
  { apply hoare_exn with (E' := copying h0); [apply copying_extends|].
    apply hoare_pre with (P' := copying h0).
    { intros h ->. split; auto. exists []. now rewrite app_nil_r. }
    eapply hoare_post;
      [|apply (hoare_map_py (copying h0) (copying h0) (fun _ => True));
        intros x _; apply copy_mapping_copying].
    simpl. tauto. }
  intros u h [Hads [fs Hf]]. unfold new_adata.
  rewrite Hads. split; [reflexivity|]. cbn [adatas frames]. split; [|split].
  - split; [exists fs; exact Hf|]. exists [set_uns u ad]. reflexivity.
  - rewrite length_app. simpl. lia.
  - exists u. rewrite lookup_app_r by lia.
    now rewrite Nat.sub_diag.
Qed.

Lemma resolve_groups_pure (h0 : Heap) (a : nat) (testLabel : string)
    (groups : option (list string)) :
  hoare (fun h => h = h0) (resolve_groups a testLabel groups)
    (fun _ h => h = h0) (fun h => h = h0).
Proof.
  unfold resolve_groups. destruct groups as [[|g gs]|].
  2: { apply hoare_ret. auto. }
  all: eapply hoare_bind; [apply hoare_get_adata_keep|];
       intros ad; eapply hoare_bind; [apply hoare_lift_keep|];
       intros col; apply hoare_ret; auto.
Qed.

(** A frame that holds relative to a copy-extended heap holds relative to
    the heap before the copy. *)
Lemma frame_kept_preserved (h0 hb h : Heap) (t : nat) :
  extends h0 hb -> t = length (adatas h0) -> frame_kept hb t h -> preserved h0 h.
Proof.
  intros Hext -> (Hla & Hlf & Hfr & Had).
  pose proof Hext as [[fs Hf] [ads Ha]].
  destruct (extends_preserved _ _ Hext) as [Pf Pa].
  split; intros i Hi.
  - rewrite <- Pf by exact Hi. apply Hfr. rewrite Hf, length_app. lia.
  - rewrite <- Pa by exact Hi. apply Had. lia.
Qed.

(** *** The contract of the copy flag, for any dispatcher body that keeps
    the frame *)

Section CopyFlag.

Variable run : nat -> list string -> bool -> Py (option (Dict.t Entry)).
Variable key : string.

Hypothesis run_frame : forall hb t ad groups copy,
  adatas hb !! t = Some ad ->
  hoare (fun h => h = hb) (run t groups copy)
    (fun ret h => frame_kept hb t h
                  /\ exists d, result_at hb t key d h
                               /\ ret = if copy then Some d else None)
    (frame_kept hb t).

Lemma dispatcher_with_copy (h0 : Heap) (a : nat) (ad : AnnData)
    (testLabel : string) (groups : option (list string)) :
  adatas h0 !! a = Some ad ->
  hoare (fun h => h = h0)
    (groups ← resolve_groups a testLabel groups;
     adataOrg ← adata_copy a;
     run adataOrg groups true)
    (fun ret h => preserved h0 h
                  /\ exists d cp, ret = Some d
                       /\ adatas h !! length (adatas h0) = Some cp
                       /\ Dict.get key (uns cp) = Some d)
    (preserved h0).
Proof.
  intros Ha.
  eapply hoare_bind.
  { apply hoare_exn with (E' := fun h => h = h0);
      [intros h ->; apply extends_preserved, extends_refl|].
    apply resolve_groups_pure. }
  intros gs.
  eapply hoare_bind.
  { apply hoare_exn with (E' := extends h0); [apply extends_preserved|].
    apply (adata_copy_spec h0 a ad Ha). }
  intros t hb (-> & Hext & Hlen & u & Hu).
  pose proof (run_frame hb (length (adatas h0)) (set_uns u ad) gs true Hu hb eq_refl) as Hrun.
  destruct (run (length (adatas h0)) gs true hb) as [ret h|e h].
  - destruct Hrun as [Hfk (d & (ad' & Hb & Ht & _) & ->)].
    split; [eapply frame_kept_preserved; eauto|].
    exists d, (set_uns (Dict.set key d (uns ad')) ad'). repeat split; auto.
    cbn [uns set_uns]. apply dict_get_set_eq.
  - eapply frame_kept_preserved; eauto.
Qed.

Lemma dispatcher_in_place (h0 : Heap) (a : nat) (ad : AnnData)
    (testLabel : string) (groups : option (list string)) :
  adatas h0 !! a = Some ad ->
  hoare (fun h => h = h0)
    (groups ← resolve_groups a testLabel groups;
     adataOrg ← mret a;
     run adataOrg groups false)
    (fun ret h => ret = None /\ frame_kept h0 a h
                  /\ exists d, adatas h !! a = Some (set_uns (Dict.set key d (uns ad)) ad)
                               /\ fresh_refs (length (frames h0)) d)
    (fun _ => True).
Proof.
  intros Ha.
  eapply hoare_bind.
  { apply hoare_exn with (E' := fun h => h = h0); [auto|]. apply resolve_groups_pure. }
  intros gs.
  eapply hoare_bind with (R := fun t h => h = h0 /\ t = a);
    [apply hoare_ret; intros h H; auto|].
  intros t. apply hoare_pure. intros ->.
  eapply hoare_conseq; [apply (run_frame h0 a ad gs false Ha)| | |]; simpl; auto.
  intros ret h [Hfk (d & (ad' & Hb & Ht & Hd) & ->)].
  rewrite Ha in Hb. injection Hb as <-. eauto.
Qed.

End CopyFlag.

(** C9: with the copy flag, [vsRest] and [pairWise] return the result
    mapping (the one stored in the copy they made) and leave everything
    that existed before the call unchanged: the caller's collection with
    its matrix, annotation table and metadata store, and every stored
    table, whether the call returns or raises.  Without the flag they
    return [None], and the caller's collection differs only in the entry
    of its metadata store at the result key, which is replaced by the
    mapping built from new tables; no other object of the heap changes. *)
Theorem copy_flag_contract
    (wald : AnnData -> string -> string -> bool -> option string -> Exc DataFrame)
    (getPartialLayersAdata : AnnData -> string -> list (option string) -> Exc AnnData)
    (np_exp : Q -> Q) (expm : list (list Q) -> list (list Q))
    (np_sum : list Q -> Q)
    (h0 : Heap) (adata : nat) (ad : AnnData)
    (layer : option string) (testLabel : string)
    (groups : option (list string)) (batchLabel : option string)
    (minCellCounts : Z) (sizeFactor : option string) (inputIsLog : bool)
    (keyAdded : option string) (quickScale constrainModel : bool) (threads : Z) :
  adatas h0 !! adata = Some ad ->
  let vs copy :=
    vsRest wald getPartialLayersAdata np_exp expm np_sum adata layer testLabel groups
      batchLabel minCellCounts sizeFactor inputIsLog keyAdded quickScale
      constrainModel threads copy h0 in
  let pw copy :=
    pairWise wald getPartialLayersAdata np_exp adata layer testLabel groups
      batchLabel minCellCounts sizeFactor inputIsLog keyAdded quickScale
      constrainModel copy h0 in
  let key_vs := default_key "diffxpyVsRest_" testLabel keyAdded in
  let key_pw := default_key "diffxpyPairWise_" testLabel keyAdded in
  (preserved h0 (outcome_heap (vs true))
   /\ returns_mapping_of_copy h0 key_vs (vs true)
   /\ stores_mapping_in_place h0 adata ad key_vs (vs false))
  /\ (preserved h0 (outcome_heap (pw true))
      /\ returns_mapping_of_copy h0 key_pw (pw true)
      /\ stores_mapping_in_place h0 adata ad key_pw (pw false)).
Proof.
  intros Ha vs pw key_vs key_pw.
  pose proof (fun hb t ad' gs copy =>
    vsRest_run_frame wald getPartialLayersAdata np_exp expm np_sum hb t ad'
      (default_layer layer) testLabel gs batchLabel minCellCounts sizeFactor
      inputIsLog key_vs quickScale constrainModel threads copy) as Hvs.
  pose proof (fun hb t ad' gs copy =>
    pairWise_run_frame wald getPartialLayersAdata np_exp hb t ad'
      (default_layer layer) testLabel gs batchLabel minCellCounts sizeFactor
      inputIsLog key_pw quickScale constrainModel copy) as Hpw.
  pose proof (dispatcher_with_copy _ key_vs Hvs h0 adata ad testLabel groups Ha
                h0 eq_refl) as Hvt.
  pose proof (dispatcher_in_place _ key_vs Hvs h0 adata ad testLabel groups Ha
                h0 eq_refl) as Hvf.
  pose proof (dispatcher_with_copy _ key_pw Hpw h0 adata ad testLabel groups Ha
                h0 eq_refl) as Hpt.
  pose proof (dispatcher_in_place _ key_pw Hpw h0 adata ad testLabel groups Ha
                h0 eq_refl) as Hpf.
  change (vs true) with
    ((groups ← resolve_groups adata testLabel groups;
      adataOrg ← adata_copy adata;
      vsRest_run wald getPartialLayersAdata np_exp expm np_sum adataOrg (default_layer layer)
        testLabel groups batchLabel minCellCounts sizeFactor inputIsLog key_vs
        quickScale constrainModel threads true) h0).
  change (vs false) with
    ((groups ← resolve_groups adata testLabel groups;
      adataOrg ← mret adata;
      vsRest_run wald getPartialLayersAdata np_exp expm np_sum adataOrg (default_layer layer)
        testLabel groups batchLabel minCellCounts sizeFactor inputIsLog key_vs
        quickScale constrainModel threads false) h0).
  change (pw true) with
    ((groups ← resolve_groups adata testLabel groups;
      adataOrg ← adata_copy adata;
      pairWise_run wald getPartialLayersAdata np_exp adataOrg (default_layer layer)
        testLabel groups batchLabel minCellCounts sizeFactor inputIsLog key_pw
        quickScale constrainModel true) h0).
  change (pw false) with
    ((groups ← resolve_groups adata testLabel groups;
      adataOrg ← mret adata;
      pairWise_run wald getPartialLayersAdata np_exp adataOrg (default_layer layer)
        testLabel groups batchLabel minCellCounts sizeFactor inputIsLog key_pw
        quickScale constrainModel false) h0).
  cbv beta in Hvt, Hvf, Hpt, Hpf.
  unfold returns_mapping_of_copy, stores_mapping_in_place.
  split; (split; [|split]).
  - match type of Hvt with
    | match ?o with _ => _ end => destruct o as [ret h|e h]
    end; simpl; tauto.
  - intros ret h Heq. rewrite Heq in Hvt. tauto.
  - intros ret h Heq. rewrite Heq in Hvf. tauto.
  - match type of Hpt with
    | match ?o with _ => _ end => destruct o as [ret h|e h]
    end; simpl; tauto.
  - intros ret h Heq. rewrite Heq in Hpt. tauto.
  - intros ret h Heq. rewrite Heq in Hpf. tauto.
Qed.

(** ** Running a heap computation step by step *)

Lemma bind_Return {A B} (m : Py A) (k : A -> Py B) (h : Heap) (b : B) (h' : Heap) :
  (m ≫= k) h = Return b h' ->
  exists a h1, m h = Return a h1 /\ k a h1 = Return b h'.
Proof.
  unfold mbind, py_bind. destruct (m h) as [a h1|e h1]; [eauto|discriminate].
Qed.

Lemma lift_Return {A} (m : Exc A) (h : Heap) (a : A) (h' : Heap) :
  lift m h = Return a h' -> m = Ok a /\ h' = h.
Proof. unfold lift. destruct m; intros [= <- <-] || intros [=]; auto. Qed.

Lemma ret_Return {A} (a b : A) (h h' : Heap) :
  mret (M := Py) a h = Return b h' -> b = a /\ h' = h.
Proof. intros [= <- <-]. auto. Qed.

Lemma new_frame_Return (df : DataFrame) (h : Heap) (r : nat) (h' : Heap) :
  new_frame df h = Return r h' ->
  r = length (frames h)
  /\ frames h' = (frames h ++ [df])%list /\ adatas h' = adatas h.
Proof. intros [= <- <-]. auto. Qed.

Lemma get_frame_Return (r : nat) (h : Heap) (df : DataFrame) (h' : Heap) :
  get_frame r h = Return df h' -> h' = h /\ frames h !! r = Some df.
Proof.
  unfold get_frame. destruct (frames h !! r); intros [= <- <-] || intros [=]; auto.
Qed.

Lemma set_frame_Return (r : nat) (df : DataFrame) (h : Heap) (u : unit) (h' : Heap) :
  set_frame r df h = Return u h' ->
  frames h' = <[r := df]> (frames h) /\ adatas h' = adatas h.
Proof. unfold set_frame. intros H. injection H as H. subst h'. split; reflexivity. Qed.

Lemma entry_table_Return (e : Entry) (h : Heap) (r : nat) (h' : Heap) :
  entry_table e h = Return r h' -> h' = h /\ e = Tbl r.
Proof. destruct e; intros [= <- <-] || intros [=]; auto. Qed.

Lemma mapping_at_functional (t : nat) (key : string) (d d' : Dict.t Entry) (h : Heap) :
  mapping_at t key d h -> mapping_at t key d' h -> d = d'.
Proof. intros (a1 & H1 & G1) (a2 & H2 & G2). congruence. Qed.

Lemma mapping_at_adatas (t : nat) (key : string) (d : Dict.t Entry) (h h' : Heap) :
  adatas h' = adatas h -> mapping_at t key d h -> mapping_at t key d h'.
Proof. intros Heq (a & H & G). exists a. now rewrite Heq. Qed.

Lemma uns_get_Return (t : nat) (key : string) (h : Heap) (d : Dict.t Entry) (h' : Heap) :
  uns_get t key h = Return d h' -> h' = h /\ mapping_at t key d h.
Proof.
  intros H. apply bind_Return in H as (ad & h1 & Hg & Hl).
  unfold get_adata in Hg. destruct (adatas h !! t) as [ad'|] eqn:Ht; [|discriminate].
  injection Hg as <- <-. apply lift_Return in Hl as [Hd ->]. split; auto.
  exists ad'. split; auto. destruct (Dict.get key (uns ad')); simpl in Hd; congruence.
Qed.

Lemma uns_set_Return (t : nat) (key : string) (d : Dict.t Entry) (h : Heap)
    (u : unit) (h' : Heap) :
  uns_set t key d h = Return u h' ->
  frames h' = frames h /\ mapping_at t key d h'.
Proof.
  intros H. apply bind_Return in H as (ad & h1 & Hg & Hs).
  unfold get_adata in Hg. destruct (adatas h !! t) as [ad'|] eqn:Ht; [|discriminate].
  injection Hg as <- <-. unfold set_adata in Hs. injection Hs as Hs. subst h'.
  split; auto. exists (set_uns (Dict.set key d (uns ad')) ad'). cbn [adatas]. split.
  - apply list_lookup_insert_eq. eapply lookup_lt_Some; eauto.
  - cbn [uns set_uns]. apply dict_get_set_eq.
Qed.

Lemma uns_entry_set_Return (t : nat) (key k : string) (e : Entry) (h : Heap)
    (u : unit) (h' : Heap) :
  uns_entry_set t key k e h = Return u h' ->
  exists d, mapping_at t key d h /\ frames h' = frames h
            /\ mapping_at t key (Dict.set k e d) h'.
Proof.
  intros H. apply bind_Return in H as (d & h1 & Hg & Hs).
  apply uns_get_Return in Hg as [-> Hm]. apply uns_set_Return in Hs as [Hf Hm'].
  eauto.
Qed.

Lemma uns_entry_get_Return (t : nat) (key k : string) (h : Heap) (e : Entry) (h' : Heap) :
  uns_entry_get t key k h = Return e h' ->
  h' = h /\ exists d, mapping_at t key d h /\ Dict.get k d = Some e.
Proof.
  intros H. apply bind_Return in H as (d & h1 & Hg & Hl).
  apply uns_get_Return in Hg as [-> Hm]. apply lift_Return in Hl as [Hd ->].
  split; auto. exists d. split; auto.
  destruct (Dict.get k d); simpl in Hd; congruence.
Qed.

Lemma for_each_prefix {A} (I : list A -> Heap -> Prop) (body : A -> Py unit)
    (l : list A) :
  (forall pre x suf h h', l = (pre ++ x :: suf)%list -> I pre h ->
     body x h = Return tt h' -> I (pre ++ [x])%list h') ->
  forall h h', I [] h -> for_each l body h = Return tt h' -> I l h'.
Proof.
  intros Hstep.
  assert (Hgen : forall suf pre h h', l = (pre ++ suf)%list -> I pre h ->
                 for_each suf body h = Return tt h' -> I l h').
  { induction suf as [|x suf IH]; intros pre h h' Hl Hi Hrun.
    - simpl in Hrun. injection Hrun as <-. rewrite app_nil_r in Hl. now subst.
    - simpl in Hrun. apply bind_Return in Hrun as ([] & h1 & Hx & Hrest).
      apply (IH (pre ++ [x])%list h1 h'); auto.
      + now rewrite <- app_assoc.
      + eapply Hstep; eauto. }
  intros h h'. apply (Hgen l []). reflexivity.
Qed.

(** ** The pairwise dispatcher *)

Lemma lookup_map {A B} (f : A -> B) (l : list A) (i : nat) :
  map f l !! i = option_map f (l !! i).
Proof.
  revert i. induction l as [|a l IH]; intros [|i]; simpl; auto.
Qed.

Lemma list_prod_lookup {A B} (l1 : list A) (l2 : list B) (x y : nat) (a : A) (b : B) :
  l1 !! x = Some a -> l2 !! y = Some b ->
  list_prod l1 l2 !! (x * length l2 + y)%nat = Some (a, b).
Proof.
  revert x. induction l1 as [|a0 l1 IH]; intros x Hx Hy; [destruct x; discriminate|].
  pose proof (lookup_lt_Some _ _ _ Hy) as Hlt.
  destruct x as [|x]; simpl in *.
  - injection Hx as ->. rewrite lookup_app_l by (rewrite length_map; lia).
    rewrite lookup_map, Hy. reflexivity.
  - rewrite lookup_app_r by (rewrite length_map; lia).
    rewrite length_map.
    replace (length l2 + x * length l2 + y - length l2)%nat
      with (x * length l2 + y)%nat by lia.
    now apply IH.
Qed.

(** Distinct keys for all ordered pairs means: the key determines the pair
    of positions. *)
Lemma pair_keys_positions (groups : list string) :
  List.NoDup (pair_keys groups) ->
  forall x y x' y' gx gy gx' gy',
    groups !! x = Some gx -> groups !! y = Some gy ->
    groups !! x' = Some gx' -> groups !! y' = Some gy' ->
    pair_key gx gy = pair_key gx' gy' -> x = x' /\ y = y'.
Proof.
  intros Hnd x y x' y' gx gy gx' gy' Hx Hy Hx' Hy' Hk.
  assert (H1 : pair_keys groups !! (x * length groups + y)%nat = Some (pair_key gx gy)).
  { unfold pair_keys. rewrite lookup_map, (list_prod_lookup _ _ _ _ gx gy); auto. }
  assert (H2 : pair_keys groups !! (x' * length groups + y')%nat = Some (pair_key gx gy)).
  { unfold pair_keys. rewrite lookup_map, (list_prod_lookup _ _ _ _ gx' gy'); auto.
    simpl. now rewrite Hk. }
  apply NoDup_ListNoDup in Hnd.
  pose proof (NoDup_lookup _ _ _ _ Hnd H1 H2) as Heq.
  apply lookup_lt_Some in Hy, Hy'.
  apply (Nat.div_mod_unique (length groups)); auto. lia.
Qed.

Lemma NoDup_map_pair {A B} (a : A) (l : list B) :
  List.NoDup l -> List.NoDup (map (pair a) l).
Proof.
  induction 1 as [|b l Hb Hl IH]; simpl; constructor; auto.
  rewrite in_map_iff. intros (b' & [= ->] & Hin). contradiction.
Qed.

Lemma product_range_NoDup (n : nat) : List.NoDup (product_range n).
Proof.
  unfold product_range.
  assert (H : forall (l1 l2 : list nat), List.NoDup l1 -> List.NoDup l2 ->
              List.NoDup (list_prod l1 l2)).
  { induction l1 as [|a l1 IH]; intros l2 H1 H2; simpl; [constructor|].
    inversion H1 as [|? ? Ha H1']; subst.
    apply List.NoDup_app.
    - now apply NoDup_map_pair.
    - now apply IH.
    - intros [p q] Hin1 Hin2.
      apply in_map_iff in Hin1 as (q' & [= <- <-] & _).
      apply in_prod_iff in Hin2 as [Hin2 _]. contradiction. }
  apply H; apply List.seq_NoDup.
Qed.

Lemma middle_not_in_prefix {A} (l pre suf : list A) (x : A) :
  List.NoDup l -> l = (pre ++ x :: suf)%list -> ~ In x pre.
Proof.
  intros Hnd -> Hin. apply List.NoDup_remove_2 in Hnd.
  apply Hnd. apply in_or_app. now left.
Qed.

Lemma assign_neg (df : DataFrame) :
  df_assign_log2fc df (neg_log2fc_column df) = df_neg_log2fc df.
Proof.
  unfold df_assign_log2fc, neg_log2fc_column, df_neg_log2fc. f_equal.
  induction (rows df) as [|r rs IH]; simpl; [reflexivity|]. now rewrite IH.
Qed.

Lemma stored_table_set_eq (h : Heap) (d : Dict.t Entry) (k : string) (r : nat)
    (df : DataFrame) :
  frames h !! r = Some df -> stored_table h (Dict.set k (Tbl r) d) k = Some df.
Proof. intros H. unfold stored_table. now rewrite dict_get_set_eq. Qed.

Lemma stored_table_set_ne (h h' : Heap) (d : Dict.t Entry) (k k0 : string) (e : Entry)
    (df : DataFrame) :
  k <> k0 ->
  (forall r, (r < length (frames h))%nat -> frames h' !! r = frames h !! r) ->
  stored_table h d k0 = Some df ->
  stored_table h' (Dict.set k e d) k0 = Some df.
Proof.
  intros Hne Hfr. unfold stored_table. rewrite dict_get_set_ne by exact Hne.
  destruct (Dict.get k0 d) as [[c|r]|]; try discriminate.
  intros H. rewrite Hfr; auto. eapply lookup_lt_Some; eauto.
Qed.

Lemma pw_state_set_fresh (t : nat) (key : string) (h h' : Heap) (d : Dict.t Entry)
    (k : string) :
  pw_state t key h d ->
  mapping_at t key (Dict.set k (Tbl (length (frames h))) d) h' ->
  (length (frames h) < length (frames h'))%nat ->
  pw_state t key h' (Dict.set k (Tbl (length (frames h))) d).
Proof.
  intros (Hm & Hv & Hd) Hm' Hlen. split; [exact Hm'|]. split.
  - intros k' r Hin. apply In_dict_set in Hin as [[_ [= ->]]|Hin]; [exact Hlen|].
    apply Hv in Hin. lia.
  - intros k1 k2 r H1 H2.
    destruct (String.eqb_spec k k1) as [<-|N1], (String.eqb_spec k k2) as [<-|N2]; auto.
    + rewrite dict_get_set_eq in H1. injection H1 as <-.
      rewrite dict_get_set_ne in H2 by exact N2.
      apply dict_get_In, Hv in H2. lia.
    + rewrite dict_get_set_eq in H2. injection H2 as <-.
      rewrite dict_get_set_ne in H1 by exact N1.
      apply dict_get_In, Hv in H1. lia.
    + rewrite dict_get_set_ne in H1, H2 by assumption. eauto.
Qed.

Section PairWiseLoops.

Variable wald : AnnData -> string -> string -> bool -> option string -> Exc DataFrame.
Variables (w : AnnData) (testLabel : string) (groups : list string).
Variables (batchLabel : option string) (minCellCounts : Z) (quickScale : bool).
Variables (sizeFactor : option string) (constrainModel : bool).
Variables (t : nat) (key : string).

Hypothesis keys_distinct : List.NoDup (pair_keys groups).

Local Abbreviation T :=
  (fun a b => pairWise_one wald w testLabel a b batchLabel minCellCounts quickScale
                sizeFactor constrainModel).

Lemma compute_step (pre suf : list (nat * nat)) (xy : nat * nat) (h h' : Heap) :
  product_range (length groups) = (pre ++ xy :: suf)%list ->
  compute_inv T groups t key pre h ->
  pairWise_compute wald t key w testLabel groups batchLabel minCellCounts quickScale
    sizeFactor constrainModel xy h = Return tt h' ->
  compute_inv T groups t key (pre ++ [xy])%list h'.
Proof.
  intros Hl (d & Hst & Hup) Hrun. destruct xy as [x y].
  unfold pairWise_compute in Hrun.
  destruct (y <=? x)%nat eqn:Hyx.
  - injection Hrun as <-. exists d. split; auto.
    intros x0 y0 Hin Hlt. apply in_app_or in Hin as [Hin|[[= <- <-]|[]]]; auto.
    apply Nat.leb_le in Hyx. lia.
  - apply bind_Return in Hrun as (gx & h1 & Hgx & Hrun). apply lift_Return in Hgx as [Hgx ->].
    apply bind_Return in Hrun as (gy & h1 & Hgy & Hrun). apply lift_Return in Hgy as [Hgy ->].
    apply bind_Return in Hrun as (test & h1 & Ht & Hrun). apply lift_Return in Ht as [Ht ->].
    apply bind_Return in Hrun as (r & h1 & Hr & Hrun).
    apply new_frame_Return in Hr as (-> & Hf1 & Ha1).
    apply uns_entry_set_Return in Hrun as (d0 & Hm0 & Hf' & Hm').
    pose proof Hst as (Hm & Hv & Hdis).
    assert (d0 = d) as ->
      by (eapply mapping_at_functional; [exact Hm0|eapply mapping_at_adatas; eauto]).
    assert (Hgx' : groups !! x = Some gx) by (destruct (groups !! x); simpl in Hgx; congruence).
    assert (Hgy' : groups !! y = Some gy) by (destruct (groups !! y); simpl in Hgy; congruence).
    assert (Hlen : (length (frames h) < length (frames h'))%nat)
      by (rewrite Hf', Hf1, length_app; simpl; lia).
    assert (Hkeep : forall r, (r < length (frames h))%nat -> frames h' !! r = frames h !! r)
      by (intros r Hr; rewrite Hf', Hf1; now apply lookup_app_l).
    exists (Dict.set (pair_key gx gy) (Tbl (length (frames h))) d). split.
    + apply (pw_state_set_fresh t key h h'); auto.
    + intros x0 y0 Hin Hlt. apply in_app_or in Hin as [Hin|[[= <- <-]|[]]].
      * destruct (Hup x0 y0 Hin Hlt) as (g0 & g1 & df & H0 & H1 & HT & Hs).
        exists g0, g1, df. repeat split; auto.
        eapply stored_table_set_ne; eauto.
        intros Hk.
        destruct (pair_keys_positions groups keys_distinct _ _ _ _ _ _ _ _
                    Hgx' Hgy' H0 H1 Hk) as [<- <-].
        exact (middle_not_in_prefix _ pre suf (x, y) (product_range_NoDup _) Hl Hin).
      * exists gx, gy, test. repeat split; auto.
        apply stored_table_set_eq. rewrite Hf', Hf1.
        rewrite lookup_app_r by lia. now rewrite Nat.sub_diag.
Qed.

Lemma mirror_step (pre suf : list (nat * nat)) (xy : nat * nat) (h h' : Heap) :
  product_range (length groups) = (pre ++ xy :: suf)%list ->
  mirror_inv T groups t key pre h ->
  pairWise_mirror t key groups xy h = Return tt h' ->
  mirror_inv T groups t key (pre ++ [xy])%list h'.
Proof.
  intros Hl (d & Hst & Hup & Hlow) Hrun. destruct xy as [x y].
  unfold pairWise_mirror in Hrun.
  destruct (x <=? y)%nat eqn:Hxy.
  - injection Hrun as <-. exists d. split; [|split]; auto.
    intros x0 y0 Hin Hlt. apply in_app_or in Hin as [Hin|[[= <- <-]|[]]]; auto.
    apply Nat.leb_le in Hxy. lia.
  - apply Nat.leb_gt in Hxy.
    pose proof Hst as (Hm & Hv & Hdis).
    apply bind_Return in Hrun as (gx & h1 & Hgx & Hrun). apply lift_Return in Hgx as [Hgx ->].
    apply bind_Return in Hrun as (gy & h1 & Hgy & Hrun). apply lift_Return in Hgy as [Hgy ->].
    assert (Hgx' : groups !! x = Some gx) by (destruct (groups !! x); simpl in Hgx; congruence).
    assert (Hgy' : groups !! y = Some gy) by (destruct (groups !! y); simpl in Hgy; congruence).
    clear Hgx Hgy.
    (* the computed table of the pair (y, x) *)
    apply bind_Return in Hrun as (e & h1 & He & Hrun).
    apply uns_entry_get_Return in He as (-> & d0 & Hm0 & Hget).
    assert (d0 = d) as -> by (eapply mapping_at_functional; eauto).
    apply bind_Return in Hrun as (r & h1 & Hr & Hrun).
    apply entry_table_Return in Hr as (-> & ->).
    apply bind_Return in Hrun as (df & h1 & Hdf & Hrun).
    apply get_frame_Return in Hdf as (-> & Hdf).
    (* its copy *)
    apply bind_Return in Hrun as (r' & h1 & Hr' & Hrun).
    apply new_frame_Return in Hr' as (-> & Hf1 & Ha1).
    apply bind_Return in Hrun as ([] & h2 & Hset & Hrun).
    apply uns_entry_set_Return in Hset as (d1 & Hm1 & Hf2 & Hm2).
    assert (d1 = d) as ->
      by (eapply mapping_at_functional; [exact Hm1|eapply mapping_at_adatas; eauto]).
    set (k' := pair_key gx gy) in *.
    set (r' := length (frames h)) in *.
    assert (Hr'df : frames h2 !! r' = Some df).
    { rewrite Hf2, Hf1. rewrite lookup_app_r by (unfold r'; lia).
      unfold r'. now rewrite Nat.sub_diag. }
    (* the two reads of the copy *)
    apply bind_Return in Hrun as (e1 & h3 & He1 & Hrun).
    apply uns_entry_get_Return in He1 as (-> & d3 & Hm3 & Hget1).
    assert (d3 = Dict.set k' (Tbl r') d) as -> by (eapply mapping_at_functional; eauto).
    rewrite dict_get_set_eq in Hget1. injection Hget1 as <-.
    apply bind_Return in Hrun as (r1 & h3 & Hr1 & Hrun).
    apply entry_table_Return in Hr1 as (-> & [= <-]).
    apply bind_Return in Hrun as (df1 & h3 & Hdf1 & Hrun).
    apply get_frame_Return in Hdf1 as (-> & Hdf1).
    rewrite Hr'df in Hdf1. injection Hdf1 as <-.
    apply bind_Return in Hrun as (e2 & h3 & He2 & Hrun).
    apply uns_entry_get_Return in He2 as (-> & d3 & Hm3' & Hget2).
    assert (d3 = Dict.set k' (Tbl r') d) as -> by (eapply mapping_at_functional; eauto).
    rewrite dict_get_set_eq in Hget2. injection Hget2 as <-.
    apply bind_Return in Hrun as (r2 & h3 & Hr2 & Hrun).
    apply entry_table_Return in Hr2 as (-> & [= <-]).
    apply bind_Return in Hrun as (df2 & h3 & Hdf2 & Hrun).
    apply get_frame_Return in Hdf2 as (-> & Hdf2).
    rewrite Hr'df in Hdf2. injection Hdf2 as <-.
    apply set_frame_Return in Hrun as (Hf' & Ha').
    rewrite assign_neg in Hf'.
    (* the state after the step *)
    assert (Hlen : (length (frames h) < length (frames h'))%nat)
      by (rewrite Hf', length_insert, Hf2, Hf1, length_app; simpl; lia).
    assert (Hkeep : forall r0, (r0 < length (frames h))%nat ->
                    frames h' !! r0 = frames h !! r0).
    { intros r0 Hr0. rewrite Hf', list_lookup_insert_ne by (unfold r'; lia).
      rewrite Hf2, Hf1. now apply lookup_app_l. }
    assert (Hnew : frames h' !! r' = Some (df_neg_log2fc df)).
    { rewrite Hf'. apply list_lookup_insert_eq. eapply lookup_lt_Some; eauto. }
    (* the pair (y, x) was computed: its table is [df] *)
    assert (Hyx : T gy gx = Ok df).
    { destruct (Hup y x Hxy (lookup_lt_Some _ _ _ Hgx'))
        as (g0 & g1 & dfu & H0 & H1 & HT & Hs).
      rewrite Hgy' in H0. rewrite Hgx' in H1. injection H0 as <-. injection H1 as <-.
      unfold stored_table in Hs. rewrite Hget in Hs. congruence. }
    exists (Dict.set k' (Tbl r') d). split; [|split].
    + apply (pw_state_set_fresh t key h h'); auto.
      eapply mapping_at_adatas; eauto.
    + intros x0 y0 Hlt Hy0.
      destruct (Hup x0 y0 Hlt Hy0) as (g0 & g1 & dfu & H0 & H1 & HT & Hs).
      exists g0, g1, dfu. repeat split; auto.
      eapply stored_table_set_ne; eauto.
      intros Hk.
      destruct (pair_keys_positions groups keys_distinct _ _ _ _ _ _ _ _
                  Hgx' Hgy' H0 H1 Hk) as [-> ->]. lia.
    + intros x0 y0 Hin Hlt. apply in_app_or in Hin as [Hin|[[= <- <-]|[]]].
      * destruct (Hlow x0 y0 Hin Hlt) as (g0 & g1 & dfl & H0 & H1 & HT & Hs).
        exists g0, g1, dfl. repeat split; auto.
        eapply stored_table_set_ne; eauto.
        intros Hk.
        destruct (pair_keys_positions groups keys_distinct _ _ _ _ _ _ _ _
                    Hgx' Hgy' H0 H1 Hk) as [<- <-].
        exact (middle_not_in_prefix _ pre suf (x, y) (product_range_NoDup _) Hl Hin).
      * exists gx, gy, df. repeat split; auto.
        now apply stored_table_set_eq.
Qed.

End PairWiseLoops.


Lemma stored_table_inv (h : Heap) (d : Dict.t Entry) (k : string) (df : DataFrame) :
  stored_table h d k = Some df ->
  exists r, Dict.get k d = Some (Tbl r) /\ frames h !! r = Some df.
Proof.
  unfold stored_table. destruct (Dict.get k d) as [[c|r]|]; try discriminate. eauto.
Qed.

Lemma upper_lower_mirrored (T : string -> string -> Exc DataFrame)
    (groups : list string) (h : Heap) (d : Dict.t Entry) (i j : nat) (A B : string) :
  List.NoDup (pair_keys groups) -> refs_distinct d ->
  (i < j)%nat -> groups !! i = Some A -> groups !! j = Some B ->
  upper_ok T groups h d i j -> lower_ok T groups h d j i ->
  mirrored h d T A B.
Proof.
  intros Hnd Hdis Hij HA HB (a & b & tAB & Ha & Hb & HT & Hs)
         (b' & a' & df & Hb' & Ha' & HT' & Hs').
  rewrite HA in Ha, Ha'. rewrite HB in Hb, Hb'.
  injection Ha as <-. injection Ha' as <-. injection Hb as <-. injection Hb' as <-.
  assert (df = tAB) as -> by congruence.
  apply stored_table_inv in Hs as (rAB & Hg & Hf).
  apply stored_table_inv in Hs' as (rBA & Hg' & Hf').
  exists rAB, rBA, tAB, (df_neg_log2fc tAB).
  repeat split; auto.
  - intros ->.
    pose proof (Hdis _ _ _ Hg Hg') as Hk.
    destruct (pair_keys_positions groups Hnd _ _ _ _ _ _ _ _ HA HB HB HA Hk). lia.
  - simpl. now rewrite map_map.
  - simpl. now rewrite map_map.
  - simpl. now rewrite map_map.
  - simpl. now rewrite map_map.
  - simpl. now rewrite map_map.
Qed.

Section PairWiseRun.

Variable wald : AnnData -> string -> string -> bool -> option string -> Exc DataFrame.
Variable getPartialLayersAdata : AnnData -> string -> list (option string) -> Exc AnnData.
Variable np_exp : Q -> Q.

Lemma pairWise_run_mirrors (hb : Heap) (t : nat) (adt : AnnData)
    (layer testLabel : string) (groups : list string) (batchLabel : option string)
    (minCellCounts : Z) (sizeFactor : option string) (inputIsLog : bool)
    (keyAdded : string) (quickScale constrainModel : bool) (copy : bool)
    (ret : option (Dict.t Entry)) (h : Heap) :
  adatas hb !! t = Some adt ->
  List.NoDup (pair_keys groups) ->
  pairWise_run wald getPartialLayersAdata np_exp t layer testLabel groups batchLabel
    minCellCounts sizeFactor inputIsLog keyAdded quickScale constrainModel copy hb
  = Return ret h ->
  exists w d,
    pairWise_working getPartialLayersAdata np_exp adt layer testLabel groups
      batchLabel sizeFactor inputIsLog = Ok w
    /\ mapping_at t keyAdded d h
    /\ ret = (if copy then Some d else None)
    /\ forall i j A B,
         (i < j)%nat -> groups !! i = Some A -> groups !! j = Some B ->
         mirrored h d
           (fun a b => pairWise_one wald w testLabel a b batchLabel minCellCounts
                         quickScale sizeFactor constrainModel) A B.
Proof.
  intros Ht Hnd Hrun. unfold pairWise_run in Hrun.
  apply bind_Return in Hrun as (org & h1 & Horg & Hrun).
  unfold get_adata in Horg. rewrite Ht in Horg. injection Horg as <- <-.
  apply bind_Return in Hrun as (w & h1 & Hw & Hrun). apply lift_Return in Hw as [Hw ->].
  apply bind_Return in Hrun as ([] & h1 & Hset & Hrun).
  apply uns_set_Return in Hset as [Hf1 Hm1].
  apply bind_Return in Hrun as ([] & h2 & Hloop1 & Hrun).
  apply bind_Return in Hrun as ([] & h3 & Hloop2 & Hrun).
  set (T := fun a b => pairWise_one wald w testLabel a b batchLabel minCellCounts
                         quickScale sizeFactor constrainModel).
  assert (I1 : compute_inv T groups t keyAdded (product_range (length groups)) h2).
  { apply (for_each_prefix (compute_inv T groups t keyAdded) _ _
             (fun pre x suf => compute_step wald w testLabel groups batchLabel
                minCellCounts quickScale sizeFactor constrainModel t keyAdded Hnd
                pre suf x) h1 h2); auto.
    exists [("__cat", Cat "pairWise")]. split; [split; [exact Hm1|split]|].
    - intros k r [[=]|[]].
    - intros k1 k2 r H1. simpl in H1. destruct (String.eqb k1 "__cat"); discriminate.
    - intros x y []. }
  assert (I2 : mirror_inv T groups t keyAdded (product_range (length groups)) h3).
  { apply (for_each_prefix (mirror_inv T groups t keyAdded) _ _
             (fun pre x suf => mirror_step wald w testLabel groups batchLabel
                minCellCounts quickScale sizeFactor constrainModel t keyAdded Hnd
                pre suf x) h2 h3); auto.
    destruct I1 as (d & Hst & Hup). exists d. split; [exact Hst|]. split.
    - intros x y Hlt Hy. apply Hup; auto.
      unfold product_range. apply in_prod_iff. rewrite !in_seq. lia.
    - intros x y []. }
  destruct I2 as (d & (Hm & Hv & Hdis) & Hup & Hlow).
  assert (Hfinal : mapping_at t keyAdded d h /\ ret = (if copy then Some d else None)).
  { destruct copy.
    - apply bind_Return in Hrun as (d' & h4 & Hget & Hrun).
      apply uns_get_Return in Hget as [-> Hm'].
      injection Hrun as <- <-.
      now rewrite (mapping_at_functional _ _ _ _ _ Hm' Hm).
    - injection Hrun as <- <-. auto. }
  destruct Hfinal as [Hmh Hret].
  assert (h = h3) as -> by (destruct copy;
    [apply bind_Return in Hrun as (d' & h4 & Hget & Hrun);
     apply uns_get_Return in Hget as [-> _]; now injection Hrun
    |now injection Hrun]).
  exists w, d. repeat split; auto.
  intros i j A B Hij HA HB.
  apply (upper_lower_mirrored T groups h3 d i j A B); auto.
  - apply Hup; auto. eapply lookup_lt_Some; eauto.
  - apply Hlow; auto.
    unfold product_range. apply in_prod_iff. rewrite !in_seq.
    apply lookup_lt_Some in HA, HB. lia.
Qed.

End PairWiseRun.

(** C2, as stated, fails for group names whose keys coincide: for the
    groups "x" and "x_bg_x" both orders give the key [test_x_bg_x_bg_x], the
    mirrored table replaces the computed one, and the table under
    [test_B_bg_A] is the table under [test_A_bg_B], not its negation. *)
Lemma C2_counterexample :
  exists d h tAB tBA,
    pairWise Examples.toy_wald Examples.getPartialLayersAdata Examples.toy_exp
      0 None "ct" (Some ["x"; "x_bg_x"]) None 1 None false None true false true
      (Examples.heap_of Examples.ad_clash) = Return (Some d) h
    /\ stored_table h d (pair_key "x" "x_bg_x") = Some tAB
    /\ stored_table h d (pair_key "x_bg_x" "x") = Some tBA
    /\ map log2fc (rows tBA) <> map (fun r => (- log2fc r)%Q) (rows tAB).
Proof.
  do 4 eexists.
  split; [vm_compute; reflexivity|].
  split; [vm_compute; reflexivity|].
  split; [vm_compute; reflexivity|].
  vm_compute. discriminate.
Qed.

(** C2 (amended): for a group list in which the keys [test_X_bg_Y] of all
    ordered pairs are pairwise distinct (so the names are distinct, and no
    name lets two pairs share a key), and for every two groups A listed
    before B: [pairWise] stores under [test_B_bg_A] a table whose [log2fc]
    column is the elementwise negation of the one under [test_A_bg_B] and
    whose [qval], [mean], [coef_mle] (and [gene]) columns are the same; the
    two entries are different table objects, and [test_A_bg_B] still holds
    the table the test returned. *)
Theorem pairWise_mirrors
    (wald : AnnData -> string -> string -> bool -> option string -> Exc DataFrame)
    (getPartialLayersAdata : AnnData -> string -> list (option string) -> Exc AnnData)
    (np_exp : Q -> Q)
    (h0 : Heap) (adata : nat) (ad : AnnData)
    (layer : option string) (testLabel : string)
    (groups : option (list string)) (G : list string) (batchLabel : option string)
    (minCellCounts : Z) (sizeFactor : option string) (inputIsLog : bool)
    (keyAdded : option string) (quickScale constrainModel copy : bool)
    (ret : option (Dict.t Entry)) (h : Heap) :
  adatas h0 !! adata = Some ad ->
  resolve_groups adata testLabel groups h0 = Return G h0 ->
  List.NoDup (pair_keys G) ->
  pairWise wald getPartialLayersAdata np_exp adata layer testLabel groups batchLabel
    minCellCounts sizeFactor inputIsLog keyAdded quickScale constrainModel copy h0
  = Return ret h ->
  exists t u w d,
    pairWise_working getPartialLayersAdata np_exp (set_uns u ad) (default_layer layer)
      testLabel G batchLabel sizeFactor inputIsLog = Ok w
    /\ mapping_at t (default_key "diffxpyPairWise_" testLabel keyAdded) d h
    /\ ret = (if copy then Some d else None)
    /\ (copy = false -> t = adata)
    /\ forall i j A B,
         (i < j)%nat -> G !! i = Some A -> G !! j = Some B ->
         mirrored h d
           (fun a b => pairWise_one wald w testLabel a b batchLabel minCellCounts
                         quickScale sizeFactor constrainModel) A B.
Proof.
  intros Ha HG Hnd Hrun. unfold pairWise in Hrun.
  apply bind_Return in Hrun as (G' & h1 & HG' & Hrun).
  rewrite HG in HG'. injection HG' as <- <-.
  apply bind_Return in Hrun as (t & hb & Hcopy & Hrun).
  assert (Ht : exists u, adatas hb !! t = Some (set_uns u ad) /\ (copy = false -> t = adata)).
  { destruct copy.
    - pose proof (adata_copy_spec h0 adata ad Ha h0 eq_refl) as Hspec.
      rewrite Hcopy in Hspec. destruct Hspec as (_ & _ & _ & u & Hu).
      exists u. split; [exact Hu|discriminate].
    - injection Hcopy as <- <-. exists (uns ad). split; [|reflexivity].
      rewrite Ha. now destruct ad. }
  destruct Ht as (u & Ht & Hta).
  destruct (pairWise_run_mirrors wald getPartialLayersAdata np_exp hb t (set_uns u ad)
              _ _ _ _ _ _ _ _ _ _ _ _ _ Ht Hnd Hrun) as (w & d & Hw & Hm & Hret & Hmir).
  exists t, u, w, d. auto.
Qed.

Lemma pairWise_mirrors_witness :
  exists t u w d,
    pairWise_working Examples.getPartialLayersAdata Examples.toy_exp
      (set_uns u Examples.ad2) (default_layer None) "ct" ["A"; "B"] None None false = Ok w
    /\ mapping_at t (default_key "diffxpyPairWise_" "ct" None) d
         (outcome_heap Examples.pairWise_ad2)
    /\ None = (if false then Some d else None)
    /\ (false = false -> t = 0%nat)
    /\ forall i j A B,
         (i < j)%nat -> ["A"; "B"] !! i = Some A -> ["A"; "B"] !! j = Some B ->
         mirrored (outcome_heap Examples.pairWise_ad2) d
           (fun a b => pairWise_one Examples.toy_wald w "ct" a b None 1 true None false)
           A B.
Proof.
  apply (pairWise_mirrors Examples.toy_wald Examples.getPartialLayersAdata
           Examples.toy_exp (Examples.heap_of Examples.ad2) 0 Examples.ad2
           None "ct" None ["A"; "B"] None 1 None false None true false false
           None (outcome_heap Examples.pairWise_ad2)).
  - reflexivity.
  - reflexivity.
  - vm_compute. repeat constructor; simpl; intuition discriminate.
  - vm_compute. reflexivity.
Defined.

Lemma copy_flag_contract_witness :
  let h0 := Examples.heap_of Examples.ad2 in
  let vs copy :=
    vsRest Examples.toy_wald Examples.getPartialLayersAdata Examples.toy_exp
      Examples.toy_expm Examples.toy_sum 0 None "ct" None None 1 None false None true false 1
        copy h0 in
  let pw copy :=
    pairWise Examples.toy_wald Examples.getPartialLayersAdata Examples.toy_exp
      0 None "ct" None None 1 None false None true false copy h0 in
  let key_vs := default_key "diffxpyVsRest_" "ct" None in
  let key_pw := default_key "diffxpyPairWise_" "ct" None in
  (preserved h0 (outcome_heap (vs true))
   /\ returns_mapping_of_copy h0 key_vs (vs true)
   /\ stores_mapping_in_place h0 0 Examples.ad2 key_vs (vs false))
  /\ (preserved h0 (outcome_heap (pw true))
      /\ returns_mapping_of_copy h0 key_pw (pw true)
      /\ stores_mapping_in_place h0 0 Examples.ad2 key_pw (pw false)).
Proof.
  apply (copy_flag_contract Examples.toy_wald Examples.getPartialLayersAdata
           Examples.toy_exp Examples.toy_expm Examples.toy_sum (Examples.heap_of Examples.ad2)
           0 Examples.ad2 None "ct" None None 1 None false None true false 1).
  reflexivity.
Defined.

(** The calls of the witness do return. *)
Example copy_flag_returns :
  vsRest Examples.toy_wald Examples.getPartialLayersAdata Examples.toy_exp
    Examples.toy_expm Examples.toy_sum 0 None "ct" None None 1 None false None true false 1 false
    (Examples.heap_of Examples.ad2)
  = Return None Examples.heap_vsRest.
Proof. vm_compute. reflexivity. Qed.

(** ** Marker Extractor: sorting and filtering *)

Lemma Qltb_lt (a b : Q) : Qltb a b = true <-> (a < b)%Q.
Proof.
  unfold Qltb. rewrite negb_true_iff. split.
  - intros H. apply Qnot_le_lt. intros Hle. apply Qle_bool_iff in Hle. congruence.
  - intros H. destruct (Qle_bool b a) eqn:E; [|reflexivity].
    apply Qle_bool_iff in E. now apply Qlt_not_le in H.
Qed.

Lemma passes_spec (q l m : Q) (r : Row) :
  passes q l m r = true <-> (qval r < q)%Q /\ (l < log2fc r)%Q /\ (m < mean r)%Q.
Proof.
  unfold passes, Qgtb. rewrite !andb_true_iff, !Qltb_lt. tauto.
Qed.

Lemma In_insert_desc (r x : Row) (l : list Row) :
  In x (insert_desc r l) <-> x = r \/ In x l.
Proof.
  induction l as [|y l IH]; simpl; [intuition auto|].
  destruct (Qle_bool (coef_mle y) (coef_mle r)); simpl; [intuition auto|].
  rewrite IH. intuition auto.
Qed.

Lemma In_sort_values_desc (x : Row) (l : list Row) :
  In x (sort_values_desc l) <-> In x l.
Proof.
  unfold sort_values_desc. induction l as [|y l IH]; simpl; [tauto|].
  rewrite In_insert_desc, IH. intuition auto.
Qed.

Lemma insert_desc_sorted (r : Row) (l : list Row) :
  StronglySorted coef_ge l -> StronglySorted coef_ge (insert_desc r l).
Proof.
  induction 1 as [|y l Hl IH Hy]; simpl; [repeat constructor|].
  destruct (Qle_bool (coef_mle y) (coef_mle r)) eqn:E.
  - apply Qle_bool_iff in E. constructor; [constructor; auto|].
    constructor; [exact E|].
    rewrite List.Forall_forall in Hy |- *. intros z Hz.
    unfold coef_ge in *. eapply Qle_trans; [apply Hy, Hz|exact E].
  - constructor; [exact IH|].
    rewrite List.Forall_forall in Hy |- *. intros z Hz.
    apply In_insert_desc in Hz as [->|Hz]; [|auto].
    unfold coef_ge. apply Qlt_le_weak, Qnot_le_lt. intros Hle.
    apply Qle_bool_iff in Hle. congruence.
Qed.

Lemma sort_values_desc_sorted (l : list Row) :
  StronglySorted coef_ge (sort_values_desc l).
Proof.
  unfold sort_values_desc. induction l as [|y l IH]; simpl; [constructor|].
  now apply insert_desc_sorted.
Qed.

Lemma row_label_add (c v : string) (r : Row) :
  row_label c (row_add_label c v r) = Some v.
Proof. unfold row_label, row_add_label. simpl. now rewrite String.eqb_refl. Qed.

Lemma tag_table_labelled (c v : string) (df : DataFrame) :
  labelled c v df ->
  forall row, In row (rows (tag_table c v df)) -> row_label c row = Some v.
Proof.
  intros Hl row. unfold tag_table. destruct (has_column c df) eqn:E.
  - now apply Hl.
  - simpl. rewrite in_map_iff. intros (r0 & <- & _). apply row_label_add.
Qed.

Lemma tag_table_values (c v : string) (df : DataFrame) (row : Row) :
  In row (rows (tag_table c v df)) ->
  exists row0, In row0 (rows df) /\ same_values row row0.
Proof.
  unfold tag_table. destruct (has_column c df).
  - intros H. exists row. repeat split; auto.
  - simpl. rewrite in_map_iff. intros (r0 & <- & Hin). exists r0.
    repeat split; auto.
Qed.

Lemma twoSample_rows (df : DataFrame) (q l m : Q) (row : Row) :
  In row (rows (twoSample df q l m)) <-> In row (rows df) /\ passes q l m row = true.
Proof.
  unfold twoSample. simpl. rewrite In_sort_values_desc, filter_In. tauto.
Qed.

Lemma filter_all {A} (f : A -> bool) (l : list A) :
  (forall x, In x l -> f x = true) -> List.filter f l = l.
Proof.
  induction l as [|x l IH]; simpl; intros H; [reflexivity|].
  rewrite (H x) by now left. f_equal. apply IH. intros y Hy. apply H. now right.
Qed.

Lemma filter_none {A} (f : A -> bool) (l : list A) :
  (forall x, In x l -> f x = false) -> List.filter f l = [].
Proof.
  induction l as [|x l IH]; simpl; intros H; [reflexivity|].
  rewrite (H x) by now left. apply IH. intros y Hy. apply H. now right.
Qed.

(** ** Marker Extractor: the one-against-the-rest mode *)

Lemma insert_if_absent_run (r : nat) (c v : string) (df : DataFrame) (h h' : Heap) :
  frames h !! r = Some df ->
  insert_if_absent r c v h = Return tt h' ->
  frames h' = <[r := tag_table c v df]> (frames h) /\ adatas h' = adatas h.
Proof.
  intros Hr Hrun. unfold insert_if_absent in Hrun.
  apply bind_Return in Hrun as (df' & h1 & Hg & Hrun).
  apply get_frame_Return in Hg as (-> & Hg). rewrite Hr in Hg. injection Hg as <-.
  unfold tag_table. destruct (has_column c df); simpl in Hrun.
  - injection Hrun as <-. split; [|reflexivity].
    symmetry. now apply list_insert_id.
  - now apply set_frame_Return in Hrun.
Qed.

Lemma vsRest_item_run (q l m : Q) (comp : string) (r : nat) (df : DataFrame)
    (ls : list DataFrame) (h h' : Heap) :
  comp <> "__cat" -> frames h !! r = Some df ->
  vsRest_item q l m (comp, Tbl r) h = Return ls h' ->
  ls = [twoSample (tag_table "clusterName" comp df) q l m]
  /\ frames h' = <[r := tag_table "clusterName" comp df]> (frames h)
  /\ adatas h' = adatas h.
Proof.
  intros Hc Hr Hrun. unfold vsRest_item in Hrun.
  destruct (String.eqb_spec comp "__cat"); [contradiction|].
  apply bind_Return in Hrun as (r' & h1 & Hr' & Hrun).
  apply entry_table_Return in Hr' as (-> & [= <-]).
  apply bind_Return in Hrun as ([] & h1 & Hins & Hrun).
  apply (insert_if_absent_run _ _ _ df) in Hins as [Hf Ha]; [|exact Hr].
  apply bind_Return in Hrun as (df' & h2 & Hg & Hrun).
  apply get_frame_Return in Hg as (-> & Hg).
  injection Hrun as <- <-.
  rewrite Hf in Hg. rewrite list_lookup_insert_eq in Hg
    by (eapply lookup_lt_Some; eauto).
  injection Hg as <-. auto.
Qed.

Lemma vsRest_blocks_agree (q l m : Q) (h h1 : Heap) (d : Dict.t Entry) :
  (forall r, In r (table_refs d) -> frames h1 !! r = frames h !! r) ->
  vsRest_blocks q l m h1 d = vsRest_blocks q l m h d.
Proof.
  induction d as [|[comp e] d IH]; simpl; intros Hag; [reflexivity|].
  rewrite IH by (intros r Hr; apply Hag, in_or_app; now right).
  destruct (String.eqb comp "__cat"); [reflexivity|].
  destruct e as [c|r]; [reflexivity|].
  rewrite Hag by (apply in_or_app; left; now left). reflexivity.
Qed.

Lemma map_py_vsRest_items (q l m : Q) (d : Dict.t Entry) (h h' : Heap)
    (ls : list (list DataFrame)) :
  List.NoDup (table_refs d) ->
  (forall comp e, In (comp, e) d -> comp <> "__cat" ->
     exists r df, e = Tbl r /\ frames h !! r = Some df) ->
  map_py (vsRest_item q l m) d h = Return ls h' ->
  concat ls = vsRest_blocks q l m h d.
Proof.
  revert h ls. induction d as [|[comp e] d IH]; intros h ls Hnd Hex Hrun.
  - injection Hrun as <- <-. reflexivity.
  - cbn [map_py] in Hrun.
    apply bind_Return in Hrun as (y & h1 & Hitem & Hrun).
    apply bind_Return in Hrun as (ys & h2 & Hrest & Hrun).
    injection Hrun as <- <-. cbn [concat vsRest_blocks].
    assert (Hnd0 : List.NoDup (table_refs d))
      by (unfold table_refs in Hnd; simpl in Hnd; now apply NoDup_app_remove_l in Hnd).
    destruct (String.eqb_spec comp "__cat") as [->|Hc].
    + unfold vsRest_item in Hitem. simpl in Hitem. injection Hitem as <- <-.
      simpl. apply IH; auto.
      intros comp' e' Hin. apply Hex. now right.
    + destruct (Hex comp e (or_introl eq_refl) Hc) as (r & df & -> & Hr).
      apply (vsRest_item_run q l m comp r df) in Hitem as (-> & Hf & Ha); auto.
      destruct (String.eqb_spec comp "__cat"); [contradiction|].
      rewrite Hr. simpl. f_equal.
      unfold table_refs in Hnd. simpl in Hnd.
      inversion Hnd as [|? ? Hnotin Hnd']; subst.
      assert (Hag : forall r', In r' (table_refs d) -> frames h1 !! r' = frames h !! r').
      { intros r' Hr'. rewrite Hf. apply list_lookup_insert_ne.
        intros ->. apply Hnotin. exact Hr'. }
      rewrite <- (vsRest_blocks_agree q l m h h1 d Hag).
      apply IH; auto.
      intros comp' e' Hin Hc'.
      destruct (Hex comp' e' (or_intror Hin) Hc') as (r' & df' & -> & Hr').
      exists r', df'. split; auto. rewrite Hag; auto.
      unfold table_refs. apply in_flat_map. exists (comp', Tbl r'). split; auto.
      now left.
Qed.

Section VsRestBlocks.

Variables (q l m : Q) (h : Heap).

Lemma blocks_rows (d : Dict.t Entry) (row : Row) :
  (forall comp e, In (comp, e) d -> comp <> "__cat" ->
     exists r df, e = Tbl r /\ frames h !! r = Some df
                  /\ labelled "clusterName" comp df) ->
  In row (concat (map rows (vsRest_blocks q l m h d))) ->
  passes q l m row = true
  /\ exists comp, In comp (Dict.keys d) /\ row_label "clusterName" row = Some comp
                  /\ from_group h d comp row.
Proof.
  induction d as [|[comp e] d IH]; intros Hex Hin; [destruct Hin|].
  cbn [vsRest_blocks] in Hin. rewrite map_app, concat_app in Hin.
  apply in_app_or in Hin as [Hin|Hin].
  - destruct (String.eqb_spec comp "__cat") as [->|Hc]; [destruct Hin|].
    destruct (Hex comp e (or_introl eq_refl) Hc) as (r & df & -> & Hr & Hlab).
    rewrite Hr in Hin. simpl in Hin. rewrite app_nil_r in Hin.
    apply twoSample_rows in Hin as [Hin Hp]. split; [exact Hp|].
    exists comp. split; [now left|]. split.
    + eapply tag_table_labelled; eauto.
    + apply tag_table_values in Hin as (row0 & Hin0 & Hsame).
      exists r, df, row0. repeat split; auto; try apply Hsame. now left.
  - destruct IH as [Hp (comp' & Hk & Hl & (r & df & row0 & Hd & Hc & Hr & Hin0 & Hs))]; auto.
    { intros comp' e' Hin'. apply Hex. now right. }
    split; [exact Hp|]. exists comp'. split; [now right|]. split; [exact Hl|].
    exists r, df, row0. repeat split; auto; try apply Hs. now right.
Qed.

Lemma blocks_complete (d : Dict.t Entry) (comp : string) (r : nat) (df : DataFrame)
    (row0 : Row) :
  In (comp, Tbl r) d -> comp <> "__cat" -> frames h !! r = Some df ->
  labelled "clusterName" comp df ->
  In row0 (rows df) -> passes q l m row0 = true ->
  exists row, In row (concat (map rows (vsRest_blocks q l m h d)))
              /\ same_values row row0 /\ row_label "clusterName" row = Some comp.
Proof.
  intros Hin Hc Hr Hlab Hin0 Hp.
  induction d as [|[comp' e'] d IH]; [destruct Hin|].
  cbn [vsRest_blocks]. rewrite map_app, concat_app.
  destruct Hin as [[= -> ->]|Hin].
  - destruct (String.eqb_spec comp "__cat"); [contradiction|]. rewrite Hr. simpl.
    rewrite app_nil_r.
    unfold tag_table. destruct (has_column "clusterName" df) eqn:E.
    + exists row0. split; [|split].
      * apply in_or_app. left. apply In_sort_values_desc, filter_In. auto.
      * repeat split.
      * now apply Hlab.
    + exists (row_add_label "clusterName" comp row0). split; [|split].
      * apply in_or_app. left. apply In_sort_values_desc, filter_In. split.
        -- simpl. apply in_map. exact Hin0.
        -- exact Hp.
      * repeat split.
      * apply row_label_add.
  - destruct (IH Hin) as (row & Hrow & Hs & Hl).
    exists row. split; auto. apply in_or_app. now right.
Qed.

Lemma blocks_sorted (d : Dict.t Entry) (comp : string) :
  Dict.wf d ->
  (forall c e, In (c, e) d -> c <> "__cat" ->
     exists r df, e = Tbl r /\ frames h !! r = Some df
                  /\ labelled "clusterName" c df) ->
  StronglySorted coef_ge
    (group_rows comp (concat (map rows (vsRest_blocks q l m h d)))).
Proof.
  induction d as [|[c e] d IH]; intros Hwf Hex; [constructor|].
  unfold Dict.wf, Dict.keys in Hwf. simpl in Hwf.
  inversion Hwf as [|? ? Hnotin Hwf']; subst.
  assert (Hex' : forall c' e', In (c', e') d -> c' <> "__cat" ->
            exists r df, e' = Tbl r /\ frames h !! r = Some df
                         /\ labelled "clusterName" c' df)
    by (intros c' e' Hin'; apply Hex; now right).
  cbn [vsRest_blocks]. rewrite map_app, concat_app.
  unfold group_rows. rewrite List.filter_app. fold (group_rows comp).
  destruct (String.eqb_spec c "__cat") as [->|Hc]; [simpl; now apply IH|].
  destruct (Hex c e (or_introl eq_refl) Hc) as (r & df & -> & Hr & Hlab).
  rewrite Hr. cbn [map concat]. rewrite app_nil_r.
  destruct (String.eqb_spec c comp) as [->|Hne].
  - (* the block of [comp]: all of it, and nothing from the later blocks *)
    rewrite (filter_all _ (rows (twoSample _ q l m))).
    + unfold group_rows. rewrite (filter_none _ (concat _)).
      * rewrite app_nil_r. unfold twoSample. simpl. apply sort_values_desc_sorted.
      * intros row Hin.
        destruct (blocks_rows d row Hex' Hin) as [_ (c' & Hk & -> & _)].
        destruct (String.eqb_spec c' comp) as [->|]; [contradiction|reflexivity].
    + intros row Hin. apply twoSample_rows in Hin as [Hin _].
      rewrite (tag_table_labelled _ _ _ Hlab row Hin). apply String.eqb_refl.
  - rewrite (filter_none _ (rows (twoSample _ q l m))).
    + simpl. now apply IH.
    + intros row Hin. apply twoSample_rows in Hin as [Hin _].
      rewrite (tag_table_labelled _ _ _ Hlab row Hin).
      now apply String.eqb_neq.
Qed.

End VsRestBlocks.

(** C4: on a collection holding a [vsRest]-tagged result mapping, every
    row of the table [getMarker] returns clears the three cutoffs and
    carries, in [clusterName], the name of the group from whose stored
    table it stems; the rows of each group are in descending order of
    [coef_mle]; and every row of a stored table that clears the cutoffs is
    returned. *)
Theorem getMarker_vsRest_rows
    (adata : nat) (key : string) (qvalue log2fc_cut mean_cut : Q)
    (detectedCounts : Z) (h : Heap) (d : Dict.t Entry) (out : Markers) (h' : Heap) :
  mapping_at adata key d h ->
  vsRest_tagged h d ->
  getMarker adata key qvalue log2fc_cut mean_cut detectedCounts h = Return out h' ->
  exists df,
    out = VsRestMarkers df
    /\ (forall row, In row (rows df) ->
          (qval row < qvalue)%Q /\ (log2fc_cut < log2fc row)%Q
          /\ (mean_cut < mean row)%Q
          /\ exists comp, row_label "clusterName" row = Some comp
                          /\ from_group h d comp row)
    /\ (forall comp, StronglySorted coef_ge (group_rows comp (rows df)))
    /\ (forall comp r t row0,
          In (comp, Tbl r) d -> comp <> "__cat" -> frames h !! r = Some t ->
          In row0 (rows t) ->
          (qval row0 < qvalue)%Q /\ (log2fc_cut < log2fc row0)%Q
          /\ (mean_cut < mean row0)%Q ->
          exists row, In row (rows df) /\ same_values row row0
                      /\ row_label "clusterName" row = Some comp).
Proof.
  intros Hm (Hcat & Hwf & Hnd & Hex) Hrun. unfold getMarker in Hrun.
  apply bind_Return in Hrun as (d' & h1 & Hget & Hrun).
  apply uns_get_Return in Hget as [-> Hm'].
  rewrite (mapping_at_functional _ _ _ _ _ Hm' Hm) in Hrun. clear d' Hm'.
  apply bind_Return in Hrun as (cate & h1 & Hc & Hrun).
  apply lift_Return in Hc as [Hc ->]. rewrite Hcat in Hc. injection Hc as <-.
  simpl in Hrun.
  apply bind_Return in Hrun as (df & h1 & Hv & Hrun). injection Hrun as <- <-.
  unfold getMarker_vsRest in Hv.
  apply bind_Return in Hv as (ls & h2 & Hmap & Hcon).
  apply lift_Return in Hcon as [Hcon ->].
  apply map_py_vsRest_items in Hmap; auto.
  2: { intros comp e Hin Hne. destruct (Hex comp e Hin Hne) as (r & t & ? & ? & _). eauto. }
  rewrite Hmap in Hcon. unfold pd_concat in Hcon.
  destruct (vsRest_blocks qvalue log2fc_cut mean_cut h d) as [|b bs] eqn:Hb;
    [discriminate|].
  injection Hcon as <-. eexists. split; [reflexivity|].
  cbn [rows].
  change (rows b ++ concat (map rows bs))%list with (concat (map rows (b :: bs))).
  rewrite <- Hb. split; [|split].
  - intros row Hin.
    destruct (blocks_rows qvalue log2fc_cut mean_cut h d row Hex Hin)
      as [Hp (comp & _ & Hl & Hfrom)].
    apply passes_spec in Hp. destruct Hp as (? & ? & ?). eauto 8.
  - intros comp. now apply blocks_sorted.
  - intros comp r t row0 Hin Hne Hr Hin0 Hp.
    destruct (Hex comp (Tbl r) Hin Hne) as (r' & t' & [= <-] & Hr' & Hlab).
    rewrite Hr in Hr'. injection Hr' as <-.
    eapply blocks_complete; eauto. now apply passes_spec.
Qed.

Lemma mapping_vsRest_tagged :
  vsRest_tagged Examples.heap_vsRest Examples.mapping_vsRest.
Proof.
  split; [reflexivity|]. split; [|split].
  - unfold Dict.wf. simpl. repeat constructor; simpl; intuition discriminate.
  - simpl. repeat constructor; simpl; intuition discriminate.
  - intros comp e [[= <- <-]|[[= <- <-]|[[= <- <-]|[]]]] Hne; [congruence| |].
    + eexists _, _. split; [reflexivity|]. split; [reflexivity|]. intros [=].
    + eexists _, _. split; [reflexivity|]. split; [reflexivity|]. intros [=].
Qed.

Lemma getMarker_vsRest_rows_witness :
  exists df,
    Examples.markers_vsRest = VsRestMarkers df
    /\ (forall row, In row (rows df) ->
          (qval row < 1)%Q /\ (0 < log2fc row)%Q /\ (0 < mean row)%Q
          /\ exists comp, row_label "clusterName" row = Some comp
                          /\ from_group Examples.heap_vsRest Examples.mapping_vsRest
                               comp row)
    /\ (forall comp, StronglySorted coef_ge (group_rows comp (rows df)))
    /\ (forall comp r t row0,
          In (comp, Tbl r) Examples.mapping_vsRest -> comp <> "__cat" ->
          frames Examples.heap_vsRest !! r = Some t ->
          In row0 (rows t) ->
          (qval row0 < 1)%Q /\ (0 < log2fc row0)%Q /\ (0 < mean row0)%Q ->
          exists row, In row (rows df) /\ same_values row row0
                      /\ row_label "clusterName" row = Some comp).
Proof.
  apply (getMarker_vsRest_rows 0 "diffxpyVsRest_ct" 1 0 0 (-1)
           Examples.heap_vsRest Examples.mapping_vsRest Examples.markers_vsRest
           (outcome_heap (getMarker 0 "diffxpyVsRest_ct" 1 0 0 (-1) Examples.heap_vsRest))).
  - eexists. split; reflexivity.
  - exact mapping_vsRest_tagged.
  - vm_compute. reflexivity.
Defined.

(** ** Marker Extractor: the pairwise mode *)

Lemma pairWise_item_run (q l m : Q) (comp tested bg : string) (r : nat) (df : DataFrame)
    (ls : list (string * DataFrame)) (h h' : Heap) :
  comp <> "__cat" -> re_tested comp = Ok tested -> re_bg comp = Ok bg ->
  frames h !! r = Some df ->
  pairWise_item q l m (comp, Tbl r) h = Return ls h' ->
  ls = [(bg, pairWise_block q l m tested bg df)]
  /\ (forall r', r' <> r -> frames h' !! r' = frames h !! r')
  /\ adatas h' = adatas h.
Proof.
  intros Hc Ht Hb Hr Hrun. unfold pairWise_item in Hrun.
  destruct (String.eqb_spec comp "__cat"); [contradiction|].
  rewrite Ht, Hb in Hrun.
  apply bind_Return in Hrun as (t' & h1 & Ht' & Hrun).
  apply lift_Return in Ht' as ([= <-] & ->).
  apply bind_Return in Hrun as (b' & h1 & Hb' & Hrun).
  apply lift_Return in Hb' as ([= <-] & ->).
  apply bind_Return in Hrun as (r' & h1 & Hr' & Hrun).
  apply entry_table_Return in Hr' as (-> & [= <-]).
  apply bind_Return in Hrun as ([] & h1 & Hins1 & Hrun).
  apply (insert_if_absent_run _ _ _ df) in Hins1 as [Hf1 Ha1]; [|exact Hr].
  assert (Hr1 : frames h1 !! r = Some (tag_table "testedCluster" tested df)).
  { rewrite Hf1. apply list_lookup_insert_eq. eapply lookup_lt_Some; eauto. }
  apply bind_Return in Hrun as ([] & h2 & Hins2 & Hrun).
  apply (insert_if_absent_run _ _ _ _ _ _ Hr1) in Hins2 as [Hf2 Ha2].
  apply bind_Return in Hrun as (df' & h3 & Hg & Hrun).
  apply get_frame_Return in Hg as (-> & Hg).
  injection Hrun as <- <-.
  rewrite Hf2 in Hg. rewrite list_lookup_insert_eq in Hg
    by (eapply lookup_lt_Some; eauto).
  injection Hg as <-. split; [reflexivity|]. split; [|congruence].
  intros r' Hne. rewrite Hf2, list_lookup_insert_ne by congruence.
  rewrite Hf1. apply list_lookup_insert_ne. congruence.
Qed.

Lemma pairWise_blocks_agree (q l m : Q) (h h1 : Heap) (d : Dict.t Entry) :
  (forall r, In r (table_refs d) -> frames h1 !! r = frames h !! r) ->
  pairWise_blocks q l m h1 d = pairWise_blocks q l m h d.
Proof.
  induction d as [|[comp e] d IH]; simpl; intros Hag; [reflexivity|].
  rewrite IH by (intros r Hr; apply Hag, in_or_app; now right).
  destruct (String.eqb comp "__cat"); [reflexivity|].
  destruct (re_tested comp); [|reflexivity].
  destruct (re_bg comp); [|reflexivity].
  destruct e as [c|r]; [reflexivity|].
  rewrite Hag by (apply in_or_app; left; now left). reflexivity.
Qed.

Lemma map_py_pairWise_items (q l m : Q) (d : Dict.t Entry) (h h' : Heap)
    (ls : list (list (string * DataFrame))) :
  List.NoDup (table_refs d) ->
  (forall comp e, In (comp, e) d -> comp <> "__cat" ->
     exists tested bg r df,
       re_tested comp = Ok tested /\ re_bg comp = Ok bg
       /\ e = Tbl r /\ frames h !! r = Some df) ->
  map_py (pairWise_item q l m) d h = Return ls h' ->
  concat ls = pairWise_blocks q l m h d.
Proof.
  revert h ls. induction d as [|[comp e] d IH]; intros h ls Hnd Hex Hrun.
  - injection Hrun as <- <-. reflexivity.
  - cbn [map_py] in Hrun.
    apply bind_Return in Hrun as (y & h1 & Hitem & Hrun).
    apply bind_Return in Hrun as (ys & h2 & Hrest & Hrun).
    injection Hrun as <- <-. cbn [concat pairWise_blocks].
    assert (Hnd0 : List.NoDup (table_refs d))
      by (unfold table_refs in Hnd; simpl in Hnd; now apply NoDup_app_remove_l in Hnd).
    destruct (String.eqb_spec comp "__cat") as [->|Hc].
    + unfold pairWise_item in Hitem. simpl in Hitem. injection Hitem as <- <-.
      simpl. apply IH; auto.
      intros comp' e' Hin. apply Hex. now right.
    + destruct (Hex comp e (or_introl eq_refl) Hc) as (t & b & r & df & Ht & Hb & -> & Hr).
      apply (pairWise_item_run q l m comp t b r df) in Hitem as (-> & Hf & Ha); auto.
      rewrite Ht, Hb, Hr. simpl. f_equal.
      unfold table_refs in Hnd. simpl in Hnd.
      inversion Hnd as [|? ? Hnotin Hnd']; subst.
      assert (Hag : forall r', In r' (table_refs d) -> frames h1 !! r' = frames h !! r').
      { intros r' Hr'. apply Hf. intros ->. apply Hnotin. exact Hr'. }
      rewrite <- (pairWise_blocks_agree q l m h h1 d Hag).
      apply IH; auto.
      intros comp' e' Hin Hc'.
      destruct (Hex comp' e' (or_intror Hin) Hc') as (t' & b' & r' & df' & ? & ? & -> & Hr').
      exists t', b', r', df'. repeat split; auto. rewrite Hag; auto.
      unfold table_refs. apply in_flat_map. exists (comp', Tbl r'). split; auto.
      now left.
Qed.

Lemma key_eqb_eq (a b : string * string) : key_eqb a b = true <-> a = b.
Proof.
  destruct a as [a1 a2], b as [b1 b2]. unfold key_eqb. simpl.
  rewrite andb_true_iff, !String.eqb_eq. split; [intros [-> ->]|intros [= -> ->]]; auto.
Qed.

Lemma In_unique_keys (k : string * string) (l : list (string * string)) :
  In k (unique_keys l) <-> In k l.
Proof.
  induction l as [|y l IH]; simpl; [tauto|].
  rewrite filter_In, IH. split.
  - intros [->|[H _]]; auto.
  - intros [->|H]; auto.
    destruct (key_eqb k y) eqn:E; [apply key_eqb_eq in E; auto|auto].
Qed.

Lemma In_insert_key (k x : string * string) (l : list (string * string)) :
  In x (insert_key k l) <-> x = k \/ In x l.
Proof.
  induction l as [|y l IH]; simpl; [intuition auto|].
  destruct (key_leb k y); simpl; [intuition auto|].
  rewrite IH. intuition auto.
Qed.

Lemma In_sort_keys (x : string * string) (l : list (string * string)) :
  In x (sort_keys l) <-> In x l.
Proof.
  unfold sort_keys. induction l as [|y l IH]; simpl; [tauto|].
  rewrite In_insert_key, IH. intuition auto.
Qed.

Lemma In_groupby_agg (rs : list Row) (a : AggRow) :
  In a (groupby_agg rs) <->
  exists k, (exists row, In row rs /\ group_key row = Some k) /\ a = aggregate rs k.
Proof.
  unfold groupby_agg. rewrite in_map_iff. split.
  - intros (k & <- & Hk). exists k. split; [|reflexivity].
    apply In_sort_keys, In_unique_keys, list_elem_of_In, list_elem_of_omap in Hk.
    destruct Hk as (row & Hrow & Hkey). exists row. split; [now apply list_elem_of_In|auto].
  - intros (k & (row & Hrow & Hkey) & ->). exists k. split; [reflexivity|].
    apply In_sort_keys, In_unique_keys, list_elem_of_In, list_elem_of_omap.
    exists row. split; [now apply list_elem_of_In|auto].
Qed.

Lemma filter_length_insert_desc (f : Row -> bool) (r : Row) (l : list Row) :
  length (List.filter f (insert_desc r l)) = length (List.filter f (r :: l)).
Proof.
  induction l as [|y l IH]; simpl; [reflexivity|].
  destruct (Qle_bool (coef_mle y) (coef_mle r)); simpl; [reflexivity|].
  simpl in IH. destruct (f y), (f r); simpl in *; lia.
Qed.

Lemma filter_length_sort (f : Row -> bool) (l : list Row) :
  length (List.filter f (sort_values_desc l)) = length (List.filter f l).
Proof.
  unfold sort_values_desc. induction l as [|y l IH]; simpl; [reflexivity|].
  rewrite filter_length_insert_desc. simpl. destruct (f y); simpl; lia.
Qed.

Lemma filter_filter_length {A} (f g : A -> bool) (l : list A) :
  length (List.filter f (List.filter g l))
  = length (List.filter (fun x => g x && f x) l).
Proof.
  induction l as [|x l IH]; simpl; [reflexivity|].
  destruct (g x); simpl; [destruct (f x); simpl; lia|exact IH].
Qed.

Lemma filter_map_length {A B} (f : A -> B) (p : B -> bool) (q : A -> bool) (l : list A) :
  (forall x, In x l -> p (f x) = q x) ->
  length (List.filter p (map f l)) = length (List.filter q l).
Proof.
  induction l as [|x l IH]; simpl; intros H; [reflexivity|].
  rewrite (H x) by now left.
  destruct (q x); simpl; rewrite IH; auto.
Qed.

Lemma tag_table_rows (c v : string) (df : DataFrame) :
  rows (tag_table c v df) = map (tag_row c v df) (rows df).
Proof.
  unfold tag_table, tag_row. destruct (has_column c df); simpl; [|reflexivity].
  now rewrite map_id.
Qed.

Lemma in_group_spec (k : string * string) (row : Row) :
  in_group k row = true <-> group_key row = Some k.
Proof.
  unfold in_group. destruct (group_key row) as [k'|]; [|split; discriminate].
  rewrite key_eqb_eq. split; congruence.
Qed.

Lemma filter_length_pos {A} (f : A -> bool) (l : list A) :
  (1 <= length (List.filter f l))%nat <-> exists x, In x l /\ f x = true.
Proof.
  split.
  - destruct (List.filter f l) as [|x l'] eqn:E; simpl; [lia|]. intros _.
    exists x. apply filter_In. rewrite E. now left.
  - intros (x & Hin & Hf).
    assert (Hx : In x (List.filter f l)) by (apply filter_In; auto).
    destruct (List.filter f l); [destruct Hx|simpl; lia].
Qed.

(** What [groupby], [agg] and the count filter keep. *)
Lemma retained_iff (rs : list Row) (resolved : Z) (t g : string) :
  retained (List.filter (fun a => (resolved <=? counts a)%Z) (groupby_agg rs)) t g <->
  (1 <= length (List.filter (in_group (t, g)) rs))%nat
  /\ (resolved <= Z.of_nat (length (List.filter (in_group (t, g)) rs)))%Z.
Proof.
  unfold retained. split.
  - intros (a & Hin & <- & <-). apply filter_In in Hin as [Hin Hc].
    apply In_groupby_agg in Hin as ([t g] & (row & Hrow & Hkey) & ->).
    simpl in *. split.
    + apply filter_length_pos. exists row. split; auto. now apply in_group_spec.
    + now apply Z.leb_le.
  - intros [Hpos Hres]. apply filter_length_pos in Hpos as (row & Hrow & Hg).
    exists (aggregate rs (t, g)). split; [|split; reflexivity].
    apply filter_In. split.
    + apply In_groupby_agg. exists (t, g). split; [|reflexivity].
      exists row. split; auto. now apply in_group_spec.
    + simpl. now apply Z.leb_le.
Qed.

Lemma retained_counts (rs : list Row) (resolved : Z) (a : AggRow) :
  In a (List.filter (fun a => (resolved <=? counts a)%Z) (groupby_agg rs)) ->
  counts a
  = Z.of_nat (length (List.filter (in_group (agg_testedCluster a, agg_gene a)) rs)).
Proof.
  intros Hin. apply filter_In in Hin as [Hin _].
  apply In_groupby_agg in Hin as ([t g] & _ & ->). reflexivity.
Qed.

Lemma row_label_add_ne (c c' v : string) (r : Row) :
  c <> c' -> row_label c (row_add_label c' v r) = row_label c r.
Proof.
  intros Hne. unfold row_label, row_add_label. simpl.
  destruct (String.eqb_spec c c'); [contradiction|reflexivity].
Qed.

Lemma tag_row_label (c v : string) (df : DataFrame) (r : Row) :
  labelled c v df -> In r (rows df) -> row_label c (tag_row c v df r) = Some v.
Proof.
  intros Hl Hin. unfold tag_row. destruct (has_column c df) eqn:E.
  - now apply Hl.
  - apply row_label_add.
Qed.

Lemma tag_row_label_ne (c c' v : string) (df : DataFrame) (r : Row) :
  c <> c' -> row_label c (tag_row c' v df r) = row_label c r.
Proof.
  intros Hne. unfold tag_row. destruct (has_column c' df); [reflexivity|].
  now apply row_label_add_ne.
Qed.

Lemma tag_row_values (c v : string) (df : DataFrame) (r : Row) :
  same_values (tag_row c v df r) r.
Proof. unfold tag_row. destruct (has_column c df); repeat split. Qed.

Lemma passes_same_values (q l m : Q) (a b : Row) :
  same_values a b -> passes q l m a = passes q l m b.
Proof. intros (_ & Hq & Hl & Hm & _). unfold passes. now rewrite Hq, Hl, Hm. Qed.

Lemma pairWise_block_count (q l m : Q) (tested bg : string) (df : DataFrame)
    (t g : string) :
  labelled "testedCluster" tested df ->
  length (List.filter (in_group (t, g)) (rows (pairWise_block q l m tested bg df)))
  = if String.eqb tested t
    then length (List.filter (clears_row q l m g) (rows df))
    else 0%nat.
Proof.
  intros Hlab. unfold pairWise_block, twoSample. cbn [rows].
  rewrite filter_length_sort, filter_filter_length, !tag_table_rows, map_map.
  rewrite (filter_map_length _ _
             (fun r0 => String.eqb tested t && clears_row q l m g r0)).
  - destruct (String.eqb tested t); simpl; [reflexivity|].
    now rewrite filter_none.
  - intros r0 Hin.
    set (r1 := tag_row "testedCluster" tested df r0).
    set (r2 := tag_row "bgCluster" bg (tag_table "testedCluster" tested df) r1).
    assert (H1 : same_values r1 r0) by apply tag_row_values.
    assert (H2 : same_values r2 r1) by apply tag_row_values.
    rewrite (passes_same_values q l m r2 r1 H2), (passes_same_values q l m r1 r0 H1).
    unfold in_group, group_key, key_eqb, clears_row.
    assert (Hl : row_label "testedCluster" r2 = Some tested).
    { unfold r2. rewrite tag_row_label_ne by discriminate.
      now apply tag_row_label. }
    rewrite Hl. simpl.
    destruct H1 as (Hg1 & _), H2 as (Hg2 & _). rewrite Hg2, Hg1.
    destruct (passes q l m r0), (String.eqb tested t), (String.eqb (gene r0) g);
      reflexivity.
Qed.

Lemma merged_count (q l m : Q) (h : Heap) (d : Dict.t Entry) (t g : string) :
  (forall comp e, In (comp, e) d -> comp <> "__cat" ->
     exists tested bg r df,
       re_tested comp = Ok tested /\ re_bg comp = Ok bg
       /\ e = Tbl r /\ frames h !! r = Some df
       /\ labelled "testedCluster" tested df
       /\ labelled "bgCluster" bg df) ->
  length (List.filter (in_group (t, g))
            (concat (map rows (map snd (pairWise_blocks q l m h d)))))
  = clear_count q l m h d t g.
Proof.
  induction d as [|[comp e] d IH]; intros Hex; [reflexivity|].
  cbn [pairWise_blocks clear_count].
  rewrite !map_app, concat_app, List.filter_app, length_app.
  rewrite IH by (intros c' e' Hin; apply Hex; now right).
  f_equal.
  destruct (String.eqb_spec comp "__cat") as [->|Hc]; [reflexivity|].
  destruct (Hex comp e (or_introl eq_refl) Hc)
    as (tested & bg & r & df & -> & -> & -> & -> & Hlt & _).
  cbn [map concat snd]. rewrite app_nil_r.
  now apply pairWise_block_count.
Qed.

Lemma blocks_backgrounds (q l m : Q) (h : Heap) (d : Dict.t Entry) :
  (forall comp e, In (comp, e) d -> comp <> "__cat" ->
     exists tested bg r df,
       re_tested comp = Ok tested /\ re_bg comp = Ok bg
       /\ e = Tbl r /\ frames h !! r = Some df) ->
  map fst (pairWise_blocks q l m h d) = backgrounds d.
Proof.
  induction d as [|[comp e] d IH]; intros Hex; [reflexivity|].
  cbn [pairWise_blocks]. unfold backgrounds. cbn [flat_map fst].
  rewrite map_app. fold (backgrounds d).
  rewrite IH by (intros c' e' Hin; apply Hex; now right).
  f_equal.
  destruct (String.eqb_spec comp "__cat") as [->|Hc]; [reflexivity|].
  destruct (Hex comp e (or_introl eq_refl) Hc)
    as (tested & bg & r & df & -> & -> & -> & ->).
  reflexivity.
Qed.

(** The pairwise mode of [getMarker] on any tagged mapping: a pair
    (tested group, gene) is kept exactly when it has at least one clearing
    row and its clearance count reaches the resolved cutoff. *)
Lemma getMarker_pairWise_general
    (adata : nat) (key : string) (q l m : Q) (detectedCounts : Z)
    (h : Heap) (d : Dict.t Entry) (out : Markers) (h' : Heap) :
  mapping_at adata key d h ->
  pairWise_tagged h d ->
  getMarker adata key q l m detectedCounts h = Return out h' ->
  exists t_out,
    out = PairWiseMarkers t_out
    /\ (forall t g,
          retained t_out t g <->
          (1 <= clear_count q l m h d t g)%nat
          /\ (resolve_detectedCounts (backgrounds d) detectedCounts
              <= Z.of_nat (clear_count q l m h d t g))%Z)
    /\ (forall a, In a t_out ->
          counts a
          = Z.of_nat (clear_count q l m h d (agg_testedCluster a) (agg_gene a))).
Proof.
  intros Hm (Hcat & Hnd & Hex) Hrun. unfold getMarker in Hrun.
  apply bind_Return in Hrun as (d' & h1 & Hget & Hrun).
  apply uns_get_Return in Hget as [-> Hm'].
  rewrite (mapping_at_functional _ _ _ _ _ Hm' Hm) in Hrun. clear d' Hm'.
  apply bind_Return in Hrun as (cate & h1 & Hc & Hrun).
  apply lift_Return in Hc as [Hc ->]. rewrite Hcat in Hc. injection Hc as <-.
  simpl in Hrun.
  apply bind_Return in Hrun as (t_out & h1 & Hp & Hrun). injection Hrun as <- <-.
  unfold getMarker_pairWise in Hp.
  apply bind_Return in Hp as (parsed & h2 & Hmap & Hp).
  apply bind_Return in Hp as (merged & h3 & Hcon & Hp).
  apply lift_Return in Hcon as [Hcon ->]. injection Hp as <- <-.
  assert (Hex' : forall comp e, In (comp, e) d -> comp <> "__cat" ->
            exists tested bg r df,
              re_tested comp = Ok tested /\ re_bg comp = Ok bg
              /\ e = Tbl r /\ frames h !! r = Some df).
  { intros comp e Hin Hne.
    destruct (Hex comp e Hin Hne) as (t & b & r & df & ? & ? & ? & ? & _). eauto 8. }
  apply map_py_pairWise_items in Hmap; auto.
  rewrite Hmap in *. rewrite (blocks_backgrounds q l m h d Hex').
  assert (Hrows : rows merged = concat (map rows (map snd (pairWise_blocks q l m h d)))).
  { unfold pd_concat in Hcon.
    destruct (map snd (pairWise_blocks q l m h d)); [discriminate|].
    now injection Hcon as <-. }
  rewrite Hrows. eexists. split; [reflexivity|]. split.
  - intros t g. rewrite retained_iff, (merged_count q l m h d t g Hex). reflexivity.
  - intros a Ha. rewrite (retained_counts _ _ a Ha).
    now rewrite (merged_count q l m h d _ _ Hex).
Qed.

(** *** A mapping over all ordered pairs of a group list *)

Lemma pair_key_not_cat (a b : string) : String.eqb (pair_key a b) "__cat" = false.
Proof. reflexivity. Qed.

Lemma clear_rows_pos (q l m : Q) (df : DataFrame) (g : string) :
  (1 <= clear_rows q l m df g)%nat <-> clears q l m df g.
Proof.
  unfold clear_rows, clears. rewrite filter_length_pos. split.
  - intros (row & Hin & Hc). unfold clears_row in Hc.
    apply andb_true_iff in Hc as [Hg Hp].
    apply String.eqb_eq in Hg. apply passes_spec in Hp. exists row. tauto.
  - intros (row & Hin & Hg & Hp). exists row. split; auto.
    unfold clears_row. apply andb_true_iff. split.
    + now apply String.eqb_eq.
    + now apply passes_spec.
Qed.

(** One row per gene: at most one row clears for a gene. *)
Lemma clear_rows_le_1 (q l m : Q) (df : DataFrame) (g : string) :
  List.NoDup (map gene (rows df)) -> (clear_rows q l m df g <= 1)%nat.
Proof.
  unfold clear_rows. induction (rows df) as [|r rs IH]; simpl; intros Hnd; [lia|].
  inversion Hnd as [|? ? Hnotin Hnd']; subst.
  unfold clears_row at 1.
  destruct (String.eqb_spec (gene r) g) as [Hg|Hg]; simpl; [|auto].
  destruct (passes q l m r); simpl; [|auto].
  rewrite filter_none; [simpl; lia|].
  intros x Hx. unfold clears_row.
  destruct (String.eqb_spec (gene x) g) as [Hx'|]; [|reflexivity].
  exfalso. apply Hnotin. rewrite Hg, <- Hx'. now apply in_map.
Qed.

Lemma clear_count_perm (q l m : Q) (h : Heap) (d d' : Dict.t Entry) (t g : string) :
  Permutation d d' -> clear_count q l m h d t g = clear_count q l m h d' t g.
Proof.
  induction 1 as [|[c e] d d' _ IH|[c1 e1] [c2 e2] d|d1 d2 d3 _ IH1 _ IH2];
    simpl; lia.
Qed.

Section OverPairs.

Variables (q l m : Q) (h : Heap) (groups : list string).
Variables (ref : string -> string -> nat) (tbl : string -> string -> DataFrame).
Variables (t g : string).

Hypothesis parse_back : forall a b, In a groups -> In b groups ->
  re_tested (pair_key a b) = Ok a /\ re_bg (pair_key a b) = Ok b.

Hypothesis tables : forall a b, In a groups -> In b groups -> a <> b ->
  frames h !! ref a b = Some (tbl a b).

(** The clearance count over a list of pairs is the sum of the clearing
    rows of the tables whose tested group is [t]. *)
Lemma clear_count_pairs (ps : list (string * string)) :
  (forall p, In p ps -> In (fst p) groups /\ In (snd p) groups /\ fst p <> snd p) ->
  clear_count q l m h
    (map (fun p => (pair_key (fst p) (snd p), Tbl (ref (fst p) (snd p)))) ps) t g
  = list_sum (map (fun p => if String.eqb (fst p) t
                            then clear_rows q l m (tbl t (snd p)) g else 0%nat) ps).
Proof.
  induction ps as [|[a b] ps IH]; intros Hps; [reflexivity|].
  cbn [map clear_count list_sum fst snd].
  rewrite IH by (intros p Hp; apply Hps; now right).
  f_equal. rewrite pair_key_not_cat.
  destruct (Hps (a, b) (or_introl eq_refl)) as (Ha & Hb & Hab). simpl in *.
  destruct (parse_back a b Ha Hb) as [-> _].
  destruct (String.eqb_spec a t) as [->|]; [|reflexivity].
  now rewrite (tables t b Ha Hb Hab).
Qed.

Lemma sum_over_row (a : string) (l2 : list string) :
  list_sum (map (fun p => if String.eqb (fst p) t
                          then clear_rows q l m (tbl t (snd p)) g else 0%nat)
              (List.filter (fun p => negb (String.eqb (fst p) (snd p)))
                 (map (pair a) l2)))
  = if String.eqb a t
    then list_sum (map (fun b => clear_rows q l m (tbl t b) g)
                     (List.filter (fun b => negb (String.eqb t b)) l2))
    else 0%nat.
Proof.
  induction l2 as [|b l2 IH]; simpl.
  - now destruct (String.eqb a t).
  - destruct (String.eqb_spec a t) as [->|Hat].
    + destruct (String.eqb t b); simpl; rewrite ?String.eqb_refl; rewrite IH; reflexivity.
    + destruct (String.eqb a b); simpl; rewrite IH; auto.
      destruct (String.eqb_spec a t); [contradiction|reflexivity].
Qed.

Lemma sum_over_pairs (l1 l2 : list string) :
  List.NoDup l1 ->
  list_sum (map (fun p => if String.eqb (fst p) t
                          then clear_rows q l m (tbl t (snd p)) g else 0%nat)
              (List.filter (fun p => negb (String.eqb (fst p) (snd p)))
                 (list_prod l1 l2)))
  = if str_in t l1
    then list_sum (map (fun b => clear_rows q l m (tbl t b) g)
                     (List.filter (fun b => negb (String.eqb t b)) l2))
    else 0%nat.
Proof.
  induction 1 as [|a l1 Ha Hnd IH]; [reflexivity|].
  cbn [list_prod]. rewrite List.filter_app, map_app, list_sum_app, sum_over_row, IH.
  unfold str_in. cbn [existsb]. rewrite (String.eqb_sym t a).
  destruct (String.eqb_spec a t) as [->|Hat]; simpl; [|reflexivity].
  destruct (existsb (String.eqb t) l1) eqn:E; [|lia].
  exfalso. apply existsb_exists in E as (x & Hx & Hxt).
  apply String.eqb_eq in Hxt. subst x. contradiction.
Qed.

End OverPairs.

Lemma sum_reaches_length {A} (c : A -> nat) (l : list A) :
  (forall b, In b l -> (c b <= 1)%nat) ->
  ((length l <= list_sum (map c l))%nat <-> forall b, In b l -> (1 <= c b)%nat).
Proof.
  induction l as [|a l IH]; simpl; intros Hle.
  - split; [intros _ b []|lia].
  - assert (Ha : (c a <= 1)%nat) by (apply Hle; now left).
    assert (Hl : forall b, In b l -> (c b <= 1)%nat) by (intros b Hb; apply Hle; now right).
    assert (Hsum : (list_sum (map c l) <= length l)%nat).
    { clear IH Hle Ha. induction l as [|b l IHl]; simpl; [lia|].
      assert (c b <= 1)%nat by (apply Hl; now left).
      assert (list_sum (map c l) <= length l)%nat
        by (apply IHl; intros x Hx; apply Hl; now right). lia. }
    specialize (IH Hl). split.
    + intros H b [<-|Hb]; [lia|]. apply IH; [lia|exact Hb].
    + intros H. assert (1 <= c a)%nat by (apply H; now left).
      assert (length l <= list_sum (map c l))%nat
        by (apply IH; intros b Hb; apply H; now right). lia.
Qed.

Lemma length_others (t : string) (groups : list string) :
  List.NoDup groups -> In t groups ->
  length (List.filter (fun b => negb (String.eqb t b)) groups)
  = (length groups - 1)%nat.
Proof.
  induction 1 as [|a l Ha Hnd IH]; intros Hin; [destruct Hin|]. simpl.
  destruct (String.eqb_spec t a) as [->|Hne]; simpl.
  - rewrite filter_all; [lia|].
    intros x Hx. destruct (String.eqb_spec a x) as [->|]; [contradiction|reflexivity].
  - destruct Hin as [->|Hin]; [contradiction|]. rewrite IH by exact Hin.
    destruct l; [destruct Hin|simpl; lia].
Qed.

Lemma In_ordered_pairs (groups : list string) (a b : string) :
  In (a, b) (ordered_pairs groups) <-> In a groups /\ In b groups /\ a <> b.
Proof.
  unfold ordered_pairs. rewrite filter_In, in_prod_iff. simpl.
  rewrite negb_true_iff, String.eqb_neq. tauto.
Qed.

Lemma In_backgrounds (d : Dict.t Entry) (x : string) :
  In x (backgrounds d) <->
  exists comp e, In (comp, e) d /\ comp <> "__cat" /\ re_bg comp = Ok x.
Proof.
  unfold backgrounds. rewrite in_flat_map. split.
  - intros ([comp e] & Hin & Hx). simpl in Hx.
    destruct (String.eqb_spec comp "__cat"); [destruct Hx|].
    destruct (re_bg comp) as [bg|] eqn:E; [|destruct Hx].
    destruct Hx as [->|[]]. eauto.
  - intros (comp & e & Hin & Hne & Hbg). exists (comp, e). split; auto. simpl.
    destruct (String.eqb_spec comp "__cat"); [contradiction|].
    rewrite Hbg. now left.
Qed.

Section FullMapping.

Variable groups : list string.
Variable ref : string -> string -> nat.
Variable d : Dict.t Entry.

Hypothesis groups_distinct : List.NoDup groups.
Hypothesis parse_back : forall a b, In a groups -> In b groups ->
  re_tested (pair_key a b) = Ok a /\ re_bg (pair_key a b) = Ok b.
Hypothesis entries : Permutation d (pairWise_entries groups ref).

Lemma In_full_mapping (comp : string) (e : Entry) :
  In (comp, e) d -> comp <> "__cat" ->
  exists a b, In a groups /\ In b groups /\ a <> b
              /\ comp = pair_key a b /\ e = Tbl (ref a b).
Proof.
  intros Hin Hne. apply (Permutation_in _ entries) in Hin.
  destruct Hin as [[= <- <-]|Hin]; [contradiction|].
  apply in_map_iff in Hin as ([a b] & [= <- <-] & Hp).
  apply In_ordered_pairs in Hp. exists a, b. tauto.
Qed.

Lemma full_mapping_In (a b : string) :
  In a groups -> In b groups -> a <> b -> In (pair_key a b, Tbl (ref a b)) d.
Proof.
  intros Ha Hb Hab. apply (Permutation_in _ (Permutation_sym entries)).
  right. apply in_map_iff. exists (a, b). split; [reflexivity|].
  now apply In_ordered_pairs.
Qed.

(** Every group is the background of some other group, so the distinct
    background names are the groups. *)
Lemma distinct_backgrounds :
  (2 <= length groups)%nat ->
  length (unique (backgrounds d)) = length groups.
Proof.
  intros Hlen. apply Permutation_length, Permutation.NoDup_Permutation;
    [apply unique_NoDup|exact groups_distinct|].
  intros x. rewrite unique_In, In_backgrounds. split.
  - intros (comp & e & Hin & Hne & Hbg).
    destruct (In_full_mapping comp e Hin Hne) as (a & b & Ha & Hb & _ & -> & _).
    destruct (parse_back a b Ha Hb) as [_ Hb']. congruence.
  - intros Hx.
    assert (Hother : exists a, In a groups /\ a <> x).
    { destruct groups as [|g1 [|g2 gs]]; simpl in Hlen; try lia.
      inversion groups_distinct as [|? ? Hg1 _]; subst.
      destruct (String.eqb_spec g1 x) as [->|Hne].
      - exists g2. split; [right; now left|]. intros ->. apply Hg1. now left.
      - exists g1. split; [now left|exact Hne]. }
    destruct Hother as (a & Ha & Hax).
    exists (pair_key a x), (Tbl (ref a x)). split; [now apply full_mapping_In|].
    split.
    + intros Heq. pose proof (pair_key_not_cat a x) as Hk. rewrite Heq in Hk.
      discriminate.
    + now destruct (parse_back a x Ha Hx).
Qed.

End FullMapping.

Lemma str_in_In (x : string) (l : list string) : str_in x l = true <-> In x l.
Proof.
  unfold str_in. rewrite existsb_exists. split.
  - intros (y & Hy & Heq). apply String.eqb_eq in Heq. now subst.
  - intros H. exists x. split; auto. apply String.eqb_refl.
Qed.

Lemma full_mapping_tagged (h : Heap) (d : Dict.t Entry) (groups : list string)
    (ref : string -> string -> nat) (tbl : string -> string -> DataFrame) :
  full_pairWise_mapping h d groups ref tbl -> pairWise_tagged h d.
Proof.
  intros (Hcat & Hrefs & Hnd & Hparse & Hperm & Htbl).
  split; [exact Hcat|]. split; [exact Hrefs|].
  intros comp e Hin Hne.
  destruct (In_full_mapping _ _ _ Hperm comp e Hin Hne)
    as (a & b & Ha & Hb & Hab & -> & ->).
  destruct (Hparse a b Ha Hb) as [Ht Hbg].
  destruct (Htbl a b Ha Hb Hab) as (Hf & Hl1 & Hl2 & _).
  exists a, b, (ref a b), (tbl a b). auto 8.
Qed.

(** The clearance count on a complete mapping: the clearing rows of the
    tables of [t] against each other group. *)
Lemma full_mapping_count (q l m : Q) (h : Heap) (d : Dict.t Entry)
    (groups : list string) (ref : string -> string -> nat)
    (tbl : string -> string -> DataFrame) (t g : string) :
  full_pairWise_mapping h d groups ref tbl ->
  clear_count q l m h d t g
  = if str_in t groups
    then list_sum (map (fun b => clear_rows q l m (tbl t b) g)
                     (List.filter (fun b => negb (String.eqb t b)) groups))
    else 0%nat.
Proof.
  intros (Hcat & Hrefs & Hnd & Hparse & Hperm & Htbl).
  rewrite (clear_count_perm q l m h d _ t g Hperm).
  unfold pairWise_entries. cbn [clear_count].
  change (String.eqb "__cat" "__cat") with true. cbn [Nat.add].
  rewrite (clear_count_pairs q l m h groups ref tbl t g Hparse).
  - unfold ordered_pairs. now apply sum_over_pairs.
  - intros a b Ha Hb Hab. now destruct (Htbl a b Ha Hb Hab).
  - intros [a b] Hp. now apply In_ordered_pairs in Hp.
Qed.

(** C3 (amended).  In general, a non-positive [detectedCounts] is resolved
    to the number of distinct background names among the keys of the
    mapping plus [detectedCounts], and a pair (tested group, gene) is kept
    exactly when its clearance count is at least 1 and at least the
    resolved value.  On a complete mapping over [n >= 2] groups the
    distinct background names are all [n] groups, so [detectedCounts = -1]
    resolves to [n - 1]: with 4 groups to 3, and the pairs kept are exactly
    those that clear the cutoffs against all 3 background groups. *)
Theorem getMarker_pairWise_resolved :
  (forall (adata : nat) (key : string) (qvalue log2fc_cut mean_cut : Q)
          (detectedCounts : Z) (h : Heap) (d : Dict.t Entry) (out : Markers)
          (h' : Heap),
     mapping_at adata key d h ->
     pairWise_tagged h d ->
     getMarker adata key qvalue log2fc_cut mean_cut detectedCounts h = Return out h' ->
     exists t_out,
       out = PairWiseMarkers t_out
       /\ ((detectedCounts <= 0)%Z ->
           resolve_detectedCounts (backgrounds d) detectedCounts
           = (Z.of_nat (length (unique (backgrounds d))) + detectedCounts)%Z)
       /\ (forall t g,
             retained t_out t g <->
             (1 <= clear_count qvalue log2fc_cut mean_cut h d t g)%nat
             /\ (resolve_detectedCounts (backgrounds d) detectedCounts
                 <= Z.of_nat (clear_count qvalue log2fc_cut mean_cut h d t g))%Z))
  /\ (forall (adata : nat) (key : string) (qvalue log2fc_cut mean_cut : Q)
             (h : Heap) (d : Dict.t Entry) (groups : list string)
             (ref : string -> string -> nat) (tbl : string -> string -> DataFrame)
             (out : Markers) (h' : Heap),
        mapping_at adata key d h ->
        full_pairWise_mapping h d groups ref tbl ->
        (2 <= length groups)%nat ->
        getMarker adata key qvalue log2fc_cut mean_cut (-1) h = Return out h' ->
        exists t_out,
          out = PairWiseMarkers t_out
          /\ resolve_detectedCounts (backgrounds d) (-1)
             = (Z.of_nat (length groups) - 1)%Z
          /\ (length groups = 4%nat ->
              resolve_detectedCounts (backgrounds d) (-1) = 3%Z)
          /\ (forall t g,
                retained t_out t g <->
                In t groups
                /\ forall b, In b groups -> b <> t ->
                     clears qvalue log2fc_cut mean_cut (tbl t b) g)).
Proof.
  split.
  - intros adata key q l m dc h d out h' Hm Htag Hrun.
    destruct (getMarker_pairWise_general adata key q l m dc h d out h' Hm Htag Hrun)
      as (t_out & -> & Hret & _).
    exists t_out. split; [reflexivity|]. split; [|exact Hret].
    intros Hdc. unfold resolve_detectedCounts.
    destruct (dc <=? 0)%Z eqn:E; [reflexivity|]. apply Z.leb_gt in E. lia.
  - intros adata key q l m h d groups ref tbl out h' Hm Hfull Hlen Hrun.
    pose proof (full_mapping_tagged h d groups ref tbl Hfull) as Htag.
    destruct (getMarker_pairWise_general adata key q l m (-1) h d out h' Hm Htag Hrun)
      as (t_out & -> & Hret & _).
    pose proof Hfull as (Hcat & Hrefs & Hnd & Hparse & Hperm & Htbl).
    assert (Hres : resolve_detectedCounts (backgrounds d) (-1)
                   = (Z.of_nat (length groups) - 1)%Z).
    { unfold resolve_detectedCounts. simpl.
      rewrite (distinct_backgrounds _ _ _ Hnd Hparse Hperm Hlen). lia. }
    exists t_out. split; [reflexivity|]. split; [exact Hres|].
    split; [intros H4; rewrite Hres, H4; reflexivity|].
    intros t g. rewrite Hret, Hres.
    rewrite (full_mapping_count q l m h d groups ref tbl t g Hfull).
    destruct (str_in t groups) eqn:Hin.
    + apply str_in_In in Hin.
      set (others := List.filter (fun b => negb (String.eqb t b)) groups).
      assert (Hlo : length others = (length groups - 1)%nat)
        by (now apply length_others).
      assert (Hle : forall b, In b others ->
                (clear_rows q l m (tbl t b) g <= 1)%nat).
      { intros b Hb. apply filter_In in Hb as [Hb Hne].
        apply negb_true_iff, String.eqb_neq in Hne.
        apply clear_rows_le_1. now destruct (Htbl t b Hin Hb Hne) as (_ & _ & _ & ?). }
      pose proof (sum_reaches_length (fun b => clear_rows q l m (tbl t b) g) others Hle)
        as Hsum.
      split.
      * intros [_ Hge]. split; [exact Hin|]. intros b Hb Hne.
        apply clear_rows_pos. apply Hsum; [lia|].
        apply filter_In. split; [exact Hb|].
        apply negb_true_iff, String.eqb_neq. congruence.
      * intros [_ Hall].
        assert (length others <= list_sum
                  (map (fun b => clear_rows q l m (tbl t b) g) others))%nat.
        { apply Hsum. intros b Hb. apply filter_In in Hb as [Hb Hne].
          apply negb_true_iff, String.eqb_neq in Hne.
          apply clear_rows_pos. apply Hall; [exact Hb|congruence]. }
        lia.
    + split; [simpl; lia|]. intros [Ht _]. apply str_in_In in Ht. congruence.
Qed.

(** C3, as stated, fails: over the four groups of [ad4], gene [g1] of the
    tested group [A] clears the cutoffs against 2 of its 3 background
    groups ([B] and [C], not [D]), and [getMarker] with
    [detectedCounts = -1] does not keep it: the distinct background names
    number 4, so the cutoff is resolved to 3. *)
Lemma C3_counterexample :
  mapping_at 0 "diffxpyPairWise_ct" Examples.mapping_pw4 Examples.heap_pw4
  /\ clears (5 # 100) 0 0 (Examples.tbl_pw4 "A" "B") "g1"
  /\ clears (5 # 100) 0 0 (Examples.tbl_pw4 "A" "C") "g1"
  /\ clear_count (5 # 100) 0 0 Examples.heap_pw4 Examples.mapping_pw4 "A" "g1" = 2%nat
  /\ resolve_detectedCounts (backgrounds Examples.mapping_pw4) (-1) = 3%Z
  /\ (exists h',
        getMarker 0 "diffxpyPairWise_ct" (5 # 100) 0 0 (-1) Examples.heap_pw4
        = Return (PairWiseMarkers Examples.markers_pw4) h')
  /\ ~ retained Examples.markers_pw4 "A" "g1".
Proof.
  split; [eexists; split; vm_compute; reflexivity|].
  split; [eexists; split; [vm_compute; left; reflexivity|];
          repeat split; vm_compute; reflexivity|].
  split; [eexists; split; [vm_compute; left; reflexivity|];
          repeat split; vm_compute; reflexivity|].
  split; [vm_compute; reflexivity|].
  split; [vm_compute; reflexivity|].
  split; [eexists; vm_compute; reflexivity|].
  intros (a & [<-|[]] & Ht & _). discriminate.
Qed.

Ltac in_list := repeat (first [left; reflexivity | right]).

Ltac nodup_by_ref :=
  apply (NoDup_map_inv (fun kv : string * Entry =>
                          match snd kv with Tbl r => S r | Cat _ => 0%nat end));
  vm_compute; repeat constructor; simpl; lia.

Ltac no_column := let H := fresh in intros H; vm_compute in H; discriminate H.

(** The four-group example is a complete pairwise mapping: every ordered
    pair of distinct groups has its own table, stored under a key that
    parses back to the pair. *)
Lemma pw4_full :
  full_pairWise_mapping Examples.heap_pw4 Examples.mapping_pw4 ["A"; "B"; "C"; "D"]
    Examples.ref_pw4 Examples.tbl_pw4.
Proof.
  split; [reflexivity|].
  split; [vm_compute; repeat constructor; simpl; lia|].
  split; [repeat constructor; simpl; intuition discriminate|].
  split.
  { intros a b Ha Hb. simpl in Ha, Hb.
    destruct Ha as [<-|[<-|[<-|[<-|[]]]]], Hb as [<-|[<-|[<-|[<-|[]]]]];
      split; vm_compute; reflexivity. }
  split.
  { apply Permutation.NoDup_Permutation; [nodup_by_ref|nodup_by_ref|].
    intros x. vm_compute.
    split; intros H; repeat destruct H as [H|H]; try destruct H; in_list. }
  intros a b Ha Hb Hab. simpl in Ha, Hb.
  destruct Ha as [<-|[<-|[<-|[<-|[]]]]], Hb as [<-|[<-|[<-|[<-|[]]]]];
    try congruence.
  all: split; [vm_compute; reflexivity|].
  all: split; [no_column|].
  all: split; [no_column|].
  all: vm_compute; repeat constructor; simpl; tauto.
Qed.

Lemma getMarker_pairWise_resolved_witness :
  (exists t_out,
     PairWiseMarkers Examples.markers_pw4 = PairWiseMarkers t_out
     /\ ((-1 <= 0)%Z ->
         resolve_detectedCounts (backgrounds Examples.mapping_pw4) (-1)
         = (Z.of_nat (length (unique (backgrounds Examples.mapping_pw4))) + -1)%Z)
     /\ (forall t g,
           retained t_out t g <->
           (1 <= clear_count (5 # 100) 0 0 Examples.heap_pw4 Examples.mapping_pw4 t g)%nat
           /\ (resolve_detectedCounts (backgrounds Examples.mapping_pw4) (-1)
               <= Z.of_nat (clear_count (5 # 100) 0 0 Examples.heap_pw4
                              Examples.mapping_pw4 t g))%Z))
  /\ (exists t_out,
        PairWiseMarkers Examples.markers_pw4 = PairWiseMarkers t_out
        /\ resolve_detectedCounts (backgrounds Examples.mapping_pw4) (-1)
           = (Z.of_nat (length ["A"; "B"; "C"; "D"]) - 1)%Z
        /\ (length ["A"; "B"; "C"; "D"] = 4%nat ->
            resolve_detectedCounts (backgrounds Examples.mapping_pw4) (-1) = 3%Z)
        /\ (forall t g, retained t_out t g <->
              In t ["A"; "B"; "C"; "D"]
              /\ forall b, In b ["A"; "B"; "C"; "D"] -> b <> t ->
                   clears (5 # 100) 0 0 (Examples.tbl_pw4 t b) g)).
Proof.
  split.
  - apply (proj1 getMarker_pairWise_resolved 0%nat "diffxpyPairWise_ct" (5 # 100)%Q 0%Q 0%Q
             (-1)%Z Examples.heap_pw4 Examples.mapping_pw4
             (PairWiseMarkers Examples.markers_pw4)
             (outcome_heap (getMarker 0%nat "diffxpyPairWise_ct" (5 # 100)%Q 0%Q 0%Q (-1)%Z
                              Examples.heap_pw4))).
    + eexists. split; vm_compute; reflexivity.
    + exact (full_mapping_tagged _ _ _ _ _ pw4_full).
    + vm_compute. reflexivity.
  - apply (proj2 getMarker_pairWise_resolved 0%nat "diffxpyPairWise_ct" (5 # 100)%Q 0%Q 0%Q
             Examples.heap_pw4 Examples.mapping_pw4 ["A"; "B"; "C"; "D"]
             Examples.ref_pw4 Examples.tbl_pw4 (PairWiseMarkers Examples.markers_pw4)
             (outcome_heap (getMarker 0%nat "diffxpyPairWise_ct" (5 # 100)%Q 0%Q 0%Q (-1)%Z
                              Examples.heap_pw4))).
    + eexists. split; vm_compute; reflexivity.
    + exact pw4_full.
    + simpl. lia.
    + vm_compute. reflexivity.
Defined.

(** * Further properties of the code *)

(** ** Format Adapter: which cells and genes are kept *)

Lemma map_all_true {A} (f : A -> bool) (l : list A) :
  (forall x, In x l -> f x = true) -> map f l = repeat true (length l).
Proof.
  induction l as [|x l IH]; simpl; intros H; [reflexivity|].
  rewrite H by auto. f_equal. apply IH. auto.
Qed.

Lemma select_all_true {A} (xs : list A) (n : nat) :
  (length xs <= n)%nat -> select (repeat true n) xs = xs.
Proof.
  revert n. induction xs as [|x xs IH]; intros [|n] H; simpl in *; try reflexivity; try lia.
  f_equal. apply IH. lia.
Qed.

Lemma isin_rest_all (col : list string) (testComp : string) :
  isin col (testComp :: List.filter (fun x => negb (String.eqb x testComp)) (unique col))
  = repeat true (length col).
Proof.
  unfold isin. apply map_all_true. intros x Hx.
  apply str_in_In. destruct (String.eqb_spec x testComp) as [->|Hne]; [now left|].
  right. apply filter_In. split; [now apply unique_In|].
  destruct (String.eqb_spec x testComp); [contradiction|reflexivity].
Qed.

Lemma assign_binary_columns_frame (ad1 ad' : AnnData) (testLabel testComp : string)
    (batchLabel : option string) (keyAdded : string) :
  assign_binary_columns ad1 testLabel testComp batchLabel keyAdded = Ok ad' ->
  X ad' = X ad1 /\ layers ad' = layers ad1 /\ var_names ad' = var_names ad1
  /\ uns ad' = uns ad1
  /\ forall c, c <> keyAdded ->
       (forall b, batchLabel = Some b -> c <> b +:+ "_" +:+ keyAdded) ->
       Dict.get c (obs ad') = Dict.get c (obs ad1).
Proof.
  unfold assign_binary_columns, mbind, exc_bind, mret, exc_ret.
  destruct (obs_col testLabel ad1) as [col|]; [|discriminate].
  destruct batchLabel as [b|].
  - destruct (truthy (Some b)).
    + destruct (obs_col b _) as [bcol|]; [|discriminate].
      rewrite obs_col_set_eq. intros [= <-]. cbn [X layers var_names uns obs set_obs].
      repeat split; try reflexivity.
      intros c Hc Hb. rewrite !dict_get_set_ne; auto.
      intros E. apply (Hb b eq_refl). now symmetry.
    + intros [= <-]. cbn [X layers var_names uns obs set_obs].
      repeat split; try reflexivity. intros c Hc _. now rewrite dict_get_set_ne by auto.
  - intros [= <-]. cbn [X layers var_names uns obs set_obs].
    repeat split; try reflexivity. intros c Hc _. now rewrite dict_get_set_ne by auto.
Qed.

Lemma n_obs_filter_genes (k : Z) (ad : AnnData) :
  n_obs (filter_genes k ad) = n_obs ad.
Proof.
  unfold n_obs, filter_genes, subset_var. cbn [X].
  destruct (X ad); simpl; now rewrite length_map.
Qed.

Lemma In_select {A} (mask : list bool) (xs : list A) (x : A) :
  In x (select mask xs) <-> exists j, mask !! j = Some true /\ xs !! j = Some x.
Proof.
  revert xs. induction mask as [|b mask IH]; intros [|y xs]; simpl.
  - split; [tauto|]. intros (j & H & _). destruct j; discriminate.
  - split; [tauto|]. intros (j & H & _). destruct j; discriminate.
  - split; [destruct b; tauto|]. intros (j & _ & H). destruct j; discriminate.
  - destruct b; simpl; rewrite ?IH; split.
    + intros [->|(j & H1 & H2)]; [exists 0%nat; auto|exists (S j); auto].
    + intros ([|j] & H1 & H2); simpl in *; [left; congruence|right; eauto].
    + intros (j & H1 & H2). exists (S j); auto.
    + intros ([|j] & H1 & H2); simpl in *; [discriminate|eauto].
Qed.

Lemma length_select_isin {A} (col values : list string) (xs : list A) :
  length xs = length col ->
  length (select (isin col values) xs)
  = length (List.filter (fun x => str_in x values) col).
Proof.
  unfold isin. revert xs. induction col as [|c col IH]; intros [|x xs] H; simpl in *;
    try reflexivity; try discriminate.
  injection H as H. destruct (str_in c values); simpl; now rewrite IH.
Qed.

Lemma mrows_mmap (f : list (list Q) -> list (list Q)) (m : Matrix) :
  mrows (mmap f m) = f (mrows m).
Proof. now destruct m. Qed.

(** The steps of the adapter before the two column assignments. *)
Lemma parseAd_steps (adata : AnnData) (testLabel testComp : string)
    (otherComp : OtherComp) (batchLabel : option string) (minCellCounts : Z)
    (keyAdded : string) (subset : bool) (col : list string) :
  obs_col testLabel adata = Ok col ->
  parseAdToDiffxpyFormat adata testLabel testComp otherComp batchLabel minCellCounts
    keyAdded subset
  = let mask := isin col (testComp :: resolved_otherComp col testComp otherComp) in
    assign_binary_columns
      (if subset then filter_genes minCellCounts (subset_obs mask adata)
       else set_obs (Dict.set "keep" (map py_bool mask) (obs adata)) adata)
      testLabel testComp batchLabel keyAdded.
Proof.
  intros Hcol. unfold parseAdToDiffxpyFormat, resolved_otherComp. rewrite Hcol.
  unfold mbind, exc_bind, mret, exc_ret.
  destruct (other_truthy otherComp) eqn:Hot; cbn [negb]; destruct subset; reflexivity.
Qed.

Lemma parseAd_no_column (adata : AnnData) (testLabel testComp : string)
    (otherComp : OtherComp) (batchLabel : option string) (minCellCounts : Z)
    (keyAdded : string) (subset : bool) :
  Dict.get testLabel (obs adata) = None ->
  parseAdToDiffxpyFormat adata testLabel testComp otherComp batchLabel minCellCounts
    keyAdded subset = Err (KeyError testLabel).
Proof.
  intros H. unfold parseAdToDiffxpyFormat, obs_col. rewrite H.
  unfold mbind, exc_bind, mret, exc_ret. simpl.
  destruct (other_truthy otherComp); cbn [negb]; destruct subset; reflexivity.
Qed.

Lemma adapter_input_obs (adata : AnnData) (k : Z) (mask : list bool) (subset : bool)
    (c : string) :
  Dict.get c (obs (if subset then filter_genes k (subset_obs mask adata)
                   else set_obs (Dict.set "keep" (map py_bool mask) (obs adata)) adata))
  = if subset then option_map (select mask) (Dict.get c (obs adata))
    else if String.eqb c "keep" then Some (map py_bool mask)
         else Dict.get c (obs adata).
Proof.
  destruct subset.
  - unfold filter_genes, subset_var, subset_obs. cbn [obs].
    apply (dict_get_map (select mask)).
  - cbn [obs set_obs]. destruct (String.eqb_spec c "keep") as [->|Hne].
    + apply dict_get_set_eq.
    + apply dict_get_set_ne. congruence.
Qed.

(** Without subsetting the adapter removes nothing: the matrix, the
    layers, the gene names and the metadata store are those of the input,
    and the annotation table differs only in the columns [keep],
    [keyAdded] and, with a batch column, [{batch}_{keyAdded}]. *)
Theorem parseAd_without_subset (adata ad' : AnnData) (testLabel testComp : string)
    (otherComp : OtherComp) (batchLabel : option string) (minCellCounts : Z)
    (keyAdded : string) (col : list string) :
  obs_col testLabel adata = Ok col ->
  parseAdToDiffxpyFormat adata testLabel testComp otherComp batchLabel minCellCounts
    keyAdded false = Ok ad' ->
  X ad' = X adata /\ layers ad' = layers adata /\ var_names ad' = var_names adata
  /\ uns ad' = uns adata
  /\ (forall c, c <> "keep" -> c <> keyAdded ->
        (forall b, batchLabel = Some b -> c <> b +:+ "_" +:+ keyAdded) ->
        Dict.get c (obs ad') = Dict.get c (obs adata))
  /\ (keyAdded <> "keep" ->
      (forall b, batchLabel = Some b -> b +:+ "_" +:+ keyAdded <> "keep") ->
      Dict.get "keep" (obs ad') = Some (map py_bool (kept_mask col testComp otherComp))).
Proof.
  intros Hcol Hparse. rewrite (parseAd_steps _ _ _ _ _ _ _ _ col Hcol) in Hparse.
  cbv zeta in Hparse.
  apply assign_binary_columns_frame in Hparse as (HX & HL & HV & HU & HO).
  cbn [X layers var_names uns set_obs] in HX, HL, HV, HU.
  repeat split; auto.
  - intros c Hk Hc Hb. rewrite (HO c Hc Hb). cbn [obs set_obs].
    apply dict_get_set_ne. congruence.
  - intros Hk Hb. rewrite (HO "keep"); [|congruence|].
    + cbn [obs set_obs]. apply dict_get_set_eq.
    + intros b Hbl E. apply (Hb b Hbl). now symmetry.
Qed.

Lemma parseAd_without_subset_witness :
  exists ad',
    parseAdToDiffxpyFormat Examples.ad2 "ct" "A" OtherNone None 1 "temp" false = Ok ad'
    /\ X ad' = X Examples.ad2 /\ layers ad' = layers Examples.ad2
    /\ var_names ad' = var_names Examples.ad2
    /\ uns ad' = uns Examples.ad2
    /\ (forall c, c <> "keep" -> c <> "temp" ->
          (forall b, (None : option string) = Some b -> c <> b +:+ "_" +:+ "temp") ->
          Dict.get c (obs ad') = Dict.get c (obs Examples.ad2))
    /\ ("temp" <> "keep" ->
        (forall b, (None : option string) = Some b -> b +:+ "_" +:+ "temp" <> "keep") ->
        Dict.get "keep" (obs ad')
        = Some (map py_bool (kept_mask ["A"; "B"] "A" OtherNone))).
Proof.
  eexists. split; [vm_compute; reflexivity|].
  apply (parseAd_without_subset Examples.ad2 _ "ct" "A" OtherNone None 1 "temp" ["A"; "B"]).
  - reflexivity.
  - vm_compute. reflexivity.
Defined.

(** With no reference group given (one against the rest), subsetting
    drops no cell: the result has the cells of the input, and its binary
    column is computed from the whole group-label column. *)
Theorem parseAd_rest_keeps_all_cells (adata ad' : AnnData) (testLabel testComp : string)
    (otherComp : OtherComp) (batchLabel : option string) (minCellCounts : Z)
    (keyAdded : string) (col : list string) :
  other_truthy otherComp = false ->
  obs_col testLabel adata = Ok col ->
  n_obs adata = length col ->
  parseAdToDiffxpyFormat adata testLabel testComp otherComp batchLabel minCellCounts
    keyAdded true = Ok ad' ->
  n_obs ad' = n_obs adata
  /\ kept_mask col testComp otherComp = repeat true (length col)
  /\ Dict.get keyAdded (obs ad') = Some (binary_column col testComp).
Proof.
  intros Hot Hcol Hn Hparse.
  assert (Hmask : kept_mask col testComp otherComp = repeat true (length col)).
  { unfold kept_mask, resolved_otherComp. rewrite Hot. apply isin_rest_all. }
  pose proof (parseAd_binary _ _ _ _ _ _ _ _ _ _ Hcol (or_introl eq_refl) Hparse) as Hbin.
  rewrite (parseAd_steps _ _ _ _ _ _ _ _ col Hcol) in Hparse. cbv zeta in Hparse.
  apply assign_binary_columns_frame in Hparse as (HX & _).
  split; [|split; [exact Hmask|]].
  - unfold n_obs at 1. rewrite HX. fold (n_obs (filter_genes minCellCounts
      (subset_obs (isin col (testComp :: resolved_otherComp col testComp otherComp)) adata))).
    rewrite n_obs_filter_genes. unfold n_obs, subset_obs. cbn [X].
    rewrite mrows_mmap. fold (kept_mask col testComp otherComp). rewrite Hmask.
    rewrite select_all_true; [reflexivity|]. unfold n_obs in Hn. lia.
  - rewrite Hbin. unfold kept_labels. fold (kept_mask col testComp otherComp).
    rewrite Hmask. rewrite select_all_true by lia. reflexivity.
Qed.

Lemma parseAd_rest_keeps_all_cells_witness :
  exists ad',
    parseAdToDiffxpyFormat Examples.ad2 "ct" "A" OtherNone None 1 "temp" true = Ok ad'
    /\ n_obs ad' = n_obs Examples.ad2
    /\ kept_mask ["A"; "B"] "A" OtherNone = repeat true (length ["A"; "B"])
    /\ Dict.get "temp" (obs ad') = Some (binary_column ["A"; "B"] "A").
Proof.
  eexists. split; [vm_compute; reflexivity|].
  apply (parseAd_rest_keeps_all_cells Examples.ad2 _ "ct" "A" OtherNone None 1 "temp"
           ["A"; "B"]).
  - reflexivity.
  - reflexivity.
  - reflexivity.
  - vm_compute. reflexivity.
Defined.

(** With subsetting, the cells kept are those whose group label is the
    target group or one of the reference groups: the group-label column of
    the result lists their labels in the original order, every other
    annotation column is cut down by the same mask, and the matrix has one
    row per kept cell. *)
Theorem parseAd_subset_cells (adata ad' : AnnData) (testLabel testComp : string)
    (otherComp : OtherComp) (batchLabel : option string) (minCellCounts : Z)
    (keyAdded : string) (col : list string) :
  obs_col testLabel adata = Ok col ->
  n_obs adata = length col ->
  parseAdToDiffxpyFormat adata testLabel testComp otherComp batchLabel minCellCounts
    keyAdded true = Ok ad' ->
  let others := resolved_otherComp col testComp otherComp in
  let kept := List.filter (fun x => str_in x (testComp :: others)) col in
  n_obs ad' = length kept
  /\ List.Forall (fun x => x = testComp \/ In x others) kept
  /\ (forall c v, c <> keyAdded ->
        (forall b, batchLabel = Some b -> c <> b +:+ "_" +:+ keyAdded) ->
        Dict.get c (obs adata) = Some v ->
        Dict.get c (obs ad') = Some (select (kept_mask col testComp otherComp) v))
  /\ (testLabel <> keyAdded ->
      (forall b, batchLabel = Some b -> testLabel <> b +:+ "_" +:+ keyAdded) ->
      Dict.get testLabel (obs ad') = Some kept).
Proof.
  intros Hcol Hn Hparse others kept.
  rewrite (parseAd_steps _ _ _ _ _ _ _ _ col Hcol) in Hparse. cbv zeta in Hparse.
  fold (kept_mask col testComp otherComp) in Hparse.
  apply assign_binary_columns_frame in Hparse as (HX & _ & _ & _ & HO).
  assert (Hcols : forall c v, c <> keyAdded ->
            (forall b, batchLabel = Some b -> c <> b +:+ "_" +:+ keyAdded) ->
            Dict.get c (obs adata) = Some v ->
            Dict.get c (obs ad') = Some (select (kept_mask col testComp otherComp) v)).
  { intros c v Hc Hb Hv. rewrite (HO c Hc Hb).
    rewrite (adapter_input_obs adata minCellCounts _ true c). now rewrite Hv. }
  split; [|split; [|split; [exact Hcols|]]].
  - unfold n_obs at 1. rewrite HX.
    fold (n_obs (filter_genes minCellCounts
                   (subset_obs (kept_mask col testComp otherComp) adata))).
    rewrite n_obs_filter_genes. unfold n_obs, subset_obs. cbn [X].
    rewrite mrows_mmap. apply length_select_isin. exact Hn.
  - apply List.Forall_forall. intros x Hx. apply filter_In in Hx as [_ Hx].
    apply str_in_In in Hx. destruct Hx as [<-|Hx]; auto.
  - intros Hk Hb. unfold obs_col in Hcol.
    destruct (Dict.get testLabel (obs adata)) as [v|] eqn:Hv; [|discriminate].
    injection Hcol as ->. rewrite (Hcols testLabel col Hk Hb Hv).
    unfold kept_mask. now rewrite select_isin.
Qed.

Lemma parseAd_subset_cells_witness :
  exists ad',
    parseAdToDiffxpyFormat Examples.ad4 "ct" "A" (OtherStr "D") None 1 "temp" true
    = Ok ad'
    /\ let others := resolved_otherComp ["A"; "B"; "C"; "D"] "A" (OtherStr "D") in
       let kept := List.filter (fun x => str_in x ("A" :: others)) ["A"; "B"; "C"; "D"] in
       n_obs ad' = length kept
       /\ List.Forall (fun x => x = "A" \/ In x others) kept
       /\ (forall c v, c <> "temp" ->
             (forall b, (None : option string) = Some b -> c <> b +:+ "_" +:+ "temp") ->
             Dict.get c (obs Examples.ad4) = Some v ->
             Dict.get c (obs ad')
             = Some (select (kept_mask ["A"; "B"; "C"; "D"] "A" (OtherStr "D")) v))
       /\ ("ct" <> "temp" ->
           (forall b, (None : option string) = Some b -> "ct" <> b +:+ "_" +:+ "temp") ->
           Dict.get "ct" (obs ad') = Some kept).
Proof.
  eexists. split; [vm_compute; reflexivity|].
  apply (parseAd_subset_cells Examples.ad4 _ "ct" "A" (OtherStr "D") None 1 "temp"
           ["A"; "B"; "C"; "D"]).
  - reflexivity.
  - reflexivity.
  - vm_compute. reflexivity.
Defined.

Lemma lookup_map_seq {A} (f : nat -> A) (n j : nat) :
  map f (seq 0 n) !! j = if (j <? n)%nat then Some (f j) else None.
Proof.
  rewrite list_lookup_fmap. destruct (Nat.ltb_spec j n) as [H|H].
  - rewrite lookup_seq_lt by lia. reflexivity.
  - rewrite lookup_seq_ge by lia. reflexivity.
Qed.

Lemma var_names_filter_genes (k : Z) (ad : AnnData) (g : string) :
  In g (var_names (filter_genes k ad)) <->
  exists j, var_names ad !! j = Some g
            /\ (k <= Z.of_nat (n_cells_expressed j (mrows (X ad))))%Z.
Proof.
  unfold filter_genes, subset_var. cbn [var_names]. rewrite In_select. split.
  - intros (j & Hm & Hj). exists j. split; [exact Hj|].
    rewrite lookup_map_seq in Hm.
    destruct (j <? n_vars ad)%nat; [|discriminate].
    injection Hm as Hm. now apply Z.leb_le.
  - intros (j & Hj & Hk). exists j. split; [|exact Hj].
    rewrite lookup_map_seq.
    apply lookup_lt_Some in Hj. unfold n_vars.
    destruct (Nat.ltb_spec j (length (var_names ad))); [|lia].
    f_equal. now apply Z.leb_le.
Qed.

Lemma filter_genes_nonpositive (k : Z) (ad : AnnData) :
  (k <= 0)%Z -> var_names (filter_genes k ad) = var_names ad.
Proof.
  intros Hk. unfold filter_genes, subset_var. cbn [var_names].
  rewrite (map_all_true _ (seq 0 (n_vars ad))).
  - rewrite length_seq. apply select_all_true. unfold n_vars. lia.
  - intros j _. apply Z.leb_le. lia.
Qed.

(** With subsetting, a gene is kept exactly when it is expressed (its
    entry is positive) in at least [minCellCounts] of the kept cells; a
    non-positive [minCellCounts] keeps every gene. *)
Theorem parseAd_genes (adata ad' : AnnData) (testLabel testComp : string)
    (otherComp : OtherComp) (batchLabel : option string) (minCellCounts : Z)
    (keyAdded : string) (col : list string) :
  obs_col testLabel adata = Ok col ->
  parseAdToDiffxpyFormat adata testLabel testComp otherComp batchLabel minCellCounts
    keyAdded true = Ok ad' ->
  let cells := select (kept_mask col testComp otherComp) (mrows (X adata)) in
  (forall g, In g (var_names ad') <->
     exists j, var_names adata !! j = Some g
               /\ (minCellCounts <= Z.of_nat (n_cells_expressed j cells))%Z)
  /\ ((minCellCounts <= 0)%Z -> var_names ad' = var_names adata).
Proof.
  intros Hcol Hparse cells.
  rewrite (parseAd_steps _ _ _ _ _ _ _ _ col Hcol) in Hparse. cbv zeta in Hparse.
  fold (kept_mask col testComp otherComp) in Hparse.
  apply assign_binary_columns_frame in Hparse as (_ & _ & HV & _).
  rewrite HV. split.
  - intros g. rewrite var_names_filter_genes. unfold subset_obs. cbn [var_names X].
    rewrite mrows_mmap. reflexivity.
  - intros Hk. now rewrite filter_genes_nonpositive.
Qed.

Lemma parseAd_genes_witness :
  exists ad',
    parseAdToDiffxpyFormat Examples.ad2 "ct" "A" OtherNone None 2 "temp" true = Ok ad'
    /\ let cells := select (kept_mask ["A"; "B"] "A" OtherNone) (mrows (X Examples.ad2)) in
       (forall g, In g (var_names ad') <->
          exists j, var_names Examples.ad2 !! j = Some g
                    /\ (2 <= Z.of_nat (n_cells_expressed j cells))%Z)
       /\ ((2 <= 0)%Z -> var_names ad' = var_names Examples.ad2).
Proof.
  eexists. split; [vm_compute; reflexivity|].
  apply (parseAd_genes Examples.ad2 _ "ct" "A" OtherNone None 2 "temp" ["A"; "B"]).
  - reflexivity.
  - vm_compute. reflexivity.
Defined.

Lemma truthy_Some (s : string) : truthy (Some s) = true <-> s <> "".
Proof.
  simpl. destruct (String.eqb_spec s ""); simpl; split; congruence.
Qed.

(** The collection the two column assignments start from, and its
    annotation columns. *)
Lemma parseAd_steps_obs (adata : AnnData) (testLabel testComp : string)
    (otherComp : OtherComp) (batchLabel : option string) (minCellCounts : Z)
    (keyAdded : string) (subset : bool) (col : list string) :
  Dict.get testLabel (obs adata) = Some col ->
  exists ad1 kept,
    parseAdToDiffxpyFormat adata testLabel testComp otherComp batchLabel
      minCellCounts keyAdded subset
    = assign_binary_columns ad1 testLabel testComp batchLabel keyAdded
    /\ obs_col testLabel ad1 = Ok kept
    /\ forall c, Dict.get c (obs ad1)
         = if subset
           then option_map (select (kept_mask col testComp otherComp))
                  (Dict.get c (obs adata))
           else if String.eqb c "keep"
                then Some (map py_bool (kept_mask col testComp otherComp))
                else Dict.get c (obs adata).
Proof.
  intros Hcol. eexists.
  assert (Hk : exists kept,
            Dict.get testLabel
              (obs (if subset
                    then filter_genes minCellCounts
                           (subset_obs (kept_mask col testComp otherComp) adata)
                    else set_obs (Dict.set "keep"
                                    (map py_bool (kept_mask col testComp otherComp))
                                    (obs adata)) adata))
            = Some kept).
  { rewrite adapter_input_obs, Hcol. destruct subset; simpl; [eauto|].
    destruct (String.eqb testLabel "keep"); eauto. }
  destruct Hk as (kept & Hk). exists kept. split; [|split].
  - apply (parseAd_steps _ _ _ _ _ _ _ _ col). unfold obs_col. now rewrite Hcol.
  - unfold obs_col. fold (kept_mask col testComp otherComp). now rewrite Hk.
  - intros c. apply adapter_input_obs.
Qed.

Lemma parseAd_returns (adata : AnnData) (testLabel testComp : string)
    (otherComp : OtherComp) (batchLabel : option string) (minCellCounts : Z)
    (keyAdded : string) (subset : bool) :
  Dict.get testLabel (obs adata) <> None ->
  (forall b, batchLabel = Some b -> b <> "" ->
     Dict.get b (obs adata) <> None \/ b = keyAdded
     \/ (subset = false /\ b = "keep")) ->
  exists ad',
    parseAdToDiffxpyFormat adata testLabel testComp otherComp batchLabel
      minCellCounts keyAdded subset = Ok ad'.
Proof.
  intros Htl Hb.
  destruct (Dict.get testLabel (obs adata)) as [col|] eqn:Hcol; [|congruence].
  destruct (parseAd_steps_obs adata testLabel testComp otherComp batchLabel
              minCellCounts keyAdded subset col Hcol) as (ad1 & kept & -> & Hkept & Hobs).
  unfold assign_binary_columns. rewrite Hkept.
  unfold mbind, exc_bind, mret, exc_ret.
  destruct batchLabel as [b|]; [|eauto].
  destruct (truthy (Some b)) eqn:Ht; [|eauto].
  apply truthy_Some in Ht.
  destruct (String.eqb_spec keyAdded b) as [->|Hkb].
  - rewrite !obs_col_set_eq. eauto.
  - rewrite obs_col_set_ne by exact Hkb. rewrite obs_col_set_eq.
    unfold obs_col. rewrite Hobs.
    destruct (Hb b eq_refl Ht) as [Hin|[->|[-> ->]]]; [| congruence |].
    + destruct (Dict.get b (obs adata)); [|congruence].
      destruct subset; simpl; [eauto|].
      destruct (String.eqb b "keep"); simpl; eauto.
    + simpl. eauto.
Qed.

(** The adapter raises only for a missing column: [KeyError] for the
    group-label column, and with a batch column [KeyError] for it, unless
    the batch column is one the adapter has just written ([keyAdded], or
    [keep] without subsetting).  In every other case it returns. *)
Theorem parseAd_errors (adata : AnnData) (testLabel testComp : string)
    (otherComp : OtherComp) (batchLabel : option string) (minCellCounts : Z)
    (keyAdded : string) (subset : bool) :
  (Dict.get testLabel (obs adata) = None ->
   parseAdToDiffxpyFormat adata testLabel testComp otherComp batchLabel minCellCounts
     keyAdded subset = Err (KeyError testLabel))
  /\ (forall b,
        Dict.get testLabel (obs adata) <> None ->
        batchLabel = Some b -> b <> "" -> b <> keyAdded ->
        Dict.get b (obs adata) = None -> subset = true \/ b <> "keep" ->
        parseAdToDiffxpyFormat adata testLabel testComp otherComp batchLabel
          minCellCounts keyAdded subset = Err (KeyError b))
  /\ (Dict.get testLabel (obs adata) <> None ->
      (forall b, batchLabel = Some b -> b <> "" ->
         Dict.get b (obs adata) <> None \/ b = keyAdded
         \/ (subset = false /\ b = "keep")) ->
      exists ad',
        parseAdToDiffxpyFormat adata testLabel testComp otherComp batchLabel
          minCellCounts keyAdded subset = Ok ad').
Proof.
  split; [apply parseAd_no_column|]. split; [|apply parseAd_returns].
  intros b Htl Hb Hne Hk Hnone Hkeep.
  destruct (Dict.get testLabel (obs adata)) as [col|] eqn:Hcol; [|congruence].
  destruct (parseAd_steps_obs adata testLabel testComp otherComp batchLabel
              minCellCounts keyAdded subset col Hcol) as (ad1 & kept & -> & Hkept & Hobs).
  unfold assign_binary_columns. rewrite Hkept. subst batchLabel.
  unfold mbind, exc_bind, mret, exc_ret.
  rewrite (proj2 (truthy_Some b) Hne).
  rewrite obs_col_set_ne by congruence.
  unfold obs_col. rewrite Hobs, Hnone.
  destruct subset; [reflexivity|].
  destruct (String.eqb_spec b "keep"); [|reflexivity].
  destruct Hkeep; congruence.
Qed.

Lemma parseAd_errors_witness :
  parseAdToDiffxpyFormat Examples.ad2 "cluster" "A" OtherNone None 1 "temp" true
  = Err (KeyError "cluster")
  /\ parseAdToDiffxpyFormat Examples.ad2 "ct" "A" OtherNone (Some "batch") 1 "temp" true
     = Err (KeyError "batch")
  /\ exists ad',
       parseAdToDiffxpyFormat Examples.ad2 "ct" "A" OtherNone (Some "keep") 1 "temp" false
       = Ok ad'.
Proof.
  split; [|split].
  - apply (proj1 (parseAd_errors Examples.ad2 "cluster" "A" OtherNone None 1 "temp" true)).
    reflexivity.
  - apply (proj1 (proj2 (parseAd_errors Examples.ad2 "ct" "A" OtherNone (Some "batch") 1
                           "temp" true)) "batch");
      [discriminate|reflexivity|discriminate|discriminate|reflexivity|now left].
  - apply (proj2 (proj2 (parseAd_errors Examples.ad2 "ct" "A" OtherNone (Some "keep") 1
                           "temp" false))); [discriminate|].
    intros b [= <-] _. right. right. split; reflexivity.
Defined.

(** ** Format Adapter: the shape of the result *)

Lemma length_select_eq {A B} (mask : list bool) (xs : list A) (ys : list B) :
  length xs = length ys -> length (select mask xs) = length (select mask ys).
Proof.
  revert xs ys. induction mask as [|b mask IH]; intros [|x xs] [|y ys] H; simpl in *;
    try reflexivity; try discriminate.
  injection H as H. destruct b; simpl; auto.
Qed.

Lemma Forall_dict_set {V} (P : string * V -> Prop) (k : string) (v : V) (d : Dict.t V) :
  List.Forall P d -> P (k, v) -> List.Forall P (Dict.set k v d).
Proof.
  intros Hd Hkv. induction Hd as [|[k' v'] d Hx Hd IH]; simpl.
  - constructor; auto.
  - destruct (String.eqb k k'); constructor; auto.
Qed.

Lemma length_join_columns (a b : list string) :
  length a = length b -> length (join_columns a b) = length a.
Proof.
  revert b. induction a as [|x a IH]; intros [|y b] H; simpl in *;
    try reflexivity; try discriminate.
  injection H as H. now rewrite IH.
Qed.

Lemma obs_col_length (P : string * list string -> Prop) (c : string) (ad : AnnData)
    (v : list string) :
  List.Forall P (obs ad) -> obs_col c ad = Ok v -> exists k, P (k, v).
Proof.
  intros HF Hc. unfold obs_col in Hc.
  destruct (Dict.get c (obs ad)) as [v'|] eqn:Hg; [|discriminate].
  injection Hc as ->. apply dict_get_In in Hg.
  exists c. now apply (proj1 (List.Forall_forall _ _) HF).
Qed.

Lemma well_shaped_subset (k : Z) (mask : list bool) (ad : AnnData) :
  well_shaped ad -> well_shaped (filter_genes k (subset_obs mask ad)).
Proof.
  intros [HX HO]. unfold well_shaped, filter_genes, subset_var, n_vars, n_obs.
  cbn [X obs var_names subset_obs]. rewrite !mrows_mmap. split.
  - apply List.Forall_forall. intros r Hr. apply in_map_iff in Hr as (r0 & <- & Hr0).
    apply length_select_eq.
    assert (Hin : In r0 (mrows (X ad))).
    { apply In_select in Hr0 as (j & _ & Hj). apply list_elem_of_In.
      eapply list_elem_of_lookup_2; eauto. }
    apply (proj1 (List.Forall_forall _ _) HX r0 Hin).
  - rewrite length_map. apply List.Forall_forall. intros [c v] Hin.
    apply in_map_iff in Hin as ([c0 v0] & [= <- <-] & Hin). cbn [snd fst].
    apply length_select_eq.
    apply (proj1 (List.Forall_forall _ _) HO (c0, v0) Hin).
Qed.

Lemma well_shaped_set_obs (c : string) (v : list string) (ad : AnnData) :
  well_shaped ad -> length v = n_obs ad ->
  well_shaped (set_obs (Dict.set c v (obs ad)) ad).
Proof.
  intros [HX HO] Hv. split; [exact HX|].
  cbn [obs set_obs]. apply Forall_dict_set; auto.
Qed.

Lemma well_shaped_obs_col (c : string) (ad : AnnData) (v : list string) :
  well_shaped ad -> obs_col c ad = Ok v -> length v = n_obs ad.
Proof.
  intros [_ HO] Hc.
  destruct (obs_col_length _ c ad v HO Hc) as (k & Hk). exact Hk.
Qed.

Lemma well_shaped_assign (ad1 ad' : AnnData) (testLabel testComp : string)
    (batchLabel : option string) (keyAdded : string) :
  well_shaped ad1 ->
  assign_binary_columns ad1 testLabel testComp batchLabel keyAdded = Ok ad' ->
  well_shaped ad'.
Proof.
  intros Hws. unfold assign_binary_columns, mbind, exc_bind, mret, exc_ret.
  destruct (obs_col testLabel ad1) as [col|] eqn:Hcol; [|discriminate].
  assert (H2 : well_shaped (set_obs (Dict.set keyAdded (binary_column col testComp)
                                       (obs ad1)) ad1)).
  { apply well_shaped_set_obs; [exact Hws|].
    unfold binary_column. rewrite length_map. now apply (well_shaped_obs_col testLabel). }
  destruct batchLabel as [b|]; [|now intros [= <-]].
  destruct (truthy (Some b)); [|now intros [= <-]].
  destruct (obs_col b _) as [bcol|] eqn:Hb; [|discriminate].
  rewrite obs_col_set_eq. intros [= <-].
  apply well_shaped_set_obs; [exact H2|].
  pose proof (well_shaped_obs_col b _ bcol H2 Hb) as Hlb.
  rewrite length_join_columns; [exact Hlb|].
  rewrite Hlb. symmetry.
  apply (well_shaped_obs_col keyAdded _ _ H2). apply obs_col_set_eq.
Qed.

(** The adapter keeps a collection well shaped: in its result every row
    of the matrix still has one entry per gene, and every annotation
    column, the ones it has written included, one entry per cell. *)
Theorem parseAd_well_shaped (adata ad' : AnnData) (testLabel testComp : string)
    (otherComp : OtherComp) (batchLabel : option string) (minCellCounts : Z)
    (keyAdded : string) (subset : bool) :
  well_shaped adata ->
  parseAdToDiffxpyFormat adata testLabel testComp otherComp batchLabel minCellCounts
    keyAdded subset = Ok ad' ->
  well_shaped ad'.
Proof.
  intros Hws Hparse.
  destruct (obs_col testLabel adata) as [col|e] eqn:Hcol.
  - rewrite (parseAd_steps _ _ _ _ _ _ _ _ col Hcol) in Hparse. cbv zeta in Hparse.
    apply well_shaped_assign in Hparse; [exact Hparse|].
    destruct subset.
    + now apply well_shaped_subset.
    + apply well_shaped_set_obs; [exact Hws|].
      unfold isin. rewrite !length_map. now apply (well_shaped_obs_col testLabel).
  - unfold obs_col in Hcol.
    destruct (Dict.get testLabel (obs adata)) eqn:Hg; [discriminate|].
    rewrite parseAd_no_column in Hparse by exact Hg. discriminate.
Qed.

Lemma parseAd_well_shaped_witness :
  exists ad',
    parseAdToDiffxpyFormat Examples.ad2 "ct" "A" OtherNone None 2 "temp" true = Ok ad'
    /\ well_shaped ad'.
Proof.
  eexists. split; [vm_compute; reflexivity|].
  apply (parseAd_well_shaped Examples.ad2 _ "ct" "A" OtherNone None 2 "temp" true).
  - split; repeat constructor.
  - vm_compute. reflexivity.
Defined.

(** ** One test of a dispatcher: adapter, then tester *)

Lemma testTwoSample_cases
    (wald : AnnData -> string -> string -> bool -> option string -> Exc DataFrame)
    (adata : AnnData) (keyTest : string) (batchLabel : option string)
    (quickScale : bool) (sizeFactor : option string) (constrainModel : bool)
    (bin : list string) :
  obs_col keyTest adata = Ok bin ->
  testTwoSample wald adata keyTest batchLabel quickScale sizeFactor constrainModel
  = if Nat.eqb (length (unique bin)) 2
    then wald adata (formula_loc keyTest batchLabel constrainModel) keyTest
           quickScale sizeFactor
    else Err (AssertionError "More Than Two Samples found").
Proof.
  intros Hbin. unfold testTwoSample, formula_loc. rewrite Hbin.
  unfold mbind, exc_bind, mret, exc_ret.
  destruct (Nat.eqb (length (unique bin)) 2); [|reflexivity]. cbn [negb].
  destruct batchLabel as [b|]; [|reflexivity].
  destruct (truthy (Some b)); [|reflexivity].
  destruct constrainModel; reflexivity.
Qed.

Lemma binary_two_values (kept : list string) (testComp : string) :
  Nat.eqb (length (unique (binary_column kept testComp))) 2 = true
  <-> In testComp kept /\ exists x, In x kept /\ x <> testComp.
Proof.
  rewrite Nat.eqb_eq.
  rewrite (two_valued_length "1" "0"); [|discriminate|apply unique_NoDup|].
  - rewrite !unique_In, !In_binary_column. split.
    + intros [[[_ H1]|[Ha _]] [[Hb _]|[_ H0]]]; try discriminate. auto.
    + intros [H1 H0]. split; [left|right]; auto.
  - intros v Hv. rewrite unique_In, In_binary_column in Hv.
    destruct Hv as [[-> _]|[-> _]]; auto.
Qed.

Section OneTest.

Variable wald : AnnData -> string -> string -> bool -> option string -> Exc DataFrame.

(** Adapter with subsetting, then tester: the outcome is decided by the
    labels of the kept cells. *)
Lemma adapter_then_tester (adata : AnnData) (testLabel testComp : string)
    (otherComp : OtherComp) (batchLabel : option string) (minCellCounts : Z)
    (quickScale : bool) (sizeFactor : option string) (constrainModel : bool)
    (col : list string) :
  obs_col testLabel adata = Ok col ->
  batch_present batchLabel adata ->
  let kept := kept_labels col testComp otherComp true in
  exists ad',
    parseAdToDiffxpyFormat adata testLabel testComp otherComp batchLabel minCellCounts
      "temp" true = Ok ad'
    /\ (ad_test ← parseAdToDiffxpyFormat adata testLabel testComp otherComp batchLabel
                    minCellCounts "temp" true;
        testTwoSample wald ad_test "temp" batchLabel quickScale sizeFactor constrainModel)
       = if Nat.eqb (length (unique (binary_column kept testComp))) 2
         then wald ad' (formula_loc "temp" batchLabel constrainModel) "temp"
                quickScale sizeFactor
         else Err (AssertionError "More Than Two Samples found").
Proof.
  intros Hcol Hb kept.
  destruct (parseAd_returns adata testLabel testComp otherComp batchLabel
              minCellCounts "temp" true) as (ad' & Had').
  { unfold obs_col in Hcol. destruct (Dict.get testLabel (obs adata)); [discriminate|].
    discriminate. }
  { intros b H1 H2. destruct (Hb b H1 H2); auto. }
  exists ad'. split; [exact Had'|].
  rewrite Had'. unfold mbind at 1, exc_bind.
  apply testTwoSample_cases. unfold obs_col.
  now rewrite (parseAd_binary _ _ _ _ _ _ _ _ _ _ Hcol (or_introl eq_refl) Had').
Qed.

End OneTest.

Lemma kept_labels_rest (col : list string) (testComp : string) (otherComp : OtherComp) :
  other_truthy otherComp = false -> kept_labels col testComp otherComp true = col.
Proof.
  intros Hot. unfold kept_labels, resolved_otherComp. rewrite Hot.
  rewrite isin_rest_all. apply select_all_true. lia.
Qed.

Lemma kept_labels_pair (col : list string) (a b : string) :
  b <> "" ->
  kept_labels col a (OtherStr b) true
  = List.filter (fun x => String.eqb x a || String.eqb x b) col.
Proof.
  intros Hb. unfold kept_labels, resolved_otherComp. cbn [other_truthy].
  destruct (String.eqb_spec b ""); [contradiction|]. cbn [negb].
  rewrite select_isin. apply filter_ext. intros x. simpl.
  now rewrite orb_false_r.
Qed.

(** One task of [vsRest] reaches the engine exactly when the working
    collection has a cell of the group and a cell of another group: its
    outcome is then the engine's, on the collection the adapter returned;
    otherwise the tester's assertion fails.  A task returns only if both
    kinds of cell are there. *)
Theorem vsRest_one_outcome
    (wald : AnnData -> string -> string -> bool -> option string -> Exc DataFrame)
    (adata : AnnData) (testLabel singleGroup : string)
    (batchLabel : option string) (minCellCounts : Z) (quickScale : bool)
    (sizeFactor : option string) (constrainModel : bool) (col : list string) :
  obs_col testLabel adata = Ok col ->
  batch_present batchLabel adata ->
  let run := vsRest_one wald adata testLabel singleGroup batchLabel minCellCounts
               quickScale sizeFactor constrainModel in
  let two_classes := In singleGroup col /\ exists x, In x col /\ x <> singleGroup in
  exists ad',
    parseAdToDiffxpyFormat adata testLabel singleGroup OtherNone batchLabel
      minCellCounts "temp" true = Ok ad'
    /\ (two_classes ->
        run = wald ad' (formula_loc "temp" batchLabel constrainModel) "temp"
                quickScale sizeFactor)
    /\ (~ two_classes -> run = Err (AssertionError "More Than Two Samples found"))
    /\ ((exists df, run = Ok df) -> two_classes).
Proof.
  intros Hcol Hb run two_classes.
  destruct (adapter_then_tester wald adata testLabel singleGroup OtherNone batchLabel
              minCellCounts quickScale sizeFactor constrainModel col Hcol Hb)
    as (ad' & Had' & Hrun).
  exists ad'. split; [exact Had'|].
  unfold run, vsRest_one. rewrite Hrun. clear Hrun.
  rewrite kept_labels_rest by reflexivity.
  pose proof (binary_two_values col singleGroup) as Htwo.
  destruct (Nat.eqb (length (unique (binary_column col singleGroup))) 2).
  - split; [reflexivity|]. split.
    + intros Hn. exfalso. apply Hn. now apply Htwo.
    + intros _. now apply Htwo.
  - split; [intros H; apply Htwo in H; discriminate|].
    split; [reflexivity|]. intros [df Hdf]. discriminate.
Qed.

(** One test of [pairWise], with a named background group, reaches the
    engine exactly when the two groups differ and the working collection
    has a cell of each: its outcome is then the engine's, on the
    collection the adapter returned; otherwise the tester's assertion
    fails.  A background group named by the empty string is read as no
    background at all, and the test is the one of [vsRest]. *)
Theorem pairWise_one_outcome
    (wald : AnnData -> string -> string -> bool -> option string -> Exc DataFrame)
    (adata : AnnData)
    (testLabel testGroup backgroundGroup : string)
    (batchLabel : option string) (minCellCounts : Z) (quickScale : bool)
    (sizeFactor : option string) (constrainModel : bool) (col : list string) :
  obs_col testLabel adata = Ok col ->
  batch_present batchLabel adata ->
  let run := pairWise_one wald adata testLabel testGroup backgroundGroup batchLabel
               minCellCounts quickScale sizeFactor constrainModel in
  let two_groups :=
    In testGroup col /\ In backgroundGroup col /\ testGroup <> backgroundGroup in
  (backgroundGroup <> "" ->
   exists ad',
     parseAdToDiffxpyFormat adata testLabel testGroup (OtherStr backgroundGroup)
       batchLabel minCellCounts "temp" true = Ok ad'
     /\ (two_groups ->
         run = wald ad' (formula_loc "temp" batchLabel constrainModel) "temp"
                 quickScale sizeFactor)
     /\ (~ two_groups -> run = Err (AssertionError "More Than Two Samples found"))
     /\ ((exists df, run = Ok df) -> two_groups))
  /\ pairWise_one wald adata testLabel testGroup "" batchLabel minCellCounts
       quickScale sizeFactor constrainModel
     = vsRest_one wald adata testLabel testGroup batchLabel minCellCounts
         quickScale sizeFactor constrainModel.
Proof.
  intros Hcol Hb run two_groups. split; [|reflexivity].
  intros Hbg.
  destruct (adapter_then_tester wald adata testLabel testGroup (OtherStr backgroundGroup)
              batchLabel minCellCounts quickScale sizeFactor constrainModel col Hcol Hb)
    as (ad' & Had' & Hrun).
  exists ad'. split; [exact Had'|].
  unfold run, pairWise_one. rewrite Hrun. clear Hrun.
  rewrite kept_labels_pair by exact Hbg.
  pose proof (binary_two_values
                (List.filter (fun x => String.eqb x testGroup || String.eqb x backgroundGroup)
                   col) testGroup) as Htwo.
  assert (Hiff : (In testGroup
                    (List.filter (fun x => String.eqb x testGroup
                                           || String.eqb x backgroundGroup) col)
                  /\ exists x,
                       In x (List.filter (fun x => String.eqb x testGroup
                                                   || String.eqb x backgroundGroup) col)
                       /\ x <> testGroup)
                 <-> two_groups).
  { unfold two_groups. rewrite filter_In. split.
    - intros [[Ha _] (x & Hx & Hne)]. apply filter_In in Hx as [Hx Hm].
      apply orb_true_iff in Hm as [Hm|Hm]; apply String.eqb_eq in Hm; subst x;
        [contradiction|]. auto.
    - intros (Ha & Hbc & Hne). split.
      + split; [exact Ha|]. now rewrite String.eqb_refl.
      + exists backgroundGroup. split; [|congruence].
        apply filter_In. split; [exact Hbc|].
        rewrite String.eqb_refl. apply orb_true_r. }
  rewrite Hiff in Htwo.
  destruct (Nat.eqb (length (unique (binary_column _ testGroup))) 2).
  - split; [reflexivity|]. split.
    + intros Hn. exfalso. apply Hn. now apply Htwo.
    + intros _. now apply Htwo.
  - split; [intros H; apply Htwo in H; discriminate|].
    split; [reflexivity|]. intros [df Hdf]. discriminate.
Qed.

Lemma vsRest_one_outcome_witness :
  let run := vsRest_one Examples.toy_wald Examples.ad2 "ct" "A" None 1 true None false in
  let two_classes := In "A" ["A"; "B"] /\ exists x, In x ["A"; "B"] /\ x <> "A" in
  exists ad',
    parseAdToDiffxpyFormat Examples.ad2 "ct" "A" OtherNone None 1 "temp" true = Ok ad'
    /\ (two_classes ->
        run = Examples.toy_wald ad' (formula_loc "temp" None false) "temp" true None)
    /\ (~ two_classes -> run = Err (AssertionError "More Than Two Samples found"))
    /\ ((exists df, run = Ok df) -> two_classes).
Proof.
  apply (vsRest_one_outcome Examples.toy_wald Examples.ad2 "ct" "A" None 1 true None
           false ["A"; "B"]).
  - reflexivity.
  - intros b [=].
Defined.

Lemma pairWise_one_outcome_witness :
  let run := pairWise_one Examples.toy_wald Examples.ad4 "ct" "A" "B" None 1 true None
               false in
  let two_groups :=
    In "A" ["A"; "B"; "C"; "D"] /\ In "B" ["A"; "B"; "C"; "D"] /\ "A" <> "B" in
  ("B" <> "" ->
   exists ad',
     parseAdToDiffxpyFormat Examples.ad4 "ct" "A" (OtherStr "B") None 1 "temp" true
     = Ok ad'
     /\ (two_groups ->
         run = Examples.toy_wald ad' (formula_loc "temp" None false) "temp" true None)
     /\ (~ two_groups -> run = Err (AssertionError "More Than Two Samples found"))
     /\ ((exists df, run = Ok df) -> two_groups))
  /\ pairWise_one Examples.toy_wald Examples.ad4 "ct" "A" "" None 1 true None false
     = vsRest_one Examples.toy_wald Examples.ad4 "ct" "A" None 1 true None false.
Proof.
  apply (pairWise_one_outcome Examples.toy_wald Examples.ad4 "ct" "A" "B" None 1 true
           None false ["A"; "B"; "C"; "D"]).
  - reflexivity.
  - intros b [=].
Defined.

(** ** What a returning dispatcher call implies *)

Lemma for_each_Return_all {A} (l : list A) (body : A -> Py unit) (h h' : Heap) :
  for_each l body h = Return tt h' ->
  forall x, In x l -> exists h1 h2, body x h1 = Return tt h2.
Proof.
  revert h. induction l as [|y l IH]; intros h Hrun x Hx; [destruct Hx|].
  simpl in Hrun. apply bind_Return in Hrun as ([] & h1 & Hy & Hrest).
  destruct Hx as [<-|Hx]; [eauto|]. eapply IH; eauto.
Qed.

Lemma restrict_to_groups_obs (testLabel : string) (groups : list string)
    (ad w : AnnData) :
  restrict_to_groups testLabel groups ad = Ok w ->
  exists col,
    obs_col testLabel ad = Ok col
    /\ obs_col testLabel w = Ok (List.filter (fun x => str_in x groups) col).
Proof.
  unfold restrict_to_groups, mbind, exc_bind, mret, exc_ret.
  destruct (obs_col testLabel ad) as [col|] eqn:Hcol; [|discriminate].
  intros [= <-]. exists col. split; [reflexivity|].
  unfold obs_col in *. unfold subset_obs. cbn [obs].
  rewrite (dict_get_map (select (isin col groups))).
  destruct (Dict.get testLabel (obs ad)); [|discriminate].
  injection Hcol as ->. simpl. now rewrite select_isin.
Qed.

Section Working.

Variable getPartialLayersAdata : AnnData -> string -> list (option string) -> Exc AnnData.
Variable np_exp : Q -> Q.
Variable expm : list (list Q) -> list (list Q).

Lemma vsRest_working_obs (org w : AnnData) (layer testLabel : string)
    (groups : list string) (batchLabel sizeFactor : option string) (inputIsLog : bool) :
  vsRest_working getPartialLayersAdata np_exp expm org layer testLabel groups
    batchLabel sizeFactor inputIsLog = Ok w ->
  exists colw, obs_col testLabel w = Ok colw
               /\ List.Forall (fun x => In x groups) colw.
Proof.
  unfold vsRest_working, mbind, exc_bind.
  destruct (getPartialLayersAdata _ _ _) as [a|]; [|discriminate].
  destruct (match inputIsLog with true => _ | false => _ end) as [a1|]; [|discriminate].
  intros Hr. apply restrict_to_groups_obs in Hr as (col & _ & Hw).
  eexists. split; [exact Hw|].
  apply List.Forall_forall. intros x Hx. apply filter_In in Hx as [_ Hx].
  now apply str_in_In.
Qed.

Lemma pairWise_working_obs (org w : AnnData) (layer testLabel : string)
    (groups : list string) (batchLabel sizeFactor : option string) (inputIsLog : bool) :
  pairWise_working getPartialLayersAdata np_exp org layer testLabel groups
    batchLabel sizeFactor inputIsLog = Ok w ->
  exists colw, obs_col testLabel w = Ok colw
               /\ List.Forall (fun x => In x groups) colw.
Proof.
  unfold pairWise_working, mbind, exc_bind.
  destruct (getPartialLayersAdata _ _ _) as [a|]; [|discriminate].
  intros Hr. apply restrict_to_groups_obs in Hr as (col & _ & Hw).
  eexists. split; [exact Hw|].
  apply List.Forall_forall. intros x Hx. apply filter_In in Hx as [_ Hx].
  now apply str_in_In.
Qed.

End Working.

Section OneOk.

Variable wald : AnnData -> string -> string -> bool -> option string -> Exc DataFrame.

Lemma adapter_tester_Ok (adata : AnnData) (testLabel testComp : string)
    (otherComp : OtherComp) (batchLabel : option string) (minCellCounts : Z)
    (quickScale : bool) (sizeFactor : option string) (constrainModel : bool)
    (col : list string) (df : DataFrame) :
  obs_col testLabel adata = Ok col ->
  (ad_test ← parseAdToDiffxpyFormat adata testLabel testComp otherComp batchLabel
                minCellCounts "temp" true;
   testTwoSample wald ad_test "temp" batchLabel quickScale sizeFactor constrainModel)
  = Ok df ->
  let kept := kept_labels col testComp otherComp true in
  In testComp kept /\ exists x, In x kept /\ x <> testComp.
Proof.
  intros Hcol Hrun kept. unfold mbind, exc_bind in Hrun.
  destruct (parseAdToDiffxpyFormat _ _ _ _ _ _ _ _) as [ad'|] eqn:Hp; [|discriminate].
  pose proof (parseAd_binary _ _ _ _ _ _ _ _ _ _ Hcol (or_introl eq_refl) Hp) as Hbin.
  rewrite (testTwoSample_cases wald ad' "temp" batchLabel quickScale sizeFactor
             constrainModel (binary_column kept testComp)) in Hrun
    by (unfold obs_col; now rewrite Hbin).
  apply binary_two_values.
  destruct (Nat.eqb _ 2); [reflexivity|discriminate].
Qed.

Lemma vsRest_one_Ok (adata : AnnData) (testLabel singleGroup : string)
    (batchLabel : option string) (minCellCounts : Z) (quickScale : bool)
    (sizeFactor : option string) (constrainModel : bool) (col : list string)
    (df : DataFrame) :
  obs_col testLabel adata = Ok col ->
  vsRest_one wald adata testLabel singleGroup batchLabel minCellCounts quickScale
    sizeFactor constrainModel = Ok df ->
  In singleGroup col /\ exists x, In x col /\ x <> singleGroup.
Proof.
  intros Hcol Hrun.
  pose proof (adapter_tester_Ok _ _ _ _ _ _ _ _ _ _ _ Hcol Hrun) as H.
  cbv zeta in H. now rewrite kept_labels_rest in H by reflexivity.
Qed.

Lemma pairWise_one_Ok (adata : AnnData) (testLabel a b : string)
    (batchLabel : option string) (minCellCounts : Z) (quickScale : bool)
    (sizeFactor : option string) (constrainModel : bool) (col : list string)
    (df : DataFrame) :
  obs_col testLabel adata = Ok col ->
  b <> "" ->
  pairWise_one wald adata testLabel a b batchLabel minCellCounts quickScale
    sizeFactor constrainModel = Ok df ->
  In a col /\ In b col /\ a <> b.
Proof.
  intros Hcol Hb Hrun.
  pose proof (adapter_tester_Ok _ _ _ _ _ _ _ _ _ _ _ Hcol Hrun) as H.
  cbv zeta in H. rewrite kept_labels_pair in H by exact Hb.
  destruct H as [Ha (x & Hx & Hne)].
  apply filter_In in Ha as [Ha _]. apply filter_In in Hx as [Hx Hm].
  apply orb_true_iff in Hm as [Hm|Hm]; apply String.eqb_eq in Hm; subst x;
    [contradiction|]. auto.
Qed.

End OneOk.

Lemma raises_bind {A B} (m : Py A) (k : A -> Py B) (h : Heap) :
  (forall a h1, m h = Return a h1 -> raises (k a h1)) -> raises ((m ≫= k) h).
Proof.
  intros H. unfold mbind, py_bind. destruct (m h) as [a h1|e h1]; [|exact I].
  now apply H.
Qed.

(** What both dispatchers do before their body runs: the groups are
    resolved without touching the heap, and the body works on the caller's
    collection or, with the copy flag, on a copy that differs from it at
    most in the metadata store. *)
Lemma dispatch_prelude {R} (run : nat -> list string -> Py R) (h0 : Heap) (adata : nat)
    (ad : AnnData) (testLabel : string) (groups : option (list string)) (copy : bool)
    (ret : R) (h : Heap) :
  adatas h0 !! adata = Some ad ->
  (G ← resolve_groups adata testLabel groups;
   t ← (if copy then adata_copy adata else mret adata);
   run t G) h0 = Return ret h ->
  exists G t hb u,
    resolve_groups adata testLabel groups h0 = Return G h0
    /\ adatas hb !! t = Some (set_uns u ad)
    /\ (copy = false -> t = adata /\ hb = h0)
    /\ run t G hb = Return ret h.
Proof.
  intros Ha Hrun.
  apply bind_Return in Hrun as (G & h1 & HG & Hrun).
  pose proof (resolve_groups_pure h0 adata testLabel groups h0 eq_refl) as Hpure.
  rewrite HG in Hpure. subst h1.
  apply bind_Return in Hrun as (t & hb & Hcopy & Hrun).
  exists G, t, hb.
  destruct copy.
  - pose proof (adata_copy_spec h0 adata ad Ha h0 eq_refl) as Hspec.
    rewrite Hcopy in Hspec. destruct Hspec as (_ & _ & _ & u & Hu).
    exists u. repeat split; auto; discriminate.
  - injection Hcopy as <- <-. exists (uns ad). repeat split; auto.
    rewrite Ha. now destruct ad.
Qed.

Lemma vsRest_run_Return_inv
    (wald : AnnData -> string -> string -> bool -> option string -> Exc DataFrame)
    (getPartialLayersAdata : AnnData -> string -> list (option string) -> Exc AnnData)
    (np_exp : Q -> Q) (expm : list (list Q) -> list (list Q))
    (np_sum : list Q -> Q)
    (hb : Heap) (t : nat) (org : AnnData)
    (layer testLabel : string) (groups : list string) (batchLabel : option string)
    (minCellCounts : Z) (sizeFactor : option string) (inputIsLog : bool)
    (keyAdded : string) (quickScale constrainModel : bool) (threads : Z)
    (copy : bool) (ret : option (Dict.t Entry)) (h : Heap) :
  adatas hb !! t = Some org ->
  (threads <= 1)%Z ->
  vsRest_run wald getPartialLayersAdata np_exp expm np_sum t layer testLabel groups batchLabel
    minCellCounts sizeFactor inputIsLog keyAdded quickScale constrainModel threads copy hb
  = Return ret h ->
  exists w colw,
    vsRest_working getPartialLayersAdata np_exp expm org layer testLabel groups
      batchLabel sizeFactor inputIsLog = Ok w
    /\ obs_col testLabel w = Ok colw
    /\ List.Forall (fun x => In x groups) colw
    /\ forall g, In g groups -> In g colw /\ exists x, In x colw /\ x <> g.
Proof.
  intros Ht Hthreads Hrun. unfold vsRest_run in Hrun.
  apply bind_Return in Hrun as (org' & h1 & Horg & Hrun).
  unfold get_adata in Horg. rewrite Ht in Horg. injection Horg as <- <-.
  apply bind_Return in Hrun as (w & h1 & Hw & Hrun). apply lift_Return in Hw as [Hw ->].
  apply bind_Return in Hrun as ([] & h1 & _ & Hrun).
  apply bind_Return in Hrun as ([] & h2 & Hloop & _).
  destruct (Z.ltb_spec 1 threads) as [|_]; [lia|].
  destruct (vsRest_working_obs _ _ _ _ _ _ _ _ _ _ _ Hw) as (colw & Hcolw & Hall).
  exists w, colw. repeat split; auto.
  all: destruct (for_each_Return_all _ _ _ _ Hloop g H) as (ha & hb' & Hbody).
  all: apply bind_Return in Hbody as (test & h3 & Htest & _).
  all: apply lift_Return in Htest as [Htest _].
  all: apply (vsRest_one_Ok wald _ _ _ _ _ _ _ _ colw test) in Htest; [|exact Hcolw].
  all: tauto.
Qed.

(** A returning sequential [vsRest]: the working collection holds cells
    of the listed groups only, every listed group has a cell in it and
    next to it a cell of another group; so the listed groups, if any, are
    at least two. *)
Theorem vsRest_returns_only_if
    (wald : AnnData -> string -> string -> bool -> option string -> Exc DataFrame)
    (getPartialLayersAdata : AnnData -> string -> list (option string) -> Exc AnnData)
    (np_exp : Q -> Q) (expm : list (list Q) -> list (list Q))
    (np_sum : list Q -> Q)
    (h0 : Heap) (adata : nat) (ad : AnnData)
    (layer : option string) (testLabel : string)
    (groups : option (list string)) (batchLabel : option string)
    (minCellCounts : Z) (sizeFactor : option string) (inputIsLog : bool)
    (keyAdded : option string) (quickScale constrainModel : bool) (threads : Z)
    (copy : bool) (ret : option (Dict.t Entry)) (h : Heap) :
  adatas h0 !! adata = Some ad ->
  (threads <= 1)%Z ->
  vsRest wald getPartialLayersAdata np_exp expm np_sum adata layer testLabel groups batchLabel
    minCellCounts sizeFactor inputIsLog keyAdded quickScale constrainModel threads copy h0
  = Return ret h ->
  exists G u w colw,
    resolve_groups adata testLabel groups h0 = Return G h0
    /\ vsRest_working getPartialLayersAdata np_exp expm (set_uns u ad)
         (default_layer layer) testLabel G batchLabel sizeFactor inputIsLog = Ok w
    /\ obs_col testLabel w = Ok colw
    /\ List.Forall (fun x => In x G) colw
    /\ (forall g, In g G -> In g colw /\ exists x, In x colw /\ x <> g)
    /\ (forall g, In g G -> exists g', In g' G /\ g' <> g).
Proof.
  intros Ha Hthreads Hrun. unfold vsRest in Hrun.
  apply (dispatch_prelude _ h0 adata ad testLabel groups copy ret h Ha) in Hrun
    as (G & t & hb & u & HG & Ht & _ & Hrun).
  destruct (vsRest_run_Return_inv _ _ _ _ _ _ _ _ _ _ _ _ _ _ _ _ _ _ _ _ _ _
              Ht Hthreads Hrun) as (w & colw & Hw & Hcolw & Hall & Hg).
  exists G, u, w, colw. repeat split; auto; try (now apply Hg).
  intros g Hin. destruct (Hg g Hin) as (_ & x & Hx & Hne).
  exists x. split; [|exact Hne].
  apply (proj1 (List.Forall_forall _ _) Hall x Hx).
Qed.

Lemma vsRest_returns_only_if_witness :
  exists G u w colw,
    resolve_groups 0 "ct" None (Examples.heap_of Examples.ad2)
    = Return G (Examples.heap_of Examples.ad2)
    /\ vsRest_working Examples.getPartialLayersAdata Examples.toy_exp Examples.toy_expm
         (set_uns u Examples.ad2) (default_layer None) "ct" G None None false = Ok w
    /\ obs_col "ct" w = Ok colw
    /\ List.Forall (fun x => In x G) colw
    /\ (forall g, In g G -> In g colw /\ exists x, In x colw /\ x <> g)
    /\ (forall g, In g G -> exists g', In g' G /\ g' <> g).
Proof.
  apply (vsRest_returns_only_if Examples.toy_wald Examples.getPartialLayersAdata
           Examples.toy_exp Examples.toy_expm Examples.toy_sum (Examples.heap_of Examples.ad2) 0
           Examples.ad2 None "ct" None None 1 None false None true false 1 false None
           Examples.heap_vsRest).
  - reflexivity.
  - lia.
  - vm_compute. reflexivity.
Defined.

(** With a single listed group the sequential [vsRest] never returns:
    the working collection holds that group's cells only, and the
    tester's assertion on two classes fails. *)
Theorem vsRest_single_group_raises
    (wald : AnnData -> string -> string -> bool -> option string -> Exc DataFrame)
    (getPartialLayersAdata : AnnData -> string -> list (option string) -> Exc AnnData)
    (np_exp : Q -> Q) (expm : list (list Q) -> list (list Q))
    (np_sum : list Q -> Q)
    (h0 : Heap) (adata : nat)
    (layer : option string) (testLabel g : string) (batchLabel : option string)
    (minCellCounts : Z) (sizeFactor : option string) (inputIsLog : bool)
    (keyAdded : option string) (quickScale constrainModel : bool) (threads : Z)
    (copy : bool) :
  (threads <= 1)%Z ->
  raises (vsRest wald getPartialLayersAdata np_exp expm np_sum adata layer testLabel (Some [g])
            batchLabel minCellCounts sizeFactor inputIsLog keyAdded quickScale
            constrainModel threads copy h0).
Proof.
  intros Hthreads. unfold vsRest.
  apply raises_bind. intros G h1 HG. cbn [resolve_groups] in HG.
  injection HG as <- <-.
  apply raises_bind. intros t hb _.
  destruct (vsRest_run _ _ _ _ _ _ _ _ _ _ _ _ _ _ _ _ _ _ hb) as [ret h|e h] eqn:Hrun;
    [|exact I].
  exfalso.
  destruct (adatas hb !! t) as [org|] eqn:Ht.
  - destruct (vsRest_run_Return_inv _ _ _ _ _ _ _ _ _ _ _ _ _ _ _ _ _ _ _ _ _ _
                Ht Hthreads Hrun) as (w & colw & _ & _ & Hall & Hg).
    destruct (Hg g (or_introl eq_refl)) as (_ & x & Hx & Hne).
    apply (proj1 (List.Forall_forall _ _) Hall) in Hx. destruct Hx as [<-|[]].
    congruence.
  - unfold vsRest_run, mbind, py_bind, get_adata in Hrun. rewrite Ht in Hrun.
    discriminate.
Qed.

Lemma vsRest_single_group_raises_witness :
  raises (vsRest Examples.toy_wald Examples.getPartialLayersAdata Examples.toy_exp
            Examples.toy_expm Examples.toy_sum 0 None "ct" (Some ["A"]) None 1 None false None
            true false 1 false (Examples.heap_of Examples.ad2)).
Proof.
  apply (vsRest_single_group_raises Examples.toy_wald Examples.getPartialLayersAdata
           Examples.toy_exp Examples.toy_expm Examples.toy_sum (Examples.heap_of Examples.ad2) 0
           None "ct" "A" None 1 None false None true false 1 false).
  lia.
Defined.

(** ** The worker of the parallel path *)

Lemma is_True_py_bool (mask : list bool) : map is_True (map py_bool mask) = mask.
Proof.
  induction mask as [|b mask IH]; simpl; [reflexivity|].
  rewrite IH. now destruct b.
Qed.

Lemma keep_ne_batch_key (b key : string) :
  String.length key = 4%nat -> "keep" <> b +:+ "_" +:+ key.
Proof.
  intros Hk H. apply (f_equal String.length) in H.
  rewrite !str_length_append in H. simpl in H. lia.
Qed.

(** The binary column and the [keep] column the worker finds after its
    call of the adapter. *)
Lemma worker_columns (adata ad' : AnnData) (testLabel testComp : string)
    (batchLabel : option string) (minCellCounts : Z) (col : list string) :
  obs_col testLabel adata = Ok col ->
  testLabel <> "keep" ->
  parseAdToDiffxpyFormat adata testLabel testComp OtherNone batchLabel minCellCounts
    "temp" false = Ok ad' ->
  Dict.get "temp" (obs ad') = Some (binary_column col testComp)
  /\ Dict.get "keep" (obs ad') = Some (map py_bool (repeat true (length col)))
  /\ var_names ad' = var_names adata.
Proof.
  intros Hcol Hne Hparse.
  pose proof (parseAd_binary _ _ _ _ _ _ _ _ _ _ Hcol (or_intror Hne) Hparse) as Hbin.
  rewrite (parseAd_steps _ _ _ _ _ _ _ _ col Hcol) in Hparse. cbv zeta in Hparse.
  apply assign_binary_columns_frame in Hparse as (_ & _ & HV & _ & HO).
  split; [exact Hbin|]. split; [|exact HV].
  rewrite (HO "keep"); [|discriminate|intros b _; now apply keep_ne_batch_key].
  cbn [obs set_obs]. rewrite dict_get_set_eq.
  unfold resolved_otherComp. cbn [other_truthy]. now rewrite isin_rest_all.
Qed.

Lemma worker_tested_column
    (wald : AnnData -> string -> string -> bool -> option string -> Exc DataFrame)
    (np_sum : list Q -> Q)
    (adata ad' : AnnData) (testLabel testComp : string)
    (batchLabel : option string) (minCellCounts : Z) (quickScale : bool)
    (sizeFactor : option string) (constrainModel : bool) (col : list string)
    (ls_shm : option (list (list Q))) :
  obs_col testLabel adata = Ok col ->
  testLabel <> "keep" ->
  parseAdToDiffxpyFormat adata testLabel testComp OtherNone batchLabel minCellCounts
    "temp" false = Ok ad' ->
  exists ad_parsed,
    getDiffxpy_worker wald np_sum adata testLabel testComp batchLabel minCellCounts
      quickScale sizeFactor constrainModel ls_shm
    = testTwoSample wald ad_parsed "temp" batchLabel quickScale sizeFactor constrainModel
    /\ obs_col "temp" ad_parsed = Ok (binary_column col testComp).
Proof.
  intros Hcol Hne Hparse.
  destruct (worker_columns _ _ _ _ _ _ _ Hcol Hne Hparse) as (Htemp & Hkeep & _).
  unfold getDiffxpy_worker. rewrite Hparse. unfold mbind at 1, exc_bind at 1.
  destruct ls_shm as [mtx|].
  - unfold obs_col at 1. rewrite Hkeep. unfold mbind, exc_bind, mret, exc_ret.
    cbn [of_option]. eexists. split; [reflexivity|].
    unfold obs_col, subset_var, subset_obs. cbn [obs set_X].
    rewrite (dict_get_map (select (map is_True (map py_bool (repeat true (length col)))))).
    rewrite Htemp. simpl. rewrite is_True_py_bool.
    rewrite select_all_true; [reflexivity|].
    unfold binary_column. rewrite length_map. lia.
  - unfold mbind, exc_bind, mret, exc_ret.
    eexists. split; [reflexivity|]. unfold obs_col. cbn [obs set_X]. now rewrite Htemp.
Qed.

(** The worker, with or without the shared matrix, reaches the engine
    exactly when the collection it is given has a cell of the group and a
    cell of another group, as the sequential task does: its outcome is
    then the engine's, on a collection whose binary column marks the
    cells of the group among all cells; otherwise the tester's assertion
    fails.  (The group-label column must not be the column [keep] that
    the adapter writes.) *)
Theorem getDiffxpy_worker_outcome
    (wald : AnnData -> string -> string -> bool -> option string -> Exc DataFrame)
    (np_sum : list Q -> Q)
    (adata : AnnData) (testLabel testComp : string)
    (batchLabel : option string) (minCellCounts : Z) (quickScale : bool)
    (sizeFactor : option string) (constrainModel : bool)
    (ls_shm : option (list (list Q))) (col : list string) :
  obs_col testLabel adata = Ok col ->
  testLabel <> "keep" ->
  batch_present batchLabel adata ->
  let run := getDiffxpy_worker wald np_sum adata testLabel testComp batchLabel minCellCounts
               quickScale sizeFactor constrainModel ls_shm in
  let two_classes := In testComp col /\ exists x, In x col /\ x <> testComp in
  exists ad_parsed,
    obs_col "temp" ad_parsed = Ok (binary_column col testComp)
    /\ (two_classes ->
        run = wald ad_parsed (formula_loc "temp" batchLabel constrainModel) "temp"
                quickScale sizeFactor)
    /\ (~ two_classes -> run = Err (AssertionError "More Than Two Samples found"))
    /\ ((exists df, run = Ok df) -> two_classes).
Proof.
  intros Hcol Hne Hb run two_classes.
  destruct (parseAd_returns adata testLabel testComp OtherNone batchLabel
              minCellCounts "temp" false) as (ad' & Had').
  { unfold obs_col in Hcol. destruct (Dict.get testLabel (obs adata)); discriminate. }
  { intros b H1 H2. destruct (Hb b H1 H2); auto. }
  unfold run.
  destruct (worker_tested_column wald np_sum _ _ _ _ _ _ quickScale sizeFactor constrainModel
              _ ls_shm Hcol Hne Had') as (ad_parsed & -> & Htemp).
  exists ad_parsed. split; [exact Htemp|].
  rewrite (testTwoSample_cases wald ad_parsed "temp" batchLabel quickScale sizeFactor
             constrainModel _ Htemp).
  pose proof (binary_two_values col testComp) as Htwo.
  destruct (Nat.eqb (length (unique (binary_column col testComp))) 2).
  - split; [reflexivity|]. split.
    + intros Hn. exfalso. apply Hn. now apply Htwo.
    + intros _. now apply Htwo.
  - split; [intros H; apply Htwo in H; discriminate|].
    split; [reflexivity|]. intros [df Hdf]. discriminate.
Qed.

Lemma getDiffxpy_worker_outcome_witness :
  let run := getDiffxpy_worker Examples.toy_wald Examples.toy_sum Examples.ad2 "ct" "A" None 1
    true None
               false (Some [[1; 0]; [0; 3]]%Q) in
  let two_classes := In "A" ["A"; "B"] /\ exists x, In x ["A"; "B"] /\ x <> "A" in
  exists ad_parsed,
    obs_col "temp" ad_parsed = Ok (binary_column ["A"; "B"] "A")
    /\ (two_classes ->
        run = Examples.toy_wald ad_parsed (formula_loc "temp" None false) "temp" true
                None)
    /\ (~ two_classes -> run = Err (AssertionError "More Than Two Samples found"))
    /\ ((exists df, run = Ok df) -> two_classes).
Proof.
  apply (getDiffxpy_worker_outcome Examples.toy_wald Examples.toy_sum Examples.ad2 "ct" "A" None 1
           true None false (Some [[1; 0]; [0; 3]]%Q) ["A"; "B"]).
  - reflexivity.
  - discriminate.
  - intros b [=].
Defined.

(** ** What a returning [pairWise] implies *)

Lemma In_product_range (n x y : nat) :
  In (x, y) (product_range n) <-> (x < n)%nat /\ (y < n)%nat.
Proof.
  unfold product_range. rewrite in_prod_iff, !in_seq. lia.
Qed.

Lemma pairWise_run_Return_inv
    (wald : AnnData -> string -> string -> bool -> option string -> Exc DataFrame)
    (getPartialLayersAdata : AnnData -> string -> list (option string) -> Exc AnnData)
    (np_exp : Q -> Q)
    (hb : Heap) (t : nat) (org : AnnData)
    (layer testLabel : string) (groups : list string) (batchLabel : option string)
    (minCellCounts : Z) (sizeFactor : option string) (inputIsLog : bool)
    (keyAdded : string) (quickScale constrainModel : bool)
    (copy : bool) (ret : option (Dict.t Entry)) (h : Heap) :
  adatas hb !! t = Some org ->
  pairWise_run wald getPartialLayersAdata np_exp t layer testLabel groups batchLabel
    minCellCounts sizeFactor inputIsLog keyAdded quickScale constrainModel copy hb
  = Return ret h ->
  exists w colw,
    pairWise_working getPartialLayersAdata np_exp org layer testLabel groups
      batchLabel sizeFactor inputIsLog = Ok w
    /\ obs_col testLabel w = Ok colw
    /\ List.Forall (fun x => In x groups) colw
    /\ forall i j a b, (i < j)%nat -> groups !! i = Some a -> groups !! j = Some b ->
         b <> "" -> a <> b /\ In a colw /\ In b colw.
Proof.
  intros Ht Hrun. unfold pairWise_run in Hrun.
  apply bind_Return in Hrun as (org' & h1 & Horg & Hrun).
  unfold get_adata in Horg. rewrite Ht in Horg. injection Horg as <- <-.
  apply bind_Return in Hrun as (w & h1 & Hw & Hrun). apply lift_Return in Hw as [Hw ->].
  apply bind_Return in Hrun as ([] & h1 & _ & Hrun).
  apply bind_Return in Hrun as ([] & h2 & Hloop & _).
  destruct (pairWise_working_obs _ _ _ _ _ _ _ _ _ _ Hw) as (colw & Hcolw & Hall).
  exists w, colw. split; [exact Hw|]. split; [exact Hcolw|]. split; [exact Hall|].
  intros i j a b Hij Ha Hb Hne.
  assert (Hin : In (i, j) (product_range (length groups))).
  { apply In_product_range. split; eapply lookup_lt_Some; eauto. }
  destruct (for_each_Return_all _ _ _ _ Hloop (i, j) Hin) as (ha & hb' & Hbody).
  unfold pairWise_compute in Hbody.
  destruct (Nat.leb_spec j i) as [|_]; [lia|].
  rewrite Ha, Hb in Hbody. cbn [of_option] in Hbody.
  apply bind_Return in Hbody as (a' & h3 & Ha' & Hbody).
  apply lift_Return in Ha' as [[= <-] ->].
  apply bind_Return in Hbody as (b' & h3 & Hb' & Hbody).
  apply lift_Return in Hb' as [[= <-] ->].
  apply bind_Return in Hbody as (test & h3 & Htest & _).
  apply lift_Return in Htest as [Htest _].
  apply (pairWise_one_Ok wald _ _ _ _ _ _ _ _ _ colw test Hcolw Hne) in Htest.
  tauto.
Qed.

Lemma NoDup_of_lookup (l : list string) :
  (forall i j a b, (i < j)%nat -> l !! i = Some a -> l !! j = Some b -> a <> b) ->
  List.NoDup l.
Proof.
  intros H. apply NoDup_ListNoDup. apply NoDup_alt. intros i j x Hi Hj.
  destruct (Nat.lt_trichotomy i j) as [Hlt|[Heq|Hgt]]; [|exact Heq|].
  - exfalso. now apply (H i j x x Hlt Hi Hj).
  - exfalso. now apply (H j i x x Hgt Hj Hi).
Qed.

(** A returning [pairWise]: the working collection holds cells of the
    listed groups only; any two listed groups, the later one named by a
    non-empty string, are different and each has a cell; so a group list
    without the empty name has no duplicate. *)
Theorem pairWise_returns_only_if
    (wald : AnnData -> string -> string -> bool -> option string -> Exc DataFrame)
    (getPartialLayersAdata : AnnData -> string -> list (option string) -> Exc AnnData)
    (np_exp : Q -> Q)
    (h0 : Heap) (adata : nat) (ad : AnnData)
    (layer : option string) (testLabel : string)
    (groups : option (list string)) (batchLabel : option string)
    (minCellCounts : Z) (sizeFactor : option string) (inputIsLog : bool)
    (keyAdded : option string) (quickScale constrainModel : bool)
    (copy : bool) (ret : option (Dict.t Entry)) (h : Heap) :
  adatas h0 !! adata = Some ad ->
  pairWise wald getPartialLayersAdata np_exp adata layer testLabel groups batchLabel
    minCellCounts sizeFactor inputIsLog keyAdded quickScale constrainModel copy h0
  = Return ret h ->
  exists G u w colw,
    resolve_groups adata testLabel groups h0 = Return G h0
    /\ pairWise_working getPartialLayersAdata np_exp (set_uns u ad)
         (default_layer layer) testLabel G batchLabel sizeFactor inputIsLog = Ok w
    /\ obs_col testLabel w = Ok colw
    /\ List.Forall (fun x => In x G) colw
    /\ (forall i j a b, (i < j)%nat -> G !! i = Some a -> G !! j = Some b ->
          b <> "" -> a <> b /\ In a colw /\ In b colw)
    /\ (~ In "" G -> List.NoDup G).
Proof.
  intros Ha Hrun. unfold pairWise in Hrun.
  apply (dispatch_prelude _ h0 adata ad testLabel groups copy ret h Ha) in Hrun
    as (G & t & hb & u & HG & Ht & _ & Hrun).
  destruct (pairWise_run_Return_inv _ _ _ _ _ _ _ _ _ _ _ _ _ _ _ _ _ _ _
              Ht Hrun) as (w & colw & Hw & Hcolw & Hall & Hp).
  exists G, u, w, colw.
  split; [exact HG|]. split; [exact Hw|]. split; [exact Hcolw|].
  split; [exact Hall|]. split; [exact Hp|].
  intros Hempty. apply NoDup_of_lookup. intros i j a b Hij Hi Hj.
  apply (Hp i j a b Hij Hi Hj). intros ->.
  apply Hempty. apply list_elem_of_In. eapply list_elem_of_lookup_2; eauto.
Qed.

Lemma pairWise_returns_only_if_witness :
  exists G u w colw,
    resolve_groups 0 "ct" None (Examples.heap_of Examples.ad4)
    = Return G (Examples.heap_of Examples.ad4)
    /\ pairWise_working Examples.getPartialLayersAdata Examples.toy_exp
         (set_uns u Examples.ad4) (default_layer None) "ct" G None None false = Ok w
    /\ obs_col "ct" w = Ok colw
    /\ List.Forall (fun x => In x G) colw
    /\ (forall i j a b, (i < j)%nat -> G !! i = Some a -> G !! j = Some b ->
          b <> "" -> a <> b /\ In a colw /\ In b colw)
    /\ (~ In "" G -> List.NoDup G).
Proof.
  apply (pairWise_returns_only_if Examples.toy_wald Examples.getPartialLayersAdata
           Examples.toy_exp (Examples.heap_of Examples.ad4) 0 Examples.ad4
           None "ct" None None 1 None false None true false false None
           Examples.heap_pw4).
  - reflexivity.
  - vm_compute. reflexivity.
Defined.

(** A group listed twice makes [pairWise] raise: the pair of its two
    occurrences would compare the group with itself. *)
Theorem pairWise_duplicate_raises
    (wald : AnnData -> string -> string -> bool -> option string -> Exc DataFrame)
    (getPartialLayersAdata : AnnData -> string -> list (option string) -> Exc AnnData)
    (np_exp : Q -> Q)
    (h0 : Heap) (adata : nat)
    (layer : option string) (testLabel : string)
    (g : string) (gs : list string) (batchLabel : option string)
    (minCellCounts : Z) (sizeFactor : option string) (inputIsLog : bool)
    (keyAdded : option string) (quickScale constrainModel : bool) (copy : bool) :
  ~ In "" (g :: gs) ->
  ~ List.NoDup (g :: gs) ->
  raises (pairWise wald getPartialLayersAdata np_exp adata layer testLabel
            (Some (g :: gs)) batchLabel minCellCounts sizeFactor inputIsLog keyAdded
            quickScale constrainModel copy h0).
Proof.
  intros Hempty Hdup. unfold pairWise.
  apply raises_bind. intros G h1 HG. cbn [resolve_groups] in HG.
  injection HG as <- <-.
  apply raises_bind. intros t hb _.
  destruct (pairWise_run _ _ _ _ _ _ _ _ _ _ _ _ _ _ _ hb) as [ret h|e h] eqn:Hrun;
    [|exact I].
  exfalso.
  destruct (adatas hb !! t) as [org|] eqn:Ht.
  - destruct (pairWise_run_Return_inv _ _ _ _ _ _ _ _ _ _ _ _ _ _ _ _ _ _ _
                Ht Hrun) as (w & colw & _ & _ & _ & Hp).
    apply Hdup. apply NoDup_of_lookup. intros i j a b Hij Hi Hj.
    apply (Hp i j a b Hij Hi Hj). intros ->.
    apply Hempty. apply list_elem_of_In. eapply list_elem_of_lookup_2; eauto.
  - unfold pairWise_run, mbind, py_bind, get_adata in Hrun. rewrite Ht in Hrun.
    discriminate.
Qed.

Lemma pairWise_duplicate_raises_witness :
  raises (pairWise Examples.toy_wald Examples.getPartialLayersAdata Examples.toy_exp
            0 None "ct" (Some ["A"; "B"; "A"]) None 1 None false None true false false
            (Examples.heap_of Examples.ad2)).
Proof.
  apply (pairWise_duplicate_raises Examples.toy_wald Examples.getPartialLayersAdata
           Examples.toy_exp (Examples.heap_of Examples.ad2) 0 None "ct" "A" ["B"; "A"]
           None 1 None false None true false false).
  - simpl. intuition discriminate.
  - intros H. inversion H as [|? ? Hn _]; subst. apply Hn. simpl. auto.
Defined.

(** ** Marker Extractor: what it refuses *)

Lemma getMarker_tag (adata : nat) (key : string) (q l m : Q) (dc : Z) (h : Heap)
    (ad : AnnData) (d : Dict.t Entry) :
  adatas h !! adata = Some ad ->
  Dict.get key (uns ad) = Some d ->
  getMarker adata key q l m dc h
  = match Dict.get "__cat" d with
    | None => Raise (KeyError "__cat") h
    | Some (Tbl _) => Raise TypeError h
    | Some (Cat c) =>
        if String.eqb c "vsRest" then
          (df ← getMarker_vsRest d q l m dc; mret (VsRestMarkers df)) h
        else if String.eqb c "pairWise" then
          (t ← getMarker_pairWise d q l m dc; mret (PairWiseMarkers t)) h
        else Raise (KeyError c) h
    end.
Proof.
  intros Ha Hd.
  assert (Hget : uns_get adata key h = Return d h).
  { unfold uns_get, get_adata, mbind, py_bind. rewrite Ha. unfold lift. now rewrite Hd. }
  unfold getMarker. unfold mbind at 1, py_bind at 1. rewrite Hget.
  unfold mbind at 1, py_bind at 1.
  destruct (Dict.get "__cat" d) as [[c|r]|]; cbn [of_option lift]; try reflexivity.
  destruct (String.eqb c "vsRest"); [reflexivity|].
  destruct (String.eqb c "pairWise"); reflexivity.
Qed.

(** [getMarker] raises [KeyError] for a result key that is not in the
    metadata store, for a mapping without the [__cat] tag, and for a tag
    that names neither mode; on a mapping that holds nothing but the tag
    the concatenation of no table raises [ValueError].  In every case the
    heap is left as it was. *)
Theorem getMarker_refuses (adata : nat) (key : string)
    (qvalue log2fc_cut mean_cut : Q) (detectedCounts : Z) (h : Heap) (ad : AnnData) :
  adatas h !! adata = Some ad ->
  (Dict.get key (uns ad) = None ->
   getMarker adata key qvalue log2fc_cut mean_cut detectedCounts h
   = Raise (KeyError key) h)
  /\ (forall d, Dict.get key (uns ad) = Some d -> Dict.get "__cat" d = None ->
      getMarker adata key qvalue log2fc_cut mean_cut detectedCounts h
      = Raise (KeyError "__cat") h)
  /\ (forall d c, Dict.get key (uns ad) = Some d -> Dict.get "__cat" d = Some (Cat c) ->
      c <> "vsRest" -> c <> "pairWise" ->
      getMarker adata key qvalue log2fc_cut mean_cut detectedCounts h
      = Raise (KeyError c) h)
  /\ (forall c, Dict.get key (uns ad) = Some [("__cat", Cat c)] ->
      c = "vsRest" \/ c = "pairWise" ->
      getMarker adata key qvalue log2fc_cut mean_cut detectedCounts h
      = Raise (ValueError "No objects to concatenate") h).
Proof.
  intros Ha. split; [|split; [|split]].
  - intros Hk.
    assert (Hget : uns_get adata key h = Raise (KeyError key) h).
    { unfold uns_get, get_adata, mbind, py_bind. rewrite Ha. unfold lift. now rewrite Hk. }
    unfold getMarker. unfold mbind at 1, py_bind at 1. now rewrite Hget.
  - intros d Hd Hc. rewrite (getMarker_tag _ _ _ _ _ _ _ _ _ Ha Hd). now rewrite Hc.
  - intros d c Hd Hc H1 H2. rewrite (getMarker_tag _ _ _ _ _ _ _ _ _ Ha Hd), Hc.
    destruct (String.eqb_spec c "vsRest"); [contradiction|].
    destruct (String.eqb_spec c "pairWise"); [contradiction|reflexivity].
  - intros c Hd [-> | ->]; rewrite (getMarker_tag _ _ _ _ _ _ _ _ _ Ha Hd); reflexivity.
Qed.

Lemma getMarker_refuses_witness :
  getMarker 0 "diffxpyVsRest_ct" (5 # 100) 0 0 (-1) (Examples.heap_of Examples.ad2)
  = Raise (KeyError "diffxpyVsRest_ct") (Examples.heap_of Examples.ad2).
Proof.
  apply (proj1 (getMarker_refuses 0 "diffxpyVsRest_ct" (5 # 100) 0 0 (-1)
                  (Examples.heap_of Examples.ad2) Examples.ad2 eq_refl)).
  reflexivity.
Defined.

(** With a single listed group [pairWise] has no pair to test: it
    returns, and the mapping it stores holds the tag alone; [getMarker] on
    that result raises, there being no table to concatenate. *)
Theorem pairWise_single_group
    (wald : AnnData -> string -> string -> bool -> option string -> Exc DataFrame)
    (getPartialLayersAdata : AnnData -> string -> list (option string) -> Exc AnnData)
    (np_exp : Q -> Q)
    (h0 : Heap) (adata : nat) (ad w : AnnData)
    (layer : option string) (testLabel g : string) (batchLabel : option string)
    (minCellCounts : Z) (sizeFactor : option string) (inputIsLog : bool)
    (keyAdded : option string) (quickScale constrainModel : bool)
    (qvalue log2fc_cut mean_cut : Q) (detectedCounts : Z) :
  adatas h0 !! adata = Some ad ->
  pairWise_working getPartialLayersAdata np_exp ad (default_layer layer) testLabel [g]
    batchLabel sizeFactor inputIsLog = Ok w ->
  let key := default_key "diffxpyPairWise_" testLabel keyAdded in
  let h := mkHeap (frames h0)
             (<[adata := set_uns (Dict.set key [("__cat", Cat "pairWise")] (uns ad)) ad]>
                (adatas h0)) in
  pairWise wald getPartialLayersAdata np_exp adata layer testLabel (Some [g]) batchLabel
    minCellCounts sizeFactor inputIsLog keyAdded quickScale constrainModel false h0
  = Return None h
  /\ getMarker adata key qvalue log2fc_cut mean_cut detectedCounts h
     = Raise (ValueError "No objects to concatenate") h.
Proof.
  intros Ha Hw key h. split.
  - unfold pairWise, pairWise_run, resolve_groups, uns_set, get_adata, set_adata.
    unfold mbind, py_bind, mret, py_ret. rewrite Ha. fold key. unfold lift. rewrite Hw.
    rewrite Ha. cbn [adatas frames].
    assert (Hl : <[adata := set_uns (Dict.set key [("__cat", Cat "pairWise")] (uns ad)) ad]>
                   (adatas h0) !! adata
                 = Some (set_uns (Dict.set key [("__cat", Cat "pairWise")] (uns ad)) ad)).
    { apply list_lookup_insert_eq. eapply lookup_lt_Some; eauto. }
    reflexivity.
  - assert (Hl : adatas h !! adata
                 = Some (set_uns (Dict.set key [("__cat", Cat "pairWise")] (uns ad)) ad)).
    { apply list_lookup_insert_eq. eapply lookup_lt_Some; eauto. }
    rewrite (getMarker_tag _ _ _ _ _ _ _ _ [("__cat", Cat "pairWise")] Hl).
    + reflexivity.
    + cbn [uns set_uns]. apply dict_get_set_eq.
Qed.

Lemma pairWise_single_group_witness :
  let key := default_key "diffxpyPairWise_" "ct" None in
  let h := mkHeap (frames (Examples.heap_of Examples.ad2))
             (<[0%nat := set_uns (Dict.set key [("__cat", Cat "pairWise")]
                                    (uns Examples.ad2)) Examples.ad2]>
                (adatas (Examples.heap_of Examples.ad2))) in
  pairWise Examples.toy_wald Examples.getPartialLayersAdata Examples.toy_exp 0 None "ct"
    (Some ["A"]) None 1 None false None true false false (Examples.heap_of Examples.ad2)
  = Return None h
  /\ getMarker 0 key (5 # 100) 0 0 (-1) h
     = Raise (ValueError "No objects to concatenate") h.
Proof.
  eapply (pairWise_single_group Examples.toy_wald Examples.getPartialLayersAdata
            Examples.toy_exp (Examples.heap_of Examples.ad2) 0 Examples.ad2 _ None "ct"
            "A" None 1 None false None true false (5 # 100) 0 0 (-1)).
  - reflexivity.
  - vm_compute. reflexivity.
Defined.

(** ** Marker Extractor: the aggregated table *)

Lemma getMarker_pairWise_form (adata : nat) (key : string) (q l m : Q) (dc : Z)
    (h : Heap) (d : Dict.t Entry) (out : Markers) (h' : Heap) :
  mapping_at adata key d h ->
  Dict.get "__cat" d = Some (Cat "pairWise") ->
  getMarker adata key q l m dc h = Return out h' ->
  exists rs resolved,
    out = PairWiseMarkers
            (List.filter (fun a => (resolved <=? counts a)%Z) (groupby_agg rs)).
Proof.
  intros (ad & Ha & Hd) Hcat Hrun.
  rewrite (getMarker_tag _ _ _ _ _ _ _ _ _ Ha Hd), Hcat in Hrun. simpl in Hrun.
  apply bind_Return in Hrun as (t_out & h1 & Hp & Hrun). injection Hrun as <- <-.
  unfold getMarker_pairWise in Hp.
  apply bind_Return in Hp as (parsed & h2 & Hmap & Hp).
  apply bind_Return in Hp as (merged & h3 & Hcon & Hp).
  injection Hp as <- <-. eauto.
Qed.

Lemma NoDup_unique_keys (l : list (string * string)) : List.NoDup (unique_keys l).
Proof.
  induction l as [|y l IH]; simpl; constructor.
  - rewrite filter_In. intros [_ H].
    assert (E : key_eqb y y = true) by now apply key_eqb_eq.
    rewrite E in H. discriminate.
  - now apply NoDup_filter_list.
Qed.

Lemma NoDup_insert_key (k : string * string) (l : list (string * string)) :
  ~ In k l -> List.NoDup l -> List.NoDup (insert_key k l).
Proof.
  intros Hk Hl. induction Hl as [|x l Hx Hl IH]; simpl.
  - constructor; [tauto|constructor].
  - destruct (key_leb k x).
    + constructor; [exact Hk|]. constructor; auto.
    + constructor.
      * rewrite In_insert_key. intros [->|H]; [apply Hk; now left|contradiction].
      * apply IH. intros H. apply Hk. now right.
Qed.

Lemma NoDup_sort_keys (l : list (string * string)) :
  List.NoDup l -> List.NoDup (sort_keys l).
Proof.
  unfold sort_keys. induction 1 as [|x l Hx Hl IH]; simpl; [constructor|].
  apply NoDup_insert_key; [|exact IH].
  fold (sort_keys l). now rewrite In_sort_keys.
Qed.

Lemma agg_key_groupby (rs : list Row) :
  map agg_key (groupby_agg rs) = sort_keys (unique_keys (omap group_key rs)).
Proof.
  unfold groupby_agg. rewrite map_map.
  induction (sort_keys _) as [|[t g] ks IH]; simpl; [reflexivity|]. now rewrite IH.
Qed.

Lemma NoDup_map_filter {A B} (f : A -> B) (p : A -> bool) (l : list A) :
  List.NoDup (map f l) -> List.NoDup (map f (List.filter p l)).
Proof.
  induction l as [|x l IH]; simpl; intros H; [constructor|].
  inversion H as [|? ? Hx Hl]; subst.
  destruct (p x); simpl; [|auto]. constructor; [|auto].
  intros Hin. apply Hx. apply in_map_iff in Hin as (y & Hy & Hin).
  apply filter_In in Hin as [Hin _]. apply in_map_iff. eauto.
Qed.

(** The table [getMarker] returns in pairwise mode has one row per
    (tested group, gene): no two rows share that key; the count of a row
    is at least 1, and each of its five lists has as many entries as the
    count says. *)
Theorem getMarker_pairWise_table
    (adata : nat) (key : string) (qvalue log2fc_cut mean_cut : Q) (detectedCounts : Z)
    (h : Heap) (d : Dict.t Entry) (out : Markers) (h' : Heap) :
  mapping_at adata key d h ->
  Dict.get "__cat" d = Some (Cat "pairWise") ->
  getMarker adata key qvalue log2fc_cut mean_cut detectedCounts h = Return out h' ->
  exists t_out,
    out = PairWiseMarkers t_out
    /\ List.NoDup (map agg_key t_out)
    /\ forall a, In a t_out ->
         (1 <= counts a)%Z
         /\ Z.of_nat (length (agg_bgCluster a)) = counts a
         /\ Z.of_nat (length (agg_qval a)) = counts a
         /\ Z.of_nat (length (agg_log2fc a)) = counts a
         /\ Z.of_nat (length (agg_mean a)) = counts a
         /\ Z.of_nat (length (agg_coef_mle a)) = counts a.
Proof.
  intros Hm Hcat Hrun.
  destruct (getMarker_pairWise_form _ _ _ _ _ _ _ _ _ _ Hm Hcat Hrun)
    as (rs & resolved & ->).
  eexists. split; [reflexivity|]. split.
  - apply NoDup_map_filter. rewrite agg_key_groupby.
    apply NoDup_sort_keys, NoDup_unique_keys.
  - intros a Ha. apply filter_In in Ha as [Ha _].
    apply In_groupby_agg in Ha as (k & (row & Hrow & Hkey) & ->).
    unfold aggregate. cbn [counts agg_bgCluster agg_qval agg_log2fc agg_mean agg_coef_mle].
    rewrite !length_map. repeat split; try reflexivity.
    assert (1 <= length (List.filter (in_group k) rs))%nat; [|lia].
    apply filter_length_pos. exists row. split; [exact Hrow|]. now apply in_group_spec.
Qed.

Lemma getMarker_pairWise_table_witness :
  exists t_out,
    PairWiseMarkers Examples.markers_pw4 = PairWiseMarkers t_out
    /\ List.NoDup (map agg_key t_out)
    /\ forall a, In a t_out ->
         (1 <= counts a)%Z
         /\ Z.of_nat (length (agg_bgCluster a)) = counts a
         /\ Z.of_nat (length (agg_qval a)) = counts a
         /\ Z.of_nat (length (agg_log2fc a)) = counts a
         /\ Z.of_nat (length (agg_mean a)) = counts a
         /\ Z.of_nat (length (agg_coef_mle a)) = counts a.
Proof.
  apply (getMarker_pairWise_table 0 "diffxpyPairWise_ct" (5 # 100) 0 0 (-1)
           Examples.heap_pw4 Examples.mapping_pw4 (PairWiseMarkers Examples.markers_pw4)
           (outcome_heap (getMarker 0 "diffxpyPairWise_ct" (5 # 100) 0 0 (-1)
                            Examples.heap_pw4))).
  - eexists. split; vm_compute; reflexivity.
  - reflexivity.
  - vm_compute. reflexivity.
Defined.

Lemma sum_counts {A} (p : A -> bool) (c : A -> nat) (l : list A) :
  (forall b, In b l -> p b = true -> (c b <= 1)%nat) ->
  list_sum (map c (List.filter p l))
  = length (List.filter (fun b => p b && (1 <=? c b)%nat) l).
Proof.
  induction l as [|a l IH]; intros Hle; [reflexivity|].
  assert (IH' : list_sum (map c (List.filter p l))
                = length (List.filter (fun b => p b && (1 <=? c b)%nat) l)).
  { apply IH. intros b Hb. apply Hle. now right. }
  cbn [List.filter]. destruct (p a) eqn:Hp; cbn [andb]; [|exact IH'].
  assert (Ha : (c a <= 1)%nat) by (apply Hle; [now left|exact Hp]).
  cbn [map list_sum fold_right]. change (fold_right Nat.add 0%nat) with list_sum.
  rewrite IH'.
  destruct (Nat.leb_spec 1 (c a)); cbn [length]; lia.
Qed.

Lemma filter_length_le {A} (p : A -> bool) (l : list A) :
  (length (List.filter p l) <= length l)%nat.
Proof. induction l as [|a l IH]; simpl; [lia|]. destruct (p a); simpl; lia. Qed.

Lemma filter_and_length_le {A} (p q : A -> bool) (l : list A) :
  (length (List.filter (fun b => p b && q b) l) <= length (List.filter p l))%nat.
Proof.
  induction l as [|a l IH]; simpl; [lia|].
  destruct (p a), (q a); simpl; lia.
Qed.

Lemma full_mapping_cleared (q l m : Q) (h : Heap) (d : Dict.t Entry)
    (groups : list string) (ref : string -> string -> nat)
    (tbl : string -> string -> DataFrame) (t g : string) :
  full_pairWise_mapping h d groups ref tbl ->
  clear_count q l m h d t g
  = if str_in t groups then cleared_backgrounds q l m tbl groups t g else 0%nat.
Proof.
  intros Hfull. rewrite (full_mapping_count q l m h d groups ref tbl t g Hfull).
  destruct (str_in t groups) eqn:Hin; [|reflexivity].
  apply str_in_In in Hin. unfold cleared_backgrounds.
  apply (sum_counts (fun b => negb (String.eqb t b))
           (fun b => clear_rows q l m (tbl t b) g)).
  intros b Hb Hne. apply negb_true_iff, String.eqb_neq in Hne.
  destruct Hfull as (_ & _ & _ & _ & _ & Htbl).
  apply clear_rows_le_1. now destruct (Htbl t b Hin Hb Hne) as (_ & _ & _ & ?).
Qed.

(** On a complete pairwise mapping over [n >= 2] groups, whatever the
    count cutoff: a non-positive [detectedCounts] is resolved to
    [n + detectedCounts], a positive one stays; a pair (tested group,
    gene) is kept exactly when the gene clears the cutoffs against at
    least one background group and against at least as many as the
    resolved value.  A tested group has [n - 1] background groups, so
    [detectedCounts = 0], like any value of [n] or more, keeps nothing. *)
Theorem getMarker_pairWise_cutoff
    (adata : nat) (key : string) (qvalue log2fc_cut mean_cut : Q) (detectedCounts : Z)
    (h : Heap) (d : Dict.t Entry) (groups : list string)
    (ref : string -> string -> nat) (tbl : string -> string -> DataFrame)
    (out : Markers) (h' : Heap) :
  mapping_at adata key d h ->
  full_pairWise_mapping h d groups ref tbl ->
  (2 <= length groups)%nat ->
  getMarker adata key qvalue log2fc_cut mean_cut detectedCounts h = Return out h' ->
  let n := Z.of_nat (length groups) in
  let resolved := if (detectedCounts <=? 0)%Z then (n + detectedCounts)%Z
                  else detectedCounts in
  let cleared := cleared_backgrounds qvalue log2fc_cut mean_cut tbl groups in
  exists t_out,
    out = PairWiseMarkers t_out
    /\ resolve_detectedCounts (backgrounds d) detectedCounts = resolved
    /\ (forall t g,
          retained t_out t g <->
          In t groups /\ (1 <= cleared t g)%nat /\ (resolved <= Z.of_nat (cleared t g))%Z)
    /\ (forall t g, In t groups -> (Z.of_nat (cleared t g) <= n - 1)%Z)
    /\ (detectedCounts = 0%Z \/ (n <= detectedCounts)%Z -> t_out = []).
Proof.
  intros Hm Hfull Hlen Hrun n resolved cleared.
  pose proof (full_mapping_tagged h d groups ref tbl Hfull) as Htag.
  destruct (getMarker_pairWise_general adata key qvalue log2fc_cut mean_cut
              detectedCounts h d out h' Hm Htag Hrun) as (t_out & -> & Hret & _).
  pose proof Hfull as (Hcat & Hrefs & Hnd & Hparse & Hperm & Htbl).
  assert (Hres : resolve_detectedCounts (backgrounds d) detectedCounts = resolved).
  { unfold resolve_detectedCounts, resolved, n.
    now rewrite (distinct_backgrounds _ _ _ Hnd Hparse Hperm Hlen). }
  assert (Hbound : forall t g, In t groups -> (Z.of_nat (cleared t g) <= n - 1)%Z).
  { intros t g Hin. unfold cleared, cleared_backgrounds, n.
    pose proof (filter_and_length_le (fun b => negb (String.eqb t b))
                  (fun b => (1 <=? clear_rows qvalue log2fc_cut mean_cut (tbl t b) g)%nat)
                  groups) as Hle.
    rewrite (length_others t groups Hnd Hin) in Hle. cbv beta in Hle.
    apply Nat2Z.inj_le in Hle. rewrite Nat2Z.inj_sub in Hle by lia. exact Hle. }
  assert (Hiff : forall t g,
            retained t_out t g <->
            In t groups /\ (1 <= cleared t g)%nat
            /\ (resolved <= Z.of_nat (cleared t g))%Z).
  { intros t g. rewrite Hret, Hres.
    rewrite (full_mapping_cleared qvalue log2fc_cut mean_cut h d groups ref tbl t g Hfull).
    fold (cleared t g).
    destruct (str_in t groups) eqn:Hin.
    - apply str_in_In in Hin. tauto.
    - split; [simpl; lia|]. intros [Ht _]. apply str_in_In in Ht. congruence. }
  exists t_out. split; [reflexivity|]. split; [exact Hres|]. split; [exact Hiff|].
  split; [exact Hbound|].
  intros Hdc. destruct t_out as [|a rest]; [reflexivity|]. exfalso.
  assert (Hr : retained (a :: rest) (agg_testedCluster a) (agg_gene a)).
  { exists a. split; [now left|split; reflexivity]. }
  apply Hiff in Hr as (Hin & Hpos & Hge).
  specialize (Hbound _ (agg_gene a) Hin).
  unfold resolved in Hge.
  destruct Hdc as [-> | Hdc].
  - simpl in Hge. lia.
  - destruct (Z.leb_spec detectedCounts 0); lia.
Qed.

Lemma getMarker_pairWise_cutoff_witness :
  let n := Z.of_nat (length ["A"; "B"; "C"; "D"]) in
  let resolved := if (0 <=? 0)%Z then (n + 0)%Z else 0%Z in
  let cleared := cleared_backgrounds (5 # 100) 0 0 Examples.tbl_pw4 ["A"; "B"; "C"; "D"] in
  exists t_out,
    PairWiseMarkers [] = PairWiseMarkers t_out
    /\ resolve_detectedCounts (backgrounds Examples.mapping_pw4) 0 = resolved
    /\ (forall t g,
          retained t_out t g <->
          In t ["A"; "B"; "C"; "D"] /\ (1 <= cleared t g)%nat
          /\ (resolved <= Z.of_nat (cleared t g))%Z)
    /\ (forall t g, In t ["A"; "B"; "C"; "D"] -> (Z.of_nat (cleared t g) <= n - 1)%Z)
    /\ (0%Z = 0%Z \/ (n <= 0)%Z -> t_out = []).
Proof.
  apply (getMarker_pairWise_cutoff 0 "diffxpyPairWise_ct" (5 # 100) 0 0 0
           Examples.heap_pw4 Examples.mapping_pw4 ["A"; "B"; "C"; "D"]
           Examples.ref_pw4 Examples.tbl_pw4 (PairWiseMarkers [])
           (outcome_heap (getMarker 0 "diffxpyPairWise_ct" (5 # 100) 0 0 0
                            Examples.heap_pw4))).
  - eexists. split; vm_compute; reflexivity.
  - exact pw4_full.
  - simpl. lia.
  - vm_compute. reflexivity.
Defined.

(** ** The tables [vsRest] stores *)

Lemma keys_dict_set {V} (k : string) (v : V) (d : Dict.t V) :
  Dict.keys (Dict.set k v d)
  = if str_in k (Dict.keys d) then Dict.keys d else (Dict.keys d ++ [k])%list.
Proof.
  unfold Dict.keys, str_in. induction d as [|[k0 v0] d IH]; simpl; [reflexivity|].
  destruct (String.eqb_spec k k0) as [->|Hne]; simpl; [reflexivity|].
  rewrite IH. now destruct (existsb (String.eqb k) (map fst d)).
Qed.

Lemma filter_app_one (f : string -> bool) (l : list string) (x : string) :
  List.filter f (l ++ [x]) = (List.filter f l ++ if f x then [x] else [])%list.
Proof. rewrite List.filter_app. reflexivity. Qed.

Lemma str_in_filter_ne (x y : string) (l : list string) :
  x <> y -> str_in x (List.filter (fun z => negb (String.eqb z y)) l) = str_in x l.
Proof.
  intros Hne. unfold str_in. induction l as [|a l IH]; simpl; [reflexivity|].
  destruct (String.eqb_spec a y) as [->|Ha]; simpl.
  - rewrite IH. destruct (String.eqb_spec x y); [contradiction|reflexivity].
  - now rewrite IH.
Qed.

Lemma str_in_unique (x : string) (l : list string) : str_in x (unique l) = str_in x l.
Proof.
  destruct (str_in x l) eqn:E.
  - apply str_in_In. apply unique_In. now apply str_in_In.
  - destruct (str_in x (unique l)) eqn:E'; [|reflexivity].
    apply (proj1 (str_in_In _ _)) in E'. apply (proj1 (unique_In _ _)) in E'.
    apply (proj2 (str_in_In _ _)) in E'. congruence.
Qed.

Lemma unique_app_one (l : list string) (x : string) :
  unique (l ++ [x]) = if str_in x l then unique l else (unique l ++ [x])%list.
Proof.
  induction l as [|y l IH]; [reflexivity|].
  cbn [app unique]. rewrite IH. unfold str_in at 2. cbn [existsb].
  fold (str_in x l).
  destruct (String.eqb_spec x y) as [->|Hne]; cbn [orb].
  - destruct (str_in y l); [reflexivity|].
    rewrite filter_app_one. rewrite String.eqb_refl. cbn [negb].
    now rewrite app_nil_r.
  - destruct (str_in x l); [reflexivity|].
    rewrite filter_app_one.
    destruct (String.eqb_spec x y); [contradiction|reflexivity].
Qed.

Section VsRestLoop.

Variable wald : AnnData -> string -> string -> bool -> option string -> Exc DataFrame.
Variables (w : AnnData) (testLabel : string) (groups : list string).
Variables (batchLabel : option string) (minCellCounts : Z) (quickScale : bool).
Variables (sizeFactor : option string) (constrainModel : bool).
Variables (t : nat) (key : string).

Local Abbreviation T :=
  (fun g => vsRest_one wald w testLabel g batchLabel minCellCounts quickScale
              sizeFactor constrainModel).

Lemma vsRest_step (pre suf : list string) (g : string) (h h' : Heap) :
  groups = (pre ++ g :: suf)%list ->
  vsRest_inv T t key pre h ->
  (test ← lift (T g); r ← new_frame test; uns_entry_set t key g (Tbl r)) h
  = Return tt h' ->
  vsRest_inv T t key (pre ++ [g])%list h'.
Proof.
  intros Hl (d & Hst & Hkeys & Htab & Htag) Hrun.
  apply bind_Return in Hrun as (test & h1 & Ht & Hrun). apply lift_Return in Ht as [Ht ->].
  apply bind_Return in Hrun as (r & h1 & Hr & Hrun).
  apply new_frame_Return in Hr as (-> & Hf1 & Ha1).
  apply uns_entry_set_Return in Hrun as (d0 & Hm0 & Hf' & Hm').
  pose proof Hst as (Hm & Hv & Hdis).
  assert (d0 = d) as ->
    by (eapply mapping_at_functional; [exact Hm0|eapply mapping_at_adatas; eauto]).
  assert (Hlen : (length (frames h) < length (frames h'))%nat)
    by (rewrite Hf', Hf1, length_app; simpl; lia).
  assert (Hkeep : forall r, (r < length (frames h))%nat -> frames h' !! r = frames h !! r)
    by (intros r Hr; rewrite Hf', Hf1; now apply lookup_app_l).
  exists (Dict.set g (Tbl (length (frames h))) d). split; [|split; [|split]].
  - apply (pw_state_set_fresh t key h h'); auto.
  - rewrite keys_dict_set, Hkeys.
    change ("__cat" :: pre ++ [g])%list with (("__cat" :: pre) ++ [g])%list.
    rewrite unique_app_one, str_in_unique. reflexivity.
  - intros g0 Hin. apply in_app_or in Hin as [Hin|[<-|[]]].
    + destruct (String.eqb_spec g g0) as [<-|Hne].
      * exists test. split; [exact Ht|].
        apply stored_table_set_eq. rewrite Hf', Hf1.
        rewrite lookup_app_r by lia. now rewrite Nat.sub_diag.
      * destruct (Htab g0 Hin) as (df & HT & Hs). exists df. split; [exact HT|].
        eapply stored_table_set_ne; eauto.
    + exists test. split; [exact Ht|].
      apply stored_table_set_eq. rewrite Hf', Hf1.
      rewrite lookup_app_r by lia. now rewrite Nat.sub_diag.
  - intros Hno. rewrite dict_get_set_ne.
    + apply Htag. intros Hin. apply Hno. apply in_or_app. now left.
    + intros ->. apply Hno. apply in_or_app. right. now left.
Qed.

End VsRestLoop.

Lemma vsRest_run_stores
    (wald : AnnData -> string -> string -> bool -> option string -> Exc DataFrame)
    (getPartialLayersAdata : AnnData -> string -> list (option string) -> Exc AnnData)
    (np_exp : Q -> Q) (expm : list (list Q) -> list (list Q))
    (np_sum : list Q -> Q)
    (hb : Heap) (t : nat) (org : AnnData)
    (layer testLabel : string) (groups : list string) (batchLabel : option string)
    (minCellCounts : Z) (sizeFactor : option string) (inputIsLog : bool)
    (keyAdded : string) (quickScale constrainModel : bool) (threads : Z)
    (copy : bool) (ret : option (Dict.t Entry)) (h : Heap) :
  adatas hb !! t = Some org ->
  (threads <= 1)%Z ->
  vsRest_run wald getPartialLayersAdata np_exp expm np_sum t layer testLabel groups batchLabel
    minCellCounts sizeFactor inputIsLog keyAdded quickScale constrainModel threads copy hb
  = Return ret h ->
  exists w,
    vsRest_working getPartialLayersAdata np_exp expm org layer testLabel groups
      batchLabel sizeFactor inputIsLog = Ok w
    /\ ret = (if copy then
                match adatas h !! t with
                | Some adt => Dict.get keyAdded (uns adt)
                | None => None
                end
              else None)
    /\ vsRest_inv
         (fun g => vsRest_one wald (set_X (densify (X w)) w) testLabel g batchLabel
                     minCellCounts quickScale sizeFactor constrainModel)
         t keyAdded groups h.
Proof.
  intros Ht Hthreads Hrun. unfold vsRest_run in Hrun.
  apply bind_Return in Hrun as (org' & h1 & Horg & Hrun).
  unfold get_adata in Horg. rewrite Ht in Horg. injection Horg as <- <-.
  apply bind_Return in Hrun as (w & h1 & Hw & Hrun). apply lift_Return in Hw as [Hw ->].
  apply bind_Return in Hrun as ([] & h1 & Hset & Hrun).
  apply uns_set_Return in Hset as [Hf1 Hm1].
  apply bind_Return in Hrun as ([] & h2 & Hloop & Hrun).
  destruct (Z.ltb_spec 1 threads) as [|_]; [lia|].
  set (T := fun g => vsRest_one wald (set_X (densify (X w)) w) testLabel g batchLabel
                       minCellCounts quickScale sizeFactor constrainModel).
  assert (I0 : vsRest_inv T t keyAdded [] h1).
  { exists [("__cat", Cat "vsRest")]. split; [|split; [|split]].
    - split; [exact Hm1|]. split.
      + intros k r [[=]|[]].
      + intros k1 k2 r H1 H2. simpl in H1.
        destruct (String.eqb k1 "__cat"); discriminate.
    - reflexivity.
    - intros g [].
    - reflexivity. }
  assert (I1 : vsRest_inv T t keyAdded groups h2).
  { apply (for_each_prefix (vsRest_inv T t keyAdded) _ groups
             (fun pre x suf => vsRest_step wald _ testLabel groups batchLabel
                minCellCounts quickScale sizeFactor constrainModel t keyAdded
                pre suf x) h1 h2 I0 Hloop). }
  exists w. split; [exact Hw|].
  destruct copy.
  - apply bind_Return in Hrun as (d' & h3 & Hget & Hrun).
    apply uns_get_Return in Hget as [-> (adt & Hadt & Hd)]. injection Hrun as <- <-.
    split; [|exact I1]. now rewrite Hadt.
  - injection Hrun as <- <-. split; [reflexivity|exact I1].
Qed.

(** A returning sequential [vsRest] stores, under the result key, a
    mapping whose keys are the tag followed by the listed groups in order
    of first appearance; the entry of each group is the table of that
    group's test on the densified working collection, no table is stored
    twice, and the tag is there unless a group is itself called [__cat]. *)
Theorem vsRest_stores_tests
    (wald : AnnData -> string -> string -> bool -> option string -> Exc DataFrame)
    (getPartialLayersAdata : AnnData -> string -> list (option string) -> Exc AnnData)
    (np_exp : Q -> Q) (expm : list (list Q) -> list (list Q))
    (np_sum : list Q -> Q)
    (h0 : Heap) (adata : nat) (ad : AnnData)
    (layer : option string) (testLabel : string)
    (groups : option (list string)) (batchLabel : option string)
    (minCellCounts : Z) (sizeFactor : option string) (inputIsLog : bool)
    (keyAdded : option string) (quickScale constrainModel : bool) (threads : Z)
    (copy : bool) (ret : option (Dict.t Entry)) (h : Heap) :
  adatas h0 !! adata = Some ad ->
  (threads <= 1)%Z ->
  vsRest wald getPartialLayersAdata np_exp expm np_sum adata layer testLabel groups batchLabel
    minCellCounts sizeFactor inputIsLog keyAdded quickScale constrainModel threads copy h0
  = Return ret h ->
  exists G t u w d,
    resolve_groups adata testLabel groups h0 = Return G h0
    /\ vsRest_working getPartialLayersAdata np_exp expm (set_uns u ad)
         (default_layer layer) testLabel G batchLabel sizeFactor inputIsLog = Ok w
    /\ mapping_at t (default_key "diffxpyVsRest_" testLabel keyAdded) d h
    /\ ret = (if copy then Some d else None)
    /\ (copy = false -> t = adata)
    /\ Dict.keys d = unique ("__cat" :: G)
    /\ (forall g, In g G ->
          exists df,
            vsRest_one wald (set_X (densify (X w)) w) testLabel g batchLabel
              minCellCounts quickScale sizeFactor constrainModel = Ok df
            /\ stored_table h d g = Some df)
    /\ refs_distinct d
    /\ (~ In "__cat" G -> Dict.get "__cat" d = Some (Cat "vsRest")).
Proof.
  intros Ha Hthreads Hrun. unfold vsRest in Hrun.
  apply (dispatch_prelude _ h0 adata ad testLabel groups copy ret h Ha) in Hrun
    as (G & t & hb & u & HG & Ht & Hnc & Hrun).
  destruct (vsRest_run_stores _ _ _ _ _ _ _ _ _ _ _ _ _ _ _ _ _ _ _ _ _ _
              Ht Hthreads Hrun)
    as (w & Hw & Hret & d & (Hm & _ & Hdis) & Hkeys & Htab & Htag).
  exists G, t, u, w, d.
  split; [exact HG|]. split; [exact Hw|]. split; [exact Hm|]. split.
  { rewrite Hret. destruct copy; [|reflexivity].
    destruct Hm as (adt & -> & Hd). exact Hd. }
  split; [intros Hc; now destruct (Hnc Hc)|].
  auto.
Qed.

Lemma vsRest_stores_tests_witness :
  exists G t u w d,
    resolve_groups 0 "ct" None (Examples.heap_of Examples.ad2)
    = Return G (Examples.heap_of Examples.ad2)
    /\ vsRest_working Examples.getPartialLayersAdata Examples.toy_exp Examples.toy_expm
         (set_uns u Examples.ad2) (default_layer None) "ct" G None None false = Ok w
    /\ mapping_at t (default_key "diffxpyVsRest_" "ct" None) d Examples.heap_vsRest
    /\ (None : option (Dict.t Entry)) = (if false then Some d else None)
    /\ (false = false -> t = 0%nat)
    /\ Dict.keys d = unique ("__cat" :: G)
    /\ (forall g, In g G ->
          exists df,
            vsRest_one Examples.toy_wald (set_X (densify (X w)) w) "ct" g None
              1 true None false = Ok df
            /\ stored_table Examples.heap_vsRest d g = Some df)
    /\ refs_distinct d
    /\ (~ In "__cat" G -> Dict.get "__cat" d = Some (Cat "vsRest")).
Proof.
  apply (vsRest_stores_tests Examples.toy_wald Examples.getPartialLayersAdata
           Examples.toy_exp Examples.toy_expm Examples.toy_sum (Examples.heap_of Examples.ad2) 0
           Examples.ad2 None "ct" None None 1 None false None true false 1 false None
           Examples.heap_vsRest).
  - reflexivity.
  - lia.
  - vm_compute. reflexivity.
Defined.

(** ** Marker Extractor, one against the rest: the call returns, and what
       it does to the stored tables *)

Lemma has_column_insert (c v : string) (df : DataFrame) :
  has_column c (df_insert c v df) = true.
Proof.
  unfold has_column, df_insert. cbn [columns]. rewrite existsb_app.
  simpl. rewrite String.eqb_refl. apply orb_true_iff. right. reflexivity.
Qed.

Lemma has_column_tag_table (c v : string) (df : DataFrame) :
  has_column c (tag_table c v df) = true.
Proof.
  unfold tag_table. destruct (has_column c df) eqn:E; [exact E|].
  apply has_column_insert.
Qed.

Lemma tag_table_idem (c v : string) (df : DataFrame) :
  tag_table c v (tag_table c v df) = tag_table c v df.
Proof.
  pose proof (has_column_tag_table c v df) as H.
  remember (tag_table c v df) as df' eqn:E. unfold tag_table. now rewrite H.
Qed.

Lemma vsRest_item_forward (q l m : Q) (comp : string) (r : nat) (df : DataFrame)
    (h : Heap) :
  comp <> "__cat" -> frames h !! r = Some df ->
  exists h',
    vsRest_item q l m (comp, Tbl r) h
    = Return [twoSample (tag_table "clusterName" comp df) q l m] h'
    /\ frames h' = <[r := tag_table "clusterName" comp df]> (frames h)
    /\ adatas h' = adatas h.
Proof.
  intros Hc Hr.
  assert (Hlt : (r < length (frames h))%nat) by (eapply lookup_lt_Some; eauto).
  unfold vsRest_item. destruct (String.eqb_spec comp "__cat"); [contradiction|].
  unfold entry_table, insert_if_absent, get_frame, set_frame, tag_table.
  unfold mbind, py_bind, mret, py_ret. rewrite Hr.
  destruct (has_column "clusterName" df) eqn:E; cbn [negb].
  - rewrite Hr. exists h. repeat split. symmetry. now apply list_insert_id.
  - cbn [frames]. rewrite list_lookup_insert_eq by exact Hlt.
    eexists. split; [reflexivity|]. split; reflexivity.
Qed.

Lemma In_table_refs (d : Dict.t Entry) (r : nat) :
  In r (table_refs d) <-> exists comp, In (comp, Tbl r) d.
Proof.
  unfold table_refs. rewrite in_flat_map. split.
  - intros ([comp [c|r']] & Hin & Hr); simpl in Hr; [destruct Hr|].
    destruct Hr as [<-|[]]. eauto.
  - intros (comp & Hin). exists (comp, Tbl r). split; [exact Hin|now left].
Qed.

(** The loop of [__vsRest] returns on a mapping whose tables exist, and
    leaves every table it visits with a [clusterName] column. *)
Lemma map_py_vsRest_items_heap (q l m : Q) (d : Dict.t Entry) (h : Heap) :
  List.NoDup (table_refs d) ->
  (forall comp e, In (comp, e) d -> comp <> "__cat" ->
     exists r df, e = Tbl r /\ frames h !! r = Some df) ->
  exists ls h',
    map_py (vsRest_item q l m) d h = Return ls h'
    /\ adatas h' = adatas h
    /\ (forall comp r, In (comp, Tbl r) d -> comp <> "__cat" ->
          frames h' !! r = tag_table "clusterName" comp <$> frames h !! r)
    /\ (forall r, ~ In r (table_refs d) -> frames h' !! r = frames h !! r).
Proof.
  revert h. induction d as [|[comp e] d IH]; intros h Hnd Hex.
  - exists [], h. repeat split; auto. intros comp r [].
  - assert (Hnd0 : List.NoDup (table_refs d))
      by (unfold table_refs in Hnd; simpl in Hnd; now apply NoDup_app_remove_l in Hnd).
    destruct (String.eqb_spec comp "__cat") as [->|Hc].
    + destruct (IH h Hnd0) as (ls & h' & Hrun & Ha & Htag & Hkeep).
      { intros comp' e' Hin. apply Hex. now right. }
      exists ([] :: ls), h'. split; [|split; [exact Ha|split]].
      * assert (Hitem : vsRest_item q l m ("__cat", e) h = Return [] h) by reflexivity.
        cbn [map_py]. unfold mbind, py_bind. rewrite Hitem, Hrun. reflexivity.
      * intros comp' r [Heq|Hin] Hne; [injection Heq as <- _; contradiction|].
        now apply Htag.
      * intros r Hr. apply Hkeep. intros Hin. apply Hr.
        unfold table_refs. simpl. apply in_or_app. now right.
    + destruct (Hex comp e (or_introl eq_refl) Hc) as (r0 & df0 & -> & Hr0).
      destruct (vsRest_item_forward q l m comp r0 df0 h Hc Hr0)
        as (h1 & Hitem & Hf1 & Ha1).
      unfold table_refs in Hnd. simpl in Hnd.
      inversion Hnd as [|? ? Hnotin Hnd']; subst.
      assert (Hag : forall r', r' <> r0 -> frames h1 !! r' = frames h !! r').
      { intros r' Hr'. rewrite Hf1. apply list_lookup_insert_ne. congruence. }
      destruct (IH h1 Hnd0) as (ls & h' & Hrun & Ha & Htag & Hkeep).
      { intros comp' e' Hin Hc'.
        destruct (Hex comp' e' (or_intror Hin) Hc') as (r' & df' & -> & Hr').
        exists r', df'. split; [reflexivity|]. rewrite Hag; [exact Hr'|].
        intros ->. apply Hnotin. apply In_table_refs. eauto. }
      eexists _, h'. split; [|split; [congruence|split]].
      * cbn [map_py]. unfold mbind, py_bind. rewrite Hitem, Hrun. reflexivity.
      * intros comp' r [[= <- <-]|Hin] Hne.
        -- rewrite (Hkeep r0 Hnotin), Hf1, Hr0.
           rewrite list_lookup_insert_eq by (eapply lookup_lt_Some; eauto).
           reflexivity.
        -- rewrite (Htag comp' r Hin Hne). rewrite Hag; [reflexivity|].
           intros ->. apply Hnotin. apply In_table_refs. eauto.
      * intros r Hr.
        assert (r <> r0) by (intros ->; apply Hr; simpl; now left).
        rewrite Hkeep; [now apply Hag|].
        intros Hin. apply Hr. simpl. now right.
Qed.

Lemma vsRest_blocks_nonempty (q l m : Q) (h : Heap) (d : Dict.t Entry) :
  (forall comp e, In (comp, e) d -> comp <> "__cat" ->
     exists r df, e = Tbl r /\ frames h !! r = Some df) ->
  (exists comp e, In (comp, e) d /\ comp <> "__cat") ->
  vsRest_blocks q l m h d <> [].
Proof.
  induction d as [|[comp e] d IH]; intros Hex (c0 & e0 & Hin & Hne); [destruct Hin|].
  cbn [vsRest_blocks].
  destruct (String.eqb_spec comp "__cat") as [->|Hc].
  - simpl. apply IH.
    + intros comp' e' Hin'. apply Hex. now right.
    + destruct Hin as [[= <- <-]|Hin]; [contradiction|]. eauto.
  - destruct (Hex comp e (or_introl eq_refl) Hc) as (r & df & -> & Hr).
    rewrite Hr. discriminate.
Qed.

(** What [getMarker] computes and does in the mode of [vsRest], on a
    mapping whose tables exist and are stored once each. *)
Lemma getMarker_vsRest_run (adata : nat) (key : string) (q l m : Q) (dc : Z)
    (h : Heap) (d : Dict.t Entry) :
  mapping_at adata key d h ->
  Dict.get "__cat" d = Some (Cat "vsRest") ->
  List.NoDup (table_refs d) ->
  (forall comp e, In (comp, e) d -> comp <> "__cat" ->
     exists r df, e = Tbl r /\ frames h !! r = Some df) ->
  exists h',
    getMarker adata key q l m dc h
    = match pd_concat (vsRest_blocks q l m h d) with
      | Ok df => Return (VsRestMarkers df) h'
      | Err e => Raise e h'
      end
    /\ adatas h' = adatas h
    /\ (forall comp r, In (comp, Tbl r) d -> comp <> "__cat" ->
          frames h' !! r = tag_table "clusterName" comp <$> frames h !! r)
    /\ (forall r, ~ In r (table_refs d) -> frames h' !! r = frames h !! r).
Proof.
  intros (ad & Ha & Hd) Hcat Hnd Hex.
  destruct (map_py_vsRest_items_heap q l m d h Hnd Hex)
    as (ls & h' & Hrun & Hads & Htag & Hkeep).
  pose proof (map_py_vsRest_items q l m d h h' ls Hnd Hex Hrun) as Hls.
  exists h'. split; [|auto].
  rewrite (getMarker_tag _ _ _ _ _ _ _ _ _ Ha Hd), Hcat. cbn [String.eqb].
  change (String.eqb "vsRest" "vsRest") with true. cbv iota.
  unfold getMarker_vsRest, mbind, py_bind. rewrite Hrun, Hls.
  unfold lift. destruct (pd_concat _); reflexivity.
Qed.

(** On a result mapping of [vsRest] with at least one group, [getMarker]
    returns a table.  The call is not read-only: every stored table that
    had no [clusterName] column has one afterwards, holding its group's
    name; nothing else in the heap is changed. *)
Theorem getMarker_vsRest_returns
    (adata : nat) (key : string) (qvalue log2fc_cut mean_cut : Q) (detectedCounts : Z)
    (h : Heap) (d : Dict.t Entry) :
  mapping_at adata key d h ->
  vsRest_tagged h d ->
  (exists comp e, In (comp, e) d /\ comp <> "__cat") ->
  exists df h',
    getMarker adata key qvalue log2fc_cut mean_cut detectedCounts h
    = Return (VsRestMarkers df) h'
    /\ adatas h' = adatas h
    /\ (forall comp r, In (comp, Tbl r) d -> comp <> "__cat" ->
          frames h' !! r = tag_table "clusterName" comp <$> frames h !! r)
    /\ (forall r, ~ In r (table_refs d) -> frames h' !! r = frames h !! r).
Proof.
  intros Hm (Hcat & Hwf & Hnd & Hex) Hsome.
  assert (Hex' : forall comp e, In (comp, e) d -> comp <> "__cat" ->
                   exists r df, e = Tbl r /\ frames h !! r = Some df).
  { intros comp e Hin Hne. destruct (Hex comp e Hin Hne) as (r & df & ? & ? & _). eauto. }
  destruct (getMarker_vsRest_run adata key qvalue log2fc_cut mean_cut detectedCounts
              h d Hm Hcat Hnd Hex') as (h' & Hrun & Hrest).
  pose proof (vsRest_blocks_nonempty qvalue log2fc_cut mean_cut h d Hex' Hsome) as Hne.
  unfold pd_concat in Hrun.
  destruct (vsRest_blocks qvalue log2fc_cut mean_cut h d) as [|b bs]; [congruence|].
  eauto.
Qed.

Lemma getMarker_vsRest_returns_witness :
  exists df h',
    getMarker 0 "diffxpyVsRest_ct" 1 0 0 (-1) Examples.heap_vsRest
    = Return (VsRestMarkers df) h'
    /\ adatas h' = adatas Examples.heap_vsRest
    /\ (forall comp r, In (comp, Tbl r) Examples.mapping_vsRest -> comp <> "__cat" ->
          frames h' !! r
          = tag_table "clusterName" comp <$> frames Examples.heap_vsRest !! r)
    /\ (forall r, ~ In r (table_refs Examples.mapping_vsRest) ->
          frames h' !! r = frames Examples.heap_vsRest !! r).
Proof.
  apply (getMarker_vsRest_returns 0 "diffxpyVsRest_ct" 1 0 0 (-1)
           Examples.heap_vsRest Examples.mapping_vsRest).
  - eexists. split; reflexivity.
  - exact mapping_vsRest_tagged.
  - exists "A", (Tbl 0). split; [right; now left|discriminate].
Defined.

Lemma dict_In_get {V} (k : string) (v : V) (d : Dict.t V) :
  Dict.wf d -> In (k, v) d -> Dict.get k d = Some v.
Proof.
  unfold Dict.wf, Dict.keys. induction d as [|[k0 v0] d IH]; simpl; intros Hwf Hin;
    [destruct Hin|].
  inversion Hwf as [|? ? Hk Hwf']; subst.
  destruct Hin as [[= -> ->]|Hin].
  - now rewrite String.eqb_refl.
  - destruct (String.eqb_spec k k0) as [->|Hne]; [|auto].
    exfalso. apply Hk. apply in_map_iff. exists (k0, v). auto.
Qed.

Lemma vsRest_blocks_tagged (q l m : Q) (h h' : Heap) (d : Dict.t Entry) :
  (forall comp r, In (comp, Tbl r) d -> comp <> "__cat" ->
     frames h' !! r = tag_table "clusterName" comp <$> frames h !! r) ->
  vsRest_blocks q l m h' d = vsRest_blocks q l m h d.
Proof.
  induction d as [|[comp e] d IH]; intros Htag; [reflexivity|].
  cbn [vsRest_blocks]. rewrite IH by (intros c r Hin; apply Htag; now right).
  destruct (String.eqb_spec comp "__cat") as [->|Hc]; [reflexivity|].
  destruct e as [c|r]; [reflexivity|].
  rewrite (Htag comp r (or_introl eq_refl) Hc).
  destruct (frames h !! r) as [df|]; [|reflexivity].
  cbn [fmap option_fmap option_map]. now rewrite tag_table_idem.
Qed.

Lemma heap_eq (h1 h2 : Heap) :
  frames h1 = frames h2 -> adatas h1 = adatas h2 -> h1 = h2.
Proof. destruct h1, h2. simpl. now intros -> ->. Qed.

(** A second call of [getMarker] on a result mapping of [vsRest] finds
    the columns the first call has inserted: it changes nothing any more,
    whatever its cutoffs, and with the same cutoffs it returns the same
    table. *)
Theorem getMarker_vsRest_twice
    (adata : nat) (key : string) (qvalue log2fc_cut mean_cut : Q) (detectedCounts : Z)
    (h : Heap) (d : Dict.t Entry) (out : Markers) (h' : Heap) :
  mapping_at adata key d h ->
  vsRest_tagged h d ->
  getMarker adata key qvalue log2fc_cut mean_cut detectedCounts h = Return out h' ->
  getMarker adata key qvalue log2fc_cut mean_cut detectedCounts h' = Return out h'
  /\ forall q' l' m' dc',
       outcome_heap (getMarker adata key q' l' m' dc' h') = h'.
Proof.
  intros Hm (Hcat & Hwf & Hnd & Hex) Hrun.
  assert (Hex0 : forall comp e, In (comp, e) d -> comp <> "__cat" ->
                   exists r df, e = Tbl r /\ frames h !! r = Some df).
  { intros comp e Hin Hne. destruct (Hex comp e Hin Hne) as (r & df & ? & ? & _). eauto. }
  destruct (getMarker_vsRest_run adata key qvalue log2fc_cut mean_cut detectedCounts
              h d Hm Hcat Hnd Hex0) as (h1 & Hrun1 & Hads & Htag & Hkeep).
  rewrite Hrun in Hrun1.
  assert (h1 = h') as ->.
  { destruct (pd_concat _); [|discriminate]. injection Hrun1 as _ E. now symmetry. }
  assert (Hm' : mapping_at adata key d h') by (eapply mapping_at_adatas; eauto).
  assert (Hex1 : forall comp e, In (comp, e) d -> comp <> "__cat" ->
                   exists r df, e = Tbl r /\ frames h' !! r = Some df).
  { intros comp e Hin Hne. destruct (Hex0 comp e Hin Hne) as (r & df & -> & Hr).
    exists r, (tag_table "clusterName" comp df). split; [reflexivity|].
    rewrite (Htag comp r Hin Hne), Hr. reflexivity. }
  assert (Hsame : forall h2,
            adatas h2 = adatas h' ->
            (forall comp r, In (comp, Tbl r) d -> comp <> "__cat" ->
               frames h2 !! r = tag_table "clusterName" comp <$> frames h' !! r) ->
            (forall r, ~ In r (table_refs d) -> frames h2 !! r = frames h' !! r) ->
            h2 = h').
  { intros h2 Ha2 Ht2 Hk2. apply heap_eq; [|exact Ha2].
    apply list_eq. intros r.
    destruct (in_dec Nat.eq_dec r (table_refs d)) as [Hin|Hnin]; [|now apply Hk2].
    apply In_table_refs in Hin as (comp & Hin).
    assert (Hne : comp <> "__cat").
    { intros ->. apply (dict_In_get _ _ _ Hwf) in Hin. congruence. }
    rewrite (Ht2 comp r Hin Hne), (Htag comp r Hin Hne).
    destruct (frames h !! r); [|reflexivity].
    cbn [fmap option_fmap option_map]. now rewrite tag_table_idem. }
  split.
  - destruct (getMarker_vsRest_run adata key qvalue log2fc_cut mean_cut detectedCounts
                h' d Hm' Hcat Hnd Hex1) as (h2 & Hrun2 & Ha2 & Ht2 & Hk2).
    rewrite (Hsame h2 Ha2 Ht2 Hk2) in Hrun2.
    rewrite Hrun2.
    rewrite (vsRest_blocks_tagged qvalue log2fc_cut mean_cut h h' d Htag).
    destruct (pd_concat (vsRest_blocks qvalue log2fc_cut mean_cut h d)); congruence.
  - intros q' l' m' dc'.
    destruct (getMarker_vsRest_run adata key q' l' m' dc' h' d Hm' Hcat Hnd Hex1)
      as (h2 & Hrun2 & Ha2 & Ht2 & Hk2).
    rewrite Hrun2, (Hsame h2 Ha2 Ht2 Hk2).
    destruct (pd_concat (vsRest_blocks q' l' m' h' d)); reflexivity.
Qed.

Lemma getMarker_vsRest_twice_witness :
  let h' := outcome_heap (getMarker 0 "diffxpyVsRest_ct" 1 0 0 (-1) Examples.heap_vsRest) in
  getMarker 0 "diffxpyVsRest_ct" 1 0 0 (-1) h' = Return Examples.markers_vsRest h'
  /\ forall q' l' m' dc',
       outcome_heap (getMarker 0 "diffxpyVsRest_ct" q' l' m' dc' h') = h'.
Proof.
  apply (getMarker_vsRest_twice 0 "diffxpyVsRest_ct" 1 0 0 (-1)
           Examples.heap_vsRest Examples.mapping_vsRest Examples.markers_vsRest).
  - eexists. split; reflexivity.
  - exact mapping_vsRest_tagged.
  - vm_compute. reflexivity.
Defined.

(** ** From [vsRest] to [getMarker] *)

Lemma wf_refs_NoDup (d : Dict.t Entry) :
  Dict.wf d -> refs_distinct d -> List.NoDup (table_refs d).
Proof.
  induction d as [|[k e] d IH]; intros Hwf Hdis; [constructor|].
  pose proof Hwf as Hwf0. unfold Dict.wf, Dict.keys in Hwf. simpl in Hwf.
  inversion Hwf as [|? ? Hk Hwf']; subst.
  assert (Hdis' : refs_distinct d).
  { intros k1 k2 r H1 H2. apply (Hdis k1 k2 r); simpl.
    - destruct (String.eqb_spec k1 k) as [->|_]; [|exact H1].
      exfalso. apply Hk. apply in_map_iff. exists (k, Tbl r). split; [reflexivity|].
      now apply dict_get_In.
    - destruct (String.eqb_spec k2 k) as [->|_]; [|exact H2].
      exfalso. apply Hk. apply in_map_iff. exists (k, Tbl r). split; [reflexivity|].
      now apply dict_get_In. }
  specialize (IH Hwf' Hdis').
  unfold table_refs. simpl. destruct e as [c|r]; simpl; [exact IH|].
  constructor; [|exact IH].
  intros Hin. apply In_table_refs in Hin as (k' & Hin).
  assert (Hk' : k' <> k).
  { intros ->. apply Hk. apply in_map_iff. exists (k, Tbl r). auto. }
  assert (k = k'); [|congruence].
  apply (Hdis k k' r).
  - simpl. now rewrite String.eqb_refl.
  - apply (dict_In_get _ _ _ Hwf0). now right.
Qed.

Lemma testTwoSample_engine
    (wald : AnnData -> string -> string -> bool -> option string -> Exc DataFrame)
    (adata : AnnData) (keyTest : string) (batchLabel : option string)
    (quickScale : bool) (sizeFactor : option string) (constrainModel : bool)
    (df : DataFrame) :
  testTwoSample wald adata keyTest batchLabel quickScale sizeFactor constrainModel = Ok df ->
  exists f, wald adata f keyTest quickScale sizeFactor = Ok df.
Proof.
  unfold testTwoSample, mbind, exc_bind, mret, exc_ret.
  destruct (obs_col keyTest adata); [|discriminate].
  destruct (negb _); [discriminate|].
  destruct batchLabel as [b|]; [|eauto].
  destruct (truthy (Some b)); [|eauto].
  destruct constrainModel; eauto.
Qed.

Lemma vsRest_one_engine
    (wald : AnnData -> string -> string -> bool -> option string -> Exc DataFrame)
    (adata : AnnData) (testLabel singleGroup : string)
    (batchLabel : option string) (minCellCounts : Z) (quickScale : bool)
    (sizeFactor : option string) (constrainModel : bool) (df : DataFrame) :
  vsRest_one wald adata testLabel singleGroup batchLabel minCellCounts quickScale
    sizeFactor constrainModel = Ok df ->
  exists a f, wald a f "temp" quickScale sizeFactor = Ok df.
Proof.
  unfold vsRest_one, mbind, exc_bind.
  destruct (parseAdToDiffxpyFormat _ _ _ _ _ _ _ _) as [ad'|]; [|discriminate].
  intros H. apply testTwoSample_engine in H as (f & H). eauto.
Qed.

Lemma no_columns_unlabelled (c v : string) (df : DataFrame) :
  columns df = [] -> str_in c engine_columns = false -> labelled c v df.
Proof.
  intros Hc He Hhas. unfold has_column in Hhas. rewrite Hc, app_nil_r in Hhas.
  unfold str_in in He. congruence.
Qed.

Lemma vsRest_inv_tagged (T : string -> Exc DataFrame) (t : nat) (key : string)
    (G : list string) (h : Heap) (d : Dict.t Entry) :
  (forall g df, T g = Ok df -> columns df = []) ->
  ~ In "__cat" G ->
  pw_state t key h d ->
  Dict.keys d = unique ("__cat" :: G) ->
  (forall g, In g G -> exists df, T g = Ok df /\ stored_table h d g = Some df) ->
  Dict.get "__cat" d = Some (Cat "vsRest") ->
  vsRest_tagged h d.
Proof.
  intros Hcols Hno (Hm & Hv & Hdis) Hkeys Htab Hcat.
  assert (Hwf : Dict.wf d) by (unfold Dict.wf; rewrite Hkeys; apply unique_NoDup).
  split; [exact Hcat|]. split; [exact Hwf|].
  split; [now apply wf_refs_NoDup|].
  intros comp e Hin Hne.
  assert (HinG : In comp G).
  { assert (Hk : In comp (Dict.keys d))
      by (unfold Dict.keys; apply in_map_iff; exists (comp, e); auto).
    rewrite Hkeys in Hk. apply (proj1 (unique_In _ _)) in Hk.
    destruct Hk as [Hk|Hk]; [congruence|exact Hk]. }
  destruct (Htab comp HinG) as (df & HT & Hs).
  unfold stored_table in Hs. rewrite (dict_In_get _ _ _ Hwf Hin) in Hs.
  destruct e as [c|r]; [discriminate|].
  exists r, df. split; [reflexivity|]. split; [exact Hs|].
  apply no_columns_unlabelled; [now apply (Hcols comp)|reflexivity].
Qed.

(** The two steps in sequence.  After a returning sequential [vsRest] in
    place, on at least one group and none called [__cat], and with an
    engine whose summary has the engine's columns only, [getMarker] with
    the same key returns a table; each of its rows clears the three
    cutoffs and carries one of the tested groups in [clusterName]. *)
Theorem vsRest_then_getMarker
    (wald : AnnData -> string -> string -> bool -> option string -> Exc DataFrame)
    (getPartialLayersAdata : AnnData -> string -> list (option string) -> Exc AnnData)
    (np_exp : Q -> Q) (expm : list (list Q) -> list (list Q))
    (np_sum : list Q -> Q)
    (h0 : Heap) (adata : nat) (ad : AnnData)
    (layer : option string) (testLabel : string)
    (groups : option (list string)) (G : list string) (batchLabel : option string)
    (minCellCounts : Z) (sizeFactor : option string) (inputIsLog : bool)
    (keyAdded : option string) (quickScale constrainModel : bool) (threads : Z)
    (ret : option (Dict.t Entry)) (h : Heap)
    (qvalue log2fc_cut mean_cut : Q) (detectedCounts : Z) :
  (forall a f kt qs s df, wald a f kt qs s = Ok df -> columns df = []) ->
  adatas h0 !! adata = Some ad ->
  (threads <= 1)%Z ->
  resolve_groups adata testLabel groups h0 = Return G h0 ->
  G <> [] ->
  ~ In "__cat" G ->
  vsRest wald getPartialLayersAdata np_exp expm np_sum adata layer testLabel groups batchLabel
    minCellCounts sizeFactor inputIsLog keyAdded quickScale constrainModel threads false h0
  = Return ret h ->
  exists df h',
    getMarker adata (default_key "diffxpyVsRest_" testLabel keyAdded)
      qvalue log2fc_cut mean_cut detectedCounts h
    = Return (VsRestMarkers df) h'
    /\ forall row, In row (rows df) ->
         (qval row < qvalue)%Q /\ (log2fc_cut < log2fc row)%Q /\ (mean_cut < mean row)%Q
         /\ exists g, In g G /\ row_label "clusterName" row = Some g.
Proof.
  intros Hcols Ha Hthreads HG Hne Hno Hrun. unfold vsRest in Hrun.
  apply (dispatch_prelude _ h0 adata ad testLabel groups false ret h Ha) in Hrun
    as (G' & t & hb & u & HG' & Ht & Hnc & Hrun).
  rewrite HG in HG'. injection HG' as <-.
  destruct (Hnc eq_refl) as [-> ->].
  destruct (vsRest_run_stores _ _ _ _ _ _ _ _ _ _ _ _ _ _ _ _ _ _ _ _ _ _
              Ht Hthreads Hrun)
    as (w & Hw & _ & d & Hst & Hkeys & Htab & Htag).
  set (key := default_key "diffxpyVsRest_" testLabel keyAdded) in *.
  assert (Hcols' : forall g df,
            vsRest_one wald (set_X (densify (X w)) w) testLabel g batchLabel
              minCellCounts quickScale sizeFactor constrainModel = Ok df ->
            columns df = []).
  { intros g df Hdf. apply vsRest_one_engine in Hdf as (a & f & Hdf).
    exact (Hcols _ _ _ _ _ _ Hdf). }
  assert (Htagged : vsRest_tagged h d)
    by (apply (vsRest_inv_tagged _ adata key G h d Hcols' Hno Hst Hkeys Htab);
        now apply Htag).
  pose proof Htagged as (Hcat & Hwf & Hnd & Hex).
  assert (Hex' : forall comp e, In (comp, e) d -> comp <> "__cat" ->
                   exists r df, e = Tbl r /\ frames h !! r = Some df).
  { intros comp e Hin Hc. destruct (Hex comp e Hin Hc) as (r & df & ? & ? & _). eauto. }
  assert (Hsome : exists comp e, In (comp, e) d /\ comp <> "__cat").
  { destruct G as [|g G0]; [congruence|].
    destruct (Htab g (or_introl eq_refl)) as (df & _ & Hs).
    unfold stored_table in Hs.
    destruct (Dict.get g d) as [e|] eqn:Hg; [|discriminate].
    exists g, e. split; [now apply dict_get_In|].
    intros ->. apply Hno. now left. }
  destruct Hst as (Hm & _).
  destruct (getMarker_vsRest_run adata key qvalue log2fc_cut mean_cut detectedCounts
              h d Hm Hcat Hnd Hex') as (h' & Hget & _).
  pose proof (vsRest_blocks_nonempty qvalue log2fc_cut mean_cut h d Hex' Hsome) as Hnb.
  unfold pd_concat in Hget.
  destruct (vsRest_blocks qvalue log2fc_cut mean_cut h d) as [|b bs] eqn:Hb;
    [congruence|].
  eexists _, h'. split; [exact Hget|].
  cbn [rows].
  change (rows b ++ concat (map rows bs))%list with (concat (map rows (b :: bs))).
  rewrite <- Hb. intros row Hin.
  destruct (blocks_rows qvalue log2fc_cut mean_cut h d row Hex Hin)
    as [Hp (comp & Hk & Hl & Hfrom)].
  apply passes_spec in Hp. destruct Hp as (? & ? & ?).
  repeat split; auto. exists comp. split; [|exact Hl].
  destruct Hfrom as (r & df & row0 & _ & Hc & _).
  rewrite Hkeys in Hk. apply (proj1 (unique_In _ _)) in Hk.
  destruct Hk as [Hk|Hk]; [congruence|exact Hk].
Qed.

Lemma vsRest_then_getMarker_witness :
  exists df h',
    getMarker 0 (default_key "diffxpyVsRest_" "ct" None) 1 0 0 (-1) Examples.heap_vsRest
    = Return (VsRestMarkers df) h'
    /\ forall row, In row (rows df) ->
         (qval row < 1)%Q /\ (0 < log2fc row)%Q /\ (0 < mean row)%Q
         /\ exists g, In g ["A"; "B"] /\ row_label "clusterName" row = Some g.
Proof.
  apply (vsRest_then_getMarker Examples.toy_wald Examples.getPartialLayersAdata
           Examples.toy_exp Examples.toy_expm Examples.toy_sum (Examples.heap_of Examples.ad2) 0
           Examples.ad2 None "ct" None ["A"; "B"] None 1 None false None true false 1
           None Examples.heap_vsRest 1 0 0 (-1)).
  - intros a f kt qs s df [= <-]. reflexivity.
  - reflexivity.
  - lia.
  - reflexivity.
  - discriminate.
  - simpl. intuition discriminate.
  - vm_compute. reflexivity.
Defined.

(** ** The parallel path of [vsRest] *)

Lemma unique_NoDup_id (l : list string) : List.NoDup l -> unique l = l.
Proof.
  induction 1 as [|x l Hx Hl IH]; simpl; [reflexivity|].
  rewrite IH. f_equal. apply filter_all. intros y Hy.
  destruct (String.eqb_spec y x) as [->|]; [contradiction|reflexivity].
Qed.

Lemma unique_unique_cons (x : string) (l : list string) :
  unique (x :: unique l) = unique (x :: l).
Proof. simpl. now rewrite (unique_NoDup_id (unique l)) by apply unique_NoDup. Qed.

Lemma str_in_app (x : string) (l1 l2 : list string) :
  str_in x (l1 ++ l2) = str_in x l1 || str_in x l2.
Proof. unfold str_in. apply existsb_app. Qed.

Lemma keys_update {V} (e d : Dict.t V) :
  List.NoDup (Dict.keys d) ->
  Dict.keys (Dict.update e d) = unique (Dict.keys d ++ Dict.keys e).
Proof.
  intros Hd. unfold Dict.update. induction e as [|[k v] e IH] using rev_ind.
  - simpl. rewrite app_nil_r. symmetry. now apply unique_NoDup_id.
  - rewrite fold_left_app. cbn [fold_left fst snd].
    assert (Hk : Dict.keys (e ++ [(k, v)])%list = (Dict.keys e ++ [k])%list)
      by (unfold Dict.keys; now rewrite map_app).
    rewrite keys_dict_set, IH, Hk.
    rewrite app_assoc, unique_app_one, str_in_unique. reflexivity.
Qed.

Lemma dict_get_None {V} (k : string) (d : Dict.t V) :
  ~ In k (Dict.keys d) -> Dict.get k d = None.
Proof.
  unfold Dict.keys. induction d as [|[k0 v0] d IH]; simpl; intros H; [reflexivity|].
  destruct (String.eqb_spec k k0) as [->|Hne]; [exfalso; auto|auto].
Qed.

Lemma get_update_wf {V} (e d : Dict.t V) (k : string) :
  Dict.wf e ->
  Dict.get k (Dict.update e d)
  = match Dict.get k e with Some v => Some v | None => Dict.get k d end.
Proof.
  unfold Dict.update, Dict.wf, Dict.keys. revert d.
  induction e as [|[k0 v0] e IH]; intros d Hwf; [reflexivity|].
  simpl in Hwf. inversion Hwf as [|? ? Hk Hwf']; subst.
  cbn [fold_left fst snd Dict.get]. rewrite IH by exact Hwf'.
  destruct (String.eqb_spec k k0) as [->|Hne].
  - rewrite (dict_get_None k0 e) by exact Hk. apply dict_get_set_eq.
  - destruct (Dict.get k e); [reflexivity|]. apply dict_get_set_ne. congruence.
Qed.

Section Submitted.

Context {V : Type} (f : string -> V).

Lemma submitted_as_update (l : list string) (d0 : Dict.t V) :
  fold_left (fun dt g => Dict.set g (f g) dt) l d0
  = Dict.update (map (fun g => (g, f g)) l) d0.
Proof.
  unfold Dict.update. revert d0. induction l as [|g l IH]; intros d0; [reflexivity|].
  simpl. apply IH.
Qed.

Lemma submitted_keys (l : list string) :
  Dict.keys (fold_left (fun dt g => Dict.set g (f g) dt) l []) = unique l.
Proof.
  rewrite submitted_as_update, keys_update by constructor.
  simpl. unfold Dict.keys. rewrite map_map. simpl. now rewrite map_id.
Qed.

Lemma submitted_get (l : list string) (d0 : Dict.t V) (k : string) :
  Dict.get k (fold_left (fun dt g => Dict.set g (f g) dt) l d0)
  = if str_in k l then Some (f k) else Dict.get k d0.
Proof.
  induction l as [|x l IH] using rev_ind; [reflexivity|].
  rewrite fold_left_app. cbn [fold_left]. rewrite str_in_app.
  unfold str_in at 2. cbn [existsb]. rewrite orb_false_r.
  destruct (String.eqb_spec k x) as [->|Hne].
  - rewrite dict_get_set_eq. now rewrite orb_true_r.
  - rewrite dict_get_set_ne by congruence. rewrite IH. now rewrite orb_false_r.
Qed.

End Submitted.

(** Collecting the results: every task has returned, and its table
    becomes a new object, in the order of the tasks. *)
Lemma map_py_collect (dt : Dict.t (Exc DataFrame)) (h : Heap) (dt' : Dict.t Entry)
    (h' : Heap) :
  map_py collect_result dt h = Return dt' h' ->
  adatas h' = adatas h
  /\ length dt' = length dt
  /\ exists dfs,
       frames h' = (frames h ++ dfs)%list
       /\ forall i g exc, dt !! i = Some (g, exc) ->
            exists df, exc = Ok df /\ dfs !! i = Some df
                       /\ dt' !! i = Some (g, Tbl (length (frames h) + i)).
Proof.
  revert h dt'. induction dt as [|[g0 exc0] dt IH]; intros h dt' Hrun.
  - injection Hrun as <- <-. repeat split; auto. exists []. split.
    + now rewrite app_nil_r.
    + intros i g exc Hi. destruct i; discriminate.
  - cbn [map_py] in Hrun.
    apply bind_Return in Hrun as (y & h1 & Hitem & Hrun).
    apply bind_Return in Hrun as (ys & h2 & Hrest & Hrun).
    injection Hrun as <- <-.
    unfold collect_result in Hitem. cbn [fst snd] in Hitem.
    apply bind_Return in Hitem as (df0 & h3 & Hdf & Hitem).
    apply lift_Return in Hdf as [Hdf ->].
    apply bind_Return in Hitem as (r & h4 & Hr & Hitem).
    apply new_frame_Return in Hr as (-> & Hf1 & Ha1).
    injection Hitem as Hy Hh. subst y h4.
    destruct (IH h1 ys Hrest) as (Ha & Hlen & dfs & Hf & Hall).
    split; [congruence|]. split; [simpl; congruence|].
    exists (df0 :: dfs). split.
    + rewrite Hf, Hf1, <- app_assoc. reflexivity.
    + intros [|i] g exc Hi; simpl in Hi.
      * injection Hi as <- <-. exists df0. repeat split; auto.
        simpl. now rewrite Nat.add_0_r.
      * destruct (Hall i g exc Hi) as (df & -> & Hdfs & Hdt').
        exists df. split; [reflexivity|]. split; [exact Hdfs|].
        change (ys !! i = Some (g, Tbl (length (frames h) + S i))).
        refine (eq_trans Hdt' _). rewrite Hf1, length_app. simpl. do 3 f_equal. lia.
Qed.

Lemma In_lookup_dict {V} (d : Dict.t V) (k : string) (v : V) :
  In (k, v) d -> exists i, d !! i = Some (k, v).
Proof.
  intros Hin. apply list_elem_of_In in Hin.
  now apply list_elem_of_lookup_1 in Hin.
Qed.

Lemma keys_of_lookup {V W} (d : list (string * V)) (d' : list (string * W)) :
  length d' = length d ->
  (forall i g v, d !! i = Some (g, v) -> exists w, d' !! i = Some (g, w)) ->
  map fst d' = map fst d.
Proof.
  revert d'. induction d as [|[g v] d IH]; intros [|[g' w'] d'] Hlen Hall;
    try discriminate; [reflexivity|].
  destruct (Hall 0%nat g v eq_refl) as (w & Hw). injection Hw as -> _.
  simpl. f_equal. apply IH; [simpl in Hlen; lia|].
  intros i g0 v0 Hi. exact (Hall (S i) g0 v0 Hi).
Qed.

Lemma vsRest_run_parallel_stores
    (wald : AnnData -> string -> string -> bool -> option string -> Exc DataFrame)
    (getPartialLayersAdata : AnnData -> string -> list (option string) -> Exc AnnData)
    (np_exp : Q -> Q) (expm : list (list Q) -> list (list Q))
    (np_sum : list Q -> Q)
    (hb : Heap) (t : nat) (org : AnnData)
    (layer testLabel : string) (groups : list string) (batchLabel : option string)
    (minCellCounts : Z) (sizeFactor : option string) (inputIsLog : bool)
    (keyAdded : string) (quickScale constrainModel : bool) (threads : Z)
    (copy : bool) (ret : option (Dict.t Entry)) (h : Heap) :
  adatas hb !! t = Some org ->
  (1 < threads)%Z ->
  vsRest_run wald getPartialLayersAdata np_exp expm np_sum t layer testLabel groups batchLabel
    minCellCounts sizeFactor inputIsLog keyAdded quickScale constrainModel threads copy hb
  = Return ret h ->
  exists w d,
    vsRest_working getPartialLayersAdata np_exp expm org layer testLabel groups
      batchLabel sizeFactor inputIsLog = Ok w
    /\ (n_obs w * n_vars w <> 0)%nat
    /\ mapping_at t keyAdded d h
    /\ ret = (if copy then Some d else None)
    /\ Dict.keys d = unique ("__cat" :: groups)
    /\ (forall g, In g groups ->
          exists df,
            getDiffxpy_worker wald np_sum (set_X (empty_csr (n_obs w, n_vars w)) w) testLabel g
              batchLabel minCellCounts quickScale sizeFactor constrainModel
              (Some (mrows (X w))) = Ok df
            /\ stored_table h d g = Some df)
    /\ refs_distinct d
    /\ (~ In "__cat" groups -> Dict.get "__cat" d = Some (Cat "vsRest")).
Proof.
  intros Ht Hthreads Hrun. unfold vsRest_run in Hrun.
  apply bind_Return in Hrun as (org' & h1 & Horg & Hrun).
  unfold get_adata in Horg. rewrite Ht in Horg. injection Horg as <- <-.
  apply bind_Return in Hrun as (w & h1 & Hw & Hrun). apply lift_Return in Hw as [Hw ->].
  apply bind_Return in Hrun as ([] & h1 & Hset & Hrun).
  apply uns_set_Return in Hset as [Hf1 Hm1].
  apply bind_Return in Hrun as ([] & h2 & Hpar & Hrun).
  destruct (Z.ltb_spec 1 threads) as [_|]; [|lia].
  cbv zeta in Hpar.
  apply bind_Return in Hpar as (mtx & h3 & Hshm & Hpar).
  apply lift_Return in Hshm as [Hshm ->].
  unfold shared_memory in Hshm. cbn [fst snd] in Hshm.
  destruct (Nat.eqb_spec (n_obs w * n_vars w) 0) as [|Hsize]; [discriminate|].
  injection Hshm as <-.
  set (worker := fun g =>
         getDiffxpy_worker wald np_sum (set_X (empty_csr (n_obs w, n_vars w)) w) testLabel g
           batchLabel minCellCounts quickScale sizeFactor constrainModel
           (Some (mrows (X w)))) in *.
  apply bind_Return in Hpar as (dt' & h3 & Hcol & Hpar).
  apply map_py_collect in Hcol as (Ha3 & Hlen & dfs & Hf3 & Hall).
  apply bind_Return in Hpar as (d0 & h4 & Hget & Hpar).
  apply uns_get_Return in Hget as [-> Hm0].
  assert (d0 = [("__cat", Cat "vsRest")]) as ->
    by (eapply mapping_at_functional; [exact Hm0|eapply mapping_at_adatas; eauto]).
  apply uns_set_Return in Hpar as [Hf2 Hm2].
  set (dt := submit_all wald np_sum (set_X (empty_csr (n_obs w, n_vars w)) w) (mrows (X w))
               testLabel groups batchLabel minCellCounts quickScale sizeFactor
               constrainModel) in *.
  assert (Hdtk : Dict.keys dt = unique groups) by apply (submitted_keys worker).
  assert (Hdtg : forall g, In g groups -> In (g, worker g) dt).
  { intros g Hg. apply dict_get_In. unfold dt, submit_all.
    rewrite (submitted_get worker). apply str_in_In in Hg. now rewrite Hg. }
  assert (Hpos : forall i g e, dt' !! i = Some (g, e) ->
            e = Tbl (length (frames h1) + i)
            /\ exists exc, dt !! i = Some (g, exc)).
  { intros i g e Hi.
    assert (Hlt : (i < length dt)%nat) by (rewrite <- Hlen; eapply lookup_lt_Some; eauto).
    destruct (lookup_lt_is_Some_2 dt i Hlt) as [[g1 exc] Hdi].
    destruct (Hall i g1 exc Hdi) as (df & _ & _ & Hi').
    assert (E : Some (g, e) = Some (g1, Tbl (length (frames h1) + i)))
      by (refine (eq_trans (eq_sym Hi) Hi')).
    injection E as -> ->. eauto. }
  assert (Hk' : Dict.keys dt' = Dict.keys dt).
  { apply keys_of_lookup; [exact Hlen|].
    intros i g exc Hdi. destruct (Hall i g exc Hdi) as (df & _ & _ & Hi'). eauto. }
  assert (Hwf' : Dict.wf dt')
    by (unfold Dict.wf; rewrite Hk', Hdtk; apply unique_NoDup).
  exists w, (Dict.update dt' [("__cat", Cat "vsRest")]).
  split; [exact Hw|]. split; [exact Hsize|].
  assert (Hfinal : mapping_at t keyAdded (Dict.update dt' [("__cat", Cat "vsRest")]) h
                   /\ frames h = frames h2
                   /\ ret = (if copy then Some (Dict.update dt' [("__cat", Cat "vsRest")])
                             else None)).
  { destruct copy.
    - apply bind_Return in Hrun as (d1 & h5 & Hget & Hrun).
      apply uns_get_Return in Hget as [-> Hm5]. injection Hrun as <- <-.
      split; [exact Hm2|]. split; [reflexivity|].
      f_equal. eapply mapping_at_functional; eauto.
    - injection Hrun as <- <-. auto. }
  destruct Hfinal as (Hm & Hfh & Hret).
  split; [exact Hm|]. split; [exact Hret|]. split; [|split; [|split]].
  - rewrite keys_update by (repeat constructor; simpl; tauto).
    cbn [Dict.keys map fst app]. rewrite Hk', Hdtk. apply unique_unique_cons.
  - intros g Hg. destruct (In_lookup_dict dt g (worker g) (Hdtg g Hg)) as (i & Hi).
    destruct (Hall i g (worker g) Hi) as (df & Hdf & Hdfs & Hi').
    exists df. split; [exact Hdf|].
    unfold stored_table. rewrite get_update_wf by exact Hwf'.
    rewrite (dict_In_get g (Tbl (length (frames h1) + i)) dt' Hwf').
    + rewrite Hfh, Hf2, Hf3. rewrite lookup_app_r by lia.
      replace (length (frames h1) + i - length (frames h1))%nat with i by lia.
      exact Hdfs.
    + apply list_elem_of_In. eapply list_elem_of_lookup_2. exact Hi'.
  - intros k1 k2 r H1 H2. rewrite get_update_wf in H1, H2 by exact Hwf'.
    destruct (Dict.get k1 dt') as [e1|] eqn:E1;
      [|simpl in H1; destruct (String.eqb k1 "__cat"); discriminate].
    destruct (Dict.get k2 dt') as [e2|] eqn:E2;
      [|simpl in H2; destruct (String.eqb k2 "__cat"); discriminate].
    injection H1 as ->. injection H2 as ->.
    apply dict_get_In, In_lookup_dict in E1 as (i1 & Hi1).
    apply dict_get_In, In_lookup_dict in E2 as (i2 & Hi2).
    destruct (Hpos i1 k1 _ Hi1) as ([= Hr1] & _).
    destruct (Hpos i2 k2 _ Hi2) as ([= Hr2] & _).
    assert (i1 = i2) by lia. subst i2.
    assert (E : Some (k1, Tbl r) = Some (k2, Tbl r))
      by (refine (eq_trans (eq_sym Hi1) Hi2)).
    now injection E.
  - intros Hno. rewrite get_update_wf by exact Hwf'.
    rewrite (dict_get_None "__cat" dt'); [reflexivity|].
    rewrite Hk', Hdtk, unique_In. exact Hno.
Qed.

(** A returning parallel [vsRest] (more than one thread) stores the same
    kind of mapping as the sequential path: the tag, then the listed
    groups in order of first appearance, each with the table its worker
    returned, no table stored twice.  Every worker gets the working
    collection with the matrix emptied, and the dense matrix through the
    shared buffer, which must not be of size zero. *)
Theorem vsRest_parallel_stores
    (wald : AnnData -> string -> string -> bool -> option string -> Exc DataFrame)
    (getPartialLayersAdata : AnnData -> string -> list (option string) -> Exc AnnData)
    (np_exp : Q -> Q) (expm : list (list Q) -> list (list Q))
    (np_sum : list Q -> Q)
    (h0 : Heap) (adata : nat) (ad : AnnData)
    (layer : option string) (testLabel : string)
    (groups : option (list string)) (batchLabel : option string)
    (minCellCounts : Z) (sizeFactor : option string) (inputIsLog : bool)
    (keyAdded : option string) (quickScale constrainModel : bool) (threads : Z)
    (copy : bool) (ret : option (Dict.t Entry)) (h : Heap) :
  adatas h0 !! adata = Some ad ->
  (1 < threads)%Z ->
  vsRest wald getPartialLayersAdata np_exp expm np_sum adata layer testLabel groups batchLabel
    minCellCounts sizeFactor inputIsLog keyAdded quickScale constrainModel threads copy h0
  = Return ret h ->
  exists G t u w d,
    resolve_groups adata testLabel groups h0 = Return G h0
    /\ vsRest_working getPartialLayersAdata np_exp expm (set_uns u ad)
         (default_layer layer) testLabel G batchLabel sizeFactor inputIsLog = Ok w
    /\ (n_obs w * n_vars w <> 0)%nat
    /\ mapping_at t (default_key "diffxpyVsRest_" testLabel keyAdded) d h
    /\ ret = (if copy then Some d else None)
    /\ (copy = false -> t = adata)
    /\ Dict.keys d = unique ("__cat" :: G)
    /\ (forall g, In g G ->
          exists df,
            getDiffxpy_worker wald np_sum (set_X (empty_csr (n_obs w, n_vars w)) w) testLabel g
              batchLabel minCellCounts quickScale sizeFactor constrainModel
              (Some (mrows (X w))) = Ok df
            /\ stored_table h d g = Some df)
    /\ refs_distinct d
    /\ (~ In "__cat" G -> Dict.get "__cat" d = Some (Cat "vsRest")).
Proof.
  intros Ha Hthreads Hrun. unfold vsRest in Hrun.
  apply (dispatch_prelude _ h0 adata ad testLabel groups copy ret h Ha) in Hrun
    as (G & t & hb & u & HG & Ht & Hnc & Hrun).
  destruct (vsRest_run_parallel_stores _ _ _ _ _ _ _ _ _ _ _ _ _ _ _ _ _ _ _ _ _ _
              Ht Hthreads Hrun)
    as (w & d & Hw & Hsize & Hm & Hret & Hkeys & Htab & Hdis & Htag).
  exists G, t, u, w, d.
  split; [exact HG|]. split; [exact Hw|]. split; [exact Hsize|].
  split; [exact Hm|]. split; [exact Hret|].
  split; [intros Hc; now destruct (Hnc Hc)|].
  auto.
Qed.

Lemma vsRest_parallel_stores_witness :
  let h := outcome_heap
             (vsRest Examples.toy_wald Examples.getPartialLayersAdata Examples.toy_exp
                Examples.toy_expm Examples.toy_sum 0 None "ct" None None 0 None false None true
                  false 4
                false (Examples.heap_of Examples.ad2)) in
  exists G t u w d,
    resolve_groups 0 "ct" None (Examples.heap_of Examples.ad2)
    = Return G (Examples.heap_of Examples.ad2)
    /\ vsRest_working Examples.getPartialLayersAdata Examples.toy_exp Examples.toy_expm
         (set_uns u Examples.ad2) (default_layer None) "ct" G None None false = Ok w
    /\ (n_obs w * n_vars w <> 0)%nat
    /\ mapping_at t (default_key "diffxpyVsRest_" "ct" None) d h
    /\ (None : option (Dict.t Entry)) = (if false then Some d else None)
    /\ (false = false -> t = 0%nat)
    /\ Dict.keys d = unique ("__cat" :: G)
    /\ (forall g, In g G ->
          exists df,
            getDiffxpy_worker Examples.toy_wald Examples.toy_sum
              (set_X (empty_csr (n_obs w, n_vars w)) w) "ct" g None 0 true None false
              (Some (mrows (X w))) = Ok df
            /\ stored_table h d g = Some df)
    /\ refs_distinct d
    /\ (~ In "__cat" G -> Dict.get "__cat" d = Some (Cat "vsRest")).
Proof.
  apply (vsRest_parallel_stores Examples.toy_wald Examples.getPartialLayersAdata
           Examples.toy_exp Examples.toy_expm Examples.toy_sum (Examples.heap_of Examples.ad2) 0
           Examples.ad2 None "ct" None None 0 None false None true false 4 false None).
  - reflexivity.
  - lia.
  - vm_compute. reflexivity.
Defined.

(** ** What a failing [vsRest] leaves behind *)

Lemma bind_Raise {A B} (m : Py A) (k : A -> Py B) (h : Heap) (e : Exn) (h' : Heap) :
  (m ≫= k) h = Raise e h' ->
  m h = Raise e h' \/ exists a h1, m h = Return a h1 /\ k a h1 = Raise e h'.
Proof.
  unfold mbind, py_bind. destruct (m h) as [a h1|e1 h1]; [eauto|].
  intros [= <- <-]. now left.
Qed.

Lemma lift_Raise {A} (m : Exc A) (h : Heap) (e : Exn) (h' : Heap) :
  lift m h = Raise e h' -> m = Err e /\ h' = h.
Proof. unfold lift. destruct m; intros [= <- <-] || intros [=]; auto. Qed.

Lemma for_each_Raise {A} (l : list A) (body : A -> Py unit) (h : Heap) (e : Exn)
    (h' : Heap) :
  for_each l body h = Raise e h' ->
  exists pre x suf h1,
    l = (pre ++ x :: suf)%list
    /\ for_each pre body h = Return tt h1
    /\ body x h1 = Raise e h'.
Proof.
  revert h. induction l as [|y l IH]; intros h Hrun; [discriminate|].
  cbn [for_each] in Hrun. apply bind_Raise in Hrun as [Hy|([] & h1 & Hy & Hrest)].
  - exists [], y, l, h. auto.
  - destruct (IH h1 Hrest) as (pre & x & suf & h2 & -> & Hpre & Hx).
    exists (y :: pre), x, suf, h2. repeat split; auto.
    cbn [for_each]. unfold mbind, py_bind. now rewrite Hy.
Qed.

Lemma uns_entry_set_no_raise (t : nat) (key k : string) (e : Entry) (d : Dict.t Entry)
    (h : Heap) (ex : Exn) (h' : Heap) :
  mapping_at t key d h -> uns_entry_set t key k e h <> Raise ex h'.
Proof.
  intros (ad & Ha & Hd). unfold uns_entry_set, uns_get, uns_set, get_adata, set_adata.
  unfold mbind, py_bind. rewrite Ha. unfold lift. rewrite Hd. cbn [of_option].
  rewrite Ha. discriminate.
Qed.

Lemma map_py_collect_Raise (dt : Dict.t (Exc DataFrame)) (h : Heap) (e : Exn)
    (h' : Heap) :
  map_py collect_result dt h = Raise e h' ->
  adatas h' = adatas h /\ exists g, In (g, Err e) dt.
Proof.
  revert h. induction dt as [|[g0 exc0] dt IH]; intros h Hrun; [discriminate|].
  cbn [map_py] in Hrun. apply bind_Raise in Hrun as [Hitem|(y & h1 & Hitem & Hrun)].
  - unfold collect_result in Hitem. cbn [fst snd] in Hitem.
    apply bind_Raise in Hitem as [Hdf|(df & h1 & Hdf & Hitem)].
    + apply lift_Raise in Hdf as [-> ->]. split; [reflexivity|].
      exists g0. now left.
    + apply bind_Raise in Hitem as [Hr|(r & h2 & Hr & Hitem)]; discriminate.
  - unfold collect_result in Hitem. cbn [fst snd] in Hitem.
    apply bind_Return in Hitem as (df & h2 & Hdf & Hitem).
    apply lift_Return in Hdf as [_ ->].
    apply bind_Return in Hitem as (r & h2 & Hr & Hitem).
    apply new_frame_Return in Hr as (_ & _ & Ha1).
    injection Hitem as _ Hh. subst h2.
    apply bind_Raise in Hrun as [Hrest|(ys & h3 & Hrest & Hrun)]; [|discriminate].
    destruct (IH h1 Hrest) as (Ha & g & Hg).
    split; [congruence|]. exists g. now right.
Qed.

Lemma vsRest_run_start
    (wald : AnnData -> string -> string -> bool -> option string -> Exc DataFrame)
    (getPartialLayersAdata : AnnData -> string -> list (option string) -> Exc AnnData)
    (np_exp : Q -> Q) (expm : list (list Q) -> list (list Q))
    (np_sum : list Q -> Q)
    (hb : Heap) (t : nat) (org w : AnnData)
    (layer testLabel : string) (groups : list string) (batchLabel : option string)
    (minCellCounts : Z) (sizeFactor : option string) (inputIsLog : bool)
    (keyAdded : string) (quickScale constrainModel : bool) (threads : Z)
    (copy : bool) (e : Exn) (h : Heap) :
  adatas hb !! t = Some org ->
  vsRest_working getPartialLayersAdata np_exp expm org layer testLabel groups
    batchLabel sizeFactor inputIsLog = Ok w ->
  vsRest_run wald getPartialLayersAdata np_exp expm np_sum t layer testLabel groups batchLabel
    minCellCounts sizeFactor inputIsLog keyAdded quickScale constrainModel threads copy hb
  = Raise e h ->
  exists h1,
    frames h1 = frames hb
    /\ mapping_at t keyAdded [("__cat", Cat "vsRest")] h1
    /\ (if (1 <? threads)%Z then
           let mtx := mrows (X w) in
           let shape := (n_obs w, n_vars w) in
           let adata := set_X (empty_csr shape) w in
           mtxInShm ← lift (shared_memory shape mtx);
           let dt_diffxpyResult :=
             submit_all wald np_sum adata mtxInShm testLabel groups batchLabel minCellCounts
               quickScale sizeFactor constrainModel in
           dt_diffxpyResult ← map_py collect_result dt_diffxpyResult;
           d ← uns_get t keyAdded;
           uns_set t keyAdded (Dict.update dt_diffxpyResult d)
         else
           let adata := set_X (densify (X w)) w in
           for_each groups (fun singleGroup =>
             test ← lift (vsRest_one wald adata testLabel singleGroup batchLabel
                            minCellCounts quickScale sizeFactor constrainModel);
             r ← new_frame test;
             uns_entry_set t keyAdded singleGroup (Tbl r))) h1 = Raise e h.
Proof.
  intros Ht Hw Hrun. unfold vsRest_run in Hrun.
  apply bind_Raise in Hrun as [Hg|(org' & h1 & Horg & Hrun)].
  { unfold get_adata in Hg. rewrite Ht in Hg. discriminate. }
  unfold get_adata in Horg. rewrite Ht in Horg. injection Horg as <- <-.
  apply bind_Raise in Hrun as [Hl|(w' & h1 & Hw' & Hrun)].
  { apply lift_Raise in Hl as [Hl _]. congruence. }
  apply lift_Return in Hw' as [Hw' ->].
  assert (w' = w) as -> by congruence.
  apply bind_Raise in Hrun as [Hs|([] & h1 & Hset & Hrun)].
  { unfold uns_set, get_adata, set_adata, mbind, py_bind in Hs. rewrite Ht in Hs.
    discriminate. }
  apply uns_set_Return in Hset as [Hf1 Hm1].
  exists h1. split; [exact Hf1|]. split; [exact Hm1|].
  apply bind_Raise in Hrun as [Hbody|([] & h2 & Hbody & Hrun)]; [exact Hbody|].
  exfalso. destruct copy; [|discriminate].
  apply bind_Raise in Hrun as [Hg|(d & h3 & Hg & Hrun)]; [|discriminate].
  assert (Hm2 : exists d2, mapping_at t keyAdded d2 h2).
  { destruct (1 <? threads)%Z.
    - cbv zeta in Hbody.
      apply bind_Return in Hbody as (mtx & h3 & _ & Hbody).
      apply bind_Return in Hbody as (dt' & h4 & _ & Hbody).
      apply bind_Return in Hbody as (d0 & h5 & _ & Hbody).
      apply uns_set_Return in Hbody as [_ Hm]. eauto.
    - destruct (for_each_prefix
                  (fun _ h => exists d2, mapping_at t keyAdded d2 h)
                  (fun singleGroup =>
                     test ← lift (vsRest_one wald (set_X (densify (X w)) w) testLabel
                                    singleGroup batchLabel minCellCounts quickScale
                                    sizeFactor constrainModel);
                     r ← new_frame test;
                     uns_entry_set t keyAdded singleGroup (Tbl r)) groups) with h1 h2
        as (d2 & Hd2); eauto.
      intros pre x suf ha hb' _ _ Hx.
      apply bind_Return in Hx as (test & h3 & _ & Hx).
      apply bind_Return in Hx as (r & h4 & _ & Hx).
      apply uns_entry_set_Return in Hx as (d0 & _ & _ & Hm'). eauto. }
  destruct Hm2 as (d2 & ad2 & Ha2 & Hd2).
  unfold uns_get, get_adata, mbind, py_bind in Hg. rewrite Ha2 in Hg.
  unfold lift in Hg. rewrite Hd2 in Hg. discriminate.
Qed.

(** A failing sequential [vsRest] is not undone: when the test of a
    listed group raises, the exception is that of the first such group,
    and the caller's collection keeps, under the result key, the tag and
    the tables of the groups tested before it. *)
Theorem vsRest_sequential_failure
    (wald : AnnData -> string -> string -> bool -> option string -> Exc DataFrame)
    (getPartialLayersAdata : AnnData -> string -> list (option string) -> Exc AnnData)
    (np_exp : Q -> Q) (expm : list (list Q) -> list (list Q))
    (np_sum : list Q -> Q)
    (h0 : Heap) (adata : nat) (ad w : AnnData)
    (layer : option string) (testLabel : string)
    (groups : option (list string)) (G : list string) (batchLabel : option string)
    (minCellCounts : Z) (sizeFactor : option string) (inputIsLog : bool)
    (keyAdded : option string) (quickScale constrainModel : bool) (threads : Z)
    (e : Exn) (h : Heap) :
  adatas h0 !! adata = Some ad ->
  (threads <= 1)%Z ->
  resolve_groups adata testLabel groups h0 = Return G h0 ->
  vsRest_working getPartialLayersAdata np_exp expm ad (default_layer layer) testLabel G
    batchLabel sizeFactor inputIsLog = Ok w ->
  vsRest wald getPartialLayersAdata np_exp expm np_sum adata layer testLabel groups batchLabel
    minCellCounts sizeFactor inputIsLog keyAdded quickScale constrainModel threads false h0
  = Raise e h ->
  let T := fun g => vsRest_one wald (set_X (densify (X w)) w) testLabel g batchLabel
                      minCellCounts quickScale sizeFactor constrainModel in
  exists pre g suf d,
    G = (pre ++ g :: suf)%list
    /\ T g = Err e
    /\ mapping_at adata (default_key "diffxpyVsRest_" testLabel keyAdded) d h
    /\ Dict.keys d = unique ("__cat" :: pre)
    /\ forall g', In g' pre -> exists df, T g' = Ok df /\ stored_table h d g' = Some df.
Proof.
  intros Ha Hthreads HG Hw Hrun T. unfold vsRest in Hrun.
  unfold mbind at 1, py_bind at 1 in Hrun. rewrite HG in Hrun.
  unfold mbind at 1, py_bind at 1 in Hrun. cbn [mret py_ret] in Hrun.
  destruct (vsRest_run_start _ _ _ _ _ _ _ _ _ _ _ _ _ _ _ _ _ _ _ _ _ _ _
              Ha Hw Hrun) as (h1 & Hf1 & Hm1 & Hbody).
  destruct (Z.ltb_spec 1 threads) as [|_]; [lia|]. cbv zeta in Hbody.
  apply for_each_Raise in Hbody as (pre & g & suf & h2 & -> & Hpre & Hg).
  set (key := default_key "diffxpyVsRest_" testLabel keyAdded) in *.
  assert (I0 : vsRest_inv T adata key [] h1).
  { exists [("__cat", Cat "vsRest")]. split; [|split; [|split]].
    - split; [exact Hm1|]. split.
      + intros k r [[=]|[]].
      + intros k1 k2 r H1 H2. simpl in H1.
        destruct (String.eqb k1 "__cat"); discriminate.
    - reflexivity.
    - intros g0 [].
    - reflexivity. }
  assert (I1 : vsRest_inv T adata key pre h2).
  { apply (for_each_prefix (vsRest_inv T adata key) _ pre
             (fun pre0 x suf0 => vsRest_step wald _ testLabel pre batchLabel
                minCellCounts quickScale sizeFactor constrainModel adata key
                pre0 suf0 x) h1 h2 I0 Hpre). }
  destruct I1 as (d & (Hm & _) & Hkeys & Htab & _).
  exists pre, g, suf, d. split; [reflexivity|].
  apply bind_Raise in Hg as [Ht|(test & h3 & Ht & Hg)].
  - apply lift_Raise in Ht as [Ht ->]. auto.
  - exfalso. apply lift_Return in Ht as [_ ->].
    apply bind_Raise in Hg as [Hr|(r & h3 & Hr & Hg)]; [discriminate|].
    apply new_frame_Return in Hr as (_ & _ & Ha3).
    apply (uns_entry_set_no_raise adata key g (Tbl r) d h3 e h); [|exact Hg].
    eapply mapping_at_adatas; eauto.
Qed.

Lemma vsRest_sequential_failure_witness :
  let h := outcome_heap
             (vsRest Examples.toy_wald Examples.getPartialLayersAdata Examples.toy_exp
                Examples.toy_expm Examples.toy_sum 0 None "ct" (Some ["A"; "C"; "B"]) None 1
                  None false
                None true false 1 false (Examples.heap_of Examples.ad2)) in
  let w := mkAnnData (Dense [[1; 0]; [0; 3]]%Q) [] [("ct", ["A"; "B"])] ["g1"; "g2"] [] in
  let T := fun g => vsRest_one Examples.toy_wald (set_X (densify (X w)) w) "ct" g None
                      1 true None false in
  exists pre g suf d,
    ["A"; "C"; "B"] = (pre ++ g :: suf)%list
    /\ T g = Err (AssertionError "More Than Two Samples found")
    /\ mapping_at 0 (default_key "diffxpyVsRest_" "ct" None) d h
    /\ Dict.keys d = unique ("__cat" :: pre)
    /\ forall g', In g' pre -> exists df, T g' = Ok df /\ stored_table h d g' = Some df.
Proof.
  apply (vsRest_sequential_failure Examples.toy_wald Examples.getPartialLayersAdata
           Examples.toy_exp Examples.toy_expm Examples.toy_sum (Examples.heap_of Examples.ad2) 0
           Examples.ad2 _ None "ct" (Some ["A"; "C"; "B"]) ["A"; "C"; "B"] None 1 None
           false None true false 1).
  - reflexivity.
  - lia.
  - reflexivity.
  - vm_compute. reflexivity.
  - vm_compute. reflexivity.
Defined.

Lemma uns_get_ok (t : nat) (key : string) (d : Dict.t Entry) (h : Heap) :
  mapping_at t key d h -> uns_get t key h = Return d h.
Proof.
  intros (ad & Ha & Hd). unfold uns_get, get_adata, mbind, py_bind.
  rewrite Ha. unfold lift. now rewrite Hd.
Qed.

(** On the parallel path the results are written only when every worker
    has returned: a failing call leaves, under the result key, the tag
    alone.  The exception is that of a worker, or the refusal of a shared
    buffer of size zero. *)
Theorem vsRest_parallel_failure
    (wald : AnnData -> string -> string -> bool -> option string -> Exc DataFrame)
    (getPartialLayersAdata : AnnData -> string -> list (option string) -> Exc AnnData)
    (np_exp : Q -> Q) (expm : list (list Q) -> list (list Q))
    (np_sum : list Q -> Q)
    (h0 : Heap) (adata : nat) (ad w : AnnData)
    (layer : option string) (testLabel : string)
    (groups : option (list string)) (G : list string) (batchLabel : option string)
    (minCellCounts : Z) (sizeFactor : option string) (inputIsLog : bool)
    (keyAdded : option string) (quickScale constrainModel : bool) (threads : Z)
    (e : Exn) (h : Heap) :
  adatas h0 !! adata = Some ad ->
  (1 < threads)%Z ->
  resolve_groups adata testLabel groups h0 = Return G h0 ->
  vsRest_working getPartialLayersAdata np_exp expm ad (default_layer layer) testLabel G
    batchLabel sizeFactor inputIsLog = Ok w ->
  vsRest wald getPartialLayersAdata np_exp expm np_sum adata layer testLabel groups batchLabel
    minCellCounts sizeFactor inputIsLog keyAdded quickScale constrainModel threads false h0
  = Raise e h ->
  mapping_at adata (default_key "diffxpyVsRest_" testLabel keyAdded)
    [("__cat", Cat "vsRest")] h
  /\ (((n_obs w * n_vars w = 0)%nat
       /\ e = ValueError "'size' must be a positive number different from zero")
      \/ exists g,
           In g G
           /\ getDiffxpy_worker wald np_sum (set_X (empty_csr (n_obs w, n_vars w)) w) testLabel
                g batchLabel minCellCounts quickScale sizeFactor constrainModel
                (Some (mrows (X w))) = Err e).
Proof.
  intros Ha Hthreads HG Hw Hrun. unfold vsRest in Hrun.
  unfold mbind at 1, py_bind at 1 in Hrun. rewrite HG in Hrun.
  unfold mbind at 1, py_bind at 1 in Hrun. cbn [mret py_ret] in Hrun.
  destruct (vsRest_run_start _ _ _ _ _ _ _ _ _ _ _ _ _ _ _ _ _ _ _ _ _ _ _
              Ha Hw Hrun) as (h1 & Hf1 & Hm1 & Hbody).
  destruct (Z.ltb_spec 1 threads) as [_|]; [|lia]. cbv zeta in Hbody.
  set (key := default_key "diffxpyVsRest_" testLabel keyAdded) in *.
  set (worker := fun g =>
         getDiffxpy_worker wald np_sum (set_X (empty_csr (n_obs w, n_vars w)) w) testLabel g
           batchLabel minCellCounts quickScale sizeFactor constrainModel
           (Some (mrows (X w)))) in *.
  apply bind_Raise in Hbody as [Hshm|(mtx & h2 & Hshm & Hbody)].
  - apply lift_Raise in Hshm as [Hshm ->]. split; [exact Hm1|]. left.
    unfold shared_memory in Hshm. cbn [fst snd] in Hshm.
    destruct (Nat.eqb_spec (n_obs w * n_vars w) 0) as [Hz|]; [|discriminate].
    injection Hshm as <-. auto.
  - apply lift_Return in Hshm as [Hshm ->].
    unfold shared_memory in Hshm. cbn [fst snd] in Hshm.
    destruct (Nat.eqb (n_obs w * n_vars w) 0); [discriminate|]. injection Hshm as <-.
    apply bind_Raise in Hbody as [Hcol|(dt' & h3 & Hcol & Hbody)].
    + apply map_py_collect_Raise in Hcol as (Hads & g & Hg).
      split; [eapply mapping_at_adatas; eauto|]. right. exists g.
      assert (Hwf : Dict.wf (submit_all wald np_sum (set_X (empty_csr (n_obs w, n_vars w)) w)
                               (mrows (X w)) testLabel G batchLabel minCellCounts
                               quickScale sizeFactor constrainModel))
        by (unfold Dict.wf, submit_all; rewrite (submitted_keys worker);
            apply unique_NoDup).
      apply (dict_In_get _ _ _ Hwf) in Hg. unfold submit_all in Hg.
      rewrite (submitted_get worker) in Hg.
      destruct (str_in g G) eqn:Hin; [|discriminate].
      apply str_in_In in Hin. injection Hg as Hg. auto.
    + exfalso. apply map_py_collect in Hcol as (Ha3 & _).
      assert (Hm3 : mapping_at adata key [("__cat", Cat "vsRest")] h3)
        by (eapply mapping_at_adatas; eauto).
      unfold mbind, py_bind in Hbody. rewrite (uns_get_ok _ _ _ _ Hm3) in Hbody.
      destruct Hm3 as (ad3 & Had3 & _).
      unfold uns_set, get_adata, set_adata, mbind, py_bind in Hbody.
      rewrite Had3 in Hbody. discriminate.
Qed.

Lemma vsRest_parallel_failure_witness :
  let h := outcome_heap
             (vsRest Examples.toy_wald Examples.getPartialLayersAdata Examples.toy_exp
                Examples.toy_expm Examples.toy_sum 0 None "ct" (Some ["A"; "C"; "B"]) None 1
                  None false
                None true false 4 false (Examples.heap_of Examples.ad2)) in
  let w := mkAnnData (Dense [[1; 0]; [0; 3]]%Q) [] [("ct", ["A"; "B"])] ["g1"; "g2"] [] in
  mapping_at 0 (default_key "diffxpyVsRest_" "ct" None) [("__cat", Cat "vsRest")] h
  /\ (((n_obs w * n_vars w = 0)%nat
       /\ AssertionError "More Than Two Samples found"
          = ValueError "'size' must be a positive number different from zero")
      \/ exists g,
           In g ["A"; "C"; "B"]
           /\ getDiffxpy_worker Examples.toy_wald Examples.toy_sum
                (set_X (empty_csr (n_obs w, n_vars w)) w) "ct" g None 1 true None false
                (Some (mrows (X w)))
              = Err (AssertionError "More Than Two Samples found")).
Proof.
  apply (vsRest_parallel_failure Examples.toy_wald Examples.getPartialLayersAdata
           Examples.toy_exp Examples.toy_expm Examples.toy_sum (Examples.heap_of Examples.ad2) 0
           Examples.ad2 _ None "ct" (Some ["A"; "C"; "B"]) ["A"; "C"; "B"] None 1 None
           false None true false 4).
  - reflexivity.
  - lia.
  - reflexivity.
  - vm_compute. reflexivity.
  - vm_compute. reflexivity.
Defined.

(** ** The keys of [pairWise], read back by [getMarker] *)

Lemma str_drop_app (u v : string) (n : nat) :
  str_drop (String.length u + n) (u +:+ v) = str_drop n v.
Proof. induction u as [|c u IH]; simpl; auto. Qed.

Lemma str_drop_length_app (u v : string) : str_drop (String.length u) (u +:+ v) = v.
Proof.
  rewrite <- (Nat.add_0_r (String.length u)), str_drop_app. now destruct v.
Qed.

Lemma str_take_app (u v : string) : str_take (String.length u) (u +:+ v) = u.
Proof. induction u as [|c u IH]; simpl; [now destruct v|]. now rewrite IH. Qed.

Lemma prefix_app_short (pat u v : string) :
  (String.length pat <= String.length u)%nat ->
  String.prefix pat (u +:+ v) = String.prefix pat u.
Proof.
  revert u. induction pat as [|c pat IH]; intros [|c' u] Hlen; simpl in *;
    try reflexivity; try lia.
  - now destruct v.
  - destruct (Ascii.ascii_dec c c'); [|reflexivity]. apply IH. lia.
Qed.

Lemma find_first_after (pat u v : string) :
  none_before pat (String.length u) (u +:+ v) ->
  String.prefix pat v = true ->
  find_first pat (u +:+ v) = Some (String.length u).
Proof.
  induction u as [|c u IH]; intros Hn Hp.
  - simpl. destruct v; simpl in *; now rewrite Hp.
  - change (String c u +:+ v) with (String c (u +:+ v)) in *.
    destruct Hn as [Hc Hn]. cbn [find_first String.length].
    rewrite Hc. now rewrite (IH Hn Hp).
Qed.

Lemma find_first_None_before (pat s : string) (n : nat) :
  find_first pat s = None -> none_before pat n s.
Proof.
  revert s. induction n as [|n IH]; intros s H; [exact I|].
  destruct s as [|c s]; cbn [find_first none_before] in *.
  - destruct (String.prefix pat ""); [discriminate|auto].
  - destruct (String.prefix pat (String c s)); [discriminate|]. split; [reflexivity|].
    apply IH. destruct (find_first pat s); [discriminate|reflexivity].
Qed.

Lemma none_before_app (pat u v w : string) (n : nat) :
  (n + String.length pat <= S (String.length u))%nat ->
  none_before pat n (u +:+ v) -> none_before pat n (u +:+ w).
Proof.
  revert u. induction n as [|n IH]; intros u Hlen H; [exact I|].
  destruct H as [Hp H]. split.
  - rewrite prefix_app_short in Hp |- * by lia. exact Hp.
  - destruct u as [|c u].
    + simpl in Hlen. assert (n = 0%nat) as -> by lia.
      change (EmptyString +:+ w) with w. now destruct w.
    + change (String c u +:+ v) with (String c (u +:+ v)) in H.
      change (String c u +:+ w) with (String c (u +:+ w)).
      apply IH; [simpl in Hlen; lia|exact H].
Qed.

Lemma find_last_app (pat u v : string) (k : nat) :
  find_last pat v = Some k -> find_last pat (u +:+ v) = Some (String.length u + k)%nat.
Proof.
  intros Hv. induction u as [|c u IH]; [exact Hv|].
  change (String c u +:+ v) with (String c (u +:+ v)).
  cbn [find_last String.length]. now rewrite IH.
Qed.

Lemma find_last_None (pat s : string) :
  find_last pat s = None <-> find_first pat s = None.
Proof.
  induction s as [|c s IH]; cbn [find_first find_last].
  - destruct (String.prefix pat ""); tauto.
  - destruct (find_last pat s) as [i|], (find_first pat s) as [j|];
      destruct (String.prefix pat (String c s)); simpl; split; intros H;
      try discriminate; try reflexivity.
    + destruct IH as [_ IH]. discriminate (IH eq_refl).
    + destruct IH as [IH _]. discriminate (IH eq_refl).
Qed.

Lemma str_app_assoc (u v w : string) : (u +:+ v) +:+ w = u +:+ (v +:+ w).
Proof.
  induction u as [|c u IH]; [reflexivity|].
  change (String c ((u +:+ v) +:+ w) = String c (u +:+ (v +:+ w))).
  now rewrite <- IH.
Qed.

Lemma str_app_nil (u : string) : u +:+ EmptyString = u.
Proof.
  induction u as [|c u IH]; [reflexivity|].
  change (String c (u +:+ EmptyString) = String c u). now rewrite IH.
Qed.

Lemma occurs_false (pat s : string) : occurs pat s = false <-> find_first pat s = None.
Proof. unfold occurs. destruct (find_first pat s); split; congruence. Qed.

Lemma prefix_app_self (pat s : string) : String.prefix pat (pat +:+ s) = true.
Proof.
  induction pat as [|c pat IH]; [now destruct s|].
  change (String c pat +:+ s) with (String c (pat +:+ s)). cbn [String.prefix].
  destruct (Ascii.ascii_dec c c); [exact IH|congruence].
Qed.

(** The separator is the leftmost [_bg_] of a key. *)
Lemma find_first_separator (a b : string) :
  occurs "_bg_" ("_" +:+ a +:+ "_bg") = false ->
  find_first "_bg_" (pair_key a b) = Some (5 + String.length a)%nat.
Proof.
  intros Hocc. apply occurs_false in Hocc.
  assert (H1 : find_first "_bg_" (("_" +:+ a) +:+ ("_bg_" +:+ b))
               = Some (String.length ("_" +:+ a))).
  { apply find_first_after; [|apply prefix_app_self].
    apply (find_first_None_before _ _ (String.length ("_" +:+ a))) in Hocc.
    rewrite <- (str_app_nil ("_" +:+ a +:+ "_bg")) in Hocc.
    replace (("_" +:+ a) +:+ ("_bg_" +:+ b))
      with (("_" +:+ a +:+ "_bg") +:+ ("_" +:+ b)).
    - eapply none_before_app; [|exact Hocc].
      rewrite !str_length_append. simpl. lia.
    - rewrite <- (str_app_assoc "_" a "_bg").
      rewrite (str_app_assoc ("_" +:+ a) "_bg" ("_" +:+ b)). reflexivity. }
  rewrite str_length_append in H1. cbn [String.length Nat.add] in H1.
  assert (H2 : forall x, find_first "_bg_" (pair_key a b)
                 = x -> x = option_map S (option_map S (option_map S (option_map S
                     (find_first "_bg_" (("_" +:+ a) +:+ ("_bg_" +:+ b))))))).
  { intros x <-. reflexivity. }
  rewrite (H2 _ eq_refl), H1. reflexivity.
Qed.

(** The separator is the last [_bg] of what follows the first character
    of the tested group's name. *)
Lemma find_last_separator (a' b : string) :
  occurs "_bg" ("_" +:+ b) = false ->
  find_last "_bg" (a' +:+ ("_bg_" +:+ b)) = Some (String.length a').
Proof.
  intros Hocc. apply occurs_false, find_last_None in Hocc.
  rewrite (find_last_app "_bg" a' ("_bg_" +:+ b) 0); [now rewrite Nat.add_0_r|].
  assert (H3 : find_last "_bg" ("bg_" +:+ b) = None).
  { change ("bg_" +:+ b) with ("b" +:+ ("g" +:+ ("_" +:+ b))).
    remember ("_" +:+ b) as t eqn:Et.
    cbv [String.append]. cbn [find_last]. rewrite Hocc. reflexivity. }
  assert (E : forall x, find_last "_bg" ("_bg_" +:+ b) = x ->
                x = match find_last "_bg" ("bg_" +:+ b) with
                    | Some i => Some (S i)
                    | None => if String.prefix "_bg" ("_bg" +:+ ("_" +:+ b))
                              then Some 0%nat else None
                    end).
  { intros x <-. reflexivity. }
  rewrite (E _ eq_refl), H3, prefix_app_self. reflexivity.
Qed.

(** The key of a pair is read back as the pair by the two patterns of
    [getMarker], provided both names are non-empty, no [_bg_] begins
    before the separator (in [_] followed by the tested name and [_bg])
    and no [_bg] begins after it (in [_] followed by the background
    name). *)
Theorem pair_key_round_trip (testGroup backgroundGroup : string) :
  testGroup <> "" ->
  backgroundGroup <> "" ->
  occurs "_bg_" ("_" +:+ testGroup +:+ "_bg") = false ->
  occurs "_bg" ("_" +:+ backgroundGroup) = false ->
  re_tested (pair_key testGroup backgroundGroup) = Ok testGroup
  /\ re_bg (pair_key testGroup backgroundGroup) = Ok backgroundGroup.
Proof.
  intros Ha Hb Hfirst Hlast. split.
  - unfold re_tested.
    assert (H0 : find_first "test_" (pair_key testGroup backgroundGroup) = Some 0%nat).
    { unfold pair_key. 
      assert (E : forall s, find_first "test_" ("test_" +:+ s) = Some 0%nat).
      { intros s. destruct s; reflexivity. }
      apply E. }
    rewrite H0.
    change (str_drop (0 + 5) (pair_key testGroup backgroundGroup))
      with (testGroup +:+ ("_bg_" +:+ backgroundGroup)).
    destruct testGroup as [|c a']; [congruence|].
    change (String c a' +:+ ("_bg_" +:+ backgroundGroup))
      with (String c (a' +:+ ("_bg_" +:+ backgroundGroup))).
    cbv iota. rewrite (find_last_separator a' backgroundGroup Hlast).
    now rewrite str_take_app.
  - unfold re_bg. rewrite (find_first_separator _ _ Hfirst).
    assert (Hk : pair_key testGroup backgroundGroup
                 = ("test_" +:+ testGroup +:+ "_bg_") +:+ backgroundGroup).
    { unfold pair_key.
      rewrite <- (str_app_assoc "test_" testGroup "_bg_").
      rewrite (str_app_assoc ("test_" +:+ testGroup) "_bg_" backgroundGroup).
      rewrite (str_app_assoc "test_" testGroup ("_bg_" +:+ backgroundGroup)).
      reflexivity. }
    rewrite Hk.
    replace (5 + String.length testGroup + 4)%nat
      with (String.length ("test_" +:+ testGroup +:+ "_bg_"))
      by (rewrite !str_length_append; simpl; lia).
    rewrite str_drop_length_app.
    destruct backgroundGroup; [congruence|reflexivity].
Qed.

Lemma pair_key_round_trip_witness :
  re_tested (pair_key "T_cell" "B_cell") = Ok "T_cell"
  /\ re_bg (pair_key "T_cell" "B_cell") = Ok "B_cell".
Proof.
  apply (pair_key_round_trip "T_cell" "B_cell").
  - discriminate.
  - discriminate.
  - reflexivity.
  - reflexivity.
Defined.

(** ** Which entries a returning dispatcher has written *)

Lemma has_table_set_eq (h : Heap) (d : Dict.t Entry) (k : string) (r : nat) :
  (r < length (frames h))%nat -> has_table h (Dict.set k (Tbl r) d) k.
Proof.
  intros Hr. destruct (lookup_lt_is_Some_2 (frames h) r Hr) as [df Hdf].
  exists df. now apply stored_table_set_eq.
Qed.

Lemma has_table_set_ne (h h' : Heap) (d : Dict.t Entry) (k k0 : string) (e : Entry) :
  k <> k0 ->
  (forall r, (r < length (frames h))%nat -> frames h' !! r = frames h !! r) ->
  has_table h d k0 -> has_table h' (Dict.set k e d) k0.
Proof.
  intros Hne Hkeep [df Hdf]. exists df. eapply stored_table_set_ne; eauto.
Qed.

(** Writing a table under a key keeps a table under every key that had
    one. *)
Lemma has_table_set (h h' : Heap) (d : Dict.t Entry) (k k0 : string) (r : nat) :
  (r < length (frames h'))%nat ->
  (forall r, (r < length (frames h))%nat -> frames h' !! r = frames h !! r) ->
  has_table h d k0 -> has_table h' (Dict.set k (Tbl r) d) k0.
Proof.
  intros Hr Hkeep Hk0. destruct (String.eqb_spec k k0) as [<-|Hne].
  - now apply has_table_set_eq.
  - now apply (has_table_set_ne h).
Qed.

(** Replacing the contents of a table object keeps every table. *)
Lemma has_table_set_frame (h h' : Heap) (d : Dict.t Entry) (k : string) (r : nat)
    (df : DataFrame) :
  frames h' = <[r := df]> (frames h) ->
  has_table h d k -> has_table h' d k.
Proof.
  intros Hf [df0 Hdf0]. unfold has_table, stored_table in *.
  destruct (Dict.get k d) as [[c|r0]|]; try discriminate.
  rewrite Hf. destruct (Nat.eq_dec r r0) as [->|Hne].
  - exists df. apply list_lookup_insert_eq. now apply lookup_lt_Some in Hdf0.
  - exists df0. now rewrite list_lookup_insert_ne.
Qed.

Section PairsPresent.

Variable wald : AnnData -> string -> string -> bool -> option string -> Exc DataFrame.
Variables (w : AnnData) (testLabel : string) (groups : list string).
Variables (batchLabel : option string) (minCellCounts : Z) (quickScale : bool).
Variables (sizeFactor : option string) (constrainModel : bool).
Variables (t : nat) (key : string).

Lemma compute_present (pre : list (nat * nat)) (xy : nat * nat) (h h' : Heap) :
  pairs_present groups t key lt pre h ->
  pairWise_compute wald t key w testLabel groups batchLabel minCellCounts quickScale
    sizeFactor constrainModel xy h = Return tt h' ->
  pairs_present groups t key lt (pre ++ [xy])%list h'.
Proof.
  intros (d & Hm & Hup) Hrun. destruct xy as [x y].
  unfold pairWise_compute in Hrun.
  destruct (y <=? x)%nat eqn:Hyx.
  - injection Hrun as <-. exists d. split; auto.
    intros x0 y0 Hin Hlt. apply in_app_or in Hin as [Hin|[[= <- <-]|[]]]; auto.
    apply Nat.leb_le in Hyx. lia.
  - apply bind_Return in Hrun as (gx & h1 & Hgx & Hrun). apply lift_Return in Hgx as [Hgx ->].
    apply bind_Return in Hrun as (gy & h1 & Hgy & Hrun). apply lift_Return in Hgy as [Hgy ->].
    apply bind_Return in Hrun as (test & h1 & Ht & Hrun). apply lift_Return in Ht as [Ht ->].
    apply bind_Return in Hrun as (r & h1 & Hr & Hrun).
    apply new_frame_Return in Hr as (-> & Hf1 & Ha1).
    apply uns_entry_set_Return in Hrun as (d0 & Hm0 & Hf' & Hm').
    assert (d0 = d) as ->
      by (eapply mapping_at_functional; [exact Hm0|eapply mapping_at_adatas; eauto]).
    assert (Hgx' : groups !! x = Some gx) by (destruct (groups !! x); simpl in Hgx; congruence).
    assert (Hgy' : groups !! y = Some gy) by (destruct (groups !! y); simpl in Hgy; congruence).
    assert (Hlen : (length (frames h) < length (frames h'))%nat)
      by (rewrite Hf', Hf1, length_app; simpl; lia).
    assert (Hkeep : forall r, (r < length (frames h))%nat -> frames h' !! r = frames h !! r)
      by (intros r Hr; rewrite Hf', Hf1; now apply lookup_app_l).
    exists (Dict.set (pair_key gx gy) (Tbl (length (frames h))) d). split; [exact Hm'|].
    intros x0 y0 Hin Hlt. apply in_app_or in Hin as [Hin|[[= <- <-]|[]]].
    + destruct (Hup x0 y0 Hin Hlt) as (g0 & g1 & H0 & H1 & Hs).
      exists g0, g1. split; [exact H0|]. split; [exact H1|].
      now apply (has_table_set h).
    + exists gx, gy. split; [exact Hgx'|]. split; [exact Hgy'|].
      now apply has_table_set_eq.
Qed.

Lemma mirror_present (pre : list (nat * nat)) (xy : nat * nat) (h h' : Heap) :
  pairs_present groups t key lt (product_range (length groups)) h
  /\ pairs_present groups t key gt pre h ->
  pairWise_mirror t key groups xy h = Return tt h' ->
  pairs_present groups t key lt (product_range (length groups)) h'
  /\ pairs_present groups t key gt (pre ++ [xy])%list h'.
Proof.
  intros [(d & Hm & Hup) (d' & Hm'0 & Hlow)] Hrun.
  assert (d' = d) as -> by (eapply mapping_at_functional; eauto). clear Hm'0.
  destruct xy as [x y]. unfold pairWise_mirror in Hrun.
  destruct (x <=? y)%nat eqn:Hxy.
  - injection Hrun as <-. split; exists d; (split; [exact Hm|]); auto.
    intros x0 y0 Hin Hlt. apply in_app_or in Hin as [Hin|[[= <- <-]|[]]]; auto.
    apply Nat.leb_le in Hxy. unfold gt in Hlt. lia.
  - apply bind_Return in Hrun as (gx & h1 & Hgx & Hrun). apply lift_Return in Hgx as [Hgx ->].
    apply bind_Return in Hrun as (gy & h1 & Hgy & Hrun). apply lift_Return in Hgy as [Hgy ->].
    assert (Hgx' : groups !! x = Some gx) by (destruct (groups !! x); simpl in Hgx; congruence).
    assert (Hgy' : groups !! y = Some gy) by (destruct (groups !! y); simpl in Hgy; congruence).
    clear Hgx Hgy.
    apply bind_Return in Hrun as (e & h1 & He & Hrun).
    apply uns_entry_get_Return in He as (-> & d0 & Hm0 & Hget).
    assert (d0 = d) as -> by (eapply mapping_at_functional; eauto).
    apply bind_Return in Hrun as (r & h1 & Hr & Hrun).
    apply entry_table_Return in Hr as (-> & ->).
    apply bind_Return in Hrun as (df & h1 & Hdf & Hrun).
    apply get_frame_Return in Hdf as (-> & Hdf).
    apply bind_Return in Hrun as (r' & h1 & Hr' & Hrun).
    apply new_frame_Return in Hr' as (-> & Hf1 & Ha1).
    apply bind_Return in Hrun as ([] & h2 & Hset & Hrun).
    apply uns_entry_set_Return in Hset as (d1 & Hm1 & Hf2 & Hm2).
    assert (d1 = d) as ->
      by (eapply mapping_at_functional; [exact Hm1|eapply mapping_at_adatas; eauto]).
    set (d2 := Dict.set (pair_key gx gy) (Tbl (length (frames h))) d) in *.
    apply bind_Return in Hrun as (e1 & h3 & He1 & Hrun).
    apply uns_entry_get_Return in He1 as (-> & _).
    apply bind_Return in Hrun as (r1 & h3 & Hr1 & Hrun).
    apply entry_table_Return in Hr1 as (-> & _).
    apply bind_Return in Hrun as (df1 & h3 & Hdf1 & Hrun).
    apply get_frame_Return in Hdf1 as (-> & _).
    apply bind_Return in Hrun as (e2 & h3 & He2 & Hrun).
    apply uns_entry_get_Return in He2 as (-> & _).
    apply bind_Return in Hrun as (r2 & h3 & Hr2 & Hrun).
    apply entry_table_Return in Hr2 as (-> & _).
    apply bind_Return in Hrun as (df2 & h3 & Hdf2 & Hrun).
    apply get_frame_Return in Hdf2 as (-> & _).
    apply set_frame_Return in Hrun as (Hf3 & Ha3).
    assert (Hm3 : mapping_at t key d2 h') by (eapply mapping_at_adatas; eauto).
    assert (Hlen : (length (frames h) < length (frames h2))%nat)
      by (rewrite Hf2, Hf1, length_app; simpl; lia).
    assert (Hkeep : forall r, (r < length (frames h))%nat -> frames h2 !! r = frames h !! r)
      by (intros r0 Hr0; rewrite Hf2, Hf1; now apply lookup_app_l).
    assert (Hall : forall k, has_table h d k -> has_table h' d2 k).
    { intros k Hk. apply (has_table_set_frame h2 h' d2 k _ _ Hf3).
      now apply (has_table_set h). }
    split; exists d2; (split; [exact Hm3|]).
    + intros x0 y0 Hin Hlt. destruct (Hup x0 y0 Hin Hlt) as (g0 & g1 & H0 & H1 & Hs).
      exists g0, g1. auto.
    + intros x0 y0 Hin Hlt. apply in_app_or in Hin as [Hin|[[= <- <-]|[]]].
      * destruct (Hlow x0 y0 Hin Hlt) as (g0 & g1 & H0 & H1 & Hs).
        exists g0, g1. auto.
      * exists gx, gy. split; [exact Hgx'|]. split; [exact Hgy'|].
        apply (has_table_set_frame h2 h' d2 _ _ _ Hf3).
        now apply has_table_set_eq.
Qed.

End PairsPresent.

(** A returning [pairWise] has written a table under the key of every
    two different positions of the group list. *)
Lemma pairWise_run_present
    (wald : AnnData -> string -> string -> bool -> option string -> Exc DataFrame)
    (getPartialLayersAdata : AnnData -> string -> list (option string) -> Exc AnnData)
    (np_exp : Q -> Q)
    (hb : Heap) (t : nat)
    (layer testLabel : string) (groups : list string) (batchLabel : option string)
    (minCellCounts : Z) (sizeFactor : option string) (inputIsLog : bool)
    (keyAdded : string) (quickScale constrainModel : bool)
    (copy : bool) (ret : option (Dict.t Entry)) (h : Heap) :
  pairWise_run wald getPartialLayersAdata np_exp t layer testLabel groups batchLabel
    minCellCounts sizeFactor inputIsLog keyAdded quickScale constrainModel copy hb
  = Return ret h ->
  exists d,
    mapping_at t keyAdded d h
    /\ ret = (if copy then Some d else None)
    /\ forall x y A B,
         x <> y -> groups !! x = Some A -> groups !! y = Some B ->
         has_table h d (pair_key A B).
Proof.
  intros Hrun. unfold pairWise_run in Hrun.
  apply bind_Return in Hrun as (org & h1 & _ & Hrun).
  apply bind_Return in Hrun as (w & h2 & _ & Hrun).
  apply bind_Return in Hrun as ([] & h3 & Hset & Hrun).
  apply uns_set_Return in Hset as [_ Hm3].
  apply bind_Return in Hrun as ([] & h4 & Hloop1 & Hrun).
  apply bind_Return in Hrun as ([] & h5 & Hloop2 & Hrun).
  assert (I1 : pairs_present groups t keyAdded lt (product_range (length groups)) h4).
  { apply (for_each_prefix (pairs_present groups t keyAdded lt) _ _
             (fun pre x suf h h' _ => compute_present wald w testLabel groups batchLabel
                minCellCounts quickScale sizeFactor constrainModel t keyAdded
                pre x h h') h3 h4); auto.
    exists [("__cat", Cat "pairWise")]. split; [exact Hm3|]. intros x y []. }
  assert (I2 : pairs_present groups t keyAdded lt (product_range (length groups)) h5
               /\ pairs_present groups t keyAdded gt (product_range (length groups)) h5).
  { apply (for_each_prefix
             (fun pre h =>
                pairs_present groups t keyAdded lt (product_range (length groups)) h
                /\ pairs_present groups t keyAdded gt pre h) _ _
             (fun pre x suf h h' _ => mirror_present groups t keyAdded pre x h h')
             h4 h5); auto.
    split; [exact I1|]. destruct I1 as (d & Hm & _). exists d. split; [exact Hm|].
    intros x y []. }
  destruct I2 as [(d & Hm & Hup) (d' & Hm' & Hlow)].
  assert (d' = d) as -> by (eapply mapping_at_functional; eauto).
  assert (Hd : mapping_at t keyAdded d h /\ ret = (if copy then Some d else None)).
  { destruct copy.
    - apply bind_Return in Hrun as (d0 & h6 & Hg & Hrun).
      apply uns_get_Return in Hg as (-> & Hm0). injection Hrun as <- <-.
      assert (d0 = d) as -> by (eapply mapping_at_functional; eauto). auto.
    - injection Hrun as <- <-. auto. }
  exists d. split; [apply Hd|]. split; [apply Hd|].
  assert (h = h5) as -> by (destruct copy;
    [apply bind_Return in Hrun as (d0 & h6 & Hg & Hrun);
     apply uns_get_Return in Hg as (-> & _); now injection Hrun
    |now injection Hrun]).
  intros x y A B Hxy HA HB.
  assert (Hx : (x < length groups)%nat) by (now apply lookup_lt_Some in HA).
  assert (Hy : (y < length groups)%nat) by (now apply lookup_lt_Some in HB).
  assert (Hin : In (x, y) (product_range (length groups)))
    by (apply In_product_range; auto).
  destruct (Nat.lt_ge_cases x y) as [Hlt|Hge].
  - destruct (Hup x y Hin Hlt) as (gx & gy & Hgx & Hgy & Ht).
    rewrite HA in Hgx. rewrite HB in Hgy. injection Hgx as <-. injection Hgy as <-.
    exact Ht.
  - assert (Hgt : (x > y)%nat) by lia.
    destruct (Hlow x y Hin Hgt) as (gx & gy & Hgx & Hgy & Ht).
    rewrite HA in Hgx. rewrite HB in Hgy. injection Hgx as <-. injection Hgy as <-.
    exact Ht.
Qed.

(** ** Empty group list *)

Lemma In_lookup_list {A} (x : A) (l : list A) : In x l -> exists i, l !! i = Some x.
Proof.
  induction l as [|y l IH]; intros []; [subst; now exists 0%nat|].
  destruct IH as [i Hi]; [assumption|]. now exists (S i).
Qed.

(** C7, as stated, fails: with [groups = []] the dispatchers test every
    group of the collection, and the result mapping is not empty. *)
Lemma C7_counterexample :
  (exists h',
     vsRest Examples.toy_wald Examples.getPartialLayersAdata Examples.toy_exp
       Examples.toy_expm Examples.toy_sum 0 None "ct" (Some []) None 1 None false None
       true false 1 true (Examples.heap_of Examples.ad2)
     = Return (Some [("__cat", Cat "vsRest"); ("A", Tbl 0); ("B", Tbl 1)]) h')
  /\ (exists h',
     pairWise Examples.toy_wald Examples.getPartialLayersAdata Examples.toy_exp
       0 None "ct" (Some []) None 1 None false None true false true
       (Examples.heap_of Examples.ad2)
     = Return (Some [("__cat", Cat "pairWise"); ("test_A_bg_B", Tbl 0);
                     ("test_B_bg_A", Tbl 1)]) h').
Proof. split; eexists; vm_compute; reflexivity. Qed.

(** C7 (amended): an explicitly empty group list is handled exactly like
    an absent one, by [vsRest] and by [pairWise]: the groups are then all
    distinct values of the group-label column, in order of first
    appearance.  Such a call may raise; when it returns, the result
    mapping holds, after the tag, one table per group of the collection
    ([vsRest], on either path), or a table under [test_A_bg_B] for every
    two different groups [A] and [B] of the collection ([pairWise]). *)
Theorem empty_groups_is_default
    (wald : AnnData -> string -> string -> bool -> option string -> Exc DataFrame)
    (getPartialLayersAdata : AnnData -> string -> list (option string) -> Exc AnnData)
    (np_exp : Q -> Q) (expm : list (list Q) -> list (list Q))
    (np_sum : list Q -> Q)
    (adata : nat) (layer : option string) (testLabel : string)
    (batchLabel : option string) (minCellCounts : Z) (sizeFactor : option string)
    (inputIsLog : bool) (keyAdded : option string) (quickScale constrainModel : bool)
    (threads : Z) (copy : bool) :
  let vs := fun groups =>
    vsRest wald getPartialLayersAdata np_exp expm np_sum adata layer testLabel groups
      batchLabel minCellCounts sizeFactor inputIsLog keyAdded quickScale constrainModel
      threads copy in
  let pw := fun groups =>
    pairWise wald getPartialLayersAdata np_exp adata layer testLabel groups
      batchLabel minCellCounts sizeFactor inputIsLog keyAdded quickScale
      constrainModel copy in
  vs (Some []) = vs None
  /\ pw (Some []) = pw None
  /\ forall h0 ad col,
       adatas h0 !! adata = Some ad -> obs_col testLabel ad = Ok col ->
       resolve_groups adata testLabel (Some []) h0 = Return (unique col) h0
       /\ (forall ret h, vs (Some []) h0 = Return ret h ->
             exists t d,
               mapping_at t (default_key "diffxpyVsRest_" testLabel keyAdded) d h
               /\ ret = (if copy then Some d else None)
               /\ (copy = false -> t = adata)
               /\ Dict.keys d = unique ("__cat" :: unique col)
               /\ forall g, In g col -> has_table h d g)
       /\ (forall ret h, pw (Some []) h0 = Return ret h ->
             exists t d,
               mapping_at t (default_key "diffxpyPairWise_" testLabel keyAdded) d h
               /\ ret = (if copy then Some d else None)
               /\ (copy = false -> t = adata)
               /\ forall A B, In A col -> In B col -> A <> B ->
                    has_table h d (pair_key A B)).
Proof.
  intros vs pw. split; [reflexivity|]. split; [reflexivity|].
  intros h0 ad col Ha Hcol.
  assert (HG : resolve_groups adata testLabel (Some []) h0 = Return (unique col) h0).
  { unfold resolve_groups, get_adata, mbind, py_bind.
    rewrite Ha. unfold lift. now rewrite Hcol. }
  split; [exact HG|]. split.
  - intros ret h Hrun. unfold vs, vsRest in Hrun.
    apply (dispatch_prelude _ h0 adata ad testLabel (Some []) copy ret h Ha) in Hrun
      as (G & t & hb & u & HG' & Ht & Hnc & Hrun).
    rewrite HG in HG'. injection HG' as <-.
    destruct (Z.le_gt_cases threads 1) as [Hthreads|Hthreads].
    + destruct (vsRest_run_stores _ _ _ _ _ _ _ _ _ _ _ _ _ _ _ _ _ _ _ _ _ _
                  Ht Hthreads Hrun)
        as (w & _ & Hret & d & (Hm & _) & Hkeys & Htab & _).
      exists t, d. split; [exact Hm|]. split.
      { rewrite Hret. destruct copy; [|reflexivity].
        destruct Hm as (adt & -> & Hd). exact Hd. }
      split; [intros Hc; now destruct (Hnc Hc)|]. split; [exact Hkeys|].
      intros g Hg. destruct (Htab g) as (df & _ & Hdf); [now apply unique_In|].
      now exists df.
    + destruct (vsRest_run_parallel_stores _ _ _ _ _ _ _ _ _ _ _ _ _ _ _ _ _ _ _ _ _ _
                  Ht Hthreads Hrun)
        as (w & d & _ & _ & Hm & Hret & Hkeys & Htab & _).
      exists t, d. split; [exact Hm|]. split; [exact Hret|].
      split; [intros Hc; now destruct (Hnc Hc)|]. split; [exact Hkeys|].
      intros g Hg. destruct (Htab g) as (df & _ & Hdf); [now apply unique_In|].
      now exists df.
  - intros ret h Hrun. unfold pw, pairWise in Hrun.
    apply (dispatch_prelude _ h0 adata ad testLabel (Some []) copy ret h Ha) in Hrun
      as (G & t & hb & u & HG' & Ht & Hnc & Hrun).
    rewrite HG in HG'. injection HG' as <-.
    destruct (pairWise_run_present _ _ _ _ _ _ _ _ _ _ _ _ _ _ _ _ _ _ Hrun)
      as (d & Hm & Hret & Hall).
    exists t, d. split; [exact Hm|]. split; [exact Hret|].
    split; [intros Hc; now destruct (Hnc Hc)|].
    intros A B HA HB Hne.
    destruct (In_lookup_list A (unique col)) as [x Hx]; [now apply unique_In|].
    destruct (In_lookup_list B (unique col)) as [y Hy]; [now apply unique_In|].
    apply (Hall x y A B); auto. intros ->. congruence.
Qed.

Lemma empty_groups_is_default_witness :
  let h := outcome_heap
             (vsRest Examples.toy_wald Examples.getPartialLayersAdata Examples.toy_exp
                Examples.toy_expm Examples.toy_sum 0 None "ct" (Some []) None 1 None
                false None true false 1 false (Examples.heap_of Examples.ad2)) in
  exists t d,
    mapping_at t (default_key "diffxpyVsRest_" "ct" None) d h
    /\ (None : option (Dict.t Entry)) = (if false then Some d else None)
    /\ (false = false -> t = 0%nat)
    /\ Dict.keys d = unique ("__cat" :: unique ["A"; "B"])
    /\ forall g, In g ["A"; "B"] -> has_table h d g.
Proof.
  apply (proj1 (proj2 (proj2 (proj2 (empty_groups_is_default Examples.toy_wald
           Examples.getPartialLayersAdata Examples.toy_exp Examples.toy_expm
           Examples.toy_sum 0 None "ct" None 1 None false None true false 1 false))
           (Examples.heap_of Examples.ad2) Examples.ad2 ["A"; "B"]
           eq_refl eq_refl))).
  vm_compute. reflexivity.
Defined.
